(* ===== verification/_CoqProject ===== *)
-Q . S2P
Prelude.v
Lists.v
Bytes.v
Float64.v
Text.v
Rounding.v
Externals.v
Block.v
Accounting.v
LocalRam.v
Residency.v
Config.v
Identity.v
Node.v
Gpu.v
Cluster.v
Scheduler.v
Metrics.v
Protocol.v
Transport.v
UdpWire.v
UdpIo.v
UdpSystem.v
UdpSender.v
Timeout.v
Delivery.v
UdpReader.v
Serve.v
Task.v
Runtime.v
UdpServer.v
Daemon.v
DataPlane.v
Migration.v
Discovery.v
Monitor.v
Control.v
Scenario.v
Chunks.v
HandOver.v
Connections.v
Invariant.v
Safety.v
Store.v
Launcher.v
Cli.v
