(* ===== verification/Prelude.v ===== *)
(** * TrainPool: verification of the Rust runtime

    TrainPool pools the RAM of the machines of a cluster: a daemon on each
    machine lends memory as blocks, a leader knows where every block lives,
    and the SDK of a training job allocates, writes, commits and reads blocks
    through its local daemon. This library models the daemon ([src/src/]), the
    launcher and the command line, and proves what makes them correct. This file holds what every other file uses:
    machine integers, results and errors, stateful computations, record
    update.

    ** Parts

    Values and libraries
    - [Lists], [Bytes], [Float64]: iterators, slices, ordered maps, big-endian
      integers and [f64] of the Rust standard library.
    - [Text]: [str::trim], the [FromStr] and [Display] of numbers and of
      addresses. [Rounding]: what operations on [f64] do to magnitudes.
    - [Externals]: the crates [blake3], [hmac], [hex], [uuid] as classes of
      operations with the laws they document, and cheap instances of them.

    One file per module of the source
    - [Accounting] ([memory/allocator.rs]): the counters of lent memory, as
      functions and ([Concurrent]) as single atomic operations interleaved.
    - [Block] ([memory/block.rs]), [LocalRam] ([memory/local_ram.rs]): handles,
      tensor metadata and the block store.
    - [Residency] ([memory/residency.rs]): the leader's table of blocks.
    - [Config] and [Identity] ([config/mod.rs]), [Node] ([node/]), [Gpu]
      ([node/gpu.rs], the table of [nvidia-smi]), [Cluster]
      ([cluster/membership.rs], [cluster/election.rs]), [Scheduler]
      ([scheduler/], [jobs/mod.rs]), [Metrics] ([metrics/mod.rs]).
    - [Protocol] ([protocol/mod.rs]) and [Transport] ([transport/mod.rs]): the
      messages, their frames and the handshake of a connection.
    - [Discovery] ([cluster/discovery.rs]): signed announcements.
    - [UdpWire], [UdpSender], [UdpReader] ([transport/udp.rs]), [UdpIo] and
      [UdpSystem] ([transport/udp_io.rs]): packets, the client of the UDP data
      plane, what the socket does to datagrams and how it is called.
      [Timeout] and [Delivery] are about the sender: its estimator of round
      trips, and that its transfers get through.
    - [Launcher] ([launcher/mod.rs], and [RuntimeHandle], [start_runtime],
      [daemon] of [runtime/mod.rs]): training commands and the runtime
      embedded for them. [Cli] ([cli/mod.rs]): what a parsed command does and
      prints.

    The daemon
    - [Task]: handlers as trees of atomic sections, schedules and executions.
    - [Runtime] ([runtime/mod.rs]): the state the handlers share.
    - [UdpServer] ([runtime/udp.rs]): the server of the UDP data plane.
    - [Serve] ([runtime/mod.rs], [serve]): the accept loop and its budgets.
    - [Daemon]: a runtime with its environment, and the views of the cluster.
    - [DataPlane] ([runtime/data.rs], [memory/remote_ram.rs]): TCP chunks.
    - [Migration] ([memory/migration.rs]): moving a block to another node.
    - [Monitor] ([runtime/monitor.rs]): heartbeats, losses, pressure, links.
    - [Control] ([runtime/control.rs], [connection], [status] and [new] of
      [runtime/mod.rs]): the control plane.

    Properties of the daemon as a whole
    - [Scenario]: one concrete node that the witnesses are evaluated on.
    - [Chunks], [HandOver], [Connections], [Invariant], [Safety].
    - [Store]: what a node's store promises, as an abstract machine.

    ** How the code is modelled

    Definitions keep the names of the source; a field of a record carries a
    short prefix where two types share its name. A [Uuid] is its value as an
    integer; a [u64] or [usize] is a [Z], and where the source can overflow
    its wrap-around is written ([+w], [-w], [wmul]) or its checked or
    saturating form is used. A [Result] has the exact message of the error; a
    slice out of range, a failed [expect] and the like are [Panic]. A function
    that changes state and may fail is an [SM]: the changes before an error
    stay.

    Time, randomness, the samples of the operating system and what arrives on
    sockets are explicit: fields of the state or functions of the number of
    the reading, about which the theorems assume nothing (but [Delivery], where
    the clock moves only while the sender waits). What other nodes
    answer is a script in the state ([d_replies], [d_streams], [d_sockets]),
    and [d_calls] records the calls made.

    An [async] handler is a [Task]. What it does under one lock, or without
    waiting, is one section; a lock taken while another is held belongs to the
    outer section; between two sections anything may run. A mutex of a block
    that is held across waits is in [locked], and whoever needs it waits; the
    value behind it is taken out and written back at the release, which nobody
    can tell apart as nobody else can look. An [Arc] of a block is a count, a
    reservation is an entry of a store ([rt_live]), and both end where Rust
    drops them, on every way out ([finally], [with_block]). The address of a
    block ([Ptr]) carries the parts of its handle that never change. A panic
    of a spawned task ends that task ([contained]).

    The launcher and the command line run alone: they are [SM] computations
    over what they hold and did ([ln_history]), and what surrounds them answers
    by what was done before ([Surroundings], [Terminal]). Several processes
    meet only in the file of their identity, whose system calls are the steps
    of [Identity.calls_step].

    The crates the repository calls are parameters with the laws they
    document: [Blake3Laws] (digests have 32 bytes, hashing in pieces is
    hashing the whole, the hexadecimal text determines the digest),
    [HmacLaws], [HexLaws], [UuidTextLaws], [UuidParseLaws], and for [serde_json] that a value
    is read back as it was written ([SerdeLaws], [JsonWireLaws], or
    [readable] for a single message).

    ** Theorems

    - The whole daemon ([Safety.daemon_safe]): from [new_runtime], under every
      schedule of its handlers, no loop panics, memory is accounted exactly,
      limits hold, and committed bytes have their digest. It rests on the
      invariant of [Invariant], which each section keeps, and on that of the
      UDP server ([UdpServer.udp_server_safe], [udp_writes_verified]).
    - Memory: [LocalRam.store_accounts_live_blocks] and the rules of freeing
      and expiry; [Accounting.Concurrent] for the lock-free counters;
      [Store.store_refines], the refinement of the abstract store.
    - Data: [UdpServer.reassembly], [batch_is_one_by_one],
      [UdpSender.send_payload_sound], [UdpReader.read_verified],
      [UdpWire.decode_iff_encode], [UdpSystem.receive_batch_exact],
      [Timeout.timeouts_in_range] and [Delivery.transfer_gets_through] for UDP;
      [Chunks.chunk_roundtrip] for TCP.
    - Migration: [HandOver.migrate_keeps_source], over all executions.
    - Authentication: [Transport.handshake_completes], [server_auth_sound],
      [Connections.connection_authenticated], [Discovery].
    - The cluster: [Cluster], [Residency.residency_never_regresses],
      [Scheduler.plan_spec], [rank_ram_spec], [Protocol.status_agrees_with_plan],
      [Gpu.table_read_back].
    - Processes: [Identity.node_id_agreement] for starts on one data directory,
      [Launcher.launch_cleans_up], [embeds_alone] and [launch_runs_command] for
      launches, [Cli.answers_understood] and [config_set_spec] for commands.
    - Termination: [UdpSender.send_payload_terminates],
      [UdpReader.read_terminates], [Connections.requests_terminate],
      [Chunks.probe_exact]; these also show that the fuel of a loop decides
      nothing.
    - Faults the model exhibits: [UdpServer.late_duplicate_refused],
      [Serve.malformed_datagram_stops_serve],
      [UdpSender.last_round_cannot_succeed], [Identity.node_id_torn_read],
      [Launcher.ipv6_loopback_missed], [Cli.environment_secret_saved].

    ** Fuel

    The loops of [UdpSender] and [UdpReader] get fuel from what the socket
    will still receive and the retries that are left; the loop of a connection
    one more than the bytes that arrive; the loops of a probe the number of
    their pieces. [out_of_fuel] is what they would return without fuel, a
    parameter, and the theorems on termination hold for all its values.

    ** Not modelled

    Deadlines of [tokio::time] around remote calls and connections, and the
    cancellation they cause: a call is answered with a value or an error. A
    write to a TCP stream does not fail. The tasks a cycle of the monitor
    starts (its exchanges and its report of pressure) are tasks of their own
    and not joined. System calls (binding sockets, multicast, options, files,
    processes and signals), [nvidia-smi] and the sensors of [sysinfo] appear as
    their results. The variant of [udp_io.rs] for systems other than Linux, the
    parsing of arguments by [clap], and [main] (logging) are left out. *)

From stdpp Require Export base gmap list strings numbers sorting pretty fin_maps.
From Stdlib Require Export ZArith Lia.

Declare Scope tp_scope.
Delimit Scope tp_scope with tp.
Open Scope Z_scope.
Open Scope tp_scope.

#[global] Set Default Goal Selector "!".

(** ** Identifiers and machine integers

    A [Uuid] is its 128-bit big-endian value, so the derived [Ord] of the
    [uuid] crate (lexicographic on the sixteen bytes) is the order of [Z].
    A [u64]/[usize] (64-bit targets) is a [Z] kept below [2^64] by the
    operations below: [wrap64] is the wrapping of the release profile. *)
Abbreviation Uuid := Z (only parsing).
Abbreviation u64 := Z (only parsing).

Definition U64_MAX : Z := 2 ^ 64 - 1.
Definition is_u64 (z : Z) : Prop := 0 <= z <= U64_MAX.
Definition is_uuid (z : Z) : Prop := 0 <= z < 2 ^ 128.
Definition wrap64 (z : Z) : Z := z mod 2 ^ 64.
Definition wadd (a b : Z) : Z := wrap64 (a + b).
Definition wsub (a b : Z) : Z := wrap64 (a - b).
Definition wmul (a b : Z) : Z := wrap64 (a * b).
Definition saturating_add (a b : Z) : Z := Z.min (a + b) U64_MAX.
Definition saturating_sub (a b : Z) : Z := Z.max 0 (a - b).
Definition saturating_mul (a b : Z) : Z := Z.min (a * b) U64_MAX.
Definition checked_add (a b : Z) : option Z :=
  if a + b <=? U64_MAX then Some (a + b) else None.
Definition checked_mul (a b : Z) : option Z :=
  if a * b <=? U64_MAX then Some (a * b) else None.
Definition checked_sub (a b : Z) : option Z :=
  if b <=? a then Some (a - b) else None.
Definition div_ceil (a b : Z) : Z := (a + b - 1) / b.

Notation "a +w b" := (wadd a b) (at level 50, left associativity) : tp_scope.
Notation "a -w b" := (wsub a b) (at level 50, left associativity) : tp_scope.

(** ** Network addresses ([std::net])

    An IPv4 address is its 32-bit value, an IPv6 address its 128-bit value. *)
Abbreviation Ipv4Addr := Z (only parsing).
Inductive IpAddr := V4 (a : Z) | V6 (a : Z).
#[export] Instance IpAddr_eq_dec : EqDecision IpAddr.
Proof. solve_decision. Defined.
#[export] Instance IpAddr_countable : Countable IpAddr.
Proof.
  refine (inj_countable' (λ a, match a with V4 z => inl z | V6 z => inr z end)
    (λ s, match s with inl z => V4 z | inr z => V6 z end) _). by intros [].
Defined.
Definition SocketAddr : Type := IpAddr * Z.
Definition ipv4 (a b c d : Z) : Ipv4Addr := ((a * 256 + b) * 256 + c) * 256 + d.
Definition is_unspecified (a : IpAddr) : bool := match a with V4 z | V6 z => z =? 0 end.

(** [(lo..=hi).contains(&x)] on integers. *)
Definition within (lo hi x : Z) : bool := (lo <=? x) && (x <=? hi).
Lemma within_true lo hi x : within lo hi x = true ↔ lo <= x <= hi.
Proof. unfold within. rewrite andb_true_iff, !Z.leb_le. done. Qed.

(** [Ipv4Addr::is_multicast]. *)
Definition ipv4_is_multicast (a : Ipv4Addr) : bool := within 224 239 (a / 2 ^ 24).

Lemma wrap64_small z : is_u64 z → wrap64 z = z.
Proof. unfold is_u64, U64_MAX, wrap64. intros. apply Z.mod_small. lia. Qed.

Lemma wrap64_is_u64 z : is_u64 (wrap64 z).
Proof.
  unfold is_u64, U64_MAX, wrap64.
  pose proof (Z.mod_pos_bound z (2 ^ 64)). lia.
Qed.

Lemma wadd_small a b : is_u64 (a + b) → a +w b = a + b.
Proof. apply wrap64_small. Qed.

Lemma wsub_small a b : is_u64 (a - b) → a -w b = a - b.
Proof. apply wrap64_small. Qed.

Lemma wadd_is_u64 a b : is_u64 (a +w b).
Proof. apply wrap64_is_u64. Qed.

Lemma checked_add_Some a b c : checked_add a b = Some c ↔ c = a + b ∧ a + b <= U64_MAX.
Proof. unfold checked_add. case_match; split; intros; naive_solver lia. Qed.

Lemma checked_sub_Some a b c : checked_sub a b = Some c ↔ c = a - b ∧ b <= a.
Proof. unfold checked_sub. case_match; split; intros; naive_solver lia. Qed.

Lemma div_ceil_spec a b k :
  0 < b → 0 <= a → k = div_ceil a b ↔ (k - 1) * b < a <= k * b.
Proof.
  intros Hb Ha. unfold div_ceil.
  pose proof (Z.div_mod (a + b - 1) b ltac:(lia)) as Hd.
  pose proof (Z.mod_pos_bound (a + b - 1) b ltac:(lia)) as Hm.
  split; [intros ->; nia|intros [H1 H2]].
  apply Z.le_antisymm.
  - apply Z.div_le_lower_bound; nia.
  - apply Z.lt_succ_r, Z.div_lt_upper_bound; nia.
Qed.

Lemma div_ceil_pos a b : 0 < b → 0 < a → 0 < div_ceil a b.
Proof. intros. pose proof (proj1 (div_ceil_spec a b _ ltac:(lia) ltac:(lia)) eq_refl). nia. Qed.

(** ** Results

    [anyhow::Result] with the message of the error as Rust prints it
    ([Error::to_string]); [Panic] is a Rust panic (a slice index out of
    range, [unwrap] or [expect] on the wrong variant). *)
Inductive Result (A : Type) : Type :=
| Ok (a : A)
| Err (message : string)
| Panic.
Arguments Ok {A} a.
Arguments Err {A} message.
Arguments Panic {A}.

#[export] Instance Result_eq_dec {A} `{EqDecision A} : EqDecision (Result A).
Proof. solve_decision. Defined.

#[export] Instance Result_ret : MRet Result := λ A a, Ok a.
#[export] Instance Result_bind : MBind Result := λ A B f r,
  match r with Ok a => f a | Err e => Err e | Panic => Panic end.
#[export] Instance Result_fmap : FMap Result := λ A B f r,
  match r with Ok a => Ok (f a) | Err e => Err e | Panic => Panic end.

Definition bail {A} (message : string) : Result A := Err message.
(** [ensure!(b, message)]. *)
Definition ensure (b : bool) (message : string) : Result unit :=
  if b then Ok () else Err message.
(** [option.ok_or_else(message)]. *)
Definition ok_or {A} (o : option A) (message : string) : Result A :=
  match o with Some a => Ok a | None => Err message end.
(** [option.unwrap()] / [expect]. *)
Definition unwrap {A} (o : option A) : Result A :=
  match o with Some a => Ok a | None => Panic end.
Definition is_ok {A} (r : Result A) : bool := match r with Ok _ => true | _ => false end.
Definition no_panic {A} (r : Result A) : Prop :=
  match r with Panic => False | _ => True end.

Lemma bind_Ok {A B} (r : Result A) (f : A → Result B) b :
  (r ≫= f) = Ok b ↔ ∃ a, r = Ok a ∧ f a = Ok b.
Proof. destruct r; cbn; naive_solver. Qed.

Lemma ensure_Ok b m u : ensure b m = Ok u ↔ b = true.
Proof. destruct b, u; cbn; naive_solver. Qed.

Lemma ensure_then {A} b m (k : Result A) a :
  (ensure b m;; k) = Ok a ↔ b = true ∧ k = Ok a.
Proof. destruct b; cbn; naive_solver. Qed.

Lemma ensure_no_panic {A} b m (k : Result A) : no_panic k → no_panic (ensure b m;; k).
Proof. by destruct b. Qed.

Lemma ok_or_Ok {A} (o : option A) m a : ok_or o m = Ok a ↔ o = Some a.
Proof. destruct o; cbn; naive_solver. Qed.

Lemma unwrap_Ok {A} (o : option A) a : unwrap o = Ok a ↔ o = Some a.
Proof. destruct o; cbn; naive_solver. Qed.

(** [inv_ok H] turns [H : c = Ok v], with [c] a chain of binds, into the
    facts that each step succeeded. *)
Ltac inv_ok1 H :=
  match type of H with
  | (_ ≫= _) = Ok _ =>
      let a := fresh "a" in let E := fresh "E" in
      apply bind_Ok in H as (a & E & H); inv_ok1 E; cbv beta in H; inv_ok1 H
  | ensure _ _ = Ok _ => apply ensure_Ok in H
  | ok_or _ _ = Ok _ => apply ok_or_Ok in H
  | unwrap _ = Ok _ => apply unwrap_Ok in H
  | _ => idtac
  end.
Ltac inv_ok H := inv_ok1 H; simplify_eq/=.

(** [bool_solve]: from the booleans of the guards to propositions. *)
Ltac bprop :=
  repeat match goal with
  | H : (_ && _)%bool = true |- _ => apply andb_true_iff in H as [? ?]
  | H : (_ || _)%bool = false |- _ => apply orb_false_iff in H as [? ?]
  | H : negb _ = true |- _ => apply negb_true_iff in H
  | H : negb _ = false |- _ => apply negb_false_iff in H
  | H : bool_decide _ = true |- _ => apply bool_decide_eq_true in H
  | H : bool_decide _ = false |- _ => apply bool_decide_eq_false in H
  | H : (_ <=? _) = true |- _ => apply Z.leb_le in H
  | H : (_ <=? _) = false |- _ => apply Z.leb_gt in H
  | H : (_ <? _) = true |- _ => apply Z.ltb_lt in H
  | H : (_ <? _) = false |- _ => apply Z.ltb_ge in H
  | H : (_ =? _) = true |- _ => apply Z.eqb_eq in H
  | H : (_ =? _) = false |- _ => apply Z.eqb_neq in H
  end.

(** An equation between closed terms, by evaluation of both sides (the types
    in it, which may hold function-valued instances, stay as they are). *)
Ltac vm_refl := match goal with |- ?a = _ => vm_cast_no_check (@eq_refl _ a) end.

(** ** Stateful fallible code

    [SM S A]: a computation over a state [S]. The state reached before an
    early return is kept: an [Err] or a [Panic] does not roll it back. *)
Definition SM (S A : Type) : Type := S → S * Result A.

#[export] Instance SM_ret S : MRet (SM S) := λ A a s, (s, Ok a).
#[export] Instance SM_bind S : MBind (SM S) := λ A B f m s,
  match m s with
  | (s', Ok a) => f a s'
  | (s', Err e) => (s', Err e)
  | (s', Panic) => (s', Panic)
  end.

Definition lift {S A} (r : Result A) : SM S A := λ s, (s, r).
Definition gets {S A} (f : S → A) : SM S A := λ s, (s, Ok (f s)).
Definition act {S A} (f : S → S * Result A) : SM S A := f.
Definition modify {S} (f : S → S) : SM S unit := λ s, (f s, Ok ()).
Definition ensureM {S} (b : bool) (message : string) : SM S unit := lift (ensure b message).
Definition bailM {S A} (message : string) : SM S A := lift (bail message).
Definition whenM {S} (b : bool) (m : SM S unit) : SM S unit := if b then m else mret ().

(** [preserves I m]: every run of [m] from a state of [I], whatever its
    outcome, ends in a state of [I]. *)
Definition preserves {S A} (I : S → Prop) (m : SM S A) : Prop := ∀ s, I s → I (m s).1.
(** [panic_free I m]: no run of [m] from a state of [I] panics. *)
Definition panic_free {S A} (I : S → Prop) (m : SM S A) : Prop := ∀ s, I s → no_panic (m s).2.

Lemma preserves_ret {S A} (I : S → Prop) (a : A) : preserves I (mret a).
Proof. by intros s. Qed.
Lemma preserves_lift {S A} (I : S → Prop) (r : Result A) : preserves I (lift r).
Proof. by intros s. Qed.
Lemma preserves_gets {S A} (I : S → Prop) (f : S → A) : preserves I (gets f).
Proof. by intros s. Qed.
Lemma preserves_modify {S} (I : S → Prop) f : (∀ s, I s → I (f s)) → preserves I (modify f).
Proof. by intros H s; apply H. Qed.
Lemma preserves_bind {S A B} (I : S → Prop) (m : SM S A) (f : A → SM S B) :
  preserves I m → (∀ a, preserves I (f a)) → preserves I (m ≫= f).
Proof.
  intros Hm Hf s Hs. unfold mbind, SM_bind. specialize (Hm s Hs).
  destruct (m s) as [s' [a|e|]]; try done. by apply Hf.
Qed.
Lemma preserves_when {S} (I : S → Prop) b (m : SM S unit) :
  preserves I m → preserves I (whenM b m).
Proof. destruct b; [done|]. intros _. apply preserves_ret. Qed.

(** [yields I m Q]: a run of [m] from a state of [I] ends in a state of [I],
    and the value it returns, if it returns one, satisfies [Q]. *)
Definition yields {S A} (I : S → Prop) (m : SM S A) (Q : A → Prop) : Prop :=
  ∀ s, I s → I (m s).1 ∧ ∀ a, (m s).2 = Ok a → Q a.

Lemma yields_preserves {S A} (I : S → Prop) (m : SM S A) Q : yields I m Q → preserves I m.
Proof. intros H s Hs. apply (H s Hs). Qed.
Lemma preserves_yields {S A} (I : S → Prop) (m : SM S A) : preserves I m → yields I m (λ _, True).
Proof. intros H s Hs. split; [by apply H|done]. Qed.
Lemma yields_mono {S A} (I : S → Prop) (m : SM S A) (Q Q' : A → Prop) :
  yields I m Q → (∀ a, Q a → Q' a) → yields I m Q'.
Proof. intros H HQ s Hs. destruct (H s Hs) as [H1 H2]. split; [done|]. intros a Ha. by apply HQ, H2. Qed.
Lemma yields_bind {S A B} (I : S → Prop) (m : SM S A) (f : A → SM S B) Q Q' :
  yields I m Q → (∀ a, Q a → yields I (f a) Q') → yields I (m ≫= f) Q'.
Proof.
  intros Hm Hf s Hs. unfold mbind, SM_bind. destruct (Hm s Hs) as [Hs' Ha].
  destruct (m s) as [s' [a|e|]]; try done. apply Hf; [by apply Ha|done].
Qed.
Lemma yields_lift {S A} (I : S → Prop) (r : Result A) Q : (∀ a, r = Ok a → Q a) → yields I (lift r) Q.
Proof. by intros H s Hs. Qed.
Lemma yields_ret {S A} (I : S → Prop) (a : A) (Q : A → Prop) : Q a → yields I (mret a) Q.
Proof. intros H s Hs. split; [done|]. by intros ? [= <-]. Qed.
Lemma yields_gets {S A} (I : S → Prop) (f : S → A) (Q : A → Prop) :
  (∀ s, I s → Q (f s)) → yields I (gets f) Q.
Proof. intros H s Hs. split; [done|]. intros ? [= <-]. by apply H. Qed.

Lemma preserves_run {S A} (I : S → Prop) (m : SM S A) s s' x :
  preserves I m → I s → m s = (s', x) → I s'.
Proof. intros H Hs E. specialize (H s Hs). by rewrite E in H. Qed.
(** A run that returns is a run of each step. *)
Lemma sm_bind_Ok {S A B} (m : SM S A) (f : A → SM S B) s s' b :
  (m ≫= f) s = (s', Ok b) ↔ ∃ a s1, m s = (s1, Ok a) ∧ f a s1 = (s', Ok b).
Proof. unfold mbind, SM_bind. destruct (m s) as [s1 [a|e|]]; naive_solver. Qed.

Lemma sm_bind_ext {S A B} (m m' : SM S A) (f g : A → SM S B) s :
  m s = m' s → (∀ a s', m s = (s', Ok a) → f a s' = g a s') → (m ≫= f) s = (m' ≫= g) s.
Proof. unfold mbind, SM_bind. intros <-. destruct (m s) as [s' [a|e|]]; auto. Qed.

Create HintDb sm.
#[export] Hint Resolve preserves_ret preserves_lift preserves_gets preserves_modify
  preserves_bind preserves_when : sm.

(** From a computation that preserves an invariant to its steps. *)
Ltac sm_walk :=
  repeat (intros; lazymatch goal with
  | |- preserves _ (_ ≫= _) => apply preserves_bind
  | |- preserves _ (mret _) => apply preserves_ret
  | |- preserves _ (lift _) => apply preserves_lift
  | |- preserves _ (gets _) => apply preserves_gets
  | |- preserves _ (ensureM _ _) => apply preserves_lift
  | |- preserves _ (bailM _) => apply preserves_lift
  | |- preserves _ (whenM _ _) => apply preserves_when
  | |- preserves _ (match ?x with _ => _ end) => destruct x
  | |- preserves _ (let x := _ in _) => cbv zeta
  end); intros.

(** ** Record update

    [set f g r] is the record [r] with [g] applied to its field [f], and
    [r <| f := v |>] replaces the field. A record type declares its
    eta-expansion once ([Eta]); the setters are derived from it. *)
Class Eta (T : Type) := eta : T → T.
Class Setter {T A : Type} (f : T → A) := set : (A → A) → T → T.
Arguments set {T A} f {_} g r.

Ltac derive_setter f :=
  match type of f with
  | ?T → _ =>
      let g := fresh "g" in let r := fresh "r" in
      intros g r;
      let e := eval hnf in (eta (T := T)) in
      let body := eval cbv beta in (e r) in
      match eval pattern (f r) in body with
      | ?h _ => let t := eval cbv beta in (h (g (f r))) in exact t
      end
  end.
#[export] Hint Extern 0 (Setter ?f) => unfold Setter; derive_setter f : typeclass_instances.

Notation "r <| f := v |>" := (set f (λ _, v) r)
  (at level 1, f at next level, left associativity) : tp_scope.
Notation "r <| f ::= g |>" := (set f g r)
  (at level 1, f at next level, left associativity) : tp_scope.
