(* ===== verification/Lists.v ===== *)
(** * Iterator and slice operations of the Rust standard library

    [sort_by], [min_by], [max_by_key], slices of a [Vec] and the ordered
    iteration of a [BTreeMap], with the facts their clients use. *)

From S2P Require Import Prelude.

(** ** Comparators *)

(** [a.cmp(b).then(c)]. *)
Definition then_ (c d : comparison) : comparison := match c with Eq => d | _ => c end.
Definition cmp_le {A} (cmp : A → A → comparison) (x y : A) : Prop := cmp x y ≠ Gt.

(** The contract of an argument of [sort_by]: a total preorder. *)
Class CmpOrder {A} (cmp : A → A → comparison) : Prop := {
  cmp_opp : ∀ x y, cmp y x = CompOpp (cmp x y);
  cmp_trans : ∀ x y z c, cmp x y = c → cmp y z = c → cmp x z = c;
}.
Arguments cmp_opp {A} cmp {_} x y.
Arguments cmp_trans {A} cmp {_} x y z c.
#[export] Hint Mode CmpOrder - ! : typeclass_instances.

Lemma cmp_refl {A} (cmp : A → A → comparison) `{!CmpOrder cmp} x : cmp x x = Eq.
Proof. pose proof (cmp_opp cmp x x) as H. by destruct (cmp x x). Qed.

Lemma cmp_eq_l {A} (cmp : A → A → comparison) `{!CmpOrder cmp} x y z :
  cmp x y = Eq → cmp x z = cmp y z.
Proof.
  intros Hxy. assert (cmp y x = Eq) as Hyx by (by rewrite (cmp_opp cmp x y), Hxy).
  destruct (cmp y z) eqn:Hyz, (cmp x z) eqn:Hxz; try done; exfalso.
  - pose proof (cmp_trans cmp x y z Eq Hxy Hyz). congruence.
  - pose proof (cmp_trans cmp x y z Eq Hxy Hyz). congruence.
  - pose proof (cmp_trans cmp y x z Eq Hyx Hxz). congruence.
  - assert (cmp z x = Lt) as Hzx by (by rewrite (cmp_opp cmp x z), Hxz).
    pose proof (cmp_trans cmp y z x Lt Hyz Hzx). congruence.
  - pose proof (cmp_trans cmp y x z Eq Hyx Hxz). congruence.
  - assert (cmp z x = Gt) as Hzx by (by rewrite (cmp_opp cmp x z), Hxz).
    pose proof (cmp_trans cmp y z x Gt Hyz Hzx). congruence.
Qed.

Lemma cmp_eq_r {A} (cmp : A → A → comparison) `{!CmpOrder cmp} x y z :
  cmp y z = Eq → cmp x z = cmp x y.
Proof.
  intros H. rewrite (cmp_opp cmp z x), (cmp_opp cmp y x). f_equal. symmetry. by apply cmp_eq_l.
Qed.

Lemma cmp_le_trans {A} (cmp : A → A → comparison) `{!CmpOrder cmp} x y z :
  cmp_le cmp x y → cmp_le cmp y z → cmp_le cmp x z.
Proof.
  unfold cmp_le. intros Hxy Hyz.
  destruct (cmp x y) eqn:E1; [by erewrite cmp_eq_l| |done].
  destruct (cmp y z) eqn:E2; [| |done].
  - by rewrite (cmp_eq_r _ _ _ _ E2), E1.
  - by rewrite (cmp_trans cmp x y z Lt).
Qed.

Lemma cmp_le_total {A} (cmp : A → A → comparison) `{!CmpOrder cmp} x y :
  cmp_le cmp x y ∨ cmp_le cmp y x.
Proof. unfold cmp_le. rewrite (cmp_opp cmp x y). destruct (cmp x y); naive_solver. Qed.

(** Comparing through a key, in reverse, and lexicographically. *)
Definition on {A B} (f : A → B) (cmp : B → B → comparison) (x y : A) : comparison :=
  cmp (f x) (f y).
Definition rev_cmp {A} (cmp : A → A → comparison) (x y : A) : comparison := cmp y x.
Definition lex {A} (c d : A → A → comparison) (x y : A) : comparison := then_ (c x y) (d x y).

#[export] Instance Zcompare_order : CmpOrder Z.compare.
Proof.
  split.
  - intros x y. apply Z.compare_antisym.
  - intros x y z [] H1 H2; [apply Z.compare_eq in H1 as ->; done| |].
    + rewrite Z.compare_lt_iff in *. lia.
    + rewrite Z.compare_gt_iff in *. lia.
Qed.
#[export] Instance on_order {A B} (f : A → B) cmp `{!CmpOrder cmp} : CmpOrder (on f cmp).
Proof. split; unfold on; intros; [apply (cmp_opp cmp)|by eapply (cmp_trans cmp)]. Qed.
#[export] Instance rev_order {A} (cmp : A → A → comparison) `{!CmpOrder cmp} : CmpOrder (rev_cmp cmp).
Proof. split; unfold rev_cmp; intros; [apply (cmp_opp cmp)|by eapply (cmp_trans cmp)]. Qed.
#[export] Instance lex_order {A} (c d : A → A → comparison) `{!CmpOrder c, !CmpOrder d} :
  CmpOrder (lex c d).
Proof.
  split; unfold lex, then_.
  - intros x y. rewrite (cmp_opp c x y). destruct (c x y); [apply (cmp_opp d)|done..].
  - intros x y z o H1 H2. destruct (c x y) eqn:Exy.
    + rewrite (cmp_eq_l c _ _ _ Exy). destruct (c y z); [by eapply (cmp_trans d)|done..].
    + subst o. destruct (c y z) eqn:Eyz; [| |done].
      * by rewrite (cmp_eq_r c _ _ _ Eyz), Exy.
      * by rewrite (cmp_trans c x y z Lt).
    + subst o. destruct (c y z) eqn:Eyz; [|done|].
      * by rewrite (cmp_eq_r c _ _ _ Eyz), Exy.
      * by rewrite (cmp_trans c x y z Gt).
Qed.

(** [str]'s [Ord]: lexicographic on bytes. *)
Fixpoint string_cmp (s t : string) : comparison :=
  match s, t with
  | EmptyString, EmptyString => Eq
  | EmptyString, _ => Lt
  | _, EmptyString => Gt
  | String a s', String b t' =>
      then_ (N.compare (Ascii.N_of_ascii a) (Ascii.N_of_ascii b)) (string_cmp s' t')
  end.

Lemma string_cmp_eq s t : string_cmp s t = Eq ↔ s = t.
Proof.
  revert t. induction s as [|a s IH]; intros [|b t]; cbn; try done.
  unfold then_. split.
  - case_match eqn:E; [|done..]. apply N.compare_eq in E. intros ->%IH.
    f_equal. rewrite <-(Ascii.ascii_N_embedding a), <-(Ascii.ascii_N_embedding b). by rewrite E.
  - intros [= -> ->]. rewrite N.compare_refl. by apply IH.
Qed.

#[export] Instance string_cmp_order : CmpOrder string_cmp.
Proof.
  split.
  - intros s. induction s as [|a s IH]; intros [|b t]; cbn; try done.
    rewrite N.compare_antisym. unfold then_.
    destruct (N.compare _ _); cbn; [apply IH|done..].
  - intros s. induction s as [|a s IH]; intros [|b t] [|c u] o; cbn; unfold then_; try congruence.
    destruct (N.compare (Ascii.N_of_ascii a) _) eqn:E1, (N.compare (Ascii.N_of_ascii b) _) eqn:E2;
      intros H1 H2; simplify_eq;
      rewrite ?N.compare_eq_iff, ?N.compare_lt_iff, ?N.compare_gt_iff in *; rewrite ?E1, <-?E2.
    all: rewrite ?N.compare_refl; try by eapply IH.
    all: match goal with |- context [N.compare ?x ?y] => destruct (N.compare_spec x y); try done; lia end.
Qed.

(** ** Selection *)

(** [iter.min_by(cmp)]: the first of the least elements. *)
Definition min_by {A} (cmp : A → A → comparison) (l : list A) : option A :=
  match l with
  | [] => None
  | x :: l => Some (fold_left (λ x y, match cmp x y with Gt => y | _ => x end) l x)
  end.
(** [iter.max_by_key(key)] with the order [cmp] on keys: the last of the
    greatest elements. *)
Definition max_by_key {A B} (cmp : B → B → comparison) (key : A → B) (l : list A) : option A :=
  match l with
  | [] => None
  | x :: l => Some (fold_left (λ x y, match cmp (key x) (key y) with Gt => x | _ => y end) l x)
  end.

Lemma min_by_spec {A} (cmp : A → A → comparison) `{!CmpOrder cmp} l x :
  min_by cmp l = Some x → x ∈ l ∧ ∀ y, y ∈ l → cmp_le cmp x y.
Proof.
  destruct l as [|a l]; [done|]. cbn. intros [= <-]. revert a.
  induction l as [|b l IH]; intros a; cbn.
  - split; [set_solver|]. intros y ->%list_elem_of_singleton. unfold cmp_le. by rewrite cmp_refl.
  - set (c := match cmp a b with Gt => b | _ => a end). destruct (IH c) as [Hin Hle].
    assert (cmp_le cmp c a ∧ cmp_le cmp c b) as [Hca Hcb].
    { subst c. unfold cmp_le. destruct (cmp a b) eqn:E; rewrite ?cmp_refl, ?E; try done.
      by rewrite (cmp_opp cmp a b), E. }
    split.
    + apply elem_of_cons in Hin as [Hin|Hin]; [|set_solver]. rewrite Hin. subst c.
      destruct (cmp a b); set_solver.
    + intros y [->|[->|Hy]%elem_of_cons]%elem_of_cons.
      * apply (cmp_le_trans cmp _ c); [apply Hle; set_solver|done].
      * apply (cmp_le_trans cmp _ c); [apply Hle; set_solver|done].
      * apply Hle. set_solver.
Qed.

Lemma max_by_key_min_by {A B} (cmp : B → B → comparison) (key : A → B) `{!CmpOrder cmp} l x :
  max_by_key cmp key l = Some x → x ∈ l ∧ ∀ y, y ∈ l → cmp_le cmp (key y) (key x).
Proof.
  destruct l as [|a l]; [done|]. cbn. intros [= <-]. revert a.
  induction l as [|b l IH]; intros a; cbn.
  - split; [set_solver|]. intros y ->%list_elem_of_singleton. unfold cmp_le. by rewrite cmp_refl.
  - set (c := match cmp (key a) (key b) with Gt => a | _ => b end). destruct (IH c) as [Hin Hle].
    assert (cmp_le cmp (key a) (key c) ∧ cmp_le cmp (key b) (key c)) as [Hac Hbc].
    { subst c. unfold cmp_le.
      destruct (cmp (key a) (key b)) eqn:E; rewrite ?cmp_refl, ?E; try done.
      by rewrite (cmp_opp cmp (key a) (key b)), E. }
    split.
    + apply elem_of_cons in Hin as [Hin|Hin]; [|set_solver]. rewrite Hin. subst c.
      destruct (cmp (key a) (key b)); set_solver.
    + intros y [->|[->|Hy]%elem_of_cons]%elem_of_cons.
      * apply (cmp_le_trans cmp _ (key c)); [done|apply Hle; set_solver].
      * apply (cmp_le_trans cmp _ (key c)); [done|apply Hle; set_solver].
      * apply Hle. set_solver.
Qed.

(** When only equal elements compare as [Eq], selection does not depend on
    the order of iteration. *)
Lemma min_by_perm {A} (cmp : A → A → comparison) `{!CmpOrder cmp} l1 l2 :
  (∀ x y, x ∈ l1 → y ∈ l1 → cmp x y = Eq → x = y) →
  l1 ≡ₚ l2 → min_by cmp l1 = min_by cmp l2.
Proof.
  intros Heq Hp. destruct (min_by cmp l1) as [x|] eqn:E1, (min_by cmp l2) as [y|] eqn:E2.
  - apply min_by_spec in E1 as [Hx Hx'], E2 as [Hy Hy']; try done. f_equal.
    assert (y ∈ l1) by by rewrite Hp. assert (x ∈ l2) by by rewrite <-Hp.
    apply Heq; [done..|]. pose proof (Hx' y ltac:(done)) as H1. pose proof (Hy' x ltac:(done)) as H2.
    unfold cmp_le in *. rewrite (cmp_opp cmp x y) in H2. by destruct (cmp x y).
  - destruct l2; [|done]. by apply Permutation_nil_r in Hp as ->.
  - destruct l1; [|done]. by apply Permutation_nil in Hp as ->.
  - done.
Qed.

Lemma max_by_key_perm {A B} (cmp : B → B → comparison) (key : A → B) `{!CmpOrder cmp} l1 l2 :
  (∀ x y, x ∈ l1 → y ∈ l1 → cmp (key x) (key y) = Eq → x = y) →
  l1 ≡ₚ l2 → max_by_key cmp key l1 = max_by_key cmp key l2.
Proof.
  intros Heq Hp.
  destruct (max_by_key cmp key l1) as [x|] eqn:E1, (max_by_key cmp key l2) as [y|] eqn:E2.
  - apply max_by_key_min_by in E1 as [Hx Hx'], E2 as [Hy Hy']; try done. f_equal.
    assert (y ∈ l1) by by rewrite Hp. assert (x ∈ l2) by by rewrite <-Hp.
    apply Heq; [done..|]. pose proof (Hx' y ltac:(done)) as H1. pose proof (Hy' x ltac:(done)) as H2.
    unfold cmp_le in *. rewrite (cmp_opp cmp (key x) (key y)) in H1. by destruct (cmp (key x) (key y)).
  - destruct l2; [|done]. by apply Permutation_nil_r in Hp as ->.
  - destruct l1; [|done]. by apply Permutation_nil in Hp as ->.
  - done.
Qed.

(** ** Sorting *)

(** [slice.sort_by(cmp)]: the stable sort. *)
Fixpoint insert_by {A} (cmp : A → A → comparison) (x : A) (l : list A) : list A :=
  match l with
  | [] => [x]
  | y :: l' => match cmp x y with Gt => y :: insert_by cmp x l' | _ => x :: l end
  end.
Definition sort_by {A} (cmp : A → A → comparison) (l : list A) : list A :=
  foldr (insert_by cmp) [] l.

Lemma insert_by_Permutation {A} (cmp : A → A → comparison) x l : insert_by cmp x l ≡ₚ x :: l.
Proof.
  induction l as [|y l IH]; [done|]. cbn. destruct (cmp x y); try done.
  rewrite IH. apply Permutation_swap.
Qed.
Lemma sort_by_Permutation {A} (cmp : A → A → comparison) l : sort_by cmp l ≡ₚ l.
Proof. induction l as [|x l IH]; [done|]. cbn. by rewrite insert_by_Permutation, IH. Qed.

Lemma insert_by_sorted {A} (cmp : A → A → comparison) `{!CmpOrder cmp} x l :
  StronglySorted (cmp_le cmp) l → StronglySorted (cmp_le cmp) (insert_by cmp x l).
Proof.
  induction l as [|y l' IH]; intros Hs; cbn; [repeat constructor|].
  pose proof Hs as [Hs' Hy]%StronglySorted_inv. destruct (cmp x y) eqn:E.
  3: { constructor; [by apply IH|]. rewrite Forall_forall in *. intros z.
       rewrite insert_by_Permutation. intros [->|Hz]%elem_of_cons; [|by apply Hy].
       unfold cmp_le. by rewrite (cmp_opp cmp x y), E. }
  all: assert (cmp_le cmp x y) by (unfold cmp_le; by rewrite E).
  all: constructor; [done|]; constructor; [done|].
  all: eapply Forall_impl; [done|]; intros z Hz; by apply (cmp_le_trans cmp _ y).
Qed.
Lemma sort_by_sorted {A} (cmp : A → A → comparison) `{!CmpOrder cmp} l :
  StronglySorted (cmp_le cmp) (sort_by cmp l).
Proof. induction l as [|x l IH]; [constructor|]. by apply insert_by_sorted. Qed.

(** ** Slices *)

(** [&v[a..b]]; [None] where Rust panics. *)
Definition slice {A} (a b : Z) (l : list A) : option (list A) :=
  if (0 <=? a) && (a <=? b) && (b <=? Z.of_nat (length l))
  then Some (take (Z.to_nat (b - a)) (drop (Z.to_nat a) l)) else None.
(** [v[a..a + src.len()].copy_from_slice(src)]. *)
Definition splice {A} (a : Z) (src l : list A) : option (list A) :=
  if (0 <=? a) && (a + Z.of_nat (length src) <=? Z.of_nat (length l))
  then Some (take (Z.to_nat a) l ++ src ++ drop (Z.to_nat a + length src) l) else None.

Abbreviation zlen l := (Z.of_nat (length l)).

Lemma slice_length {A} a b (l s : list A) : slice a b l = Some s → zlen s = b - a.
Proof. unfold slice. case_match; [|done]. intros [= <-]. bprop. rewrite length_take, length_drop. lia. Qed.
Lemma slice_is_Some {A} a b (l : list A) : 0 <= a → a <= b → b <= zlen l → is_Some (slice a b l).
Proof. intros. unfold slice. case_match; [done|]. lia. Qed.

Lemma splice_length {A} a (src l l' : list A) : splice a src l = Some l' → length l' = length l.
Proof.
  unfold splice. case_match; [|done]. intros [= <-]. bprop.
  rewrite !length_app, length_take, length_drop. lia.
Qed.
Lemma splice_is_Some {A} a (src l : list A) : 0 <= a → a + zlen src <= zlen l → is_Some (splice a src l).
Proof. intros. unfold splice. case_match; [done|]. lia. Qed.

Lemma splice_slice {A} a (src l l' : list A) :
  splice a src l = Some l' → slice a (a + zlen src) l' = Some src.
Proof.
  intros H. pose proof (splice_length _ _ _ _ H) as Hl. unfold splice in H. case_match eqn:E; [|done].
  injection H as <-. bprop. unfold slice. rewrite (proj2 (andb_true_iff _ _)).
  - f_equal. replace (Z.to_nat (a + zlen src - a)) with (length src) by lia.
    rewrite drop_app_length' by (rewrite length_take; lia). by rewrite take_app_length.
  - rewrite andb_true_iff, !Z.leb_le. lia.
Qed.

Lemma splice_lookup {A} a (src l l' : list A) i :
  splice a src l = Some l' →
  l' !! i = if decide (Z.to_nat a ≤ i < Z.to_nat a + length src)%nat
            then src !! (i - Z.to_nat a)%nat else l !! i.
Proof.
  unfold splice. case_match; [|done]. intros [= <-]. bprop. case_decide.
  - rewrite lookup_app_r by (rewrite length_take; lia).
    rewrite length_take, lookup_app_l by lia. f_equal. lia.
  - destruct (decide (i < Z.to_nat a)%nat).
    + rewrite lookup_app_l by (rewrite length_take; lia). by rewrite lookup_take_lt by lia.
    + rewrite lookup_app_r by (rewrite length_take; lia).
      rewrite length_take, lookup_app_r by lia. rewrite lookup_drop. f_equal. lia.
Qed.

(** [v.chunks(n)] with a non-zero [n]: pieces of [n] elements, the last one
    possibly shorter. *)
Fixpoint chunks_fuel {A} (fuel : nat) (n : nat) (l : list A) : list (list A) :=
  match fuel, l with
  | S fuel, _ :: _ => take n l :: chunks_fuel fuel n (drop n l)
  | _, _ => []
  end.
Definition chunks {A} (n : nat) (l : list A) : list (list A) := chunks_fuel (length l) n l.

Lemma chunks_fuel_concat {A} fuel n (l : list A) :
  (0 < n)%nat → (length l ≤ fuel)%nat → mjoin (chunks_fuel fuel n l) = l.
Proof.
  intros Hn. revert l. induction fuel as [|f IH]; intros [|x l] Hl; cbn in Hl; try lia;
    cbn -[take drop]; try done.
  rewrite IH by (rewrite length_drop; cbn; lia). apply take_drop.
Qed.
Lemma chunks_concat {A} n (l : list A) : (0 < n)%nat → mjoin (chunks n l) = l.
Proof. intros. by apply chunks_fuel_concat. Qed.

Lemma chunks_fuel_lookup {A} fuel n (l : list A) i c :
  (0 < n)%nat → (length l ≤ fuel)%nat → chunks_fuel fuel n l !! i = Some c →
  c = take n (drop (i * n) l) ∧ (i * n < length l)%nat.
Proof.
  intros Hn. revert l i. induction fuel as [|f IH]; intros [|x l] i Hl; cbn in Hl; try lia;
    cbn -[take drop]; rewrite ?lookup_nil; try done.
  destruct i as [|i]; cbn -[take drop].
  - intros [= <-]. split; [done|]. lia.
  - intros H%IH; [|rewrite length_drop; cbn in *; lia]. rewrite drop_drop, length_drop in H.
    destruct H as [-> H]. split; [by replace (S i * n)%nat with (n + i * n)%nat by lia|]. cbn in *. lia.
Qed.
Lemma chunks_lookup {A} n (l : list A) i c :
  (0 < n)%nat → chunks n l !! i = Some c → c = take n (drop (i * n) l) ∧ (i * n < length l)%nat.
Proof. intros. by eapply chunks_fuel_lookup. Qed.

Lemma chunks_fuel_lookup_lt {A} fuel n (l : list A) i :
  (0 < n)%nat → (length l ≤ fuel)%nat → (i * n < length l)%nat → is_Some (chunks_fuel fuel n l !! i).
Proof.
  intros Hn. revert l i. induction fuel as [|f IH]; intros [|x l] i Hl Hi; cbn in Hi; try (cbn in *; lia).
  destruct i as [|i]; cbn -[take drop]; [done|]. apply IH; rewrite length_drop; cbn in *; lia.
Qed.

(** ** [BTreeMap] keyed by identifiers: iteration in increasing key order *)
Definition entries {V} (m : gmap Uuid V) : list (Uuid * V) :=
  sort_by (on fst Z.compare) (map_to_list m).
Definition keys {V} (m : gmap Uuid V) : list Uuid := (entries m).*1.
Definition values {V} (m : gmap Uuid V) : list V := (entries m).*2.

Lemma elem_of_entries {V} (m : gmap Uuid V) k v : (k, v) ∈ entries m ↔ m !! k = Some v.
Proof. unfold entries. rewrite sort_by_Permutation. apply elem_of_map_to_list. Qed.
Lemma elem_of_values {V} (m : gmap Uuid V) v : v ∈ values m ↔ ∃ k, m !! k = Some v.
Proof.
  unfold values. rewrite list_elem_of_fmap. split.
  - intros [[k v'] [-> H]]. exists k. by apply elem_of_entries.
  - intros [k H]. exists (k, v). split; [done|]. by apply elem_of_entries.
Qed.
Lemma elem_of_keys {V} (m : gmap Uuid V) k : k ∈ keys m ↔ is_Some (m !! k).
Proof.
  unfold keys. rewrite list_elem_of_fmap. split.
  - intros [[k' v] [-> H]]. exists v. by apply elem_of_entries.
  - intros [v H]. exists (k, v). split; [done|]. by apply elem_of_entries.
Qed.
Lemma NoDup_keys {V} (m : gmap Uuid V) : NoDup (keys m).
Proof. unfold keys, entries. rewrite sort_by_Permutation. apply NoDup_fst_map_to_list. Qed.
Lemma length_entries {V} (m : gmap Uuid V) : length (entries m) = size m.
Proof. unfold entries. rewrite sort_by_Permutation. apply length_map_to_list. Qed.

(** ** Sums over a map *)
Definition map_sum {K V} `{Countable K} (f : V → Z) (m : gmap K V) : Z :=
  map_fold (λ _ v acc, f v + acc) 0 m.

Section map_sum.
Context {K V : Type} `{Countable K} (f : V → Z).
Implicit Types m : gmap K V.

Lemma map_sum_empty : map_sum f (∅ : gmap K V) = 0.
Proof. apply map_fold_empty. Qed.
Lemma map_sum_insert m i x : m !! i = None → map_sum f (<[i:=x]> m) = f x + map_sum f m.
Proof. intros. unfold map_sum. rewrite map_fold_insert_L; [done|intros; lia|done]. Qed.
Lemma map_sum_delete m i x : m !! i = Some x → map_sum f m = f x + map_sum f (delete i m).
Proof. intros. unfold map_sum. rewrite (map_fold_delete_L _ _ i x m); [done|intros; lia|done]. Qed.
Lemma map_sum_update m i x y :
  m !! i = Some x → map_sum f (<[i:=y]> m) = map_sum f m - f x + f y.
Proof.
  intros Hi. rewrite (map_sum_delete _ _ _ Hi), <-insert_delete_eq.
  rewrite map_sum_insert by apply lookup_delete_eq. lia.
Qed.
Lemma map_sum_nonneg m : (∀ i x, m !! i = Some x → 0 <= f x) → 0 <= map_sum f m.
Proof.
  induction m as [|i x m Hi IH] using map_ind; intros Hf; [by rewrite map_sum_empty|].
  rewrite map_sum_insert by done. pose proof (Hf i x (lookup_insert_eq _ _ _)).
  assert (0 <= map_sum f m); [|lia]. apply IH. intros j y Hj. apply (Hf j).
  by rewrite lookup_insert_ne by congruence.
Qed.
Lemma map_sum_lookup_le m i x :
  (∀ i x, m !! i = Some x → 0 <= f x) → m !! i = Some x → f x <= map_sum f m.
Proof.
  intros Hf Hi. rewrite (map_sum_delete _ _ _ Hi).
  enough (0 <= map_sum f (delete i m)) by lia. apply map_sum_nonneg.
  intros j y [_ Hj]%lookup_delete_Some. by eapply Hf.
Qed.
End map_sum.

Lemma map_sum_le {K V} `{Countable K} (f g : V → Z) (m : gmap K V) :
  (∀ i x, m !! i = Some x → f x <= g x) → map_sum f m <= map_sum g m.
Proof.
  induction m as [|i x m Hi IH] using map_ind; intros Hf; [by rewrite !map_sum_empty|].
  rewrite !map_sum_insert by done. pose proof (Hf i x (lookup_insert_eq _ _ _)).
  assert (map_sum f m <= map_sum g m); [|lia]. apply IH. intros j y Hj. apply (Hf j).
  by rewrite lookup_insert_ne by congruence.
Qed.

Lemma alter_Some_insert {K V} `{Countable K} (f : V → V) (m : gmap K V) i x :
  m !! i = Some x → alter f i m = <[i := f x]> m.
Proof.
  intros Hi. apply map_eq. intros j. rewrite lookup_alter, lookup_insert.
  case_decide; simplify_eq; [by rewrite Hi|done].
Qed.

(** Consecutive windows of a list put it back together. *)
Lemma windows_join {A} (n k : nat) (l : list A) :
  (length l ≤ k * n)%nat → mjoin ((λ i, take n (drop (i * n) l)) <$> seq 0 k) = l.
Proof.
  intros Hl. enough (∀ m, (m ≤ k)%nat →
    mjoin ((λ i, take n (drop (i * n) l)) <$> seq 0 m) = take (m * n) l) as H.
  { rewrite H by done. by apply take_ge. }
  induction m as [|m IH]; intros Hm; [done|].
  rewrite seq_S, fmap_app, join_app, IH by lia. cbn. rewrite app_nil_r.
  replace (n + m * n)%nat with (m * n + n)%nat by lia. by rewrite take_take_drop.
Qed.

Lemma omap_join {A B} (f : A → option B) (ls : list (list A)) :
  omap f (mjoin ls) = mjoin (omap f <$> ls).
Proof.
  induction ls as [|l ls IH]; [done|].
  change (mjoin (l :: ls)) with (l ++ mjoin ls). by rewrite omap_app, IH.
Qed.

Lemma length_omap_le {A B} (f : A → option B) (l : list A) : (length (omap f l) ≤ length l)%nat.
Proof. induction l as [|x l IH]; cbn; [done|]. case_match; cbn; lia. Qed.

Lemma fmap_join {A B} (f : A → B) (ls : list (list A)) : f <$> mjoin ls = mjoin (fmap f <$> ls).
Proof.
  induction ls as [|l ls IH]; [done|].
  change (mjoin (l :: ls)) with (l ++ mjoin ls). by rewrite fmap_app, IH.
Qed.

Definition zsum : list Z → Z := foldr Z.add 0.

Lemma zsum_app l k : zsum (l ++ k) = zsum l + zsum k.
Proof. induction l as [|x l IH]; cbn; [done|]. unfold zsum in *. cbn. lia. Qed.

(** A counter that only wraps is the wrapped sum. *)
Lemma wadd_wrap a b : wrap64 a +w b = wrap64 (a + b).
Proof. unfold wadd, wrap64. by rewrite Zplus_mod_idemp_l. Qed.
Lemma wadd_wrap_r a b : a +w wrap64 b = wrap64 (a + b).
Proof. unfold wadd, wrap64. by rewrite Zplus_mod_idemp_r. Qed.

(** ** Slices of a concatenation *)
Lemma slice_nth {A} (fs : list (list A)) i f a b :
  fs !! i = Some f → zsum ((λ l, zlen l) <$> take i fs) = a → b = a + zlen f →
  slice a b (mjoin fs) = Some f.
Proof.
  intros Hf Ha ->. assert (mjoin fs = mjoin (take i fs) ++ f ++ mjoin (drop (S i) fs)) as E.
  { rewrite <-(take_drop_middle fs i f Hf) at 1. rewrite join_app. done. }
  assert (zlen (mjoin (take i fs)) = a) as Hl.
  { rewrite <-Ha. generalize (take i fs). intros l. induction l as [|x l IH]; [done|].
    change (mjoin (x :: l)) with (x ++ mjoin l). rewrite length_app. cbn. unfold zsum in *. lia. }
  rewrite E. unfold slice. rewrite !length_app.
  rewrite (proj2 (andb_true_iff _ _)); [|rewrite andb_true_iff, !Z.leb_le; lia].
  f_equal. rewrite drop_app_length' by lia. apply take_app_length'. lia.
Qed.

Lemma slice_join {A} a b c (l x y : list A) :
  slice a b l = Some x → slice b c l = Some y → slice a c l = Some (x ++ y).
Proof.
  unfold slice. do 2 case_match; try done. intros [= <-] [= <-]. bprop.
  rewrite (proj2 (andb_true_iff _ _)); [|rewrite andb_true_iff, !Z.leb_le; lia].
  f_equal. replace (Z.to_nat (c - a)) with (Z.to_nat (b - a) + Z.to_nat (c - b))%nat by lia.
  rewrite <-take_take_drop. f_equal. rewrite drop_drop. do 2 f_equal. lia.
Qed.

Lemma slice_full {A} (l : list A) n : n = zlen l → slice 0 n l = Some l.
Proof.
  intros ->. unfold slice.
  rewrite (proj2 (andb_true_iff _ _)); [|rewrite andb_true_iff, !Z.leb_le; lia].
  f_equal. rewrite drop_0. apply take_ge. lia.
Qed.

Lemma slice_one {A} (l : list A) n x : l !! n = Some x ↔ slice (Z.of_nat n) (Z.of_nat n + 1) l = Some [x].
Proof.
  unfold slice. rewrite Nat2Z.id. replace (Z.to_nat (Z.of_nat n + 1 - Z.of_nat n)) with 1%nat by lia.
  destruct (l !! n) as [y|] eqn:E.
  - pose proof (lookup_lt_Some _ _ _ E).
    rewrite (proj2 (andb_true_iff _ _)); [|rewrite andb_true_iff, !Z.leb_le; lia].
    rewrite (drop_S l y n E). cbn [take]. rewrite take_0. split; intros [= ->]; done.
  - apply lookup_ge_None in E. case_match; [|done]. bprop. lia.
Qed.

(** A fold keeps what each of its steps keeps. *)
Lemma foldl_invariant {A B C} (g : B → C) (f : B → A → B) :
  (∀ b a, g (f b a) = g b) → ∀ l b, g (foldl f b l) = g b.
Proof. intros H l. induction l as [|a l IH]; intros b; cbn; [done|]. by rewrite IH. Qed.
