(* ===== verification/Bytes.v ===== *)
(** * Bytes, big-endian integers and text

    A [u8] is [Byte.byte]; a byte string is [list byte]. [be_bytes n z] is
    [to_be_bytes] of an [n]-byte unsigned integer and [be_val] is
    [from_be_bytes]. A Rust [str] is a [string], one [ascii] per byte. *)

From Stdlib Require Strings.String Strings.Byte.
From Stdlib Require Export Init.Byte.
From S2P Require Import Prelude.
From S2P Require Import Lists.

Create Rewrite HintDb len.

#[export] Instance byte_eq_dec : EqDecision byte := Byte.byte_eq_dec.

Definition byte_val (b : byte) : Z := Z.of_N (Byte.to_N b).
Definition byte_of (z : Z) : byte := default x00 (Byte.of_N (Z.to_N (z mod 256))).

Lemma byte_val_range b : 0 <= byte_val b < 256.
Proof. unfold byte_val. pose proof (Byte.to_N_bounded b). lia. Qed.

Lemma byte_val_of z : byte_val (byte_of z) = z mod 256.
Proof.
  unfold byte_val, byte_of. pose proof (Z.mod_pos_bound z 256 ltac:(lia)) as Hz.
  destruct (Byte.of_N (Z.to_N (z mod 256))) eqn:E; cbn.
  - apply Byte.to_of_N in E. rewrite E. lia.
  - apply Byte.of_N_None_iff in E. lia.
Qed.

Lemma byte_of_val b : byte_of (byte_val b) = b.
Proof.
  unfold byte_of, byte_val. pose proof (Byte.to_N_bounded b).
  rewrite Z.mod_small by lia. by rewrite N2Z.id, Byte.of_to_N.
Qed.

Lemma byte_val_inj a b : byte_val a = byte_val b → a = b.
Proof. intros H. by rewrite <-(byte_of_val a), H, byte_of_val. Qed.

(** ** Big-endian integers *)
Fixpoint be_bytes (n : nat) (z : Z) : list byte :=
  match n with
  | O => []
  | S n => byte_of (z / 256 ^ Z.of_nat n) :: be_bytes n z
  end.
Definition be_val (l : list byte) : Z := fold_left (λ acc b, acc * 256 + byte_val b) l 0.

Lemma be_bytes_length n z : length (be_bytes n z) = n.
Proof. induction n; cbn; congruence. Qed.
#[export] Hint Rewrite be_bytes_length : len.

Lemma be_val_acc l acc :
  fold_left (λ acc b, acc * 256 + byte_val b) l acc = acc * 256 ^ zlen l + be_val l.
Proof.
  unfold be_val. revert acc. induction l as [|b l IH]; intros acc; cbn [fold_left length].
  - rewrite Z.pow_0_r. lia.
  - rewrite IH, (IH (0 * 256 + _)), Nat2Z.inj_succ, Z.pow_succ_r by lia. lia.
Qed.
Lemma be_val_cons b l : be_val (b :: l) = byte_val b * 256 ^ zlen l + be_val l.
Proof. unfold be_val at 1. cbn. rewrite be_val_acc. lia. Qed.

Lemma be_val_range l : 0 <= be_val l < 256 ^ zlen l.
Proof.
  induction l as [|b l IH]; [by cbn|]. rewrite be_val_cons. cbn [length].
  rewrite Nat2Z.inj_succ, Z.pow_succ_r by lia. pose proof (byte_val_range b). nia.
Qed.

Lemma be_val_bytes n z : be_val (be_bytes n z) = z mod 256 ^ Z.of_nat n.
Proof.
  revert z. induction n as [|n IH]; intros z.
  - by rewrite Z.pow_0_r, Z.mod_1_r.
  - cbn [be_bytes]. rewrite be_val_cons, byte_val_of, IH, be_bytes_length.
    rewrite Nat2Z.inj_succ, Z.pow_succ_r by lia.
    rewrite (Z.mul_comm 256), Z.rem_mul_r by lia. lia.
Qed.
Lemma be_val_bytes_small n z : 0 <= z < 256 ^ Z.of_nat n → be_val (be_bytes n z) = z.
Proof. intros. rewrite be_val_bytes. by apply Z.mod_small. Qed.

Lemma be_bytes_mod n z : be_bytes n (z mod 256 ^ Z.of_nat n) = be_bytes n z.
Proof.
  assert (∀ m, (m ≤ n)%nat → be_bytes m (z mod 256 ^ Z.of_nat n) = be_bytes m z) as H;
    [|by apply H].
  induction m as [|m IH]; intros Hm; [done|]. cbn. rewrite IH by lia. f_equal.
  apply byte_val_inj. rewrite !byte_val_of.
  replace (Z.of_nat n) with (Z.of_nat m + (1 + Z.of_nat (n - m - 1))) by lia.
  rewrite Z.pow_add_r, Z.rem_mul_r by lia.
  rewrite Z.mul_comm, Z.div_add, (Z.div_small (z mod _)), Z.add_0_l
    by (try apply Z.mod_pos_bound; lia).
  rewrite Z.pow_add_r, Z.pow_1_r by lia.
  rewrite Z.rem_mul_r by lia. rewrite Z.mul_comm, Z.mod_add by lia. by rewrite Z.mod_mod by lia.
Qed.

Lemma be_bytes_val l : be_bytes (length l) (be_val l) = l.
Proof.
  induction l as [|b l IH]; [done|]. cbn [length be_bytes]. rewrite be_val_cons.
  pose proof (be_val_range l). f_equal.
  - rewrite Z.add_comm, Z.div_add, Z.div_small, Z.add_0_l by lia. apply byte_of_val.
  - rewrite <-be_bytes_mod, Z.add_comm, Z.mod_add, Z.mod_small by lia. apply IH.
Qed.

Lemma be_val_inj l1 l2 : length l1 = length l2 → be_val l1 = be_val l2 → l1 = l2.
Proof. intros Hl H. by rewrite <-(be_bytes_val l1), Hl, H, be_bytes_val. Qed.

(** ** Text *)
Definition as_bytes (s : string) : list byte := String.list_byte_of_string s.
Definition u64_str (z : Z) : string := pretty z.

Lemma as_bytes_app s t : as_bytes (s +:+ t) = (as_bytes s ++ as_bytes t)%list.
Proof.
  unfold as_bytes, String.list_byte_of_string. rewrite <-map_app. f_equal.
  induction s as [|a s IH]; [done|].
  change (String a s +:+ t) with (String a (s +:+ t)).
  cbn [String.list_ascii_of_string app]. by f_equal.
Qed.
Lemma as_bytes_inj s t : as_bytes s = as_bytes t → s = t.
Proof.
  intros H. rewrite <-(String.string_of_list_byte_of_string s), <-(String.string_of_list_byte_of_string t).
  unfold as_bytes in H. by rewrite H.
Qed.
Lemma as_bytes_length s : length (as_bytes s) = String.length s.
Proof.
  unfold as_bytes, String.list_byte_of_string. rewrite length_map.
  induction s; cbn; congruence.
Qed.

(** ** [String::from_utf8_lossy]

    Every maximal ill-formed sequence becomes U+FFFD. [utf8_tail b] is the
    ranges of the bytes that may follow a first byte [b], [None] if [b]
    starts no sequence. *)
Definition utf8_tail (b : byte) : option (list (Z * Z)) :=
  let c := byte_val b in
  if c <? 128 then Some []
  else if within 194 223 c then Some [(128, 191)]
  else if c =? 224 then Some [(160, 191); (128, 191)]
  else if c =? 237 then Some [(128, 159); (128, 191)]
  else if within 225 239 c then Some [(128, 191); (128, 191)]
  else if c =? 240 then Some [(144, 191); (128, 191); (128, 191)]
  else if within 241 243 c then Some [(128, 191); (128, 191); (128, 191)]
  else if c =? 244 then Some [(128, 143); (128, 191); (128, 191)]
  else None.
(** The bytes of [l] that match the ranges, the rest, and whether all did. *)
Fixpoint utf8_match (ranges : list (Z * Z)) (l : list byte) : list byte * list byte * bool :=
  match ranges, l with
  | [], _ => ([], l, true)
  | (lo, hi) :: ranges, b :: l' =>
      if within lo hi (byte_val b)
      then let '(m, r, ok) := utf8_match ranges l' in (b :: m, r, ok)
      else ([], l, false)
  | _, [] => ([], [], false)
  end.
Definition replacement : list byte := [xef; xbf; xbd].
Fixpoint utf8_lossy (fuel : nat) (l : list byte) : list byte :=
  match fuel, l with
  | S fuel, b :: l =>
      match utf8_tail b with
      | None => replacement ++ utf8_lossy fuel l
      | Some ranges =>
          let '(m, r, ok) := utf8_match ranges l in
          (if (ok : bool) then b :: m else replacement) ++ utf8_lossy fuel r
      end
  | _, _ => []
  end.
Definition from_utf8_lossy (l : list byte) : string :=
  String.string_of_list_byte (utf8_lossy (length l) l).

(** ASCII text is unchanged. *)
Lemma from_utf8_lossy_ascii s :
  Forall (λ b, byte_val b < 128) (as_bytes s) → from_utf8_lossy (as_bytes s) = s.
Proof.
  intros Hs. unfold from_utf8_lossy. transitivity (String.string_of_list_byte (as_bytes s)).
  2: apply String.string_of_list_byte_of_string.
  f_equal. induction Hs as [|b l Hb _ IH]; [done|]. cbn [length utf8_lossy].
  unfold utf8_tail. cbn zeta. rewrite (proj2 (Z.ltb_lt _ _) Hb). cbn. by rewrite IH.
Qed.
