(* ===== verification/Float64.v ===== *)
(** * [f64]

    IEEE 754 binary64 by the Standard Library's [SpecFloat] (53 bits of
    precision, rounding to nearest even), with the casts and comparisons the
    source uses. *)

From Stdlib Require Import Floats.SpecFloat.
From S2P Require Import Prelude.
From S2P Require Import Lists.

Abbreviation f64 := spec_float (only parsing).

#[export] Instance f64_eq_dec : EqDecision spec_float.
Proof. solve_decision. Defined.

Definition f64_add (x y : f64) : f64 := SFadd 53 1024 x y.
Definition f64_sub (x y : f64) : f64 := SFsub 53 1024 x y.
Definition f64_mul (x y : f64) : f64 := SFmul 53 1024 x y.
Definition f64_div (x y : f64) : f64 := SFdiv 53 1024 x y.
Definition f64_abs (x : f64) : f64 := SFabs x.
Definition f64_zero : f64 := S754_zero false.

(** [z as f64] for an unsigned integer. *)
Definition f64_of_u64 (z : Z) : f64 := binary_normalize 53 1024 z 0 false.
(** The literal [n/d]: the closest double, since [n] and [d] are exact. *)
Definition f64_lit (n d : Z) : f64 := f64_div (f64_of_u64 n) (f64_of_u64 d).

(** [x as u64]: truncation towards zero, saturating; NaN is 0. *)
Definition u64_of_f64 (x : f64) : Z :=
  match x with
  | S754_infinity false => U64_MAX
  | S754_finite false m e =>
      Z.min U64_MAX (if 0 <=? e then Z.pos m * 2 ^ e else Z.pos m / 2 ^ (- e))
  | _ => 0
  end.

Definition f64_lt (x y : f64) : bool := SFltb x y.
Definition f64_le (x y : f64) : bool := SFleb x y.
Definition is_nan (x : f64) : bool := match x with S754_nan => true | _ => false end.
(** [x.max(y)]: a NaN operand is ignored. *)
Definition f64_max (x y : f64) : f64 :=
  if is_nan x then y else if is_nan y then x else if f64_lt x y then y else x.
(** [x.clamp(lo, hi)] for constant bounds [lo <= hi]. *)
Definition f64_clamp (x lo hi : f64) : f64 :=
  if f64_lt x lo then lo else if f64_lt hi x then hi else x.
(** [(lo..=hi).contains(&x)]. *)
Definition f64_contains (lo hi x : f64) : bool := f64_le lo x && f64_le x hi.

(** [x.total_cmp(&y)]: the order of the bit patterns. A canonical positive
    double [m * 2^e] has [m < 2^53], so [(e + 1074) * 2^53 + m] is monotone;
    NaN is the positive one. *)
Definition total_key (x : f64) : Z :=
  match x with
  | S754_zero false => 0
  | S754_zero true => -1
  | S754_finite false m e => (e + 1074) * 2 ^ 53 + Z.pos m
  | S754_finite true m e => - ((e + 1074) * 2 ^ 53 + Z.pos m) - 1
  | S754_infinity false => 2 ^ 80
  | S754_infinity true => - 2 ^ 80 - 1
  | S754_nan => 2 ^ 81
  end.
Definition total_cmp : f64 → f64 → comparison := on total_key Z.compare.

Lemma u64_of_f64_range x : 0 <= u64_of_f64 x <= U64_MAX.
Proof.
  unfold u64_of_f64, U64_MAX. destruct x as [| [] | |[] m e]; try lia.
  case_match; [|pose proof (Z.div_pos (Z.pos m) (2 ^ (- e)))]; nia.
Qed.

(** ** [Duration]

    A duration is its nanoseconds; [as_secs_f64] adds the seconds and the
    fraction, [from_secs_f64] rounds to the closest nanosecond, ties to even,
    and panics on a negative or too large value and on NaN. *)
Definition NANOS : Z := 10 ^ 9.
Definition as_secs_f64 (d : Z) : f64 :=
  f64_add (f64_of_u64 (d / NANOS)) (f64_div (f64_of_u64 (d mod NANOS)) (f64_of_u64 NANOS)).
(** [num / den] rounded to the closest integer, ties to even. *)
Definition div_nearest (num den : Z) : Z :=
  let q := num / den in
  match 2 * (num mod den) ?= den with
  | Lt => q
  | Gt => q + 1
  | Eq => if Z.even q then q else q + 1
  end.
Definition from_secs_f64 (x : f64) : Result Z :=
  match x with
  | S754_zero _ => Ok 0
  | S754_finite false m e =>
      let d := if 0 <=? e then Z.pos m * 2 ^ e * NANOS else div_nearest (Z.pos m * NANOS) (2 ^ (- e)) in
      if d <? 2 ^ 64 * NANOS then Ok d else Panic
  | _ => Panic
  end.
