(* ===== verification/Text.v ===== *)
(** * Text the program reads and prints

    [str::trim], the [FromStr] of unsigned integers and of [f64], and the
    formatting of numbers with a precision or a width, as the Standard Library
    of Rust defines them. Strings are their UTF-8 bytes. *)

From Stdlib Require Import Floats.SpecFloat.
From Stdlib Require Import Ascii.
From S2P Require Import Prelude.
From S2P Require Import Float64.

(** ** [str::trim] *)

Definition code (a : ascii) : Z := Z.of_N (N_of_ascii a).
Definition is_char (s : list Z) (c : list Z) : bool := bool_decide (take (length c) s = c).
(** How many bytes the white-space character at the start of [s] takes, if
    there is one ([White_Space] of Unicode). *)
Definition white (s : list Z) : nat :=
  match s with
  | c :: _ =>
      if within 9 13 c || (c =? 32) then 1
      else if is_char s [194; 133] || is_char s [194; 160] then 2
      else if is_char s [225; 154; 128] || is_char s [226; 129; 159] || is_char s [227; 128; 128] then 3
      else match s with
           | 226 :: 128 :: c :: _ => if within 128 138 c || within 168 169 c || (c =? 175) then 3 else 0
           | _ => 0
           end
  | [] => 0
  end.
Fixpoint codes (s : string) : list Z :=
  match s with EmptyString => [] | String a s => code a :: codes s end.
Fixpoint skip (n : nat) (s : string) : string :=
  match n, s with S n, String _ s => skip n s | _, _ => s end.
Fixpoint trim_start_fuel (fuel : nat) (s : string) : string :=
  match fuel with
  | O => s
  | S fuel => match white (codes s) with O => s | n => trim_start_fuel fuel (skip n s) end
  end.
Definition trim_start (s : string) : string := trim_start_fuel (String.length s) s.
(** The shortest prefix with only white space after it. *)
Fixpoint trim_end (s : string) : string :=
  match s with
  | EmptyString => EmptyString
  | String a s' => if bool_decide (trim_start s = "") then "" else String a (trim_end s')
  end.
Definition trim (s : string) : string := trim_end (trim_start s).

Example trims : (trim "  a b
", trim "", trim (String (ascii_of_N 194) (String (ascii_of_N 160) "x"))) = ("a b", "", "x")%string.
Proof. vm_compute. reflexivity. Qed.

(** ** Unsigned integers *)

Definition digit (a : ascii) : option Z := if within 48 57 (code a) then Some (code a - 48) else None.
(** [from_str_radix(_, 10)] after the sign. *)
Fixpoint parse_digits (limit acc : Z) (s : string) : Result Z :=
  match s with
  | EmptyString => Ok acc
  | String a s =>
      d ← ok_or (digit a) "invalid digit found in string";
      ensure (10 * acc + d <=? limit) "number too large to fit in target type";;
      parse_digits limit (10 * acc + d) s
  end.
(** [s.parse::<uN>()] with [limit] the maximum of the type. *)
Definition parse_uint (limit : Z) (s : string) : Result Z :=
  match s with
  | EmptyString => bail "cannot parse integer from empty string"
  | String a EmptyString => parse_digits limit 0 s
  | String a rest => parse_digits limit 0 (if bool_decide (a = "+"%char) then rest else s)
  end.
Definition parse_u64 : string → Result Z := parse_uint U64_MAX.

(** What [Display] writes of a number, [parse] reads. *)
Fixpoint all_digits (s : string) : bool :=
  match s with EmptyString => true | String a s => bool_decide (is_Some (digit a)) && all_digits s end.
Lemma digit_pretty x : (x < 10)%N → digit (pretty_N_char x) = Some (Z.of_N x).
Proof.
  intros H. assert (x ∈ [0; 1; 2; 3; 4; 5; 6; 7; 8; 9]%N) as Hx.
  { rewrite !elem_of_cons. lia. }
  revert Hx. clear H. rewrite !elem_of_cons. intros Hx. by repeat destruct Hx as [->|Hx]; [vm_compute|..|inversion Hx].
Qed.
Lemma pretty_go_digits x : ∀ s, all_digits s = true → all_digits (pretty_N_go x s) = true.
Proof.
  induction (N.lt_wf_0 x) as [x _ IH]; intros s Hs. assert (x = 0 ∨ 0 < x)%N as [->|Hx] by lia; [done|].
  rewrite pretty_N_go_step by done. apply IH; [by apply N.div_lt|]. cbn [all_digits].
  rewrite digit_pretty by (apply N.mod_lt; lia). by rewrite Hs.
Qed.
Lemma parse_go limit x : Z.of_N x <= limit → ∀ s,
  parse_digits limit 0 (pretty_N_go x s) = parse_digits limit (Z.of_N x) s.
Proof.
  induction (N.lt_wf_0 x) as [x _ IH]; intros Hl s. assert (x = 0 ∨ 0 < x)%N as [->|Hx] by lia; [done|].
  pose proof (N.div_mod x 10 ltac:(lia)) as E. pose proof (N.mod_lt x 10 ltac:(lia)) as Hd.
  rewrite pretty_N_go_step by done. rewrite IH; [|by apply N.div_lt|clear -E Hl; revert E; generalize (x `div` 10)%N, (x `mod` 10)%N; lia]. cbn [parse_digits].
  rewrite digit_pretty by done. cbn. assert (10 * Z.of_N (x / 10) + Z.of_N (x mod 10) = Z.of_N x) as -> by lia.
  by rewrite (proj2 (Z.leb_le _ _)).
Qed.
Lemma pretty_Z_N z : 0 <= z → pretty z = pretty (Z.to_N z).
Proof. by destruct z. Qed.
Lemma pretty_digits z : 0 <= z → all_digits (pretty z) = true ∧ pretty z ≠ ""%string.
Proof.
  intros Hz. rewrite pretty_Z_N by done. unfold pretty, pretty_N. destruct (decide (Z.to_N z = 0%N)) as [|Hn]; [done|].
  split; [by apply pretty_go_digits|]. intros E.
  pose proof (parse_go z (Z.to_N z) ltac:(lia) "") as H. rewrite E in H. cbn in H. injection H as H. lia.
Qed.
Lemma parse_uint_digits limit s : all_digits s = true → s ≠ ""%string → parse_uint limit s = parse_digits limit 0 s.
Proof.
  destruct s as [|a [|b s]]; [done..|]. cbn [all_digits]. intros H _. apply andb_true_iff in H as [H _].
  apply bool_decide_eq_true in H. unfold parse_uint. rewrite bool_decide_false; [done|].
  intros ->. by destruct H as [? [=]].
Qed.
Lemma parse_uint_pretty limit z : 0 <= z <= limit → parse_uint limit (pretty z) = Ok z.
Proof.
  intros Hz. pose proof (pretty_digits z ltac:(lia)) as [H1 H2]. rewrite parse_uint_digits by done. clear H1 H2.
  rewrite pretty_Z_N by lia. unfold pretty, pretty_N. destruct (decide (Z.to_N z = 0%N)) as [E|E].
  - assert (z = 0) as -> by lia. change ((ensure (0 <=? limit) "number too large to fit in target type";; Ok 0) = Ok 0).
    by rewrite (proj2 (Z.leb_le 0 limit)) by lia.
  - rewrite parse_go by lia. cbn. f_equal. lia.
Qed.

Lemma ascii_not_white a s : 33 <= code a <= 126 → white (codes (String a s)) = O.
Proof.
  intros Ha. cbn. unfold is_char, within. cbn [length take].
  assert (∀ x y z, 126 < x → bool_decide (code a :: y = x :: z) = false) as Hc
    by (intros; apply bool_decide_eq_false; intros [=]; lia).
  rewrite !Hc by lia. rewrite (proj2 (Z.leb_gt (code a) 13)), (proj2 (Z.eqb_neq (code a) 32)) by lia.
  rewrite andb_false_r. cbn. repeat (case_match; try done; try lia).
Qed.
Lemma digit_not_white a s : is_Some (digit a) → white (codes (String a s)) = O.
Proof.
  intros [d Hd]. unfold digit in Hd. destruct (within 48 57 (code a)) eqn:E; [|done]. apply within_true in E.
  apply ascii_not_white. lia.
Qed.
Lemma trim_digits s : all_digits s = true → trim s = s.
Proof.
  intros H. assert (∀ s, all_digits s = true → trim_start s = s) as Hs.
  { clear. intros [|a s] H; [done|]. cbn [all_digits] in H. apply andb_true_iff in H as [H _].
    apply bool_decide_eq_true in H. unfold trim_start. cbn [String.length trim_start_fuel].
    by rewrite (digit_not_white a s H). }
  unfold trim. rewrite (Hs s H). induction s as [|a s IH]; [done|]. cbn [trim_end].
  rewrite (Hs _ H). rewrite bool_decide_false by done. f_equal. apply IH. cbn [all_digits] in H. by bprop.
Qed.

(** ** [f64] *)

(** The double closest to [m * 10^e]. *)
Definition f64_of_decimal (negative : bool) (m e : Z) : f64 :=
  match m with
  | Zpos p =>
      if 0 <=? e then binary_normalize 53 1024 (if negative then - (m * 10 ^ e) else m * 10 ^ e) 0 negative
      else f64_div (S754_finite negative p 0) (S754_finite false (Z.to_pos (10 ^ (- e))) 0)
  | _ => S754_zero negative
  end.
(** The digits at the start of [s], as a number after [acc], how many, the rest. *)
Fixpoint eat_digits (acc : Z) (n : nat) (s : string) : Z * nat * string :=
  match s with
  | String a s' => match digit a with Some d => eat_digits (10 * acc + d) (S n) s' | None => (acc, n, s) end
  | EmptyString => (acc, n, s)
  end.
(** The sign at the start of [s]; [true] is minus. *)
Definition eat_sign (s : string) : bool * string :=
  match s with
  | String a s' => if bool_decide (a = "-"%char) then (true, s') else if bool_decide (a = "+"%char) then (false, s') else (false, s)
  | EmptyString => (false, s)
  end.
Definition eat_exponent (s : string) : option Z :=
  match s with
  | EmptyString => Some 0
  | String a s =>
      if bool_decide (a = "e"%char ∨ a = "E"%char) then
        let (negative, s) := eat_sign s in
        match eat_digits 0 0 s with
        | (e, S _, EmptyString) => Some (if negative then - e else e)
        | _ => None
        end
      else None
  end.
Definition lower (a : ascii) : ascii := if within 65 90 (code a) then ascii_of_N (Z.to_N (code a + 32)) else a.
Fixpoint to_ascii_lowercase (s : string) : string :=
  match s with EmptyString => EmptyString | String a s => String (lower a) (to_ascii_lowercase s) end.
(** [s.parse::<f64>()]. *)
Definition parse_f64 (s : string) : Result f64 :=
  if bool_decide (s = "") then bail "cannot parse float from empty string" else
  let (negative, t) := eat_sign s in
  let word := to_ascii_lowercase t in
  if bool_decide (word = "inf" ∨ word = "infinity") then Ok (S754_infinity negative)
  else if bool_decide (word = "nan") then Ok S754_nan
  else
    let '(m, n, t) := eat_digits 0 0 t in
    let '(m, f, t) := match t with
                      | String a t' => if bool_decide (a = "."%char) then eat_digits m 0 t' else (m, O, t)
                      | EmptyString => (m, O, t)
                      end in
    match eat_exponent t with
    | Some e => if (n + f =? 0)%nat then bail "invalid float literal" else Ok (f64_of_decimal negative m (e - Z.of_nat f))
    | None => bail "invalid float literal"
    end.

Example floats :
  (parse_f64 "0.90", parse_f64 "1", parse_f64 "-2.5E-1", parse_f64 ".", parse_f64 "nan", parse_f64 "1e", parse_f64 "12.")
  = (Ok (f64_lit 90 100), Ok (f64_of_u64 1), Ok (S754_finite true 4503599627370496 (-54)), bail "invalid float literal",
     Ok S754_nan, bail "invalid float literal", Ok (f64_of_u64 12)).
Proof. vm_compute. reflexivity. Qed.

(** ** Formatting *)

(** The number of characters: the bytes that are not continuation bytes. *)
Fixpoint chars (s : string) : nat :=
  match s with
  | EmptyString => 0
  | String a s => if within 128 191 (code a) then chars s else S (chars s)
  end.
Fixpoint spaces (n : nat) : string := match n with O => "" | S n => String " " (spaces n) end.
(** [{:<width$}] and [{:>width$}]. *)
Definition left_aligned (width : nat) (s : string) : string := s +:+ spaces (width - chars s).
Definition right_aligned (width : nat) (s : string) : string := spaces (width - chars s) +:+ s.
(** [n] decimals of [z]. *)
Fixpoint decimals (n : nat) (z : Z) : string :=
  match n with
  | O => ""
  | S n => String (pretty_N_char (Z.to_N (z / 10 ^ Z.of_nat n mod 10))) (decimals n z)
  end.
(** [10^n |x|] rounded to the closest integer, ties to even. *)
Definition fixed_point (n : nat) (m : positive) (e : Z) : Z :=
  if 0 <=? e then Z.pos m * 2 ^ e * 10 ^ Z.of_nat n else div_nearest (Z.pos m * 10 ^ Z.of_nat n) (2 ^ (- e)).
(** [{:.n}] of a double. *)
Definition format_fixed (n : nat) (x : f64) : string :=
  let text (negative : bool) (z : Z) :=
    ((if negative then "-" else "") +:+ pretty (z / 10 ^ Z.of_nat n) +:+ (if (n =? 0)%nat then "" else ".")
       +:+ decimals n (z mod 10 ^ Z.of_nat n))%string in
  match x with
  | S754_nan => "NaN"
  | S754_infinity negative => if negative then "-inf" else "inf"
  | S754_zero negative => text negative 0
  | S754_finite negative m e => text negative (fixed_point n m e)
  end.
Example fixed :
  (format_fixed 2 (f64_lit 1665 100), format_fixed 2 (f64_of_u64 1), format_fixed 1 (f64_lit 25 100),
   format_fixed 2 (S754_infinity true), right_aligned 6 "abc", left_aligned 5 "abc")
  = ("16.65", "1.00", "0.2", "-inf", "   abc", "abc  ")%string.
Proof. vm_compute. reflexivity. Qed.

(** ** Addresses: [core::net] *)

(** [Display]. *)
Definition octet (z : Z) (i : Z) : Z := Z.land (Z.shiftr z (8 * i)) 255.
Definition ipv4_str (a : Ipv4Addr) : string :=
  pretty (octet a 3) +:+ "." +:+ pretty (octet a 2) +:+ "." +:+ pretty (octet a 1) +:+ "." +:+ pretty (octet a 0).
Definition hex_digit (z : Z) : ascii := ascii_of_N (Z.to_N (if z <? 10 then 48 + z else 87 + z)).
Fixpoint hex_fuel (fuel : nat) (z : Z) : string :=
  match fuel with
  | O => ""
  | S fuel => (if z <? 16 then "" else hex_fuel fuel (z / 16)) +:+ String (hex_digit (z mod 16)) ""
  end.
Definition hex_group : Z → string := hex_fuel 4.
Definition groups (a : Z) : list Z := (λ i, Z.land (Z.shiftr a (16 * i)) 65535) <$> [7; 6; 5; 4; 3; 2; 1; 0].
Definition join (separator : string) (l : list string) : string := String.concat separator l.
(** The first longest run of zeros: its start and its length. *)
Fixpoint zero_runs (i : nat) (current longest : nat * nat) (l : list Z) : nat * nat :=
  match l with
  | [] => longest
  | g :: l =>
      if g =? 0 then
        let current := (if (current.2 =? 0)%nat then i else current.1, S current.2) in
        zero_runs (S i) current (if (longest.2 <? current.2)%nat then current else longest) l
      else zero_runs (S i) (0, 0)%nat longest l
  end.
Definition ipv6_str (a : Z) : string :=
  if within (65535 * 2 ^ 32) (65535 * 2 ^ 32 + 2 ^ 32 - 1) a then "::ffff:" +:+ ipv4_str (Z.land a (2 ^ 32 - 1)) else
  let l := groups a in
  let (start, len) := zero_runs 0 (0, 0)%nat (0, 0)%nat l in
  if (1 <? len)%nat
  then join ":" (hex_group <$> take start l) +:+ "::" +:+ join ":" (hex_group <$> drop (start + len) l)
  else join ":" (hex_group <$> l).
Definition socket_str (a : SocketAddr) : string :=
  match a with
  | (V4 ip, port) => ipv4_str ip +:+ ":" +:+ pretty port
  | (V6 ip, port) => "[" +:+ ipv6_str ip +:+ "]:" +:+ pretty port
  end.
Example addresses :
  (socket_str (V4 (ipv4 127 0 0 1), 7432), socket_str (V6 1, 80), ipv6_str 0,
   ipv6_str (Z.shiftl 8193 112 + 5), ipv6_str (65535 * 2 ^ 32 + 258))
  = ("127.0.0.1:7432", "[::1]:80", "::", "2001::5", "::ffff:0.0.1.2")%string.
Proof. vm_compute. reflexivity. Qed.

(** [FromStr]: a reader takes what it can from the front of the text. *)
Definition Reader (A : Type) : Type := string → option (A * string).
#[export] Instance Reader_ret : MRet Reader := λ A a s, Some (a, s).
#[export] Instance Reader_bind : MBind Reader := λ A B f m s, '(a, s) ← m s; f a s.
Definition given (c : ascii) : Reader unit := λ s,
  match s with String a s => if bool_decide (a = c) then Some ((), s) else None | EmptyString => None end.
Definition failed {A} : Reader A := λ _, None.
Definition to_digit (radix : Z) (a : ascii) : option Z :=
  let c := code a in
  let d := if within 48 57 c then c - 48 else if within 97 122 c then c - 87
           else if within 65 90 c then c - 55 else radix in
  if d <? radix then Some d else None.
Fixpoint radix_digits (radix acc : Z) (n : nat) (s : string) : Z * nat * string :=
  match s with
  | String a s' => match to_digit radix a with
                   | Some d => radix_digits radix (radix * acc + d) (S n) s'
                   | None => (acc, n, s)
                   end
  | EmptyString => (acc, n, s)
  end.
(** [read_number]; [limit] is the maximum of the type. *)
Definition read_number (radix limit : Z) (max_digits : option nat) (zero_prefix : bool) : Reader Z := λ s,
  let '(z, n, rest) := radix_digits radix 0 0 s in
  if (n =? 0)%nat || (limit <? z) || match max_digits with Some m => (m <? n)%nat | None => false end
     || negb zero_prefix && (1 <? n)%nat && bool_decide (String.get 0 s = Some "0"%char)
  then None else Some (z, rest).
Definition separated {A} (c : ascii) (i : nat) (r : Reader A) : Reader A :=
  if (i =? 0)%nat then r else given c;; r.
Definition read_octet (i : nat) : Reader Z := separated "." i (read_number 10 255 (Some 3%nat) false).
Definition read_ipv4 : Reader Ipv4Addr :=
  a ← read_octet 0; b ← read_octet 1; c ← read_octet 2; d ← read_octet 3; mret (ipv4 a b c d).
(** [read_groups]: [n] groups at most, the [i]-th next; whether the last two
    are an IPv4 address. *)
Fixpoint read_groups (n i : nat) (s : string) : list Z * bool * string :=
  match n with
  | O => ([], false, s)
  | S n =>
      match (if (n =? 0)%nat then None else separated ":" i read_ipv4 s) with
      | Some (a, s) => ([Z.shiftr a 16; Z.land a 65535], true, s)
      | None =>
          match separated ":" i (read_number 16 65535 (Some 4%nat) true) s with
          | Some (g, s) => let '(l, v4, s) := read_groups n (S i) s in (g :: l, v4, s)
          | None => ([], false, s)
          end
      end
  end.
Definition of_groups (l : list Z) : Z := foldl (λ acc g, acc * 65536 + g) 0 l.
Definition read_ipv6 : Reader Z := λ s,
  let '(head, v4, s) := read_groups 8 0 s in
  if (length head =? 8)%nat then Some (of_groups head, s)
  else if v4 then None
  else
    '(_, s) ← (given ":";; given ":") s;
    let '(tail, _, s) := read_groups (7 - length head) 0 s in
    Some (of_groups (head ++ replicate (8 - length head - length tail) 0 ++ tail), s).
Definition read_port : Reader Z := given ":";; read_number 10 65535 None true.
(** A scope identifier is read and dropped: an address has none here. *)
Definition read_scope : Reader unit := λ s,
  match (given "%";; read_number 10 (2 ^ 32 - 1) None true) s with
  | Some (_, s) => Some ((), s)
  | None => Some ((), s)
  end.
Definition read_socket : Reader SocketAddr := λ s,
  match (ip ← read_ipv4; port ← read_port; mret (V4 ip, port)) s with
  | Some r => Some r
  | None => (given "[";; ip ← read_ipv6; read_scope;; given "]";; port ← read_port; mret (V6 ip, port)) s
  end.
Definition parse_socket (s : string) : Result SocketAddr :=
  match read_socket s with Some (a, EmptyString) => Ok a | _ => bail "invalid socket address syntax" end.
Example sockets :
  parse_socket <$> ["0.0.0.0:7432"; "[::1]:80"; "[2001::5]:7"; "[::ffff:1.2.3.4]:1"; "[1:2:3:4:5:6:7:8]:9"; "01.2.3.4:5";
                    "1.2.3.4:65536"; "1.2.3.4"; "[1::2::3]:4"]%string
  = [Ok (V4 0, 7432); Ok (V6 1, 80); Ok (V6 (Z.shiftl 8193 112 + 5), 7); Ok (V6 (65535 * 2 ^ 32 + ipv4 1 2 3 4), 1);
     Ok (V6 (of_groups [1; 2; 3; 4; 5; 6; 7; 8]), 9); bail "invalid socket address syntax";
     bail "invalid socket address syntax"; bail "invalid socket address syntax"; bail "invalid socket address syntax"].
Proof. vm_compute. reflexivity. Qed.
