(* ===== verification/Rounding.v ===== *)
(** * Rounding of [f64]

    What the operations of [SpecFloat] do to the magnitude of their results:
    rounding to nearest never crosses a double. Only doubles without a sign
    are needed, durations in fact. *)

From Stdlib Require Import Floats.SpecFloat.
From S2P Require Import Prelude.
From S2P Require Import Lists.
From S2P Require Import Float64.

(** ** Bits *)

Lemma digits2_log2 p : Z.pos (digits2_pos p) = Z.log2 (Z.pos p) + 1.
Proof.
  induction p as [p IH|p IH|]; cbn [digits2_pos]; [..|done].
  - rewrite Pos2Z.inj_succ, IH. change (Z.pos p~1) with (2 * Z.pos p + 1).
    rewrite Z.log2_succ_double by lia. lia.
  - rewrite Pos2Z.inj_succ, IH. change (Z.pos p~0) with (2 * Z.pos p). rewrite Z.log2_double by lia. lia.
Qed.
Definition digits (m : Z) : Z := Z.log2 m + 1.
Lemma digits_spec m : 0 < m → 2 ^ (digits m - 1) <= m < 2 ^ digits m.
Proof. intros Hm. unfold digits. replace (Z.log2 m + 1 - 1) with (Z.log2 m) by lia. by apply Z.log2_spec. Qed.
Lemma Zdigits2_digits m : 0 < m → Zdigits2 m = digits m.
Proof. destruct m as [|p|p]; intros H; [lia|apply digits2_log2|lia]. Qed.
Lemma digits_unique m d : 0 <= d - 1 → 2 ^ (d - 1) <= m < 2 ^ d → digits m = d.
Proof. intros Hd Hm. unfold digits. rewrite (Z.log2_unique m (d - 1)); [lia|lia|]. by replace (Z.succ (d - 1)) with d by lia. Qed.

(** ** The shift of a mantissa *)

Lemma iter_pos_iter {A} (f : A → A) p x : SpecFloat.iter_pos f p x = Nat.iter (Pos.to_nat p) f x.
Proof.
  revert x. induction p as [p IH|p IH|]; intros x; cbn [SpecFloat.iter_pos]; [..|done].
  - rewrite !IH, Pos2Nat.inj_xI, <-Nat.iter_succ_r.
    rewrite <-!Nat.iter_add. f_equal. lia.
  - rewrite !IH, Pos2Nat.inj_xO, <-!Nat.iter_add. f_equal. lia.
Qed.
Definition inexact (r : shr_record) : bool := shr_r r || shr_s r.
Lemma shr_1_spec r : 0 <= shr_m r →
  shr_m (shr_1 r) = shr_m r / 2 ∧ inexact (shr_1 r) = Z.odd (shr_m r) || inexact r.
Proof.
  destruct r as [m b s]. unfold inexact. cbn [shr_m shr_r shr_s]. intros Hm.
  destruct m as [|[p|p|]|p]; cbn [shr_1 shr_m shr_r shr_s]; try lia; (split; [|by destruct b, s]).
  - done.
  - change (Z.pos p~1) with (2 * Z.pos p + 1). by rewrite Z.add_comm, Z.mul_comm, Z.div_add.
  - change (Z.pos p~0) with (2 * Z.pos p). by rewrite Z.mul_comm, Z.div_mul.
  - done.
Qed.
Lemma shr_iter_spec n r : 0 <= shr_m r →
  shr_m (Nat.iter n shr_1 r) = shr_m r / 2 ^ Z.of_nat n
  ∧ (inexact (Nat.iter n shr_1 r) = true ↔ shr_m r mod 2 ^ Z.of_nat n ≠ 0 ∨ inexact r = true).
Proof.
  intros Hm. induction n as [|n [IH1 IH2]].
  { change (2 ^ Z.of_nat 0) with 1. rewrite Z.div_1_r, Z.mod_1_r. cbn. naive_solver. }
  rewrite Nat.iter_succ.
  assert (0 <= shr_m (Nat.iter n shr_1 r)) as Hn by (rewrite IH1; apply Z.div_pos; lia).
  destruct (shr_1_spec _ Hn) as [-> ->]. rewrite IH1, Nat2Z.inj_succ, Z.pow_succ_r by lia. split.
  - rewrite Z.div_div by lia. f_equal. lia.
  - rewrite orb_true_iff, IH2, (Z.mul_comm 2), Z.rem_mul_r by lia.
    rewrite Z.odd_spec. unfold Z.Odd. pose proof (Z.mod_pos_bound (shr_m r) (2 ^ Z.of_nat n) ltac:(lia)).
    pose proof (Z.mod_pos_bound (shr_m r / 2 ^ Z.of_nat n) 2 ltac:(lia)) as H2.
    pose proof (Z.div_mod (shr_m r / 2 ^ Z.of_nat n) 2 ltac:(lia)) as H3.
    set (q := shr_m r / 2 ^ Z.of_nat n) in *. set (w := shr_m r mod 2 ^ Z.of_nat n) in *.
    assert (0 < 2 ^ Z.of_nat n) as Hp by lia. set (pw := 2 ^ Z.of_nat n) in *. split.
    + intros [[k Hk]|[H4|H4]]; [left; assert (q mod 2 = 1) by lia; nia|left; nia|by right].
    + intros [H4|H4]; [|by right; right]. destruct (Z.eq_dec w 0) as [E|E]; [|by right; left].
      left. exists (q / 2). nia.
Qed.

(** ** Rounding *)

Definition exponent (m e : Z) : Z := Z.max (digits m + e - 53) (-1074).
Lemma fexp_digits m e : 0 < m → fexp 53 1024 (Zdigits2 m + e) = exponent m e.
Proof. intros Hm. rewrite Zdigits2_digits by done. unfold fexp, emin, exponent. lia. Qed.
Lemma inexact_loc m l : inexact (shr_record_of_loc m l) = true ↔ l ≠ loc_Exact.
Proof. by destruct l as [|[]]. Qed.
Lemma round_nearest_spec r :
  round_nearest_even (shr_m r) (loc_of_shr_record r) = shr_m r
  ∨ (inexact r = true ∧ round_nearest_even (shr_m r) (loc_of_shr_record r) = shr_m r + 1).
Proof. destruct r as [m [] []]; cbn; [|case_match|..]; auto. Qed.

Lemma shr_fexp_spec m e l : 0 < m → e <= exponent m e →
  ∃ r, shr_fexp 53 1024 m e l = (r, exponent m e)
  ∧ shr_m r = m / 2 ^ (exponent m e - e)
  ∧ (inexact r = true ↔ m mod 2 ^ (exponent m e - e) ≠ 0 ∨ l ≠ loc_Exact).
Proof.
  intros Hm He. unfold shr_fexp. rewrite fexp_digits by done.
  assert (shr_m (shr_record_of_loc m l) = m) as Hr by (by destruct l as [|[]]).
  unfold shr. destruct (exponent m e - e) as [|n|n] eqn:E; [| |lia].
  - exists (shr_record_of_loc m l). rewrite Hr, Z.div_1_r, Z.mod_1_r, inexact_loc.
    split_and!; [f_equal; lia|done|]. naive_solver.
  - rewrite iter_pos_iter. destruct (shr_iter_spec (Pos.to_nat n) (shr_record_of_loc m l)) as [H1 H2]; [lia|].
    rewrite positive_nat_Z, Hr, inexact_loc in *. eexists. split_and!; [f_equal; lia|done..].
Qed.
Lemma shr_fexp_small m e l : 0 < m → exponent m e <= e → shr_fexp 53 1024 m e l = (shr_record_of_loc m l, e).
Proof.
  intros Hm He. unfold shr_fexp. rewrite fexp_digits by done. unfold shr.
  destruct (exponent m e - e) eqn:E; [done|lia|done].
Qed.

(** A double without its sign: 53 bits, all of them used unless subnormal. *)
Definition canonical (m e : Z) : Prop := 0 < m < 2 ^ 53 ∧ -1074 <= e ∧ (e = -1074 ∨ 2 ^ 52 <= m).
(** The value of a finite double and its sign. *)
Definition double (sx : bool) (m e : Z) : f64 :=
  match m with
  | Z.pos p => if e <=? 971 then S754_finite sx p e else S754_infinity sx
  | _ => S754_zero sx
  end.

(** Rounding: to one of the two neighbours, the lower one if it is exact. *)
Lemma round_zero sx l :
  ∃ r, (r = 0 ∨ (r = 1 ∧ l ≠ loc_Exact)) ∧ binary_round_aux 53 1024 sx 0 (-1074) l = double sx r (-1074).
Proof.
  destruct l as [|[]]; [exists 0|exists 0|exists 0|exists 1]; (split; [auto|]); try done; by right.
Qed.
Lemma round_spec sx m e l :
  0 < m → e <= exponent m e →
  let e1 := exponent m e in
  ∃ r, (r = m / 2 ^ (e1 - e)
        ∨ (r = m / 2 ^ (e1 - e) + 1 ∧ (m mod 2 ^ (e1 - e) ≠ 0 ∨ l ≠ loc_Exact)))
  ∧ 0 <= r <= 2 ^ 53 ∧ (e1 = -1074 ∨ 2 ^ 52 <= r)
  ∧ binary_round_aux 53 1024 sx m e l = if r =? 2 ^ 53 then double sx (2 ^ 52) (e1 + 1) else double sx r e1.
Proof.
  intros Hm He e1. pose proof (digits_spec m Hm) as [Hd1 Hd2].
  destruct (shr_fexp_spec m e l Hm He) as (rec & E1 & E2 & E3). fold e1 in E1, E2, E3.
  assert (e1 - e >= digits m - 53 ∧ -1074 <= e1) as [Hge Hmin] by (unfold e1, exponent; lia).
  assert (1 <= digits m) as Hdig by (unfold digits; pose proof (Z.log2_nonneg m); lia).
  assert (0 <= shr_m rec < 2 ^ 53) as Hsm.
  { rewrite E2. split; [apply Z.div_pos; lia|]. apply Z.div_lt_upper_bound; [lia|].
    rewrite <-Z.pow_add_r by lia. eapply Z.lt_le_trans; [done|]. apply Z.pow_le_mono_r; lia. }
  assert (e1 = -1074 ∨ 2 ^ 52 <= shr_m rec) as Hcan.
  { destruct (Z.eq_dec e1 (-1074)); [by left|right]. rewrite E2. apply Z.div_le_lower_bound; [lia|].
    rewrite <-Z.pow_add_r by lia. etrans; [|exact Hd1]. apply Z.pow_le_mono_r; unfold e1, exponent in *; lia. }
  set (r := round_nearest_even (shr_m rec) (loc_of_shr_record rec)). exists r.
  assert (r = shr_m rec ∨ (r = shr_m rec + 1 ∧ inexact rec = true)) as Hr.
  { unfold r. destruct (round_nearest_spec rec) as [->|[? ->]]; auto. }
  assert (0 <= r <= 2 ^ 53) as Hrb by lia.
  split_and!.
  - rewrite <-E2. destruct Hr as [->|[-> H]]; [by left|right]. split; [done|by apply E3].
  - lia.
  - lia.
  - destruct Hcan; [by left|right; lia].
  - unfold binary_round_aux. rewrite E1. fold r. destruct (Z.eqb_spec r (2 ^ 53)) as [Er|Er].
    + rewrite Er. assert (exponent (2 ^ 53) e1 = e1 + 1) as Ee.
      { unfold exponent. rewrite (digits_unique (2 ^ 53) 54) by lia. lia. }
      destruct (shr_fexp_spec (2 ^ 53) e1 loc_Exact) as (rec2 & -> & E5 & _); [lia|lia|].
      rewrite Ee in E5 |- *. replace (e1 + 1 - e1) with 1 in E5 by lia. rewrite E5. done.
    + destruct (Z.eq_dec r 0) as [E0|E0].
      * rewrite E0. unfold shr_fexp. cbn [Zdigits2]. unfold shr, fexp, emin.
        destruct (Z.max (0 + e1 - 53) (3 - 1024 - 53) - e1) eqn:Es; [done|lia|done].
      * rewrite shr_fexp_small; [|lia|].
        { destruct r as [|p|p]; [done| |lia]. cbn. done. }
        assert (digits r <= 53). { unfold digits. assert (Z.log2 r < 53); [|lia]. apply Z.log2_lt_pow2; lia. }
        unfold exponent. lia.
Qed.

(** ** Magnitudes

    [m * 2^e], on a scale that makes every exponent of interest positive. *)
Definition scaled (m e : Z) : Z := m * 2 ^ (e + 4000).
Definition SCALE : Z := 2 ^ 4000.
Lemma SCALE_pos : 0 < SCALE.
Proof. by apply Z.pow_pos_nonneg. Qed.
Lemma SCALE_plus e : -4000 <= e → 2 ^ (e + 4000) * SCALE = 2 ^ (e + 8000).
Proof. intros He. unfold SCALE. rewrite <-Z.pow_add_r by lia. f_equal. lia. Qed.
Lemma scaled_shift m e n : 0 <= n → -4000 <= e → scaled m (e + n) = scaled (m * 2 ^ n) e.
Proof.
  intros Hn He. unfold scaled. replace (e + n + 4000) with (n + (e + 4000)) by lia.
  rewrite Z.pow_add_r by lia. lia.
Qed.
Lemma scaled_le m n e : -4000 <= e → scaled m e <= scaled n e ↔ m <= n.
Proof. intros He. unfold scaled. assert (0 < 2 ^ (e + 4000)) by lia. nia. Qed.
Lemma scaled_exponents m e b f d :
  -4000 <= e → 2 ^ (digits m - 1) <= m → 1 <= digits m → 0 <= d → b < 2 ^ d → -4000 <= f →
  scaled m e <= scaled b f → digits m + e <= d + f.
Proof.
  intros He Hm Hdm Hd Hb Hf H. unfold scaled in H.
  assert (2 ^ (digits m - 1 + (e + 4000)) < 2 ^ (d + (f + 4000))) as Hlt.
  { rewrite (Z.pow_add_r 2 _ (e + 4000)), (Z.pow_add_r 2 d) by lia.
    eapply Z.le_lt_trans; [|eapply Z.le_lt_trans; [exact H|]].
    - apply Z.mul_le_mono_nonneg_r; lia.
    - apply Z.mul_lt_mono_pos_r; lia. }
  apply Z.pow_lt_mono_r_iff in Hlt; lia.
Qed.

(** Rounding crosses no double: neither the upper bound [b * 2^f] nor a lower
    bound on the grid of the result. *)
Lemma round_between sx m e l b f :
  0 < m ∨ (m = 0 ∧ e = -1074) → -4000 <= e <= exponent m e → 0 < b < 2 ^ 53 → -1074 <= f <= 900 →
  scaled m e <= scaled b f → (l ≠ loc_Exact → scaled (m + 1) e <= scaled b f) →
  ∃ p k, (p = 0 ∨ canonical p k) ∧ -1074 <= k <= 971
  ∧ binary_round_aux 53 1024 sx m e l = double sx p k
  ∧ 0 <= scaled p k <= scaled b f
  ∧ ∀ c g, exponent m e <= g → scaled c g <= scaled m e → scaled c g <= scaled p k.
Proof.
  intros [Hm|[-> ->]] He Hb Hf Hv Hl.
  2: { destruct (round_zero sx l) as (r & Hr & ->). exists r, (-1074). split_and!; try done; try lia.
       - destruct Hr as [->|[-> _]]; [by left|right; split_and!; lia].
       - destruct Hr as [->|[-> _]]; unfold scaled; [done|lia].
       - destruct Hr as [->|[-> H]]; [done|by apply Hl].
       - intros c g _ Hc. etrans; [exact Hc|]. apply scaled_le; [lia|]. destruct Hr as [->|[-> _]]; lia. }
  destruct (round_spec sx m e l Hm) as (r & Hr & Hrb & Hcan & ->); [lia|].
  pose proof (digits_spec m Hm) as [Hd _].
  assert (1 <= digits m) as Hdig by (unfold digits; pose proof (Z.log2_nonneg m); lia).
  pose proof (scaled_exponents m e b f 53 ltac:(lia) Hd Hdig ltac:(lia) ltac:(lia) ltac:(lia) Hv) as Hexp.
  assert (exponent m e <= f) as He1 by (unfold exponent; lia).
  assert (-1074 <= exponent m e) as Hmin by (unfold exponent; lia).
  set (e1 := exponent m e) in *. set (n := e1 - e) in *.
  assert (0 < 2 ^ n) as Hn by lia.
  pose proof (Z.div_mod m (2 ^ n) ltac:(lia)) as Hdm. pose proof (Z.mod_pos_bound m (2 ^ n) Hn) as Hmod.
  (* everything at exponent [e] *)
  assert (∀ x g, e1 <= g → scaled x g = scaled (x * 2 ^ (g - e1) * 2 ^ n) e) as Hgrid.
  { intros x g Hg. replace g with (e + (n + (g - e1))) at 1 by lia.
    rewrite scaled_shift, Z.pow_add_r by lia. f_equal. lia. }
  rewrite (Hgrid b f) in Hv, Hl by lia. rewrite !scaled_le in Hv, Hl by lia.
  set (q := m / 2 ^ n) in *. set (w := m mod 2 ^ n) in *. set (bi := b * 2 ^ (f - e1)) in *.
  assert (r <= bi) as Hrbi.
  { destruct Hr as [->|[-> [Hw|Hw]]]; [nia|nia|]. specialize (Hl Hw). nia. }
  assert (scaled r e1 <= scaled b f) as Hup.
  { rewrite (Hgrid b f), (Hgrid r e1) by lia. rewrite scaled_le by lia. fold bi.
    rewrite Z.sub_diag, Z.pow_0_r. nia. }
  assert (∀ c g, e1 <= g → scaled c g <= scaled m e → scaled c g <= scaled r e1) as Hlow.
  { intros c g Hg. rewrite (Hgrid c g), (Hgrid r e1), !scaled_le by lia.
    rewrite Z.sub_diag, Z.pow_0_r. set (ci := c * 2 ^ (g - e1)). intros Hc.
    assert (ci <= q) by (apply Z.div_le_lower_bound; lia). destruct Hr as [->|[-> _]]; nia. }
  assert (0 <= scaled r e1) as Hnn by (unfold scaled; apply Z.mul_nonneg_nonneg; lia).
  destruct (Z.eqb_spec r (2 ^ 53)) as [Er|Er].
  - exists (2 ^ 52), (e1 + 1). assert (scaled (2 ^ 52) (e1 + 1) = scaled r e1) as Es.
    { rewrite scaled_shift by lia. rewrite Er. f_equal. }
    rewrite Es. split_and!; try done; try lia.
    right. split_and!; [lia|lia|lia|right; lia].
  - exists r, e1. split_and!; try done; try lia.
    destruct (Z.eq_dec r 0); [by left|right]. split_and!; lia.
Qed.

(** ** Operations on doubles up to a bound *)

(** [0 <= x <= b * 2^f]. *)
Definition upto (b f : Z) (x : f64) : Prop :=
  match x with
  | S754_zero _ => True
  | S754_finite false m e => canonical (Z.pos m) e ∧ e <= 971 ∧ scaled (Z.pos m) e <= scaled b f
  | _ => False
  end.
Definition bound (b f : Z) : Prop := 0 < b < 2 ^ 53 ∧ -1074 <= f <= 900.

Lemma upto_double sx p k b f :
  p = 0 ∨ canonical p k → k <= 971 → scaled p k <= scaled b f → upto b f (SFabs (double sx p k)).
Proof.
  intros Hp Hk Hs. unfold double. destruct p as [|p|p]; [done| |done].
  rewrite (proj2 (Z.leb_le _ _) Hk). cbn. destruct Hp; [done|]. done.
Qed.
Lemma upto_double_pos p k b f :
  p = 0 ∨ canonical p k → k <= 971 → scaled p k <= scaled b f → upto b f (double false p k).
Proof. intros Hp Hk Hs. pose proof (upto_double false p k b f Hp Hk Hs). revert H. unfold double. by repeat case_match. Qed.
Lemma upto_mono b f c g x : scaled b f <= scaled c g → upto b f x → upto c g x.
Proof. intros Hs. unfold upto. repeat case_match; try done. intros (? & ? & ?). split_and!; [done..|lia]. Qed.

Lemma shl_iter m d : Z.pos (Pos.iter xO m d) = Z.pos m * 2 ^ Z.pos d.
Proof.
  induction d as [|d IH] using Pos.peano_ind; [change (2 * Z.pos m = Z.pos m * 2); lia|].
  rewrite Pos.iter_succ, Pos2Z.inj_succ, Z.pow_succ_r by lia.
  change (Z.pos (Pos.iter xO m d)~0) with (2 * Z.pos (Pos.iter xO m d)). lia.
Qed.
Lemma digits_shift m d : 0 < m → 0 <= d → digits (m * 2 ^ d) = digits m + d.
Proof. intros Hm Hd. unfold digits. rewrite Z.log2_mul_pow2 by lia. lia. Qed.

Lemma binary_round_between sx m e b f :
  bound b f → -1074 <= e → scaled (Z.pos m) e <= scaled b f →
  ∃ p k, binary_round 53 1024 sx m e = double sx p k
  ∧ (p = 0 ∨ canonical p k) ∧ k <= 971 ∧ scaled p k <= scaled b f.
Proof.
  intros [Hb Hf] He Hs. unfold binary_round. change (Z.pos (digits2_pos m)) with (Zdigits2 (Z.pos m)).
  rewrite fexp_digits by lia. unfold shl_align.
  assert (∀ mz ez, -1074 <= ez <= exponent (Z.pos mz) ez → scaled (Z.pos mz) ez <= scaled b f →
    ∃ p k, binary_round_aux 53 1024 sx (Z.pos mz) ez loc_Exact = double sx p k
    ∧ (p = 0 ∨ canonical p k) ∧ k <= 971 ∧ scaled p k <= scaled b f) as Haux.
  { intros mz ez Hez Hsz. destruct (round_between sx (Z.pos mz) ez loc_Exact b f) as (p & k & H1 & H2 & H3 & H4 & _);
      [lia|lia|done|done|done|done|]. exists p, k. split_and!; [done|done|lia|lia]. }
  destruct (exponent (Z.pos m) e - e) as [|d|d] eqn:E; apply Haux; try done; try lia.
  - rewrite shl_iter. unfold exponent in *. rewrite digits_shift by lia. lia.
  - rewrite shl_iter. rewrite <-(scaled_shift (Z.pos m)) by (unfold exponent in *; lia).
    by replace (exponent (Z.pos m) e + Z.pos d) with e by lia.
Qed.

Lemma align_spec m e k : k <= e → Z.pos (shl_align m e k).1 = Z.pos m * 2 ^ (e - k).
Proof.
  intros Hk. unfold shl_align. destruct (k - e) as [|d|d] eqn:E; cbn [fst]; [|lia|].
  - replace (e - k) with 0 by lia. lia.
  - rewrite shl_iter. do 2 f_equal. lia.
Qed.
Lemma scaled_align m e k : k <= e → -4000 <= k → scaled (Z.pos (shl_align m e k).1) k = scaled (Z.pos m) e.
Proof. intros Hk Hl. rewrite align_spec by done. rewrite <-scaled_shift by lia. f_equal. lia. Qed.
Lemma scaled_plus m n e : scaled (m + n) e = scaled m e + scaled n e.
Proof. unfold scaled. lia. Qed.

(** A sum of doubles. *)
Lemma upto_add b c f x y : bound (b + c) f → 0 < b → 0 < c → upto b f x → upto c f y → upto (b + c) f (f64_add x y).
Proof.
  intros Hbc Hb Hc Hx Hy. unfold f64_add.
  assert (scaled b f <= scaled (b + c) f ∧ scaled c f <= scaled (b + c) f) as [Hb' Hc'].
  { destruct Hbc as [_ Hf]. rewrite !scaled_le by lia. lia. }
  destruct x as [[]| | |[] mx ex], y as [[]| | |[] my ey]; try done;
    try (by eapply upto_mono; [|exact Hx]); try (by eapply upto_mono; [|exact Hy]).
  destruct Hx as ((Hmx & Hex & _) & _ & Hsx), Hy as ((Hmy & Hey & _) & _ & Hsy). unfold SFadd. cbn [cond_Zopp].
  destruct (Z.pos _ + Z.pos _) as [|p|p] eqn:Ep; [lia| |lia]. cbn [binary_normalize].
  destruct (binary_round_between false p (Z.min ex ey) (b + c) f Hbc) as (q & k & -> & H1 & H2 & H3).
  - lia.
  - rewrite <-Ep, !scaled_plus, !scaled_align by lia. unfold scaled in *. lia.
  - by apply upto_double_pos.
Qed.
(** The distance of two doubles. *)
Lemma upto_distance b f x y : bound b f → upto b f x → upto b f y → upto b f (f64_abs (f64_sub x y)).
Proof.
  intros Hb Hx Hy. unfold f64_abs, f64_sub.
  destruct x as [[]| | |[] mx ex], y as [[]| | |[] my ey]; try done.
  destruct Hx as ((Hmx & Hex & _) & _ & Hsx), Hy as ((Hmy & Hey & _) & _ & Hsy). unfold SFsub. cbn [cond_Zopp].
  rewrite <-(scaled_align mx ex (Z.min ex ey)) in Hsx by lia.
  rewrite <-(scaled_align my ey (Z.min ex ey)) in Hsy by lia.
  assert (0 < 2 ^ (Z.min ex ey + 4000)) as Hpow by lia.
  destruct (Z.pos _ - Z.pos _) as [|p|p] eqn:Ep; [done|..]; cbn [binary_normalize].
  - destruct (binary_round_between false p (Z.min ex ey) b f Hb) as (q & k & -> & H1 & H2 & H3);
      [lia| |by apply upto_double].
    etrans; [|exact Hsx]. apply scaled_le; lia.
  - destruct (binary_round_between true p (Z.min ex ey) b f Hb) as (q & k & -> & H1 & H2 & H3);
      [lia| |by apply upto_double].
    etrans; [|exact Hsy]. apply scaled_le; lia.
Qed.
Lemma scaled_times m n e k :
  -4000 <= e → -4000 <= k → -4000 <= e + k →
  scaled (m * n) (e + k) * SCALE = scaled m e * scaled n k.
Proof.
  intros He Hk Hek. unfold scaled.
  assert (2 ^ (e + k + 4000) * SCALE = 2 ^ (e + 4000) * 2 ^ (k + 4000)) as E.
  { rewrite SCALE_plus, <-Z.pow_add_r by lia. f_equal. lia. }
  transitivity (m * n * (2 ^ (e + k + 4000) * SCALE)); [lia|]. rewrite E. lia.
Qed.
(** A product with the normal double [c * 2^g]. *)
Lemma upto_mul b f c g my ey x :
  bound (b * c) (f + g) → 0 < c → -4000 <= g → 0 < b → -4000 <= f → 2 ^ 52 <= Z.pos my → -1074 <= ey →
  scaled (Z.pos my) ey = scaled c g → upto b f x → upto (b * c) (f + g) (f64_mul (S754_finite false my ey) x).
Proof.
  intros Hbc Hc Hg Hb Hf Hmy Hey Hs Hx. unfold f64_mul.
  destruct x as [[]| | |[] mx ex]; try done.
  destruct Hx as ((Hmx & Hex & _) & _ & Hsx). unfold SFmul. cbn [xorb].
  destruct Hbc as [Hbc Hfg].
  destruct (round_between false (Z.pos (my * mx)) (ey + ex) loc_Exact (b * c) (f + g)) as (p & k & H1 & H2 & -> & H4 & _).
  - lia.
  - split; [lia|]. unfold exponent. assert (53 <= digits (Z.pos (my * mx))); [|lia].
    unfold digits. assert (52 <= Z.log2 (Z.pos (my * mx))); [|lia]. apply Z.log2_le_pow2; nia.
  - done.
  - done.
  - apply (Z.mul_le_mono_pos_r _ _ SCALE); [apply SCALE_pos|].
    rewrite Pos2Z.inj_mul, !scaled_times, Hs by lia.
    assert (0 <= scaled c g) by (unfold scaled; apply Z.mul_nonneg_nonneg; lia).
    rewrite (Z.mul_comm (scaled b f)). by apply Z.mul_le_mono_nonneg_l.
  - done.
  - apply upto_double_pos; [done|lia|lia].
Qed.

(** ** Quotients *)

Lemma new_location_exact d r : new_location d r ≠ loc_Exact ↔ r ≠ 0.
Proof.
  unfold new_location, new_location_even, new_location_odd.
  destruct (Z.even d), (Z.eqb_spec r 0); split; intros; congruence || done.
Qed.
Lemma div_core m1 e1 m2 e2 :
  canonical m1 e1 → 2 ^ 52 <= m2 < 2 ^ 53 → e2 <= 0 →
  let e := Z.max (digits m1 + e1 - (53 + e2) - 53) (-1074) in
  let s := e1 - e2 - e in
  ∃ q l, SFdiv_core_binary 53 1024 m1 e1 m2 e2 = (q, e, l)
  ∧ 0 <= s ∧ (0 < q ∨ (q = 0 ∧ e = -1074)) ∧ e <= exponent q e
  ∧ q * m2 <= m1 * 2 ^ s < (q + 1) * m2 ∧ (l ≠ loc_Exact ↔ q * m2 < m1 * 2 ^ s).
Proof.
  intros ([Hm1 Hm1'] & He1 & Hc) Hm2 He2 e s.
  assert (digits m2 = 53) as Hd2 by (apply digits_unique; lia).
  pose proof (digits_spec m1 Hm1) as [Hd Hd']. assert (1 <= digits m1 <= 53) as Hdig.
  { unfold digits. pose proof (Z.log2_nonneg m1). assert (Z.log2 m1 < 53); [apply Z.log2_lt_pow2; lia|lia]. }
  assert (0 <= s) as Hs by (unfold s, e; lia).
  unfold SFdiv_core_binary. rewrite !Zdigits2_digits, Hd2 by lia.
  replace (Z.min (fexp 53 1024 (digits m1 + e1 - (53 + e2))) (e1 - e2)) with e
    by (unfold fexp, emin, e; lia).
  fold s. replace (match s with Z0 => m1 | Z.pos _ => Z.shiftl m1 s | Z.neg _ => 0 end) with (m1 * 2 ^ s).
  2: { destruct s as [|p|p]; [lia|by rewrite Z.shiftl_mul_pow2 by lia|lia]. }
  pose proof (Z_div_mod (m1 * 2 ^ s) m2 ltac:(lia)) as Hqr.
  destruct (Z.div_eucl (m1 * 2 ^ s) m2) as [q r]. destruct Hqr as [E Hr].
  assert (0 < 2 ^ s) as Hps by lia.
  exists q, (new_location m2 r). split_and!; [done|done| | |nia|nia|rewrite new_location_exact; nia].
  - assert (0 <= q) by nia. destruct (Z.eq_dec q 0) as [->|]; [right|left; lia]. split; [done|].
    assert (¬ -1074 < e) as Hn; [|unfold e in *; lia]. intros Hlt.
    assert (2 ^ 105 <= m1 * 2 ^ s); [|lia].
    transitivity (2 ^ (digits m1 - 1) * 2 ^ s); [|nia]. rewrite <-Z.pow_add_r by lia.
    apply Z.pow_le_mono_r; unfold s, e in *; lia.
  - destruct (Z.le_gt_cases e (-1074)) as [|Hlt]; [unfold exponent; lia|].
    assert (2 ^ 105 <= m1 * 2 ^ s) as Hbig.
    { transitivity (2 ^ (digits m1 - 1) * 2 ^ s); [|nia]. rewrite <-Z.pow_add_r by lia.
      apply Z.pow_le_mono_r; unfold s, e in *; lia. }
    assert (2 ^ 52 <= q) as Hq by nia.
    assert (53 <= digits q); [|unfold exponent; lia]. unfold digits.
    assert (52 <= Z.log2 q); [apply Z.log2_le_pow2; lia|lia].
Qed.

(** The quotient by the normal double [m2 * 2^e2 = c * 2^g]: up to
    [b * 2^f / (c * 2^g) = b1 * 2^f1], and not below what is on its grid. *)
Lemma div_range m1 e1 m2 e2 b f c g b1 f1 :
  canonical m1 e1 → 2 ^ 52 <= m2 < 2 ^ 53 → -1000 <= e2 <= 0 → bound b f → bound b1 f1 →
  scaled m2 e2 = scaled c g → -4000 <= g → f - e2 - 53 <= f1 →
  scaled m1 e1 <= scaled b f → scaled b f * SCALE = scaled b1 f1 * scaled c g →
  ∃ q e l p k, SFdiv_core_binary 53 1024 m1 e1 m2 e2 = (q, e, l)
  ∧ binary_round_aux 53 1024 false q e l = double false p k
  ∧ (p = 0 ∨ canonical p k) ∧ -1074 <= k <= 971 ∧ 0 <= scaled p k <= scaled b1 f1
  ∧ ∀ d c1 g1, 0 <= d → b1 < 2 ^ d → -1074 <= g1 → d + f1 - 53 <= g1 →
      scaled c1 g1 * scaled c g <= scaled m1 e1 * SCALE → scaled c1 g1 <= scaled p k.
Proof.
  intros Hx Hm2 He2 Hb Hb1 Hy Hg Hf Hxb Hbb.
  destruct (div_core m1 e1 m2 e2 Hx Hm2 ltac:(lia)) as (q & l & E & Hs & Hq & He & [Hlo Hhi] & Hl).
  destruct Hx as ([Hm1 _] & He1 & _). pose proof (digits_spec m1 Hm1) as [Hd _].
  assert (1 <= digits m1) as Hdig by (unfold digits; pose proof (Z.log2_nonneg m1); lia).
  destruct Hb as [Hb Hbf], Hb1 as [Hb1 Hbf1].
  pose proof (scaled_exponents m1 e1 b f 53 ltac:(lia) Hd Hdig ltac:(lia) ltac:(lia) ltac:(lia) Hxb) as Hexp.
  set (e := Z.max _ (-1074)) in *. set (s := e1 - e2 - e) in *.
  assert (e <= f1) as Hef by (unfold e; lia). assert (-1074 <= e) as Hem by (unfold e; lia).
  (* a bound on the dividend is a bound on the quotient *)
  assert (∀ x h, e <= h → scaled x h * scaled c g = x * 2 ^ (h - e) * m2 * 2 ^ (e + 4000) * 2 ^ (e2 + 4000)) as Hxh.
  { intros x h Hh. rewrite <-Hy. replace h with (e + (h - e)) at 1 by lia.
    rewrite scaled_shift by lia. unfold scaled. lia. }
  assert (scaled m1 e1 * SCALE = m1 * 2 ^ s * 2 ^ (e + 4000) * 2 ^ (e2 + 4000)) as Hx1.
  { unfold scaled. transitivity (m1 * (2 ^ (e1 + 4000) * SCALE)); [lia|].
    transitivity (m1 * (2 ^ s * 2 ^ (e + 4000) * 2 ^ (e2 + 4000))); [|lia]. f_equal.
    rewrite SCALE_plus, <-!Z.pow_add_r by lia. f_equal. unfold s. lia. }
  assert (0 < 2 ^ (e + 4000) * 2 ^ (e2 + 4000)) as Hpp by (apply Z.mul_pos_pos; apply Z.pow_pos_nonneg; lia).
  pose proof SCALE_pos.
  assert (m1 * 2 ^ s <= b1 * 2 ^ (f1 - e) * m2) as Hupper.
  { apply (Z.mul_le_mono_pos_r _ _ (2 ^ (e + 4000) * 2 ^ (e2 + 4000))); [done|].
    rewrite !Z.mul_assoc, <-Hx1, <-(Hxh b1 f1) by lia. rewrite <-Hbb. by apply Z.mul_le_mono_pos_r. }
  assert (∀ x, x <= b1 * 2 ^ (f1 - e) → scaled x e <= scaled b1 f1) as Hgrid.
  { intros x Hxx. replace f1 with (e + (f1 - e)) by lia. rewrite scaled_shift by lia. by apply scaled_le; lia. }
  assert (scaled q e <= scaled b1 f1) as Hq1 by (apply Hgrid; nia).
  assert (l ≠ loc_Exact → scaled (q + 1) e <= scaled b1 f1) as Hq2 by (intros Hne%Hl; apply Hgrid; nia).
  destruct (round_between false q e l b1 f1 Hq ltac:(lia) Hb1 Hbf1 Hq1 Hq2) as (p & k & H1 & H2 & H3 & H4 & H5).
  exists q, e, l, p, k. split_and!; try done; try lia.
  intros d c1 g1 Hd0 Hbd Hg1 Hdg Hc. assert (exponent q e <= g1) as Heq.
  { destruct Hq as [Hq|[-> ->]]; [|unfold exponent, digits; cbn; lia].
    pose proof (digits_spec q Hq) as [Hdq _]. assert (1 <= digits q) by (unfold digits; pose proof (Z.log2_nonneg q); lia).
    pose proof (scaled_exponents q e b1 f1 d ltac:(lia) Hdq ltac:(lia) Hd0 Hbd ltac:(lia) Hq1). unfold exponent. lia. }
  apply H5; [done|]. assert (e <= g1) as Heg by lia.
  rewrite (Hxh c1 g1 Heg), Hx1 in Hc. rewrite <-!(Z.mul_assoc _ (2 ^ (e + 4000))) in Hc.
  apply (Z.mul_le_mono_pos_r _ _ _ Hpp) in Hc.
  replace g1 with (e + (g1 - e)) by lia. rewrite scaled_shift by lia. apply scaled_le; [lia|]. nia.
Qed.
Lemma upto_div b f c g b1 f1 m2 e2 x :
  bound b f → bound b1 f1 → 2 ^ 52 <= Z.pos m2 < 2 ^ 53 → -1000 <= e2 <= 0 →
  scaled (Z.pos m2) e2 = scaled c g → -4000 <= g → f - e2 - 53 <= f1 →
  scaled b f * SCALE = scaled b1 f1 * scaled c g →
  upto b f x → upto b1 f1 (f64_div x (S754_finite false m2 e2)).
Proof.
  intros Hb Hb1 Hm2 He2 Hy Hg Hf Hbb Hx. unfold f64_div.
  destruct x as [[]| | |[] m1 e1]; try done. destruct Hx as (Hx & _ & Hs). unfold SFdiv. cbn [xorb].
  destruct (div_range (Z.pos m1) e1 (Z.pos m2) e2 b f c g b1 f1) as (q & e & l & p & k & -> & -> & H1 & H2 & H3 & _);
    try done. apply upto_double_pos; [done|lia|lia].
Qed.

(** Products are symmetric. *)
Lemma f64_mul_comm x y : f64_mul x y = f64_mul y x.
Proof.
  unfold f64_mul. destruct x as [sx|sx| |sx mx ex], y as [sy|sy| |sy my ey]; cbn; try done; try by rewrite xorb_comm.
  by rewrite xorb_comm, Pos.mul_comm, Z.add_comm.
Qed.
(** A number as a double. *)
Lemma upto_of_u64 z b f : bound b f → 0 <= z → scaled z 0 <= scaled b f → upto b f (f64_of_u64 z).
Proof.
  intros Hb Hz Hs. unfold f64_of_u64. destruct z as [|p|p]; [done| |lia]. cbn [binary_normalize].
  destruct (binary_round_between false p 0 b f Hb) as (q & k & -> & H1 & H2 & H3); [lia|done|].
  by apply upto_double_pos.
Qed.

(** ** Order *)

Lemma canonical_lt m1 e1 m2 e2 :
  canonical (Z.pos m1) e1 → canonical (Z.pos m2) e2 →
  f64_lt (S754_finite false m1 e1) (S754_finite false m2 e2) = true ↔ scaled (Z.pos m1) e1 < scaled (Z.pos m2) e2.
Proof.
  assert (∀ m1 e1 m2 e2, canonical m1 e1 → canonical m2 e2 → e1 < e2 → scaled m1 e1 < scaled m2 e2) as Hlt.
  { intros n1 k1 n2 k2 ([? ?] & ? & _) (? & ? & ?) Hk. replace k2 with (k1 + (k2 - k1)) by lia.
    rewrite scaled_shift by lia. assert (2 ^ 1 <= 2 ^ (k2 - k1)) by (apply Z.pow_le_mono_r; lia).
    unfold scaled. apply Z.mul_lt_mono_pos_r; [apply Z.pow_pos_nonneg; lia|]. nia. }
  intros H1 H2. unfold f64_lt, SFltb, SFcompare. destruct (Z.compare_spec e1 e2) as [->|Hc|Hc].
  - change (Pos.compare_cont Eq m1 m2) with (Pos.compare m1 m2).
    assert (-1074 <= e2) by apply H2. unfold scaled. rewrite <-Z.mul_lt_mono_pos_r by (apply Z.pow_pos_nonneg; lia).
    change (Z.pos m1 < Z.pos m2) with ((m1 ?= m2)%positive = Lt). by destruct (m1 ?= m2)%positive.
  - split; [|done]. intros _. by apply Hlt.
  - split; [done|]. pose proof (Hlt _ _ _ _ H2 H1 Hc). lia.
Qed.
