(* ===== verification/Externals.v ===== *)
(** * Third-party code the runtime calls

    The crates [blake3], [hmac]/[sha2], [hex] and the [Display] of [uuid] are
    not part of the repository. Each is a class of operations with the laws
    its documentation states; the development is parametric in them. The
    [Toy] instances show that the laws can hold and make the witnesses
    executable. *)

From S2P Require Import Prelude.
From S2P Require Import Lists.
From S2P Require Import Bytes.

(** ** [blake3]: one-shot and incremental hashing *)
Class Blake3 := {
  blake3_hash : list byte → list byte;
  Hasher : Type;
  hasher_new : Hasher;
  hasher_update : Hasher → list byte → Hasher;
  hasher_finalize : Hasher → list byte;
  hash_to_hex : list byte → string;
}.
Class Blake3Laws `{!Blake3} : Prop := {
  blake3_hash_length : ∀ b, length (blake3_hash b) = 32%nat;
  hasher_finalize_updates : ∀ cs,
    hasher_finalize (fold_left hasher_update cs hasher_new) = blake3_hash (mjoin cs);
  hash_to_hex_inj : ∀ a b, length a = length b → hash_to_hex a = hash_to_hex b → a = b;
}.

(** ** [hmac::Hmac<Sha256>]: key, message, 32-byte tag *)
Class Hmac := { hmac_sha256 : list byte → list byte → list byte }.
Class HmacLaws `{!Hmac} : Prop := {
  hmac_length : ∀ k m, length (hmac_sha256 k m) = 32%nat;
}.

(** ** [hex]: [hex::encode] and [hex::decode] *)
Class Hex := {
  hex_encode : list byte → string;
  hex_decode : string → Result (list byte);
}.
Class HexLaws `{!Hex} : Prop := { hex_decode_encode : ∀ b, hex_decode (hex_encode b) = Ok b }.

(** ** [uuid]: the hyphenated lower-case text of an identifier *)
Class UuidText := { uuid_str : Uuid → string }.
Class UuidTextLaws `{!UuidText} : Prop := {
  uuid_str_length : ∀ u, is_uuid u → String.length (uuid_str u) = 36%nat;
  uuid_str_inj : ∀ u v, is_uuid u → is_uuid v → uuid_str u = uuid_str v → u = v;
}.

(** ** Executable instances *)
Module Toy.

Definition digit (z : Z) : Ascii.ascii :=
  Ascii.ascii_of_N (Z.to_N (if z <? 10 then 48 + z else 87 + z)).
Definition undigit (a : Ascii.ascii) : Z :=
  let n := Z.of_N (Ascii.N_of_ascii a) in if n <? 58 then n - 48 else n - 87.

(** [n] lower-case hexadecimal digits. *)
Fixpoint to_hex (n : nat) (z : Z) : string :=
  match n with
  | O => EmptyString
  | S n => String (digit (z / 16 ^ Z.of_nat n mod 16)) (to_hex n z)
  end.
Fixpoint of_hex (s : string) (acc : Z) : Z :=
  match s with
  | EmptyString => acc
  | String a s => of_hex s (16 * acc + undigit a)
  end.

Lemma undigit_digit z : 0 <= z < 16 → undigit (digit z) = z.
Proof.
  intros. unfold undigit, digit. rewrite Ascii.N_ascii_embedding by (case_match; lia).
  case_match; case_match; bprop; lia.
Qed.
Lemma to_hex_length n z : String.length (to_hex n z) = n.
Proof. induction n; cbn; congruence. Qed.
Lemma of_hex_to_hex n z acc : of_hex (to_hex n z) acc = acc * 16 ^ Z.of_nat n + z mod 16 ^ Z.of_nat n.
Proof.
  revert acc. induction n as [|n IH]; intros acc; cbn [to_hex of_hex].
  - rewrite Z.pow_0_r, Z.mod_1_r. lia.
  - rewrite IH, undigit_digit by (apply Z.mod_pos_bound; lia).
    rewrite Nat2Z.inj_succ, Z.pow_succ_r, (Z.mul_comm 16 (16 ^ _)) by lia.
    rewrite Z.rem_mul_r by lia. lia.
Qed.
Lemma to_hex_inj n a b : 0 <= a < 16 ^ Z.of_nat n → 0 <= b < 16 ^ Z.of_nat n →
  to_hex n a = to_hex n b → a = b.
Proof.
  intros Ha Hb H. pose proof (of_hex_to_hex n a 0) as Ea. pose proof (of_hex_to_hex n b 0) as Eb.
  rewrite H in Ea. rewrite !Z.mod_small in * by lia. lia.
Qed.

Definition bytes_to_hex (l : list byte) : string := to_hex (2 * length l) (be_val l).
Definition hex_to_bytes (s : string) : Result (list byte) :=
  Ok (be_bytes (Nat.div2 (String.length s)) (of_hex s 0)).

Lemma pow_256_16 n : 256 ^ Z.of_nat n = 16 ^ Z.of_nat (2 * n).
Proof. rewrite Nat2Z.inj_mul, Z.pow_mul_r by lia. done. Qed.

#[export] Instance toy_hex : Hex := {| hex_encode := bytes_to_hex; hex_decode := hex_to_bytes |}.
#[export] Instance toy_hex_laws : HexLaws.
Proof.
  split. intros b. cbn -[Nat.mul]. unfold hex_to_bytes, bytes_to_hex.
  rewrite to_hex_length, of_hex_to_hex, <-pow_256_16, Z.mod_small by apply be_val_range.
  rewrite Nat.div2_double. f_equal. apply be_bytes_val.
Qed.

(** A cheap checksum stretched to 32 bytes. *)
Definition checksum (l : list byte) : list byte :=
  be_bytes 32 (fold_left (λ acc b, (acc * 31 + byte_val b + 1) mod 65521) l 0).

#[export] Instance toy_blake3 : Blake3 := {|
  blake3_hash := checksum;
  Hasher := list byte;
  hasher_new := [];
  hasher_update h c := h ++ c;
  hasher_finalize := checksum;
  hash_to_hex := bytes_to_hex;
|}.
#[export] Instance toy_blake3_laws : Blake3Laws.
Proof.
  split.
  - intros. apply be_bytes_length.
  - intros cs. cbn. replace (fold_left _ cs []) with (mjoin cs); [done|].
    transitivity ([] ++ mjoin cs); [done|]. generalize (@nil byte).
    induction cs as [|c cs IH]; intros l; cbn; [by rewrite app_nil_r|].
    by rewrite <-IH, (assoc_L (++)).
  - intros a b Hl H. change (bytes_to_hex a = bytes_to_hex b) in H.
    unfold bytes_to_hex in H. rewrite Hl in H.
    apply be_val_inj; [done|]. apply to_hex_inj in H; [done|rewrite <-Hl, <-pow_256_16; apply be_val_range|].
    rewrite <-pow_256_16. apply be_val_range.
Qed.

#[export] Instance toy_hmac : Hmac := {| hmac_sha256 k m := checksum (k ++ m ++ k) |}.
#[export] Instance toy_hmac_laws : HmacLaws.
Proof. split. intros. apply be_bytes_length. Qed.

#[export] Instance toy_uuid : UuidText := {| uuid_str u := to_hex 36 u |}.
#[export] Instance toy_uuid_laws : UuidTextLaws.
Proof.
  split.
  - intros. apply to_hex_length.
  - unfold is_uuid. intros u v Hu Hv. apply to_hex_inj; lia.
Qed.

End Toy.
