(* ===== verification/Block.v ===== *)
(** * Blocks: [src/memory/block.rs]

    Locations, block states, tensor metadata and the lease-bearing handle
    that names a block across the cluster. *)

From S2P Require Import Prelude.
From S2P Require Import Lists.

Inductive Location :=
| Gpu (node_id : Uuid) (gpu_id : string)
| Ram (node_id : Uuid)
| Disk (node_id : Uuid).
#[export] Instance Location_eq_dec : EqDecision Location.
Proof. solve_decision. Defined.

Inductive BlockState := Writing | Ready | Migrating | Lost.
#[export] Instance BlockState_eq_dec : EqDecision BlockState.
Proof. solve_decision. Defined.

Record TensorMetadata := mkTensorMetadata {
  tm_dtype : string;
  tm_shape : list u64;
  tm_layout : string;
  tm_byte_length : u64;
}.
#[export] Instance eta_TensorMetadata : Eta TensorMetadata := λ r,
  mkTensorMetadata (tm_dtype r) (tm_shape r) (tm_layout r) (tm_byte_length r).
#[export] Instance TensorMetadata_eq_dec : EqDecision TensorMetadata.
Proof. solve_decision. Defined.

Record MemoryBlockHandle := mkHandle {
  h_id : Uuid;
  h_job_id : Uuid;
  h_size : u64;
  h_owner_node : Uuid;
  h_owner_incarnation : Uuid;
  h_location_type : Location;
  h_checksum : option string;
  h_state : BlockState;
  h_lease_token : Uuid;
  h_lease_expires_ms : u64;
  h_generation : u64;
  h_tensor : option TensorMetadata;
}.
#[export] Instance eta_MemoryBlockHandle : Eta MemoryBlockHandle := λ r,
  mkHandle (h_id r) (h_job_id r) (h_size r) (h_owner_node r) (h_owner_incarnation r)
    (h_location_type r) (h_checksum r) (h_state r) (h_lease_token r) (h_lease_expires_ms r)
    (h_generation r) (h_tensor r).
#[export] Instance MemoryBlockHandle_eq_dec : EqDecision MemoryBlockHandle.
Proof. solve_decision. Defined.

(** The bytes per element of a dtype ([match self.dtype.as_str()]). *)
Definition dtype_width (dtype : string) : option u64 :=
  if bool_decide (dtype ∈ ["uint8"; "int8"; "bool"]) then Some 1
  else if bool_decide (dtype ∈ ["float16"; "bfloat16"; "int16"]) then Some 2
  else if bool_decide (dtype ∈ ["float32"; "int32"]) then Some 4
  else if bool_decide (dtype ∈ ["float64"; "int64"; "complex64"]) then Some 8
  else if bool_decide (dtype = "complex128") then Some 16
  else None.

(** [shape.iter().try_fold(width, |n, dim| n.checked_mul(dim))]. *)
Fixpoint checked_product (n : u64) (shape : list u64) : option u64 :=
  match shape with
  | [] => Some n
  | dim :: shape =>
      match checked_mul n dim with Some n' => checked_product n' shape | None => None end
  end.

Definition validate (m : TensorMetadata) (size : u64) : Result unit :=
  ensure (bool_decide (tm_layout m = "contiguous") && bool_decide (length (tm_shape m) ≤ 32)%nat)
    "unsupported tensor layout or rank";;
  width ← match dtype_width (tm_dtype m) with
          | Some w => Ok w
          | None => bail "unsupported tensor dtype"
          end;
  ensure (bool_decide (checked_product width (tm_shape m) = Some size)
          && (size =? tm_byte_length m))
    "tensor shape/dtype/byte_length mismatch".

Definition product (shape : list u64) : Z := foldr Z.mul 1 shape.

Lemma dtype_width_pos d w : dtype_width d = Some w → 1 <= w <= 16.
Proof. unfold dtype_width. intros H. repeat case_match; simplify_eq; lia. Qed.

Lemma checked_product_Some n shape p :
  checked_product n shape = Some p → p = n * product shape.
Proof.
  revert n. induction shape as [|d shape IH]; intros n; cbn.
  - intros [= <-]. lia.
  - unfold checked_mul. destruct (_ <=? _); [|done]. intros ->%IH. unfold product. lia.
Qed.

Lemma product_cons d shape : product (d :: shape) = d * product shape.
Proof. done. Qed.

Lemma product_pos shape : Forall (λ d, 1 <= d) shape → 1 <= product shape.
Proof. induction 1; rewrite ?product_cons; [done|nia]. Qed.

Lemma checked_product_pos n shape :
  1 <= n → Forall (λ d, 1 <= d) shape → n * product shape <= U64_MAX →
  checked_product n shape = Some (n * product shape).
Proof.
  intros Hn Hs. revert n Hn. induction Hs as [|d shape Hd Hs IH]; intros n Hn Hle.
  - cbn. f_equal. lia.
  - rewrite product_cons in *. cbn [checked_product]. pose proof (product_pos _ Hs). unfold checked_mul.
    assert (n * d <= U64_MAX) as Hnd by nia.
    destruct (Z.leb_spec (n * d) U64_MAX); [|lia]. rewrite IH; [f_equal|..]; nia.
Qed.

(** An accepted tensor occupies exactly its block. *)
Lemma validate_Ok m size :
  validate m size = Ok () →
  tm_layout m = "contiguous" ∧ (length (tm_shape m) ≤ 32)%nat ∧
  ∃ w, dtype_width (tm_dtype m) = Some w ∧ w * product (tm_shape m) = size
       ∧ tm_byte_length m = size.
Proof.
  unfold validate. intros H. apply bind_Ok in H as ([] & H1%ensure_Ok & H).
  apply bind_Ok in H as (w & H2 & H3%ensure_Ok). bprop.
  destruct (dtype_width _) eqn:Ew; simplify_eq/=.
  split_and!; [done..|]. exists w. split_and!; [done| |done].
  match goal with H : checked_product _ _ = _ |- _ => apply checked_product_Some in H end. done.
Qed.
