(* ===== verification/Accounting.v ===== *)
(** * RAM accounting: [src/memory/allocator.rs]

    The atomic counters of a node's contributed RAM and the RAII
    [Reservation]. The operations are given twice: as sequential functions on
    the counters, used by the rest of the model, and as the atomic steps that
    concurrent callers interleave ([Concurrent]). *)

From S2P Require Import Prelude.
From S2P Require Import Lists.

Record JobRamAccounting := mkJobRam { j_owned : u64; j_peak : u64 }.
#[export] Instance eta_JobRamAccounting : Eta JobRamAccounting := λ r,
  mkJobRam (j_owned r) (j_peak r).

(** The [Arc<JobRamAccounting>] of a job is never replaced in [jobs], so the
    job's identifier stands for it. *)
Record RamAccounting := mkRam {
  owned : u64;
  budget : u64;
  peak : u64;
  jobs : gmap Uuid JobRamAccounting;
}.
#[export] Instance eta_RamAccounting : Eta RamAccounting := λ r,
  mkRam (owned r) (budget r) (peak r) (jobs r).

Record Reservation := mkReservation { r_bytes : u64; r_job : option Uuid }.
#[export] Instance eta_Reservation : Eta Reservation := λ r,
  mkReservation (r_bytes r) (r_job r).

Definition default_accounting : RamAccounting := mkRam 0 0 0 ∅.

Definition out_of_capacity (bytes : u64) : string :=
  "TRAINPOOL_OUT_OF_CAPACITY: RAM budget cannot satisfy " +:+ pretty bytes +:+ " bytes".

(** [RamAccounting::reserve]. *)
Definition reserve (bytes : u64) : SM RamAccounting Reservation := λ a,
  match checked_add (owned a) bytes with
  | Some new =>
      if new <=? budget a
      then (a <| owned := new |> <| peak ::= Z.max (owned a +w bytes) |>,
            Ok (mkReservation bytes None))
      else (a, Err (out_of_capacity bytes))
  | None => (a, Err (out_of_capacity bytes))
  end.

(** [RamAccounting::reserve_payload]. *)
Definition reserve_payload (job : Uuid) (bytes : u64) : SM RamAccounting Reservation :=
  reservation ← reserve bytes;
  a ← gets (λ a, a);
  let j := default (mkJobRam 0 0) (jobs a !! job) in
  let current := j_owned j +w bytes in
  modify (λ a, a <| jobs ::= <[job := mkJobRam current (Z.max (j_peak j) current)]> |>);;
  mret (reservation <| r_job := Some job |>).

(** [Drop for Reservation]. *)
Definition drop_reservation (r : Reservation) (a : RamAccounting) : RamAccounting :=
  let a := match r_job r with
           | Some job => a <| jobs ::= alter (λ j, j <| j_owned ::= λ o, o -w r_bytes r |>) job |>
           | None => a
           end in
  a <| owned ::= λ o, o -w r_bytes r |>.

(** [RamAccounting::used]. *)
Definition used (a : RamAccounting) : u64 := owned a.

Lemma reserve_Ok bytes a a' r :
  0 <= owned a → 0 <= bytes → reserve bytes a = (a', Ok r) →
  r = mkReservation bytes None ∧ owned a' = owned a + bytes ∧ owned a' <= budget a
  ∧ owned a' <= U64_MAX ∧ budget a' = budget a ∧ jobs a' = jobs a
  ∧ peak a' = Z.max (owned a') (peak a).
Proof.
  intros Ho Hb. unfold reserve. destruct (checked_add _ _) as [new|] eqn:E; [|done].
  apply checked_add_Some in E as [-> Hmax]. case_match eqn:Ele; [|done]. bprop.
  intros [= <- <-]. cbn. rewrite wadd_small by (unfold is_u64; lia). split_and!; lia || done.
Qed.

Lemma reserve_Err bytes a a' e :
  reserve bytes a = (a', Err e) →
  a' = a ∧ e = out_of_capacity bytes ∧ (U64_MAX < owned a + bytes ∨ budget a < owned a + bytes).
Proof.
  unfold reserve, checked_add. destruct (Z.leb_spec (owned a + bytes) U64_MAX).
  - case_match; [done|]. intros [= <- <-]. bprop. split_and!; [done..|lia].
  - intros [= <- <-]. split_and!; [done..|lia].
Qed.

Lemma reserve_not_panic bytes a : (reserve bytes a).2 ≠ Panic.
Proof. unfold reserve. by repeat case_match. Qed.

Lemma reserve_payload_Ok job bytes a a' r :
  0 <= owned a → 0 <= bytes → reserve_payload job bytes a = (a', Ok r) →
  r = mkReservation bytes (Some job) ∧ owned a' = owned a + bytes ∧ owned a' <= budget a
  ∧ owned a' <= U64_MAX ∧ budget a' = budget a
  ∧ jobs a' = <[job := let j := default (mkJobRam 0 0) (jobs a !! job) in
                  mkJobRam (j_owned j +w bytes) (Z.max (j_peak j) (j_owned j +w bytes))]> (jobs a).
Proof.
  intros Ho Hb. unfold reserve_payload, mbind, SM_bind.
  destruct (reserve bytes a) as [a1 [r1|e|]] eqn:E; [|done..].
  apply reserve_Ok in E as (-> & H1 & H2 & H3 & H4 & H5 & _); [|done..].
  cbn. intros [= <- <-]. cbn. rewrite H5. split_and!; done.
Qed.

Lemma reserve_payload_Err job bytes a a' e :
  reserve_payload job bytes a = (a', Err e) → a' = a ∧ e = out_of_capacity bytes.
Proof.
  unfold reserve_payload, mbind, SM_bind.
  destruct (reserve bytes a) as [a1 [r1|e1|]] eqn:E; [done| |done].
  apply reserve_Err in E as (-> & -> & _). by intros [= <- <-].
Qed.

Lemma drop_reservation_owned r a :
  r_bytes r <= owned a → is_u64 (owned a) → 0 <= r_bytes r →
  owned (drop_reservation r a) = owned a - r_bytes r.
Proof.
  intros Hle [Hlo Hhi] Hb. unfold drop_reservation.
  destruct (r_job r); cbn; apply wsub_small; unfold is_u64; lia.
Qed.
Lemma drop_reservation_budget r a : budget (drop_reservation r a) = budget a.
Proof. unfold drop_reservation. by destruct (r_job r). Qed.

#[global] Arguments reserve : simpl never.
#[global] Arguments reserve_payload : simpl never.
#[global] Arguments drop_reservation : simpl never.

(** ** Concurrent callers

    [fetch_update] loads the counter, runs the closure (which loads the
    budget) and tries a compare-and-swap, retrying on failure; the update of
    [peak] is a later atomic operation. Between any two of these steps other
    callers, a [Drop] or a new budget may intervene. *)
Module Concurrent.

Inductive Caller :=
| Start (bytes : u64)                   (* before the load *)
| Loaded (bytes : u64) (seen : u64)     (* the closure accepted [seen + bytes] *)
| Swapped (bytes : u64) (prev : u64)    (* the swap succeeded; [peak] is pending *)
| Held (bytes : u64)                    (* [Ok(Reservation)] *)
| Rejected                              (* [Err] *)
| Released.                             (* the reservation was dropped *)

Record State := mkState {
  s_owned : u64;
  s_budget : u64;
  s_peak : u64;
  s_max_budget : u64;                   (* ghost: the highest budget stored so far *)
  callers : gmap nat Caller;
}.

Inductive step : State → State → Prop :=
| step_accept i b o bu p mb cs :
    cs !! i = Some (Start b) → o + b <= U64_MAX → o + b <= bu →
    step (mkState o bu p mb cs) (mkState o bu p mb (<[i := Loaded b o]> cs))
| step_reject i b o bu p mb cs :
    cs !! i = Some (Start b) → U64_MAX < o + b ∨ bu < o + b →
    step (mkState o bu p mb cs) (mkState o bu p mb (<[i := Rejected]> cs))
| step_swap i b o bu p mb cs :
    cs !! i = Some (Loaded b o) →
    step (mkState o bu p mb cs) (mkState (o + b) bu p mb (<[i := Swapped b o]> cs))
| step_retry i b seen o bu p mb cs :
    cs !! i = Some (Loaded b seen) →
    step (mkState o bu p mb cs) (mkState o bu p mb (<[i := Start b]> cs))
| step_peak i b prev o bu p mb cs :
    cs !! i = Some (Swapped b prev) →
    step (mkState o bu p mb cs) (mkState o bu (Z.max p (prev +w b)) mb (<[i := Held b]> cs))
| step_drop i b o bu p mb cs :
    cs !! i = Some (Held b) →
    step (mkState o bu p mb cs) (mkState (o -w b) bu p mb (<[i := Released]> cs))
| step_budget v o bu p mb cs :
    is_u64 v →
    step (mkState o bu p mb cs) (mkState o v p (Z.max mb v) cs).

(** The bytes a caller has taken from the counter. *)
Definition taken (c : Caller) : Z :=
  match c with Swapped b _ | Held b => b | _ => 0 end.

Record Inv (s : State) : Prop := {
  inv_budget : is_u64 (s_budget s) ∧ s_budget s <= s_max_budget s <= U64_MAX;
  inv_owned : s_owned s = map_sum taken (callers s);
  inv_bound : s_owned s <= s_max_budget s;
  inv_callers : ∀ i c, callers s !! i = Some c →
    match c with
    | Start b | Held b => is_u64 b
    | Loaded b seen => is_u64 b ∧ is_u64 (seen + b) ∧ seen + b <= s_max_budget s
    | Swapped b prev => is_u64 b ∧ is_u64 (prev + b) ∧ prev + b <= s_max_budget s
    | _ => True
    end;
  inv_peak : s_owned s <= s_peak s
    ∨ ∃ i b prev, callers s !! i = Some (Swapped b prev) ∧ s_owned s <= prev + b;
}.

Lemma taken_nonneg s i c : Inv s → callers s !! i = Some c → 0 <= taken c.
Proof. intros Hi Hc. apply Hi in Hc. unfold is_u64 in *. destruct c; cbn; lia. Qed.

Lemma inv_owned_nonneg s : Inv s → 0 <= s_owned s.
Proof.
  intros Hi. rewrite (inv_owned _ Hi). apply map_sum_nonneg.
  intros i c. by apply taken_nonneg.
Qed.

Lemma inv_update s i c c' o' p' :
  Inv s → callers s !! i = Some c →
  o' = s_owned s - taken c + taken c' → o' <= s_max_budget s →
  match c' with
  | Start b | Held b => is_u64 b
  | Loaded b seen => is_u64 b ∧ is_u64 (seen + b) ∧ seen + b <= s_max_budget s
  | Swapped b prev => is_u64 b ∧ is_u64 (prev + b) ∧ prev + b <= s_max_budget s
  | _ => True
  end →
  s_peak s <= p' →
  match c with Swapped b prev => prev + b <= p' | _ => True end →
  match c' with Swapped b prev => o' <= prev + b | _ => o' <= s_owned s end →
  Inv (mkState o' (s_budget s) p' (s_max_budget s) (<[i := c']> (callers s))).
Proof.
  intros Hi Hc Ho Hle Hc' Hp Hcp Hco. split; cbn.
  - apply Hi.
  - rewrite (map_sum_update _ _ _ _ _ Hc), <-(inv_owned _ Hi). lia.
  - done.
  - intros j d. destruct (decide (i = j)) as [<-|Hne].
    + rewrite lookup_insert_eq. intros [= <-]. done.
    + rewrite lookup_insert_ne by done. apply Hi.
  - destruct c' as [ | |b prev| | | ];
      try (right; exists i, b, prev; rewrite lookup_insert_eq; done).
    all: destruct (inv_peak _ Hi) as [Hpk|(j & b' & q & Hj & Hle')]; [left; lia|].
    all: destruct (decide (i = j)) as [<-|Hne]; [simplify_eq; left; lia|].
    all: right; exists j, b', q; rewrite lookup_insert_ne by done; split; [done|lia].
Qed.

Lemma inv_step s s' : Inv s → step s s' → Inv s'.
Proof.
  intros Hi Hs. pose proof (inv_owned_nonneg _ Hi) as Hnn.
  pose proof (inv_bound _ Hi) as Hb. pose proof (inv_budget _ Hi) as [Hbu Hmb].
  destruct Hs as [i b o bu p mb cs Hc|i b o bu p mb cs Hc|i b o bu p mb cs Hc|i b seen o bu p mb cs Hc
    |i b prev o bu p mb cs Hc|i b o bu p mb cs Hc|v o bu p mb cs Hv];
    try (pose proof (inv_callers _ Hi _ _ Hc) as Hx); unfold is_u64 in *; cbn in *.
  - apply (inv_update (mkState o bu p mb cs) i _ (Loaded b o) o p Hi Hc); cbn; unfold is_u64; lia || done.
  - apply (inv_update (mkState o bu p mb cs) i _ Rejected o p Hi Hc); cbn; lia || done.
  - apply (inv_update (mkState o bu p mb cs) i _ (Swapped b o) _ p Hi Hc); cbn; unfold is_u64; lia || done.
  - apply (inv_update (mkState o bu p mb cs) i _ (Start b) o p Hi Hc); cbn; unfold is_u64; lia || done.
  - rewrite wadd_small by (unfold is_u64; lia).
    apply (inv_update (mkState o bu p mb cs) i _ (Held b) o _ Hi Hc); cbn; unfold is_u64; lia || done.
  - assert (b <= o) as Hbo.
    { rewrite (inv_owned _ Hi : o = _). change b with (taken (Held b)).
      apply (map_sum_lookup_le _ _ i); [|done]. intros j c. by apply (taken_nonneg _ _ _ Hi). }
    rewrite wsub_small by (unfold is_u64; lia).
    apply (inv_update (mkState o bu p mb cs) i _ Released _ p Hi Hc); cbn; lia || done.
  - split; cbn; unfold is_u64; [lia|apply Hi|lia| |apply Hi].
    intros i c Hc. apply (inv_callers _ Hi) in Hc. destruct c; cbn in *; unfold is_u64 in *; lia || done.
Qed.

(** A node that starts with budget [b0] and callers about to reserve. *)
Definition initial (b0 : u64) (requests : list u64) : State :=
  mkState 0 b0 0 b0 (map_seq 0 (Start <$> requests)).

Lemma initial_callers b0 requests i c :
  callers (initial b0 requests) !! i = Some c → ∃ b, c = Start b ∧ b ∈ requests.
Proof.
  cbn. rewrite lookup_map_seq_0, list_lookup_fmap. intros (b & Hb & ->)%fmap_Some.
  exists b. split; [done|]. by eapply list_elem_of_lookup_2.
Qed.

Lemma inv_initial b0 requests :
  is_u64 b0 → Forall is_u64 requests → Inv (initial b0 requests).
Proof.
  intros Hb Hr. pose proof (initial_callers b0 requests) as Hc. unfold is_u64 in *.
  split; cbn -[map_seq] in *; unfold is_u64.
  - lia.
  - clear. symmetry. generalize 0%nat. induction requests as [|b requests IH]; intros k; cbn; [done|].
    by rewrite map_sum_insert, IH by apply map_seq_cons_disjoint.
  - lia.
  - intros i c (b & -> & Hin)%Hc. rewrite Forall_forall in Hr. by apply Hr.
  - lia.
Qed.

(** When no update of [peak] is pending, [peak] bounds the counter. *)
Definition settled (s : State) : Prop :=
  ∀ i b prev, callers s !! i ≠ Some (Swapped b prev).

(** C9. However concurrent [reserve]s, drops and budget updates interleave
    at the granularity of single atomic operations, the counter is exactly
    the bytes of the reservations handed out or about to be, it never
    exceeds the highest budget ever stored (nor, so, [u64::MAX]), and once no
    caller is between its swap and its [fetch_max], [peak] bounds it. *)
Theorem reservations_never_overcommit b0 requests s :
  is_u64 b0 → Forall is_u64 requests → rtc step (initial b0 requests) s →
  s_owned s = map_sum taken (callers s)
  ∧ 0 <= s_owned s <= s_max_budget s
  ∧ (settled s → s_owned s <= s_peak s).
Proof.
  intros Hb Hr Hs. assert (Inv s) as Hi.
  { revert Hs. apply (rtc_ind_r Inv); [by apply inv_initial|]. intros. by eapply inv_step. }
  split_and!; [apply Hi|by apply inv_owned_nonneg|apply Hi|].
  intros Hset. destruct (inv_peak _ Hi) as [|(i & b & prev & Hc & _)]; [done|].
  by destruct (Hset i b prev).
Qed.

(** The sequential functions are the uninterrupted runs of a caller. *)
Theorem reserve_is_uninterrupted_run i b cs mb (a a' : RamAccounting) r :
  cs !! i = Some (Start b) →
  reserve b a = (a', r) →
  rtc step (mkState (owned a) (budget a) (peak a) mb cs)
    (mkState (owned a') (budget a') (peak a') mb
       (<[i := match r with Ok _ => Held b | _ => Rejected end]> cs)).
Proof.
  intros Hc. unfold reserve, checked_add.
  destruct (Z.leb_spec (owned a + b) U64_MAX) as [Hle|Hlt].
  2: { intros [= <- <-]. apply rtc_once, step_reject with b; [done|lia]. }
  destruct (Z.leb_spec (owned a + b) (budget a)) as [Hle'|Hlt].
  2: { intros [= <- <-]. apply rtc_once, step_reject with b; [done|lia]. }
  intros [= <- <-]. cbn. eapply rtc_l; [by apply (step_accept i)|].
  eapply rtc_l; [eapply (step_swap i); apply lookup_insert_eq|].
  eapply rtc_l; [eapply (step_peak i); apply lookup_insert_eq|].
  rewrite !insert_insert_eq, (Z.max_comm (peak a)). apply rtc_refl.
Qed.

(** Two callers of ten bytes against a budget of fifteen: one is refused
    while the other still holds its bytes. *)
Lemma reservations_never_overcommit_witness :
  let s := mkState 10 15 10 15 (<[1%nat := Rejected]> (<[0%nat := Held 10]> ∅)) in
  rtc step (initial 15 [10; 10]) s ∧ s_owned s = 10.
Proof.
  cbn zeta. assert (rtc step (initial 15 [10; 10])
    (mkState 10 15 10 15 (<[1%nat := Rejected]> (<[0%nat := Held 10]> ∅)))) as Hr.
  { eapply rtc_l; [by apply (step_accept 0 10)|]. eapply rtc_l; [by apply (step_swap 0 10)|].
    eapply rtc_l; [by apply (step_reject 1 10); [|right]|].
    eapply rtc_l; [by apply (step_peak 0 10 0)|]. vm_compute. apply rtc_refl. }
  split; [exact Hr|].
  destruct (reservations_never_overcommit 15 [10; 10] _ ltac:(vm_compute; done)
    ltac:(repeat constructor; vm_compute; done) Hr) as [-> _].
  vm_compute. reflexivity.
Defined.

End Concurrent.
