(* ===== verification/LocalRam.v ===== *)
(** * The block store of a node: [src/memory/local_ram.rs]

    [LocalRam.blocks] maps identifiers to [Arc<Mutex<RamBlock>>]. The sharing
    matters (a block freed while a reader holds it stays allocated and
    accounted), so the store keeps a heap of blocks by address, the number of
    [Arc] clones held outside the map and the addresses whose mutex is held. An
    address is a serial number with the parts of the handle that never change
    while the block lives. *)

From S2P Require Import Prelude.
From S2P Require Import Lists.
From S2P Require Import Bytes.
From S2P Require Import Externals.
From S2P Require Import Block.
From S2P Require Import Accounting.

(** The address of a block: a serial number of the allocation, with what never
    changes of the block that lives there. *)
Record Ptr := mkPtr {
  p_serial : Z;
  p_id : Uuid;
  p_job : Uuid;
  p_size : u64;
  p_generation : u64;
  p_token : Uuid;
}.
#[export] Instance Ptr_eq_dec : EqDecision Ptr.
Proof. solve_decision. Defined.
#[export] Instance Ptr_countable : Countable Ptr.
Proof.
  refine (inj_countable'
    (λ p, (p_serial p, p_id p, p_job p, p_size p, p_generation p, p_token p))
    (λ '(a, b, c, d, e, f), mkPtr a b c d e f) _). by intros [].
Defined.
Definition ptr_of (serial : Z) (h : MemoryBlockHandle) : Ptr :=
  mkPtr serial (h_id h) (h_job_id h) (h_size h) (h_generation h) (h_lease_token h).

Section LocalRam.
Context `{!Blake3, !UuidText}.

Record RamBlock := mkRamBlock {
  b_handle : MemoryBlockHandle;
  b_bytes : list byte;
  b_written : Z;
  b_transfer_id : option Uuid;
  b_hash : Hasher;
  b_published : bool;
  b_reservation : Reservation;
}.
#[export] Instance eta_RamBlock : Eta RamBlock := λ r,
  mkRamBlock (b_handle r) (b_bytes r) (b_written r) (b_transfer_id r) (b_hash r) (b_published r)
    (b_reservation r).

Record LocalRam := mkLocalRam {
  accounting : RamAccounting;
  blocks : gmap Uuid Ptr;
  heap : gmap Ptr RamBlock;
  clones : gmap Ptr nat;
  locked : gset Ptr;
  next_ptr : Z;
}.
#[export] Instance eta_LocalRam : Eta LocalRam := λ r,
  mkLocalRam (accounting r) (blocks r) (heap r) (clones r) (locked r) (next_ptr r).

Definition default_ram : LocalRam := mkLocalRam default_accounting ∅ ∅ ∅ ∅ 0.

(** [RamBlock::authorize]; [now] is [crate::now_ms()]. *)
Definition authorize (now : u64) (token : Uuid) (b : RamBlock) : Result unit :=
  ensure (token =? h_lease_token (b_handle b)) "TRAINPOOL_LEASE_DENIED";;
  ensure (now <? h_lease_expires_ms (b_handle b)) "TRAINPOOL_LEASE_EXPIRED".

(** The block [LocalRam::allocate] creates. *)
Definition new_block (h : MemoryBlockHandle) (r : Reservation) : RamBlock :=
  mkRamBlock h (replicate (Z.to_nat (h_size h)) x00) 0 None hasher_new (h_generation h =? 0) r.

(** [LocalRam::allocate]. [try_reserve] is whether the system allocator
    grants the bytes; when it does not, the reservation is dropped. *)
Definition allocate (try_reserve : bool) (h : MemoryBlockHandle) : SM LocalRam unit := λ s,
  match blocks s !! h_id h with
  | Some _ => (s, Err "block already exists")
  | None =>
  if bool_decide (100000 <= Z.of_nat (size (blocks s)))%Z then (s, Err "block count limit reached") else
  match reserve_payload (h_job_id h) (h_size h) (accounting s) with
  | (a, Ok r) =>
      if try_reserve then
        let p := ptr_of (next_ptr s) h in
        (s <| accounting := a |> <| blocks ::= <[h_id h := p]> |>
           <| heap ::= <[p := new_block h r]> |> <| next_ptr ::= Z.succ |>, Ok ())
      else (s <| accounting := drop_reservation r a |>,
            Err "memory allocation failed because the memory allocator returned an error")
  | (a, Err e) => (s <| accounting := a |>, Err e)
  | (a, Panic) => (s <| accounting := a |>, Panic)
  end
  end.

(** An address is alive while the map or a clone refers to it. *)
Definition mapped (p : Ptr) (s : LocalRam) : bool :=
  bool_decide (map_Exists (λ _ q, q = p) (blocks s)).
Definition clones_of (p : Ptr) (s : LocalRam) : nat := default 0%nat (clones s !! p).

(** The drop glue of the last [Arc]: the block and its reservation go. *)
Definition reclaim (p : Ptr) (s : LocalRam) : LocalRam :=
  if mapped p s || (0 <? clones_of p s)%nat then s else
  match heap s !! p with
  | Some b => s <| heap ::= delete p |> <| accounting ::= drop_reservation (b_reservation b) |>
  | None => s
  end.

(** [Arc::clone] and the drop of a clone. *)
Definition acquire (p : Ptr) (s : LocalRam) : LocalRam :=
  s <| clones ::= <[p := S (clones_of p s)]> |>.
Definition drop_clone (p : Ptr) (s : LocalRam) : LocalRam :=
  s <| clones ::= (match clones_of p s with S (S n) => <[p := S n]> | _ => delete p end) |>.
Definition release (p : Ptr) (s : LocalRam) : LocalRam := reclaim p (drop_clone p s).

Definition data_lost (id : Uuid) : string :=
  "TRAINPOOL_DATA_LOST: block " +:+ uuid_str id +:+ " is absent on this node".

(** [LocalRam::get]: a clone of the [Arc]. *)
Definition get (id : Uuid) : SM LocalRam Ptr := λ s,
  match blocks s !! id with
  | Some p => (acquire p s, Ok p)
  | None => (s, Err (data_lost id))
  end.

(** [LocalRam::free]. The map is unlocked while the block is checked, so
    another task may run between [free_check] and [free_remove]. *)
Definition free_check (id token : Uuid) : SM LocalRam (option Ptr) := λ s,
  match blocks s !! id with
  | None => (s, Ok None)
  | Some p =>
      let s := acquire p s in
      match heap s !! p with
      | Some b =>
          if h_lease_token (b_handle b) =? token then (s, Ok (Some p))
          else (release p s, Err "TRAINPOOL_LEASE_DENIED")
      | None => (s, Panic)
      end
  end.
Definition free_remove (id : Uuid) (p : Ptr) (s : LocalRam) : LocalRam :=
  release p (if bool_decide (blocks s !! id = Some p) then s <| blocks ::= delete id |> else s).
Definition free (id token : Uuid) : SM LocalRam unit :=
  found ← free_check id token;
  match found with Some p => modify (free_remove id p) | None => mret () end.

(** What [try_lock] lets an inventory report of a block. *)
Definition report (s : LocalRam) (p : Ptr) : option MemoryBlockHandle :=
  if bool_decide (p ∈ locked s) then None else
  b ← heap s !! p;
  if b_published b then Some (b_handle b) else None.

(** [LocalRam::inventory]. *)
Definition inventory (s : LocalRam) : list MemoryBlockHandle := omap (report s) (values (blocks s)).

(** [LocalRam::inventory_page]. *)
Definition PAGE : nat := 512.
Definition inventory_pages (s : LocalRam) : Z := Z.max 1 (div_ceil (Z.of_nat (size (blocks s))) 512).
Definition inventory_page (page : u64) (s : LocalRam) : list MemoryBlockHandle :=
  let pages := inventory_pages s in
  let selected := take PAGE (drop (Z.to_nat ((page mod pages) * 512)) (values (blocks s))) in
  omap (report s) selected.

(** [LocalRam::expire]: [retain] keeps an entry whose mutex is held. *)
Definition retained (now : u64) (s : LocalRam) (p : Ptr) : bool :=
  bool_decide (p ∈ locked s) ||
  match heap s !! p with
  | Some b => (now <? h_lease_expires_ms (b_handle b)) || bool_decide (h_state (b_handle b) = Migrating)
  | None => true
  end.
Definition expire (now : u64) (s : LocalRam) : LocalRam :=
  let dropped := values (filter (λ '(_, p), retained now s p = false) (blocks s)) in
  foldr reclaim (s <| blocks ::= filter (λ '(_, p), retained now s p = true) |>) dropped.

(** Access to a block through a held guard. *)
Definition update_block (p : Ptr) (f : RamBlock → RamBlock) (s : LocalRam) : LocalRam :=
  s <| heap ::= alter f p |>.

(** ** Well-formed stores

    [wf D ext s]: every mapped block is on the heap under its identifier,
    every heap block is consistent and alive (or in [D], the addresses whose
    last reference has just gone), and the counters are the sizes of the heap
    blocks plus the [ext] bytes of other reservations. *)

Record block_ok (b : RamBlock) : Prop := {
  ok_size : is_u64 (h_size (b_handle b));
  ok_bytes : zlen (b_bytes b) = h_size (b_handle b);
  ok_written : 0 <= b_written b <= h_size (b_handle b);
  ok_reservation : b_reservation b =
    mkReservation (h_size (b_handle b)) (Some (h_job_id (b_handle b)));
  ok_hash : ∃ cs, b_hash b = fold_left hasher_update cs hasher_new
    ∧ mjoin cs = take (Z.to_nat (b_written b)) (b_bytes b);
}.

Definition block_bytes (b : RamBlock) : Z := h_size (b_handle b).
Definition job_bytes (job : Uuid) (b : RamBlock) : Z :=
  if h_job_id (b_handle b) =? job then h_size (b_handle b) else 0.
Definition job_owned (job : Uuid) (a : RamAccounting) : Z :=
  default 0 (j_owned <$> jobs a !! job).

Record wf (D : gset Ptr) (ext : Z) (s : LocalRam) : Prop := {
  wf_blocks : ∀ id p, blocks s !! id = Some p →
    ∃ b, heap s !! p = Some b ∧ h_id (b_handle b) = id;
  wf_heap : ∀ p b, heap s !! p = Some b →
    block_ok b ∧ (mapped p s = true ∨ (0 < clones_of p s)%nat ∨ p ∈ D);
  wf_clones : ∀ p, (0 < clones_of p s)%nat → is_Some (heap s !! p);
  wf_norm : ∀ p, clones s !! p ≠ Some 0%nat;
  wf_fresh : ∀ p, next_ptr s <= p_serial p → heap s !! p = None;
  wf_shape : ∀ p b, heap s !! p = Some b → p = ptr_of (p_serial p) (b_handle b);
  wf_owned : owned (accounting s) = map_sum block_bytes (heap s) + ext;
  wf_ext : 0 <= ext ∧ is_u64 (owned (accounting s));
  wf_jobs : ∀ job, job_owned job (accounting s) = map_sum (job_bytes job) (heap s);
}.

Lemma block_bytes_nonneg D ext s : wf D ext s →
  ∀ p b, heap s !! p = Some b → 0 <= block_bytes b.
Proof. intros Hw p b Hb. apply Hw in Hb as [Hok _]. apply (ok_size _ Hok). Qed.
Lemma job_bytes_range D ext s job : wf D ext s →
  ∀ p b, heap s !! p = Some b → 0 <= job_bytes job b <= block_bytes b.
Proof.
  intros Hw p b Hb. pose proof (block_bytes_nonneg _ _ _ Hw _ _ Hb).
  unfold job_bytes, block_bytes in *. case_match; lia.
Qed.

Lemma wf_sum_bounds D ext s job : wf D ext s →
  0 <= map_sum (job_bytes job) (heap s) <= map_sum block_bytes (heap s)
  ∧ map_sum block_bytes (heap s) <= owned (accounting s).
Proof.
  intros Hw. pose proof (wf_owned _ _ _ Hw). pose proof (wf_ext _ _ _ Hw). split_and!; [| |lia].
  - apply map_sum_nonneg. intros p b Hb. apply (job_bytes_range _ _ _ job Hw) in Hb. lia.
  - apply map_sum_le. intros p b Hb. apply (job_bytes_range _ _ _ job Hw) in Hb. lia.
Qed.

Lemma mapped_true p s : mapped p s = true ↔ ∃ id, blocks s !! id = Some p.
Proof.
  unfold mapped. rewrite bool_decide_eq_true, map_Exists_lookup. naive_solver.
Qed.

Lemma blocks_inj D ext s i j p :
  wf D ext s → blocks s !! i = Some p → blocks s !! j = Some p → i = j.
Proof.
  intros Hw Hi Hj. apply Hw in Hi as (b & Hb & <-), Hj as (b' & Hb' & <-). by simplify_eq.
Qed.

Lemma drop_job_owned bytes job job' a :
  0 <= bytes <= job_owned job a → job_owned job a <= U64_MAX →
  job_owned job' (drop_reservation (mkReservation bytes (Some job)) a)
  = job_owned job' a - (if job =? job' then bytes else 0).
Proof.
  intros Hb Hm. unfold drop_reservation, job_owned in *. cbn. rewrite lookup_alter.
  destruct (Z.eqb_spec job job') as [<-|Hne].
  - rewrite decide_True by done. destruct (jobs a !! job); cbn in *; [|lia].
    apply wsub_small. unfold is_u64. lia.
  - rewrite decide_False by done. lia.
Qed.

Lemma reserve_job_owned job bytes a a' r job' :
  0 <= owned a → 0 <= bytes → 0 <= job_owned job a → job_owned job a + bytes <= U64_MAX →
  reserve_payload job bytes a = (a', Ok r) →
  job_owned job' a' = job_owned job' a + (if job =? job' then bytes else 0).
Proof.
  intros Ho Hb Hj Hm E. apply reserve_payload_Ok in E as (_ & _ & _ & _ & _ & E); [|done..].
  unfold job_owned in *. rewrite E, lookup_insert. destruct (Z.eqb_spec job job') as [<-|Hne].
  - rewrite decide_True by done. cbn. destruct (jobs a !! job); cbn in *;
      apply wadd_small; unfold is_u64; lia.
  - rewrite decide_False by done. lia.
Qed.

Lemma reclaim_wf D ext s p : wf ({[p]} ∪ D) ext s → wf D ext (reclaim p s).
Proof.
  intros Hw. unfold reclaim. destruct (mapped p s || _) eqn:Hlive.
  { destruct Hw. split; try done. intros q b Hb. destruct (wf_heap0 _ _ Hb) as [Hok Hal].
    split; [done|]. apply orb_true_iff in Hlive as [|Hc%Nat.ltb_lt]; set_solver. }
  apply orb_false_iff in Hlive as [Hm Hc%Nat.ltb_ge].
  destruct (heap s !! p) as [b|] eqn:Hp.
  2: { destruct Hw. split; try done. intros q b Hb. destruct (wf_heap0 _ _ Hb) as [Hok Hal].
       split; [done|]. assert (q ≠ p) by congruence. set_solver. }
  destruct (wf_heap _ _ _ Hw _ _ Hp) as [Hok _].
  pose proof (wf_sum_bounds _ _ _ (h_job_id (b_handle b)) Hw) as [Hj Ho].
  pose proof (wf_ext _ _ _ Hw) as [He [Hu1 Hu2]].
  assert (block_bytes b <= map_sum (job_bytes (h_job_id (b_handle b))) (heap s)) as Hbj.
  { transitivity (job_bytes (h_job_id (b_handle b)) b).
    - unfold job_bytes, block_bytes. by rewrite Z.eqb_refl.
    - apply (map_sum_lookup_le _ _ p); [|done]. intros q c Hq.
      apply (job_bytes_range _ _ _ (h_job_id (b_handle b)) Hw) in Hq. lia. }
  pose proof (block_bytes_nonneg _ _ _ Hw _ _ Hp) as Hnn.
  assert (owned (drop_reservation (b_reservation b) (accounting s))
          = owned (accounting s) - block_bytes b) as Hown.
  { rewrite drop_reservation_owned; rewrite ?(ok_reservation _ Hok); cbn;
      unfold is_u64, block_bytes in *; lia. }
  destruct Hw as [W1 W2 W3 W8 W4 W9 W5 W6 W7].
  split; cbn.
  - intros id q Hq. destruct (W1 _ _ Hq) as (c & Hc' & Hid). exists c. split; [|done].
    rewrite lookup_delete_ne; [done|]. intros ->.
    assert (mapped q s = true) by (apply mapped_true; eauto). congruence.
  - intros q c [Hne Hq]%lookup_delete_Some. destruct (W2 _ _ Hq) as [Hokc Hal].
    split; [done|]. unfold mapped, clones_of in *. cbn. set_solver.
  - intros q Hq. rewrite lookup_delete_ne; [by apply W3|]. intros ->. unfold clones_of in *. cbn in *. lia.
  - done.
  - intros q Hq. apply lookup_delete_None. right. by apply W4.
  - intros q c [_ Hq]%lookup_delete_Some. by apply W9.
  - rewrite Hown, W5, (map_sum_delete _ _ _ _ Hp). lia.
  - rewrite Hown. unfold is_u64. lia.
  - intros job. rewrite (ok_reservation _ Hok), drop_job_owned by (rewrite W7; unfold block_bytes in *; lia).
    rewrite W7, (map_sum_delete _ _ _ _ Hp). fold (job_bytes job b). lia.
Qed.

Lemma clones_of_acquire p s : clones_of p (acquire p s) = S (clones_of p s).
Proof. unfold clones_of at 1. cbn. by rewrite lookup_insert_eq. Qed.

Lemma clones_of_drop_clone p q s :
  clones_of q (drop_clone p s) = if decide (p = q) then pred (clones_of q s) else clones_of q s.
Proof.
  unfold drop_clone. unfold clones_of at 1. cbn. case_decide as Hpq.
  - subst q. destruct (clones_of p s) as [|[|n]]; rewrite ?lookup_delete_eq, ?lookup_insert_eq; done.
  - destruct (clones_of p s) as [|[|n]]; by rewrite ?lookup_delete_ne, ?lookup_insert_ne.
Qed.

Lemma wf_mono D D' ext s : D ⊆ D' → wf D ext s → wf D' ext s.
Proof. intros HD [W1 W2 W3 W8 W4 W9 W5 W6 W7]. split; try done. set_solver. Qed.

Lemma acquire_wf D ext s p : is_Some (heap s !! p) → wf D ext s → wf D ext (acquire p s).
Proof.
  intros Hp [W1 W2 W3 W8 W4 W9 W5 W6 W7]. unfold acquire. split; cbn; try done.
  - intros q c Hq. destruct (W2 _ _ Hq) as [Hok Hal]. split; [done|].
    unfold mapped, clones_of in *. cbn. destruct (decide (p = q)) as [->|Hne].
    + right; left. rewrite lookup_insert_eq. cbn. lia.
    + by rewrite lookup_insert_ne.
  - intros q. unfold clones_of. cbn. destruct (decide (p = q)) as [->|Hne]; [done|].
    rewrite lookup_insert_ne by done. apply W3.
  - intros q. destruct (decide (p = q)) as [->|Hne].
    + by rewrite lookup_insert_eq.
    + rewrite lookup_insert_ne by done. apply W8.
Qed.

Lemma release_wf D ext s p : wf ({[p]} ∪ D) ext s → wf D ext (release p s).
Proof.
  intros [W1 W2 W3 W8 W4 W9 W5 W6 W7]. apply reclaim_wf. split; try done.
  - intros q c Hq. destruct (W2 _ _ Hq) as [Hok Hal]. split; [done|].
    rewrite clones_of_drop_clone. case_decide; [set_solver|]. exact Hal.
  - intros q. rewrite clones_of_drop_clone. intros Hq. apply W3. case_decide; lia.
  - intros q. cbn. destruct (decide (p = q)) as [->|Hne].
    + destruct (clones_of q s) as [|[|n]]; rewrite ?lookup_delete_eq, ?lookup_insert_eq; done.
    + destruct (clones_of p s) as [|[|n]]; rewrite ?lookup_delete_ne, ?lookup_insert_ne by done; apply W8.
Qed.

Lemma release_unmapped p s :
  mapped p s = false →
  blocks (release p s) = blocks s
  ∧ heap (release p s) = (if decide (1 < clones_of p s)%nat then heap s else delete p (heap s)).
Proof.
  intros Hm. unfold release, reclaim. change (mapped p (drop_clone p s)) with (mapped p s).
  rewrite Hm, clones_of_drop_clone, decide_True by done. cbn [orb].
  destruct (Nat.ltb_spec 0 (pred (clones_of p s))).
  - rewrite decide_True by lia. done.
  - rewrite decide_False by lia. change (heap (drop_clone p s)) with (heap s).
    destruct (heap s !! p) eqn:Hp; [done|]. by rewrite delete_id.
Qed.

Lemma release_acquire D ext s p :
  wf D ext s → mapped p s = true → release p (acquire p s) = s.
Proof.
  intros Hw Hm. unfold release, reclaim.
  change (mapped p (drop_clone p (acquire p s))) with (mapped p s). rewrite Hm. cbn [orb].
  unfold drop_clone. rewrite clones_of_acquire. pose proof (wf_norm _ _ _ Hw p) as Hn.
  destruct s as [acc bl he cl lo np]. unfold acquire, clones_of in *. cbn in *. unfold set. cbn. f_equal.
  destruct (cl !! p) as [[|n]|] eqn:E; cbn; [done| |].
  - by rewrite insert_insert_eq, insert_id.
  - by rewrite delete_insert_eq, delete_id.
Qed.

Lemma unmap_wf D ext s (f : gmap Uuid Ptr → gmap Uuid Ptr) (dead : gset Ptr) :
  wf D ext s → f (blocks s) ⊆ blocks s →
  (∀ i p, blocks s !! i = Some p → f (blocks s) !! i = Some p ∨ p ∈ dead) →
  wf (dead ∪ D) ext (s <| blocks ::= f |>).
Proof.
  intros [W1 W2 W3 W8 W4 W9 W5 W6 W7] Hsub Hdead. split; cbn; try done.
  - intros i p Hp. apply W1. by eapply lookup_weaken.
  - intros p b Hb. destruct (W2 _ _ Hb) as [Hok Hal]. split; [done|].
    unfold clones_of in *. cbn. destruct Hal as [(i & Hi)%mapped_true|Hal]; [|set_solver].
    destruct (Hdead _ _ Hi) as [Hi'|]; [|set_solver].
    left. apply mapped_true. by exists i.
Qed.

Lemma free_remove_wf D ext s id p : wf D ext s → wf D ext (free_remove id p s).
Proof.
  intros Hw. unfold free_remove. apply release_wf. case_bool_decide as Hid.
  - apply (unmap_wf D ext s (delete id)); [done|apply delete_subseteq|].
    intros i q Hq. destruct (decide (id = i)) as [->|]; [set_solver|].
    left. by rewrite lookup_delete_ne.
  - apply (wf_mono D); [set_solver|done].
Qed.

Lemma free_check_spec D ext s id token :
  wf D ext s →
  match blocks s !! id with
  | None => free_check id token s = (s, Ok None)
  | Some p => ∃ b, heap s !! p = Some b ∧ h_id (b_handle b) = id ∧
      free_check id token s =
        if h_lease_token (b_handle b) =? token then (acquire p s, Ok (Some p))
        else (s, Err "TRAINPOOL_LEASE_DENIED")
  end.
Proof.
  intros Hw. unfold free_check. destruct (blocks s !! id) as [p|] eqn:Hp; [|done].
  destruct (wf_blocks _ _ _ Hw _ _ Hp) as (b & Hb & Hid). exists b. split_and!; [done..|].
  change (heap (acquire p s)) with (heap s). rewrite Hb.
  case_match; [done|]. rewrite (release_acquire D ext s p) by (done || apply mapped_true; eauto). done.
Qed.

Lemma new_block_ok h : is_u64 (h_size h) →
  block_ok (new_block h (mkReservation (h_size h) (Some (h_job_id h)))).
Proof.
  intros [H1 H2]. split; cbn; [done| |lia|done|].
  - rewrite length_replicate. lia.
  - by exists [].
Qed.

Lemma wf_accounting D ext s a :
  wf D ext s → owned a = owned (accounting s) →
  (∀ job, job_owned job a = job_owned job (accounting s)) →
  wf D ext (s <| accounting := a |>).
Proof. intros [W1 W2 W3 W8 W4 W9 W5 W6 W7] Ho Hj. split; cbn; rewrite ?Ho; try done. intros. by rewrite Hj. Qed.

Lemma insert_block_wf D ext s a b :
  wf D ext s → block_ok b → blocks s !! h_id (b_handle b) = None →
  owned a = owned (accounting s) + block_bytes b → is_u64 (owned a) →
  (∀ job, job_owned job a = job_owned job (accounting s) + job_bytes job b) →
  let p := ptr_of (next_ptr s) (b_handle b) in
  wf D ext (s <| accounting := a |> <| blocks ::= <[h_id (b_handle b) := p]> |>
              <| heap ::= <[p := b]> |> <| next_ptr ::= Z.succ |>).
Proof.
  intros [W1 W2 W3 W8 W4 W9 W5 W6 W7] Hok Hid Ho Hu Hj. cbn zeta.
  set (p0 := ptr_of (next_ptr s) (b_handle b)).
  assert (heap s !! p0 = None) as Hfresh by (apply W4; cbn; lia).
  split; cbn; try done.
  - intros i p. destruct (decide (h_id (b_handle b) = i)) as [<-|Hne].
    + rewrite lookup_insert_eq. intros [= <-]. exists b. by rewrite lookup_insert_eq.
    + rewrite lookup_insert_ne by done. intros Hp. destruct (W1 _ _ Hp) as (c & Hc & Hci).
      exists c. rewrite lookup_insert_ne; [done|]. congruence.
  - intros p c. destruct (decide (p0 = p)) as [<-|Hne].
    + rewrite lookup_insert_eq. intros [= <-]. split; [done|]. left. apply mapped_true.
      exists (h_id (b_handle b)). cbn. by rewrite lookup_insert_eq.
    + rewrite lookup_insert_ne by done. intros Hc. destruct (W2 _ _ Hc) as [Hokc Hal].
      split; [done|]. unfold clones_of in *. cbn. destruct Hal as [(i & Hi)%mapped_true|]; [|set_solver].
      left. apply mapped_true. exists i. cbn. rewrite lookup_insert_ne by congruence. done.
  - intros p Hp. destruct (decide (p0 = p)) as [<-|Hne]; [by rewrite lookup_insert_eq|].
    rewrite lookup_insert_ne by done. by apply W3.
  - intros p Hp. rewrite lookup_insert_ne by (intros <-; cbn in Hp; lia). apply W4. lia.
  - intros p c. rewrite lookup_insert. case_decide as Hpc; [intros [= <-]; by subst p|apply W9].
  - rewrite map_sum_insert by done. lia.
  - split; [|done]. apply W6.
  - intros job. rewrite map_sum_insert by done. rewrite Hj, W7. lia.
Qed.

Lemma allocate_wf D ext s ok h :
  is_u64 (h_size h) → wf D ext s → wf D ext (allocate ok h s).1.
Proof.
  intros Hsz Hw. unfold allocate. destruct (blocks s !! h_id h) eqn:Hid; [done|].
  case_bool_decide; [done|].
  destruct (reserve_payload _ _ _) as [a [r|e|]] eqn:E.
  2: { apply reserve_payload_Err in E as [-> _]. cbn. destruct s. exact Hw. }
  2: { unfold reserve_payload, mbind, SM_bind in E. pose proof (reserve_not_panic (h_size h) (accounting s)).
       destruct (reserve _ _) as [? [| |]]; done. }
  pose proof (wf_sum_bounds _ _ _ (h_job_id h) Hw) as [Hj Ho].
  pose proof (wf_ext _ _ _ Hw) as [He Hu]. pose proof (wf_jobs _ _ _ Hw (h_job_id h)) as Hjob.
  unfold is_u64 in *.
  pose proof E as (-> & E1 & E2 & E3 & E4 & E5)%reserve_payload_Ok; [|lia..].
  assert (∀ job, job_owned job a = job_owned job (accounting s)
            + (if h_job_id h =? job then h_size h else 0)) as Hjo.
  { intros job. eapply reserve_job_owned; [lia..|done]. }
  destruct ok; cbn [fst].
  - apply (insert_block_wf D ext s a (new_block h _)); try done;
      [by apply new_block_ok|unfold is_u64; lia].
  - apply wf_accounting; [done| |].
    + rewrite drop_reservation_owned; cbn; unfold is_u64; lia.
    + intros job. pose proof (Hjo (h_job_id h)) as Hjh. rewrite Z.eqb_refl in Hjh.
      rewrite drop_job_owned by lia. rewrite Hjo. lia.
Qed.

Lemma get_wf D ext s id : wf D ext s → wf D ext (get id s).1.
Proof.
  intros Hw. unfold get. destruct (blocks s !! id) as [p|] eqn:Hp; [|done]. cbn.
  apply acquire_wf; [|done]. apply Hw in Hp as (b & -> & _). done.
Qed.

Lemma free_check_wf D ext s id token : wf D ext s → wf D ext (free_check id token s).1.
Proof.
  intros Hw. pose proof (free_check_spec _ _ _ id token Hw) as Hs.
  destruct (blocks s !! id) as [p|]; [|by rewrite Hs].
  destruct Hs as (b & Hb & _ & ->). case_match; [|done]. by apply acquire_wf.
Qed.

Lemma reclaim_fold_wf D ext s ps : wf (list_to_set ps ∪ D) ext s → wf D ext (foldr reclaim s ps).
Proof.
  revert D. induction ps as [|p ps IH]; intros D Hw; cbn.
  - eapply wf_mono, Hw. set_solver.
  - apply reclaim_wf, IH. eapply wf_mono, Hw. set_solver.
Qed.

Lemma expire_wf D ext s now : wf D ext s → wf D ext (expire now s).
Proof.
  intros Hw. unfold expire. apply reclaim_fold_wf, unmap_wf; [done|apply map_filter_subseteq|].
  intros i p Hp. destruct (retained now s p) eqn:E.
  - left. by apply map_lookup_filter_Some.
  - right. apply elem_of_list_to_set, elem_of_values. exists i. by apply map_lookup_filter_Some.
Qed.

(** An update of a block through its guard that keeps it consistent. *)
Definition guarded (f : RamBlock → RamBlock) : Prop := ∀ b, block_ok b →
  block_ok (f b) ∧ ∀ n, ptr_of n (b_handle (f b)) = ptr_of n (b_handle b).

Lemma update_block_wf D ext s p f :
  (∀ b, heap s !! p = Some b → block_ok b →
     block_ok (f b) ∧ ∀ n, ptr_of n (b_handle (f b)) = ptr_of n (b_handle b)) →
  wf D ext s → wf D ext (update_block p f s).
Proof.
  intros Hf [W1 W2 W3 W8 W4 W9 W5 W6 W7]. unfold update_block.
  assert (∀ g : RamBlock → Z, (∀ b, heap s !! p = Some b → block_ok b → g (f b) = g b) →
    map_sum g (alter f p (heap s)) = map_sum g (heap s)) as Hsum.
  { intros g Hg. destruct (heap s !! p) as [b|] eqn:Hp.
    - destruct (W2 _ _ Hp) as [Hok _]. rewrite (alter_Some_insert _ _ _ _ Hp).
      rewrite (map_sum_update _ _ _ _ _ Hp), Hg by done. lia.
    - by rewrite alter_id by naive_solver. }
  split; cbn; try done.
  - intros i q Hq. destruct (W1 _ _ Hq) as (b & Hb & Hid). destruct (W2 _ _ Hb) as [Hok _].
    destruct (decide (p = q)) as [->|Hne]; [|rewrite lookup_alter_ne by done; by exists b].
    rewrite lookup_alter_eq, Hb. exists (f b). split; [done|].
    destruct (Hf _ Hb Hok) as [_ Hs]. specialize (Hs 0). injection Hs as -> _ _ _ _. done.
  - intros q b. destruct (decide (p = q)) as [->|Hne]; [|rewrite lookup_alter_ne by done; apply W2].
    rewrite lookup_alter_eq. intros (b' & Hb' & ->)%fmap_Some. destruct (W2 _ _ Hb') as [Hok Hal]. split; [by apply Hf|done].
  - intros q Hq. apply W3 in Hq as [b Hb]. rewrite lookup_alter.
    case_decide; simplify_eq; [|done]. by rewrite Hb.
  - intros q Hq. rewrite lookup_alter. case_decide; simplify_eq; by rewrite W4.
  - intros q b. rewrite lookup_alter. case_decide as Hq; [subst q|apply W9].
    intros (b' & Hb' & ->)%fmap_Some. destruct (W2 _ _ Hb') as [Hok _].
    rewrite (proj2 (Hf _ Hb' Hok)). by apply W9.
  - rewrite Hsum; [done|]. intros b Hb Hok. unfold block_bytes.
    destruct (Hf _ Hb Hok) as [_ Hs]. specialize (Hs 0). by injection Hs as _ _ -> _ _.
  - intros job. rewrite Hsum; [done|]. intros b Hb Hok. unfold job_bytes.
    destruct (Hf _ Hb Hok) as [_ Hs]. specialize (Hs 0). by injection Hs as _ -> -> _ _.
Qed.

(** ** Interleavings

    The atomic actions concurrent tasks take on a store. A guard is taken
    and updates a block only through a clone of its [Arc]. *)
Inductive ram_step (s : LocalRam) : LocalRam → Prop :=
| ram_allocate ok h : is_u64 (h_size h) → ram_step s (allocate ok h s).1
| ram_get id : ram_step s (get id s).1
| ram_release p : ram_step s (release p s)
| ram_free_check id token : ram_step s (free_check id token s).1
| ram_free_remove id p : ram_step s (free_remove id p s)
| ram_expire now : ram_step s (expire now s)
| ram_lock p : p ∉ locked s → ram_step s (s <| locked ::= ({[p]} ∪.) |>)
| ram_unlock p : ram_step s (s <| locked ::= (.∖ {[p]}) |>)
| ram_update p f : p ∈ locked s → guarded f → ram_step s (update_block p f s)
| ram_budget v : ram_step s (s <| accounting ::= λ a, a <| budget := v |> |>).

Lemma ram_step_wf ext s s' : wf ∅ ext s → ram_step s s' → wf ∅ ext s'.
Proof.
  intros Hw [].
  - by apply allocate_wf.
  - by apply get_wf.
  - apply release_wf. eapply wf_mono, Hw. set_solver.
  - by apply free_check_wf.
  - by apply free_remove_wf.
  - by apply expire_wf.
  - destruct Hw. by split.
  - destruct Hw. by split.
  - apply update_block_wf; auto.
  - apply wf_accounting; done.
Qed.

Lemma default_ram_wf : wf ∅ 0 default_ram.
Proof.
  split; cbn; try done; try (unfold is_u64, U64_MAX; lia).
  intros p. unfold clones_of. cbn. rewrite lookup_empty. cbn. lia.
Qed.

(** C3. Memory stays accounted exactly as long as it is alive: in every
    state concurrent tasks can reach, the counter is the sum of the sizes of
    the blocks on the heap (so a freed block still held by a reader is
    counted and an unreachable one is not), each job's counter is the sum of
    its blocks, every mapped block is allocated and every allocated block is
    mapped or held. *)
Theorem store_accounts_live_blocks s :
  rtc ram_step default_ram s →
  owned (accounting s) = map_sum block_bytes (heap s)
  ∧ (∀ job, job_owned job (accounting s) = map_sum (job_bytes job) (heap s))
  ∧ (∀ id p, blocks s !! id = Some p → ∃ b, heap s !! p = Some b ∧ h_id (b_handle b) = id)
  ∧ (∀ p b, heap s !! p = Some b →
       block_ok b ∧ (mapped p s = true ∨ (0 < clones_of p s)%nat)).
Proof.
  intros Hr. assert (wf ∅ 0 s) as Hw.
  { revert Hr. apply (rtc_ind_r (wf ∅ 0)); [apply default_ram_wf|]. intros. by eapply ram_step_wf. }
  split_and!.
  - rewrite (wf_owned _ _ _ Hw). lia.
  - apply Hw.
  - apply Hw.
  - intros p b Hb. apply Hw in Hb as [Hok Hal]. split; [done|]. set_solver.
Qed.

(** [free] of a mapped block: a wrong token is refused and changes
    nothing; the right one unmaps the block, and its bytes return to the
    budget at once exactly when nobody else holds it. *)
Theorem free_spec ext s id token p b :
  wf ∅ ext s → blocks s !! id = Some p → heap s !! p = Some b →
  free id token s =
    (if h_lease_token (b_handle b) =? token then (free_remove id p (acquire p s), Ok ())
     else (s, Err "TRAINPOOL_LEASE_DENIED"))
  ∧ (let s' := free_remove id p (acquire p s) in
     blocks s' = delete id (blocks s)
     ∧ heap s' = (if decide (clones_of p s = 0%nat) then delete p (heap s) else heap s)
     ∧ owned (accounting s') = owned (accounting s)
         - (if decide (clones_of p s = 0%nat) then block_bytes b else 0)).
Proof.
  intros Hw Hid Hp. pose proof (free_check_spec _ _ _ id token Hw) as Hs. rewrite Hid in Hs.
  destruct Hs as (b' & Hb' & _ & Hs). assert (b' = b) as -> by congruence. split.
  - unfold free, mbind, SM_bind. rewrite Hs. by case_match.
  - pose proof (wf_owned _ _ _ (free_remove_wf _ _ _ id p
      (acquire_wf _ _ _ p ltac:(by rewrite Hp) Hw))) as Hown.
    assert (blocks (free_remove id p (acquire p s)) = delete id (blocks s)
      ∧ heap (free_remove id p (acquire p s)) =
        (if decide (clones_of p s = 0%nat) then delete p (heap s) else heap s)) as [E1 E2].
    { unfold free_remove. rewrite bool_decide_true by done.
      match goal with |- context [release p ?t] => destruct (release_unmapped p t) as [-> ->] end.
      - apply not_true_iff_false. rewrite mapped_true. cbn.
        intros (i & [Hne Hi]%lookup_delete_Some). destruct Hne. by eapply blocks_inj.
      - split; [done|]. change (clones_of p (set blocks (delete id) (acquire p s)))
          with (clones_of p (acquire p s)).
        rewrite clones_of_acquire. cbn. repeat case_decide; done || lia. }
    split_and!; [done..|]. rewrite Hown, E2, (wf_owned _ _ _ Hw). case_decide; [|lia].
    rewrite (map_sum_delete _ _ _ _ Hp). lia.
Qed.

(** If, while [free] waits for the block it looked up, that block is
    removed and another one is allocated under the same identifier, the other
    block survives: [free_remove] only unmaps the address it checked. *)
Theorem free_remove_spares_replacement id p q s :
  blocks s !! id = Some q → p ≠ q → blocks (free_remove id p s) = blocks s.
Proof.
  intros Hq Hne. unfold free_remove. rewrite bool_decide_false by naive_solver.
  unfold release, reclaim. by repeat case_match.
Qed.

Lemma reclaim_blocks p s : blocks (reclaim p s) = blocks s.
Proof. unfold reclaim. by repeat case_match. Qed.
Lemma reclaim_fold_blocks ps s : blocks (foldr reclaim s ps) = blocks s.
Proof. induction ps; cbn; [done|]. by rewrite reclaim_blocks. Qed.

Lemma expire_blocks now s :
  blocks (expire now s) = filter (λ '(_, p), retained now s p = true) (blocks s).
Proof. unfold expire. by rewrite reclaim_fold_blocks. Qed.

(** Lease expiry: a block stays mapped exactly if a task is using it, its
    lease is still running, or it is migrating; a block that goes and that
    nobody holds gives its bytes back. *)
Theorem expire_spec ext s now :
  wf ∅ ext s →
  (∀ id p b, blocks s !! id = Some p → heap s !! p = Some b →
     (blocks (expire now s) !! id = Some p ↔
      p ∈ locked s ∨ now < h_lease_expires_ms (b_handle b) ∨ h_state (b_handle b) = Migrating))
  ∧ (∀ id, is_Some (blocks (expire now s) !! id) → is_Some (blocks s !! id))
  ∧ owned (accounting (expire now s)) = map_sum block_bytes (heap (expire now s)) + ext.
Proof.
  intros Hw. rewrite expire_blocks. split_and!.
  - intros id p b Hid Hp. rewrite map_lookup_filter_Some. unfold retained. rewrite Hp.
    rewrite !orb_true_iff, !bool_decide_eq_true, Z.ltb_lt. naive_solver.
  - intros id [p [Hp _]%map_lookup_filter_Some]. by exists p.
  - apply (expire_wf ∅ ext s now Hw).
Qed.

(** The rotating pages a heartbeat carries lose nothing: over one round of
    [inventory_pages] pages they are the whole inventory, in order, and no
    page lists more than 512 blocks. *)
Theorem inventory_pages_cover s :
  mjoin ((λ i, inventory_page (Z.of_nat i) s) <$> seq 0 (Z.to_nat (inventory_pages s)))
    = inventory s
  ∧ ∀ page, (length (inventory_page page s) ≤ 512)%nat.
Proof.
  split.
  - unfold inventory. rewrite <-(windows_join PAGE (Z.to_nat (inventory_pages s)) (values (blocks s))).
    + rewrite omap_join, <-list_fmap_compose. f_equal. apply list_fmap_ext.
      intros i j [Hj Hlt]%lookup_seq. unfold inventory_page, compose. cbn zeta.
      rewrite Z.mod_small by lia. do 3 f_equal. unfold PAGE. lia.
    + unfold values. rewrite length_fmap, length_entries. unfold inventory_pages, PAGE.
      pose proof (proj1 (div_ceil_spec (Z.of_nat (size (blocks s))) 512 _ ltac:(lia) ltac:(lia)) eq_refl).
      lia.
  - intros page. unfold inventory_page. cbn zeta. etrans; [apply length_omap_le|].
    rewrite length_take. unfold PAGE. lia.
Qed.

End LocalRam.

(** ** Witnesses *)

Import Toy.
Module Witness.

Definition handle (id token expires : Z) : MemoryBlockHandle :=
  mkHandle id 9 4 1 1 (Ram 1) None Writing token expires 0 None.
Definition with_budget (v : Z) (s : LocalRam) : LocalRam :=
  s <| accounting ::= λ a, a <| budget := v |> |>.
(** Two blocks, the first of which is also held by a reader. *)
Definition s1 : LocalRam := with_budget 100 default_ram.
Definition s2 : LocalRam := (allocate true (handle 5 77 1000) s1).1.
Definition s3 : LocalRam := (allocate true (handle 6 78 10) s2).1.
Definition s4 : LocalRam := (get 5 s3).1.

Definition p5 : Ptr := ptr_of 0 (handle 5 77 1000).
Definition b5 : RamBlock := new_block (handle 5 77 1000) (mkReservation 4 (Some 9)).

Lemma s4_reachable : rtc ram_step default_ram s4.
Proof.
  eapply rtc_l; [apply (ram_budget _ 100)|].
  eapply rtc_l; [apply (ram_allocate _ true (handle 5 77 1000)); vm_compute; split; congruence|].
  eapply rtc_l; [apply (ram_allocate _ true (handle 6 78 10)); vm_compute; split; congruence|].
  eapply rtc_l; [apply (ram_get _ 5)|]. apply rtc_refl.
Qed.
Lemma s4_wf : wf ∅ 0 s4.
Proof.
  pose proof s4_reachable as Hr. revert Hr.
  apply (rtc_ind_r (wf ∅ 0)); [apply default_ram_wf|]. intros. by eapply ram_step_wf.
Qed.
End Witness.

Lemma store_accounts_live_blocks_witness :
  rtc ram_step default_ram Witness.s4
  ∧ owned (accounting Witness.s4) = 8
  ∧ owned (accounting Witness.s4) = map_sum block_bytes (heap Witness.s4).
Proof.
  split; [exact Witness.s4_reachable|]. split; [vm_compute; reflexivity|].
  apply (store_accounts_live_blocks Witness.s4 Witness.s4_reachable).
Defined.

Lemma free_spec_witness :
  (free 5 77 Witness.s4).2 = Ok ()
  ∧ owned (accounting (free 5 77 Witness.s4).1) = 8
  ∧ free 5 70 Witness.s4 = (Witness.s4, Err "TRAINPOOL_LEASE_DENIED").
Proof.
  split_and!; [vm_compute; reflexivity..|].
  assert (blocks Witness.s4 !! 5 = Some Witness.p5) as H1 by (vm_compute; reflexivity).
  assert (heap Witness.s4 !! Witness.p5 = Some Witness.b5) as H2 by vm_refl.
  destruct (free_spec 0 Witness.s4 5 70 Witness.p5 Witness.b5 Witness.s4_wf H1 H2) as [E _].
  exact E.
Defined.

Lemma free_remove_spares_replacement_witness :
  blocks (free_remove 5 (ptr_of 9 (Witness.handle 5 77 1000)) Witness.s4) = blocks Witness.s4 ∧ is_Some (blocks Witness.s4 !! 5).
Proof.
  split; [|vm_compute; eauto].
  apply (free_remove_spares_replacement 5 _ Witness.p5); [vm_refl|done].
Defined.

Lemma expire_spec_witness :
  blocks (expire 20 Witness.s4) !! 6 = None
  ∧ owned (accounting (expire 20 Witness.s4))
    = map_sum block_bytes (heap (expire 20 Witness.s4)) + 0
  ∧ owned (accounting (expire 20 Witness.s4)) = 4.
Proof.
  split_and!; [vm_compute; reflexivity| |vm_compute; reflexivity].
  apply (expire_spec 0 Witness.s4 20 Witness.s4_wf).
Defined.
