(* ===== verification/Residency.v ===== *)
(** * The leader's view of where blocks live: [src/memory/residency.rs]

    [ResidencyTable.blocks] is the gossiped map from block identifiers to
    handles; a handle whose lease is [0] is a tombstone. *)

From S2P Require Import Prelude.
From S2P Require Import Lists.
From S2P Require Import Block.

Abbreviation ResidencyTable := (gmap Uuid MemoryBlockHandle) (only parsing).

(** The final [if] of [register]. *)
Definition register_newest (handle : MemoryBlockHandle) (t : ResidencyTable) : ResidencyTable :=
  if match t !! h_id handle with
     | None => true
     | Some old => h_generation old <=? h_generation handle
     end
  then <[h_id handle := handle]> t else t.

(** [ResidencyTable::register]. *)
Definition register (handle : MemoryBlockHandle) (t : ResidencyTable) : ResidencyTable :=
  match t !! h_id handle with
  | Some old =>
      if h_lease_expires_ms old =? 0 then t
      else if (h_generation handle =? h_generation old) && negb (h_lease_expires_ms handle =? 0) then
        let lease := Z.max (h_lease_expires_ms old) (h_lease_expires_ms handle) in
        let t := <[h_id handle := old <| h_lease_expires_ms := lease |>]> t in
        let handle := handle <| h_lease_expires_ms := lease |> in
        if bool_decide (h_state old = Ready) && bool_decide (h_state handle = Writing) then t
        else register_newest handle t
      else register_newest handle t
  | None => register_newest handle t
  end.

(** [ResidencyTable::lose_node]: the new table and the jobs of the lost
    blocks, in the order of the identifiers. *)
Definition lose_node (node : Uuid) (t : ResidencyTable) : ResidencyTable * list Uuid :=
  ((λ b, if h_owner_node b =? node then b <| h_state := Lost |> else b) <$> t,
   h_job_id <$> filter (λ b, h_owner_node b = node) (values t)).

(** The operations the runtime applies to the table. *)
Inductive table_step : ResidencyTable → ResidencyTable → Prop :=
| table_register h t : table_step t (register h t)
| table_lose_node n t : table_step t (lose_node n t).1.

(** What can become of an entry. *)
Record advances (old new : MemoryBlockHandle) : Prop := {
  adv_id : h_id new = h_id old;
  adv_generation : h_generation old <= h_generation new;
  adv_lease : h_generation new = h_generation old →
    h_lease_expires_ms new = 0 ∨ h_lease_expires_ms old <= h_lease_expires_ms new;
  adv_tombstone : h_lease_expires_ms old = 0 → new = old ∨ new = old <| h_state := Lost |>;
}.

#[export] Instance advances_refl : Reflexive advances.
Proof. intros h. split; try done; [lia|tauto]. Qed.

#[export] Instance advances_trans : Transitive advances.
Proof.
  intros a b c [I1 G1 L1 T1] [I2 G2 L2 T2]. split; [congruence|lia| |].
  - intros E. assert (h_generation b = h_generation a) as Eb by lia.
    destruct (L1 Eb) as [Hz|Hl].
    + left. destruct (T2 Hz) as [-> | ->]; done.
    + destruct L2; [lia|by left|right; lia].
  - intros Hz. destruct (T1 Hz) as [-> | ->]; destruct T2 as [-> | ->]; auto.
Qed.

Lemma register_newest_advances handle t id old :
  t !! id = Some old → (h_generation old = h_generation handle → h_id handle = id →
    h_lease_expires_ms handle = 0 ∨ h_lease_expires_ms old <= h_lease_expires_ms handle) →
  h_lease_expires_ms old ≠ 0 ∨ h_id handle ≠ id → h_id old = id →
  ∃ new, register_newest handle t !! id = Some new ∧ advances old new.
Proof.
  intros Ho Hl Hz Hid. unfold register_newest.
  destruct (decide (h_id handle = id)) as [E|E].
  - rewrite E, Ho. destruct (Z.leb_spec (h_generation old) (h_generation handle)).
    + rewrite lookup_insert_eq. exists handle. split; [done|]. split; try naive_solver.
    + exists old. by split.
  - exists old. split; [|done]. case_match; [|done]. by rewrite lookup_insert_ne.
Qed.

Lemma register_advances handle t id old :
  t !! id = Some old → h_id old = id →
  ∃ new, register handle t !! id = Some new ∧ advances old new.
Proof.
  intros Ho Hid. unfold register. destruct (t !! h_id handle) as [o|] eqn:Hh.
  2: { apply register_newest_advances; try done; [|right]; congruence. }
  destruct (Z.eqb_spec (h_lease_expires_ms o) 0) as [Hz|Hz]; [exists old; by split|].
  destruct (_ && _)%bool eqn:Hg; cbn zeta.
  2: { destruct (decide (h_id handle = id)) as [<-|E];
         apply register_newest_advances; simplify_eq; try tauto.
       intros Eg _. left. apply andb_false_iff in Hg as [Hg|Hg]; bprop; lia. }
  bprop. destruct (decide (h_id handle = id)) as [<-|E].
  - assert (o = old) as -> by congruence.
    set (lease := Z.max _ _). set (o' := set h_lease_expires_ms (λ _, lease) old).
    assert (advances old o') as Ha.
    { split; cbn; [done|lia|right; lia|done]. }
    case_match.
    + exists o'. by rewrite lookup_insert_eq.
    + destruct (register_newest_advances (set h_lease_expires_ms (λ _, lease) handle)
        (<[h_id handle := o']> t) (h_id handle) o') as (new & Hn & Han);
        [by rewrite lookup_insert_eq|cbn; lia|left; cbn; lia|done|].
      exists new. split; [done|by etrans].
  - set (t' := <[_ := _]> t).
    assert (t' !! id = Some old) as Ht by (unfold t'; by rewrite lookup_insert_ne).
    case_match; [by exists old|]. apply register_newest_advances; cbn; tauto.
Qed.

Lemma table_step_advances t t' id old :
  table_step t t' → t !! id = Some old → h_id old = id →
  ∃ new, t' !! id = Some new ∧ advances old new.
Proof.
  intros [h t0|n t0] Ho Hid; [by apply register_advances|].
  cbn. rewrite lookup_fmap, Ho. eexists. split; [done|]. case_match; [|done].
  split; cbn; [done|lia|right; lia|auto].
Qed.


(** One registration, on every branch: a tombstone and a newer entry
    ignore it; an entry of the same generation takes it with the later of the
    two leases, unless it would turn a committed block back into a writing
    one, when only the lease is taken; a new generation, a release and an
    unknown block are stored as they come. *)
Theorem register_spec h t :
  register h t !! h_id h =
    match t !! h_id h with
    | None => Some h
    | Some old =>
        let lease := Z.max (h_lease_expires_ms old) (h_lease_expires_ms h) in
        if decide (h_lease_expires_ms old = 0 ∨ h_generation h < h_generation old) then Some old
        else if decide (h_generation old < h_generation h ∨ h_lease_expires_ms h = 0) then Some h
        else if decide (h_state old = Ready ∧ h_state h = Writing)
             then Some (old <| h_lease_expires_ms := lease |>)
             else Some (h <| h_lease_expires_ms := lease |>)
    end
  ∧ ∀ id, id ≠ h_id h → register h t !! id = t !! id.
Proof.
  unfold register, register_newest. split.
  - destruct (t !! h_id h) as [old|] eqn:Ho; [|by rewrite lookup_insert_eq].
    cbn. rewrite ?lookup_insert_eq. cbn.
    destruct (Z.eqb_spec (h_lease_expires_ms old) 0); [by rewrite decide_True by tauto|].
    destruct (Z.eqb_spec (h_generation h) (h_generation old));
      destruct (Z.eqb_spec (h_lease_expires_ms h) 0);
      destruct (Z.leb_spec (h_generation old) (h_generation h));
      destruct (h_state old) eqn:?, (h_state h) eqn:?; cbn;
      repeat (case_decide; cbn); rewrite ?lookup_insert_eq; cbn;
      try (exfalso; intuition (congruence || lia)); try done.
  - intros id Hne. repeat case_match; cbn; rewrite ?lookup_insert_ne by done; done.
Qed.

(** Losing a node marks exactly its blocks lost and names their jobs. *)
Theorem lose_node_spec node t :
  let '(t', lost) := lose_node node t in
  (∀ id, t' !! id = (λ b, if h_owner_node b =? node then b <| h_state := Lost |> else b) <$> t !! id)
  ∧ ∀ job, job ∈ lost ↔ ∃ id b, t !! id = Some b ∧ h_owner_node b = node ∧ h_job_id b = job.
Proof.
  cbn. split; [intros id; apply lookup_fmap|]. intros job. rewrite list_elem_of_fmap. split.
  - intros (b & -> & [Hn Hb]%list_elem_of_filter). apply elem_of_values in Hb as (id & Hb). eauto.
  - intros (id & b & Hb & Hn & <-). exists b. split; [done|]. apply list_elem_of_filter.
    split; [done|]. apply elem_of_values. eauto.
Qed.

(** ** Witness: a commit, a stale write and a release of one block. *)
Module Witness.
Definition handle (state : BlockState) (expires gen : Z) : MemoryBlockHandle :=
  mkHandle 5 9 4 1 1 (Ram 1) None state 77 expires gen None.
Definition t0 : ResidencyTable := register (handle Ready 100 2) ∅.
Definition t3 : ResidencyTable :=
  register (handle Ready 500 2) (register (handle Ready 0 2) (register (handle Writing 300 2) t0)).
End Witness.

