(* ===== verification/Config.v ===== *)
(** * Configuration: [src/config/mod.rs]

    The record, its defaults, validation, loading and saving. [default_dir] and
    [node_id] of the same file are in [Identity]. *)

From S2P Require Import Prelude.
From S2P Require Import Float64.
From S2P Require Import Externals.

Definition MIB : u64 := 1024 * 1024.

(** [Config]; [disk_enabled] is [disk.enabled]. *)
Record Config := mkConfig {
  c_cluster_name : string;
  c_cluster_secret : option string;
  c_listen : SocketAddr;
  c_advertise_ip : option Ipv4Addr;
  c_multicast_group : Ipv4Addr;
  c_discovery_port : Z;
  c_multicast_interface : Ipv4Addr;
  c_discovery_enabled : bool;
  c_seeds : list SocketAddr;
  c_ram_fraction : f64;
  c_ram_reserve_bytes : u64;
  c_ram_reserve_fraction : f64;
  c_ram_limit_bytes : option u64;
  c_chunk_bytes : u64;
  c_data_transport : string;
  c_udp_payload_bytes : u64;
  c_udp_window_packets : u64;
  c_udp_initial_rto_ms : u64;
  c_udp_pacing_micros : u64;
  c_udp_max_retries : u64;
  c_udp_max_sessions : u64;
  c_lease_seconds : u64;
  c_vram_reserve_bytes : u64;
  c_vram_reserve_fraction : f64;
  c_disk_enabled : bool;
}.
#[export] Instance eta_Config : Eta Config := λ r,
  mkConfig (c_cluster_name r) (c_cluster_secret r) (c_listen r) (c_advertise_ip r)
    (c_multicast_group r) (c_discovery_port r) (c_multicast_interface r) (c_discovery_enabled r)
    (c_seeds r) (c_ram_fraction r) (c_ram_reserve_bytes r) (c_ram_reserve_fraction r)
    (c_ram_limit_bytes r) (c_chunk_bytes r) (c_data_transport r) (c_udp_payload_bytes r)
    (c_udp_window_packets r) (c_udp_initial_rto_ms r) (c_udp_pacing_micros r)
    (c_udp_max_retries r) (c_udp_max_sessions r) (c_lease_seconds r) (c_vram_reserve_bytes r)
    (c_vram_reserve_fraction r) (c_disk_enabled r).

(** [impl Default for Config]. *)
Definition default_config : Config := {|
  c_cluster_name := "trainpool";
  c_cluster_secret := None;
  c_listen := (V4 0, 7432);
  c_advertise_ip := None;
  c_multicast_group := ipv4 239 255 74 32;
  c_discovery_port := 7433;
  c_multicast_interface := 0;
  c_discovery_enabled := true;
  c_seeds := [];
  c_ram_fraction := f64_lit 90 100;
  c_ram_reserve_bytes := 1024 * MIB;
  c_ram_reserve_fraction := f64_lit 10 100;
  c_ram_limit_bytes := None;
  c_chunk_bytes := 64 * MIB;
  c_data_transport := "udp";
  c_udp_payload_bytes := 1200;
  c_udp_window_packets := 256;
  c_udp_initial_rto_ms := 50;
  c_udp_pacing_micros := 1;
  c_udp_max_retries := 8;
  c_udp_max_sessions := 128;
  c_lease_seconds := 300;
  c_vram_reserve_bytes := 96 * MIB;
  c_vram_reserve_fraction := f64_lit 2 100;
  c_disk_enabled := false;
|}.

(** [Config::validate]. *)
Definition validate (c : Config) : Result unit :=
  ensure (f64_contains (f64_lit 10 100) (f64_lit 90 100) (c_ram_fraction c))
    "ram-fraction must be between 0.10 and 0.90";;
  ensure (f64_contains f64_zero (f64_lit 90 100) (c_ram_reserve_fraction c))
    "invalid RAM reserve fraction";;
  ensure (within 4096 (64 * MIB) (c_chunk_bytes c)) "chunk-bytes must be 4096..67108864";;
  ensure (bool_decide (c_data_transport c = "tcp" ∨ c_data_transport c = "udp"))
    "data-transport must be tcp or udp";;
  ensure (within 512 1200 (c_udp_payload_bytes c)) "udp-payload-bytes must be 512..1200";;
  ensure (within 2 256 (c_udp_window_packets c)) "udp-window-packets must be 2..256";;
  ensure (within 10 5000 (c_udp_initial_rto_ms c)) "udp-initial-rto-ms must be 10..5000";;
  ensure (within 1 100000 (c_udp_pacing_micros c)) "udp-pacing-micros must be 1..100000";;
  ensure (within 1 64 (c_udp_max_retries c)) "udp-max-retries must be 1..64";;
  ensure (within 1 4096 (c_udp_max_sessions c)) "udp-max-sessions must be 1..4096";;
  ensure (within 10 86400 (c_lease_seconds c)) "lease-seconds must be 10..86400";;
  ensure (f64_contains f64_zero (f64_lit 90 100) (c_vram_reserve_fraction c))
    "invalid VRAM reserve fraction";;
  ensure (ipv4_is_multicast (c_multicast_group c)) "discovery address must be multicast";;
  ensure (negb (bool_decide (c_cluster_name c = ""))
          && bool_decide (String.length (c_cluster_name c) ≤ 128)%nat) "invalid cluster name";;
  ensure (negb (c_disk_enabled c)) "experimental disk spill: not implemented";;
  ensure (match c_cluster_secret c with None => true | Some s => negb (bool_decide (s = "")) end)
    "cluster-secret cannot be empty".

(** ** Loading and saving

    The TOML codec is the [toml] crate's. *)
Section Files.
Context (toml_from_str : string → Result Config) (toml_to_string_pretty : Config → string).

(** [Config::load]: [file] is [None] if [config.toml] does not exist and
    otherwise what reading it gives; [secret_env] is the value of
    [TRAINPOOL_CLUSTER_SECRET]. *)
Definition load (file : option (Result string)) (secret_env : option string) : Result Config :=
  config ← match file with
           | Some text => text ≫= toml_from_str
           | None => Ok default_config
           end;
  let config := match secret_env with
                | Some secret => config <| c_cluster_secret := Some secret |>
                | None => config
                end in
  validate config;;
  Ok config.

(** [Config::save] on a file: its text and its permission bits. The
    arguments are the outcomes of the three system calls; a failed write may
    leave any text; [create_mode] is the mode of a new file. *)
Definition save (create_dir write set_mode : Result unit) (create_mode : Z) (partial : option (string * Z))
    (c : Config) : SM (option (string * Z)) unit :=
  lift (validate c);;
  lift create_dir;;
  act (λ file, match write with
           | Ok _ => (Some (toml_to_string_pretty c, match file with Some (_, m) => m | None => create_mode end), Ok ())
           | r => (partial, r)
           end);;
  act (λ file, match set_mode with
           | Ok _ => (prod_map id (λ _, 384) <$> file, Ok ())
           | r => (file, r)
           end).

Lemma load_Ok file env c : load file env = Ok c → validate c = Ok ().
Proof.
  unfold load. intros H. apply bind_Ok in H as (c0 & _ & H).
  apply bind_Ok in H as ([] & Hv & [= <-]). done.
Qed.
End Files.

(** The values a running daemon relies on. *)
Record valid (c : Config) : Prop := {
  v_ram_fraction : f64_contains (f64_lit 10 100) (f64_lit 90 100) (c_ram_fraction c) = true;
  v_ram_reserve : f64_contains f64_zero (f64_lit 90 100) (c_ram_reserve_fraction c) = true;
  v_chunk : 4096 <= c_chunk_bytes c <= 67108864;
  v_transport : c_data_transport c ∈ ["tcp"; "udp"];
  v_payload : 512 <= c_udp_payload_bytes c <= 1200;
  v_window : 2 <= c_udp_window_packets c <= 256;
  v_rto : 10 <= c_udp_initial_rto_ms c <= 5000;
  v_pacing : 1 <= c_udp_pacing_micros c <= 100000;
  v_retries : 1 <= c_udp_max_retries c <= 64;
  v_sessions : 1 <= c_udp_max_sessions c <= 4096;
  v_lease : 10 <= c_lease_seconds c <= 86400;
  v_vram : f64_contains f64_zero (f64_lit 90 100) (c_vram_reserve_fraction c) = true;
  v_group : 224 <= c_multicast_group c / 2 ^ 24 <= 239;
  v_name : (0 < String.length (c_cluster_name c) ≤ 128)%nat;
  v_disk : c_disk_enabled c = false;
  v_secret : c_cluster_secret c ≠ Some "";
}.

Lemma transport_names s : s ∈ ["tcp"; "udp"]%string ↔ s = "tcp"%string ∨ s = "udp"%string.
Proof. set_solver. Qed.

Lemma validate_Ok_valid c : validate c = Ok () ↔ valid c.
Proof.
  unfold validate. rewrite !ensure_then, ensure_Ok, !within_true, !negb_true_iff.
  unfold ipv4_is_multicast. rewrite within_true. rewrite andb_true_iff, negb_true_iff, bool_decide_eq_true.
  rewrite bool_decide_eq_true, !bool_decide_eq_false. change (64 * MIB) with 67108864. split.
  - intros (H1 & H2 & H3 & H4 & H5 & H6 & H7 & H8 & H9 & H10 & H11 & H12 & H13 & [H14 H15] & H16 & H17).
    split; try assumption.
    + by apply transport_names.
    + split; [|done]. destruct (c_cluster_name c); [done|cbn; lia].
    + clear -H17. intros E. destruct (c_cluster_secret c); [|done]. by injection E as ->.
  - intros [H1 H2 H3 H4 H5 H6 H7 H8 H9 H10 H11 H12 H13 H14 H15 H16]. 
    split_and!; try assumption; try (clear -H3 H5 H6 H7 H8 H9 H10 H11 H13 H14; lia).
    + by apply transport_names.
    + clear -H14. intros E. destruct H14 as [Hn _]. rewrite E in Hn. cbn in Hn. lia.
    + clear -H16. destruct (c_cluster_secret c); [|done]. apply negb_true_iff, bool_decide_eq_false. congruence.
Qed.

Lemma default_config_valid : valid default_config.
Proof. apply validate_Ok_valid. vm_compute. reflexivity. Qed.

(** [validate] accepts exactly the configurations inside every documented
    range, refuses the others with an error, and accepts the defaults. *)
Theorem validate_valid c :
  (validate c = Ok () ↔ valid c) ∧ no_panic (validate c) ∧ validate default_config = Ok ().
Proof.
  split_and!; [apply validate_Ok_valid| |apply validate_Ok_valid, default_config_valid].
  unfold validate. do 15 apply ensure_no_panic. unfold ensure. by case_match.
Qed.

(** What a save writes a later load reads back, private to the user: with a
    codec that reads back this configuration, [load] without an environment
    override returns it, and whatever [load] returns is in range. *)
Theorem save_load (toml_from_str : string → Result Config) (toml_to_string_pretty : Config → string)
    mode partial c file0 file :
  toml_from_str (toml_to_string_pretty c) = Ok c →
  save toml_to_string_pretty (Ok ()) (Ok ()) (Ok ()) mode partial c file0 = (file, Ok ()) →
  ∃ text, file = Some (text, 384)
  ∧ load toml_from_str (Some (Ok text)) None = Ok c
  ∧ valid c
  ∧ ∀ secret c', load toml_from_str (Some (Ok text)) secret = Ok c' → valid c'.
Proof.
  intros Hc. unfold save, lift, act, mbind, SM_bind. destruct (validate c) as [[]|e|] eqn:Hv; [|done..].
  cbn. intros [= <-]. eexists. split; [done|]. split_and!.
  - unfold load. cbn. by rewrite Hc; cbn; rewrite Hv.
  - by apply validate_Ok_valid.
  - intros secret c' H. apply validate_Ok_valid.
    by apply (load_Ok toml_from_str (Some (Ok (toml_to_string_pretty c))) secret).
Qed.

Lemma save_load_witness :
  ∃ text, (save (λ _, "saved") (Ok ()) (Ok ()) (Ok ()) 420 None default_config None).1 = Some (text, 384)
  ∧ load (λ _, Ok default_config) (Some (Ok text)) None = Ok default_config.
Proof.
  destruct (save_load (λ _, Ok default_config) (λ _, "saved") 420 None default_config None
    (Some ("saved", 384)) eq_refl ltac:(vm_compute; reflexivity)) as (text & E & L & _).
  exists text. split; [|exact L]. rewrite <-E. vm_compute. reflexivity.
Defined.
