(* ===== verification/Identity.v ===== *)
(** * The identity of a node: [default_dir] and [node_id] of [src/config/mod.rs]

    A data directory keeps the identifier of its node in a file. The daemon
    and the launcher read it, or make it up and write it when it is not there;
    several may do so at the same time on one directory. *)

From Stdlib Require Import Ascii.
From S2P Require Import Prelude.
From S2P Require Import Lists.
From S2P Require Import Externals.
From S2P Require Import Text.

(** ** [default_dir] *)

Fixpoint ends_with_slash (s : string) : bool :=
  match s with
  | EmptyString => false
  | String a EmptyString => bool_decide (a = "/"%char)
  | String _ s => ends_with_slash s
  end.
(** [Path::join] with a relative path. *)
Definition path_join (base relative : string) : string :=
  if bool_decide (base = "") || ends_with_slash base then base +:+ relative else base +:+ "/" +:+ relative.
(** [trainpool_home] and [home] are the variables [TRAINPOOL_HOME] and [HOME]. *)
Definition default_dir (trainpool_home home : option string) : string :=
  match trainpool_home with
  | Some dir => dir
  | None => path_join (default "." home) ".trainpool"
  end.
Example default_dirs :
  (default_dir None (Some "/root"), default_dir None None, default_dir (Some "d") (Some "/root"),
   default_dir None (Some "/"))
  = ("/root/.trainpool", "./.trainpool", "d", "/.trainpool")%string.
Proof. vm_compute. reflexivity. Qed.

(** ** [node_id] *)

(** Reading identifiers: [Uuid::from_str]. Its text has no white space, and
    cut short it is no identifier. *)
Definition graphic (a : ascii) : bool := within 33 126 (code a).
Fixpoint all_graphic (s : string) : bool :=
  match s with EmptyString => true | String a s => graphic a && all_graphic s end.
Class UuidParse := { uuid_parse : string → Result Uuid }.
Class UuidParseLaws `{!UuidText, !UuidParse} : Prop := {
  uuid_graphic : ∀ u, is_uuid u → all_graphic (uuid_str u) = true;
  uuid_parse_str : ∀ u, is_uuid u → uuid_parse (uuid_str u) = Ok u;
  uuid_parse_cut : ∀ u s t v, is_uuid u → uuid_str u = s +:+ t → t ≠ ""%string → uuid_parse s ≠ Ok v;
}.

Section Identity.
Context `{UT : !UuidText, UP : !UuidParse}.

(** What [writeln!] writes. *)
Definition line (id : Uuid) : string := uuid_str id +:+ String "010" "".

(** Where a call of [node_id] is. *)
Inductive Pc :=
| Starting
| Looking
| Creating
| Writing (rest : string)
| Reading
| Finished (r : Result Uuid).

(** A step of a call that draws [id], on the file [node_id] of the directory:
    [None] if it does not exist. If [faulty], any system call may fail; a
    write takes any part of what is left. *)
Inductive call_step (faulty : bool) (id : Uuid) : option string → Pc → option string → Pc → Prop :=
| create_dir_all file : call_step faulty id file Starting file Looking
| create_dir_fails file e : faulty = true → call_step faulty id file Starting file (Finished (Err e))
| file_exists text : call_step faulty id (Some text) Looking (Some text) Reading
| file_missing : call_step faulty id None Looking None Creating
| create_new : call_step faulty id None Creating (Some "") (Writing (line id))
| already_exists text : call_step faulty id (Some text) Creating (Some text) Reading
| open_fails file e : faulty = true → call_step faulty id file Creating file (Finished (Err e))
| write_some text chunk rest :
    call_step faulty id (Some text) (Writing (chunk +:+ rest)) (Some (text +:+ chunk)) (Writing rest)
| write_fails file rest e : faulty = true → call_step faulty id file (Writing rest) file (Finished (Err e))
| write_ends file : call_step faulty id file (Writing "") file (Finished (Ok id))
| read_to_string text : call_step faulty id (Some text) Reading (Some text) (Finished (uuid_parse (trim text)))
| read_fails file e : faulty = true → call_step faulty id file Reading file (Finished (Err e)).

(** The directory and the calls on it, each with the identifier it would use. *)
Definition Calls : Type := option string * list (Uuid * Pc).
Inductive calls_step (faulty : bool) : Calls → Calls → Prop :=
| one_call file file' id pc pc' l1 l2 :
    call_step faulty id file pc file' pc' →
    calls_step faulty (file, l1 ++ (id, pc) :: l2) (file', l1 ++ (id, pc') :: l2)
| another_call file l id : is_uuid id → calls_step faulty (file, l) (file, l ++ [(id, Starting)]).

(** ** Every call gets the same identifier *)

Lemma app_snoc_inv s : ∀ a c w, s +:+ w = a +:+ String c "" →
  (w = "" ∧ s = a +:+ String c "") ∨ ∃ w', w = w' +:+ String c "" ∧ s +:+ w' = a.
Proof.
  induction s as [|x s IH]; intros a c w H.
  - right. by exists a.
  - change (String x s +:+ w) with (String x (s +:+ w)) in H. destruct a as [|y a].
    + change ("" +:+ String c "") with (String c "") in H. injection H as -> H. destruct s; [|done].
      change ("" +:+ w) with w in H. subst. by left.
    + change (String y a +:+ String c "") with (String y (a +:+ String c "")) in H. injection H as -> H.
      destruct (IH _ _ _ H) as [[-> ->]|(w' & -> & <-)]; [by left|right]. by exists w'.
Qed.
Lemma text_assoc s t u : s +:+ (t +:+ u) = (s +:+ t) +:+ u.
Proof.
  induction s as [|a s IH]; [done|]. change (String a (s +:+ (t +:+ u)) = String a ((s +:+ t) +:+ u)). by rewrite IH.
Qed.
Lemma app_empty_r s : s +:+ "" = s.
Proof. induction s as [|a s IH]; [done|]. change (String a s +:+ "") with (String a (s +:+ "")). by rewrite IH. Qed.
Lemma all_graphic_app s t : all_graphic (s +:+ t) = all_graphic s && all_graphic t.
Proof.
  induction s as [|a s IH]; [done|]. change (String a s +:+ t) with (String a (s +:+ t)). cbn. by rewrite IH, andb_assoc.
Qed.
Lemma graphic_not_white a s : graphic a = true → white (codes (String a s)) = O.
Proof. intros H%within_true. apply ascii_not_white. lia. Qed.
Lemma trim_start_graphic s t : all_graphic s = true → s ≠ "" → trim_start (s +:+ t) = s +:+ t.
Proof.
  destruct s as [|a s]; [done|]. cbn. intros [H _]%andb_true_iff _. change (String a s +:+ t) with (String a (s +:+ t)).
  unfold trim_start. cbn [String.length trim_start_fuel]. by rewrite graphic_not_white.
Qed.
Lemma trim_end_graphic s t : all_graphic s = true → trim_start t = "" → trim_end (s +:+ t) = s.
Proof.
  intros Hs Ht. induction s as [|a s IH].
  - change ("" +:+ t) with t. destruct t as [|b t]; [done|]. cbn [trim_end]. by rewrite bool_decide_true.
  - cbn in Hs. apply andb_true_iff in Hs as [Ha Hs]. change (String a s +:+ t) with (String a (s +:+ t)).
    cbn [trim_end]. rewrite bool_decide_false; [by rewrite IH|].
    change (String a (s +:+ t)) with (String a s +:+ t). rewrite trim_start_graphic by (cbn; by rewrite ?Ha). done.
Qed.
Lemma trim_graphic s t : all_graphic s = true → t = "" ∨ t = String "010" "" → trim (s +:+ t) = s.
Proof.
  intros Hs Ht. assert (trim_start t = "") as Hw by (by destruct Ht as [->| ->]).
  destruct (decide (s = "")) as [->|Hne].
  - change ("" +:+ t) with t. unfold trim. by rewrite Hw.
  - unfold trim. rewrite trim_start_graphic by done. by apply trim_end_graphic.
Qed.

Context `{UTL : !UuidTextLaws, UPL : !UuidParseLaws}.

(** What is written of the line is the identifier or nothing. *)
Lemma line_read u text w v :
  is_uuid u → text +:+ w = line u → uuid_parse (trim text) = Ok v → v = u ∧ (w = "" ∨ w = String "010" "").
Proof.
  intros Hu Hw Hp. pose proof (uuid_graphic u Hu) as Hg. pose proof (uuid_parse_str u Hu) as Hs.
  apply app_snoc_inv in Hw as [[-> ->]|(w' & -> & E)].
  - rewrite trim_graphic in Hp by auto. rewrite Hs in Hp. injection Hp as ->. auto.
  - destruct (decide (w' = "")) as [->|Hne].
    + rewrite app_empty_r in E. subst. rewrite <-(app_empty_r (uuid_str u)) in Hp. rewrite trim_graphic in Hp by auto.
      rewrite Hs in Hp. injection Hp as ->. auto.
    + exfalso. rewrite <-E, all_graphic_app in Hg. apply andb_true_iff in Hg as [Hg _].
      rewrite <-(app_empty_r text) in Hp. rewrite trim_graphic in Hp by auto.
      by eapply (uuid_parse_cut u text w' v).
Qed.
Lemma line_written u text w :
  is_uuid u → text +:+ w = line u → w = "" ∨ w = String "010" "" → uuid_parse (trim text) = Ok u.
Proof.
  intros Hu Hw Hl. pose proof (uuid_graphic u Hu). pose proof (uuid_parse_str u Hu) as Hs.
  apply app_snoc_inv in Hw as [[-> ->]|(w' & -> & E)].
  - rewrite trim_graphic; auto.
  - assert (w' = "") as ->. { destruct Hl as [Hl|Hl]; destruct w' as [|x w']; try done. by destruct w'. }
    rewrite app_empty_r in E. subst. rewrite <-(app_empty_r (uuid_str u)), trim_graphic; auto.
Qed.

(** A call that has neither written nor returned an identifier. *)
Definition blank (pc : Pc) : Prop :=
  match pc with Writing _ | Reading | Finished (Ok _) => False | _ => True end.
Definition no_write (pc : Pc) : Prop := match pc with Writing _ => False | _ => True end.
(** What was returned is what the file says. *)
Definition told (text : string) (pc : Pc) : Prop := ∀ v, pc = Finished (Ok v) → uuid_parse (trim text) = Ok v.
(** The file as it was found, or the text of [u] up to what is left to write,
    by one call at most. *)
Inductive settled (initial : option string) (text : string) (l : list (Uuid * Pc)) : Prop :=
| settled_found : initial = Some text → Forall (λ p, no_write p.2) l → settled initial text l
| settled_made u w : is_uuid u → text +:+ w = line u →
    (∃ i, ∀ j id rest, l !! j = Some (id, Writing rest) → j = i ∧ id = u ∧ rest = w) → settled initial text l.
Definition identity_inv (initial : option string) (c : Calls) : Prop :=
  Forall (λ p, is_uuid p.1) c.2 ∧
  match c.1 with
  | None => initial = None ∧ Forall (λ p, blank p.2) c.2
  | Some text => Forall (λ p, told text p.2) c.2 ∧ settled initial text c.2
  end.

Lemma Forall_update {A} (P Q : A → Prop) l1 x y l2 :
  Forall P (l1 ++ x :: l2) → (∀ z, P z → Q z) → (P x → Q y) → Forall Q (l1 ++ y :: l2).
Proof.
  intros [H1 [Hx H2]%Forall_cons]%Forall_app H Hy. apply Forall_app.
  split; [by eapply Forall_impl|]. constructor; [by apply Hy|by eapply Forall_impl].
Qed.
(** A step that does not write leaves who writes as it is. *)
Lemma settled_other initial text l1 id pc pc' l2 :
  no_write pc' → settled initial text (l1 ++ (id, pc) :: l2) → settled initial text (l1 ++ (id, pc') :: l2).
Proof.
  intros Hn [Hi Hl|u w Hu Hw (i & Hl)].
  - apply settled_found; [done|]. by eapply Forall_update.
  - apply (settled_made _ _ _ u w Hu Hw). exists i. intros j id' rest Hj. apply (Hl j).
    destruct (decide (j = length l1)) as [->|Hne].
    + rewrite list_lookup_middle in Hj by done. by injection Hj as <- ->.
    + revert Hj. rewrite !lookup_app. destruct (l1 !! j) eqn:E; [done|]. apply lookup_ge_None in E.
      destruct (j - length l1)%nat as [|k] eqn:Ek; [exfalso; lia|done].
Qed.
Lemma settled_writer initial text l1 id rest l2 :
  settled initial text (l1 ++ (id, Writing rest) :: l2) →
  is_uuid id ∧ text +:+ rest = line id
  ∧ ∀ j id' rest', (l1 ++ (id, Writing rest) :: l2) !! j = Some (id', Writing rest') → j = length l1.
Proof.
  intros [_ Hl|u w Hu Hw (i & Hl)].
  - by apply Forall_app in Hl as [_ [Hf _]%Forall_cons].
  - destruct (Hl (length l1) id rest) as (<- & -> & ->); [by apply list_lookup_middle|]. split_and!; [done..|].
    intros j id' rest' Hj. by destruct (Hl j id' rest' Hj).
Qed.

(** A step that leaves the file alone and writes nothing. *)
Lemma inv_quiet initial file id pc pc' l1 l2 :
  identity_inv initial (file, l1 ++ (id, pc) :: l2) →
  match file with Some text => told text pc' ∧ no_write pc' | None => blank pc' end →
  identity_inv initial (file, l1 ++ (id, pc') :: l2).
Proof.
  intros [Hu H] Hpc. cbn [fst snd] in *. split; cbn [fst snd]; [by eapply Forall_update; [exact Hu|..]|].
  destruct file as [text|]; destruct H as [H1 H2].
  - destruct Hpc. split; [by eapply Forall_update|by eapply settled_other].
  - split; [done|by eapply Forall_update].
Qed.
Lemma inv_created initial id l1 l2 :
  identity_inv initial (None, l1 ++ (id, Creating) :: l2) →
  identity_inv initial (Some ""%string, l1 ++ (id, Writing (line id)) :: l2).
Proof.
  intros [Hu [Hi Hb]]. cbn [fst snd] in *. split; cbn [fst snd]; [by eapply Forall_update; [exact Hu|..]|]. split.
  - eapply Forall_update; [exact Hb| |by intros _ v]. intros [v pc] Hp u Hpc. cbn in *. by subst.
  - apply (settled_made _ _ _ id (line id)); [|done|].
    + by apply Forall_app in Hu as [_ [Hid _]%Forall_cons].
    + exists (length l1). intros j id' rest Hj. destruct (decide (j = length l1)) as [->|Hne].
      * rewrite list_lookup_middle in Hj by done. by injection Hj as <- <-.
      * exfalso. assert (blank (Writing rest)) as []. 
        eapply (Forall_lookup_1 (λ p, blank p.2) _ j (id', Writing rest)); [exact Hb|].
        revert Hj. rewrite !lookup_app. destruct (l1 !! j) eqn:E; [done|]. apply lookup_ge_None in E.
        destruct (j - length l1)%nat as [|k] eqn:Ek; [exfalso; lia|done].
Qed.
Lemma line_tail (chunk rest : string) : chunk +:+ rest = "" ∨ chunk +:+ rest = String "010" "" → rest = "" ∨ rest = String "010" "".
Proof.
  destruct chunk as [|a chunk]; [done|]. cbn. intros [H|H]; [done|]. injection H as _ H. left. by destruct chunk.
Qed.
Lemma inv_wrote initial text chunk rest id l1 l2 :
  identity_inv initial (Some text, l1 ++ (id, Writing (chunk +:+ rest)) :: l2) →
  identity_inv initial (Some (text +:+ chunk), l1 ++ (id, Writing rest) :: l2).
Proof.
  intros [Hu [Ht Hs]]. cbn [fst snd] in *. split; cbn [fst snd]; [by eapply Forall_update; [exact Hu|..]|].
  apply settled_writer in Hs as (Hid & Hw & Hl). rewrite text_assoc in Hw. split.
  - eapply Forall_update; [exact Ht| |by intros _ v]. intros [v pc] Hp u Hpc. specialize (Hp u Hpc).
    rewrite <-text_assoc in Hw. destruct (line_read id text (chunk +:+ rest) u Hid Hw Hp) as [-> Htail].
    apply (line_written id _ rest); [done|by rewrite <-text_assoc|by eapply line_tail].
  - apply (settled_made _ _ _ id rest); [done..|]. exists (length l1). intros j id' rest' Hj.
    destruct (decide (j = length l1)) as [->|Hne].
    + rewrite list_lookup_middle in Hj by done. by injection Hj as <- <-.
    + exfalso. apply Hne. apply (Hl j id' rest'). revert Hj. rewrite !lookup_app. destruct (l1 !! j) eqn:E; [done|].
      apply lookup_ge_None in E. destruct (j - length l1)%nat as [|k] eqn:Ek; [exfalso; lia|done].
Qed.
Lemma inv_ended initial file id l1 l2 :
  identity_inv initial (file, l1 ++ (id, Writing "") :: l2) →
  identity_inv initial (file, l1 ++ (id, Finished (Ok id)) :: l2).
Proof.
  intros H. eapply inv_quiet; [exact H|]. destruct H as [Hu H]. cbn [fst snd] in *. destruct file as [text|].
  - destruct H as [_ (Hid & Hw & _)%settled_writer]. split; [|done]. intros v [= <-].
    by apply (line_written id text ""); auto.
  - destruct H as [_ [_ [[] _]%Forall_cons]%Forall_app].
Qed.

Lemma calls_step_inv faulty initial c c' : calls_step faulty c c' → identity_inv initial c → identity_inv initial c'.
Proof.
  intros [file file' id pc pc' l1 l2 Hs|file l id Hid] H.
  - destruct Hs; try (eapply inv_quiet; [exact H|]; try (destruct file; done); done).
    + by apply inv_created.
    + by apply inv_wrote.
    + by apply inv_ended.
    + eapply inv_quiet; [exact H|]. split; [|done]. by intros v [= ->].
  - destruct H as [Hu H]. cbn [fst snd] in *. split; cbn [fst snd]; [by apply Forall_app_2; [|apply Forall_singleton]|].
    destruct file as [text|].
    + destruct H as [H1 H2]. split; [apply Forall_app; split; [done|by apply Forall_singleton]|].
      destruct H2 as [Hi Hl|u w Hu' Hw (i & Hl)].
      * apply settled_found; [done|]. apply Forall_app. split; [done|by apply Forall_singleton].
      * apply (settled_made _ _ _ u w Hu' Hw). exists i. intros j id' rest Hj. apply (Hl j).
        apply lookup_app_Some in Hj as [Hj|[_ Hj]]; [done|].
        apply list_lookup_singleton_Some in Hj as [_ [=]].
    + destruct H as [H1 H2]. split; [done|]. apply Forall_app. split; [done|by apply Forall_singleton].
Qed.

(** C27. One directory, one identity: however many processes start on a data
    directory, one after the other or at the same time, and wherever their
    system calls fail, all that get an identifier get the same one, and the
    file holds it, so that every later start gets it too. *)
Theorem node_id_agreement faulty initial file l id v :
  rtc (calls_step faulty) (initial, []) (file, l) → (id, Finished (Ok v)) ∈ l →
  (∀ id' v', (id', Finished (Ok v')) ∈ l → v' = v)
  ∧ ∃ text, file = Some text ∧ uuid_parse (trim text) = Ok v.
Proof.
  intros Hr Hv. assert (identity_inv initial (file, l)) as [_ H].
  { assert (identity_inv initial (initial, [])) as H0.
    { split; cbn; [done|]. destruct initial; [split; [done|by apply settled_found]|done]. }
    revert H0. induction Hr as [c|c c1 c' Hs _ IH]; [done|]. intros H0. by apply IH, (calls_step_inv faulty _ c). }
  cbn [fst snd] in H. destruct file as [text|].
  - destruct H as [H _]. rewrite Forall_forall in H. pose proof (H _ Hv v eq_refl) as Hp. split; [|by exists text].
    intros id' v' Hv'. pose proof (H _ Hv' v' eq_refl) as Hp'. congruence.
  - destruct H as [_ H]. rewrite Forall_forall in H. by destruct (H _ Hv).
Qed.

(** But a call may fail although no system call does: one that looks between
    the creation of the file and the write to it reads an empty file. *)
Theorem node_id_torn_read u v e :
  is_uuid u → is_uuid v → uuid_parse "" = Err e →
  rtc (calls_step false) (None, []) (Some (line u), [(u, Finished (Ok u)); (v, Finished (Err e))]).
Proof.
  intros Hu Hv He.
  assert (∀ file file' pc pc' p, call_step false u file pc file' pc' →
    calls_step false (file, [(u, pc); p]) (file', [(u, pc'); p])) as first
    by (intros; by apply (one_call _ _ _ _ _ _ [])).
  assert (∀ file file' pc pc' p, call_step false v file pc file' pc' →
    calls_step false (file, [p; (v, pc)]) (file', [p; (v, pc')])) as second
    by (intros ????? H; by apply (one_call _ _ _ _ _ _ [_] [])).
  eapply rtc_l; [by apply (another_call _ None [] u)|]. eapply rtc_l; [by apply (another_call _ None [_] v)|].
  cbn [app]. eapply rtc_l; [apply first, create_dir_all|]. eapply rtc_l; [apply first, file_missing|].
  eapply rtc_l; [apply first, create_new|].
  eapply rtc_l; [apply second, create_dir_all|]. eapply rtc_l; [apply second, file_exists|].
  eapply rtc_l; [apply second, read_to_string|]. change (trim "") with "". rewrite He.
  pose proof (write_some false u "" (line u) "") as Hw. rewrite app_empty_r in Hw.
  eapply rtc_l; [apply first, Hw|]. by apply rtc_once, first, write_ends.
Qed.
End Identity.

(** ** Executable instances *)
Module ToyUuid.
Import Toy.
#[export] Instance toy_uuid_parse : UuidParse := {|
  uuid_parse s := if (String.length s =? 36)%nat then Ok (of_hex s 0) else Err "invalid length" |}.
Lemma digit_graphic z : 0 <= z < 16 → graphic (Toy.digit z) = true.
Proof.
  intros Hz. unfold graphic, code, Toy.digit. rewrite Ascii.N_ascii_embedding by (case_match; lia).
  apply within_true. case_match; bprop; lia.
Qed.
Lemma hex_graphic n z : all_graphic (to_hex n z) = true.
Proof.
  induction n as [|n IH]; [done|]. cbn [to_hex all_graphic]. rewrite IH, digit_graphic; [done|].
  apply Z.mod_pos_bound. lia.
Qed.
#[export] Instance toy_uuid_parse_laws : UuidParseLaws.
Proof.
  split.
  - intros u _. apply hex_graphic.
  - intros u Hu. change (uuid_str u) with (to_hex 36 u). cbn -[to_hex of_hex Nat.eqb].
    rewrite to_hex_length, Nat.eqb_refl, of_hex_to_hex, Z.mul_0_l, Z.add_0_l, Z.mod_small; [done|].
    unfold is_uuid in Hu. change (16 ^ Z.of_nat 36) with (2 ^ 144). lia.
  - intros u s t v Hu E Ht. assert (String.length s < 36)%nat as Hl.
    { rewrite <-(to_hex_length 36 u). change (to_hex 36 u) with (uuid_str u). rewrite E.
      clear -Ht. destruct t as [|a t]; [done|]. induction s as [|b s IH]; [apply Nat.lt_0_succ|].
      change (S (String.length s) < S (String.length (s +:+ String a t)))%nat. lia. }
    cbn -[Nat.eqb]. by rewrite (proj2 (Nat.eqb_neq _ _)) by lia.
Qed.
End ToyUuid.
Import Toy ToyUuid.

(** A launcher finds an empty directory; the daemon starts later, with another
    identifier in its hand, and reads what the launcher wrote. *)
Lemma node_id_agreement_witness :
  let read s := uuid_parse (UuidParse := ToyUuid.toy_uuid_parse) (trim s) in
  let text := line (UT := Toy.toy_uuid) 7 in
  read text = Ok 7 ∧ ∃ found, Some text = Some found ∧ read found = Ok 7.
Proof.
  cbn zeta. split; [vm_compute; reflexivity|].
  destruct (node_id_agreement (UT := Toy.toy_uuid) (UP := ToyUuid.toy_uuid_parse) false None
    (Some (line (UT := Toy.toy_uuid) 7)) [(7, Finished (Ok 7)); (8, Finished (Ok 7))] 8 7) as [_ H]; [| |exact H].
  - eapply rtc_l; [by apply (another_call false None [] 7)|]. cbn [app].
    eapply rtc_l; [eapply (one_call false _ _ _ _ _ [] []), create_dir_all|].
    eapply rtc_l; [eapply (one_call false _ _ _ _ _ [] []), file_missing|].
    eapply rtc_l; [eapply (one_call false _ _ _ _ _ [] []), create_new|].
    pose proof (write_some false 7 "" (line (UT := Toy.toy_uuid) 7) "") as Hw. rewrite app_empty_r in Hw.
    eapply rtc_l; [eapply (one_call false _ _ _ _ _ [] []), Hw|].
    eapply rtc_l; [eapply (one_call false _ _ _ _ _ [] []), write_ends|].
    eapply rtc_l; [by apply (another_call false _ [_] 8)|]. cbn [app].
    eapply rtc_l; [eapply (one_call false _ _ _ _ _ [_] []), create_dir_all|].
    eapply rtc_l; [eapply (one_call false _ _ _ _ _ [_] []), file_exists|].
    apply rtc_once. eapply (one_call false _ _ _ _ _ [_] []).
    exact (read_to_string _ _ (line (UT := Toy.toy_uuid) 7)).
  - apply elem_of_cons. right. by apply list_elem_of_singleton.
Defined.
