(* ===== verification/Node.v ===== *)
(** * What a node has: [src/node/]

    Capabilities of the CPU, the memory, the GPUs and the network, and the
    RAM budget a node contributes. *)

From S2P Require Import Prelude.
From S2P Require Import Float64.
From S2P Require Import Config.

Record CpuCapabilities := mkCpu {
  cpu_model : string;
  physical_cores : u64;
  logical_cores : u64;
  cpu_architecture : string;
}.
#[export] Instance eta_CpuCapabilities : Eta CpuCapabilities := λ r,
  mkCpu (cpu_model r) (physical_cores r) (logical_cores r) (cpu_architecture r).

Record MemoryCapabilities := mkMemory {
  physical_ram_total : u64;
  os_available_ram : u64;
  trainpool_ram_used : u64;
  trainpool_ram_budget : u64;
  trainpool_ram_available : u64;
  safety_reserve : u64;
  safe_local_ram_allocatable_now : u64;
}.
#[export] Instance eta_MemoryCapabilities : Eta MemoryCapabilities := λ r,
  mkMemory (physical_ram_total r) (os_available_ram r) (trainpool_ram_used r)
    (trainpool_ram_budget r) (trainpool_ram_available r) (safety_reserve r)
    (safe_local_ram_allocatable_now r).

Record GpuCapabilities := mkGpu {
  gpu_uuid : string;
  gpu_model : string;
  vram_total : u64;
  vram_free : u64;
  vram_used : u64;
  usable_vram : u64;
  trainpool_allocated_vram : u64;
  utilization : option f64;
  cuda_capability : option string;
  driver_version : string;
  temperature : option f64;
}.
#[export] Instance eta_GpuCapabilities : Eta GpuCapabilities := λ r,
  mkGpu (gpu_uuid r) (gpu_model r) (vram_total r) (vram_free r) (vram_used r) (usable_vram r)
    (trainpool_allocated_vram r) (utilization r) (cuda_capability r) (driver_version r)
    (temperature r).

Record RuntimeCapabilities := mkRuntimeCaps {
  gpu_compute : bool;
  ram_provider : bool;
  disk_spill : bool;
  version : string;
}.
#[export] Instance eta_RuntimeCapabilities : Eta RuntimeCapabilities := λ r,
  mkRuntimeCaps (gpu_compute r) (ram_provider r) (disk_spill r) (version r).

Record NetworkCapabilities := mkNetwork {
  control_address : SocketAddr;
  data_address : option SocketAddr;
  transport : string;
  data_transport : string;
  n_chunk_bytes : u64;
  active_transfers : Z;
}.
#[export] Instance eta_NetworkCapabilities : Eta NetworkCapabilities := λ r,
  mkNetwork (control_address r) (data_address r) (transport r) (data_transport r)
    (n_chunk_bytes r) (active_transfers r).

Record NodeCapabilities := mkNode {
  node_id : Uuid;
  incarnation : Uuid;
  leader_generation : Uuid;
  hostname : string;
  os : string;
  architecture : string;
  cpu : CpuCapabilities;
  memory : MemoryCapabilities;
  gpus : list GpuCapabilities;
  network : NetworkCapabilities;
  runtime : RuntimeCapabilities;
}.
#[export] Instance eta_NodeCapabilities : Eta NodeCapabilities := λ r,
  mkNode (node_id r) (incarnation r) (leader_generation r) (hostname r) (os r) (architecture r)
    (cpu r) (memory r) (gpus r) (network r) (runtime r).


#[export] Instance NodeCapabilities_eq_dec : EqDecision NodeCapabilities.
Proof.
  assert (EqDecision CpuCapabilities) by solve_decision.
  assert (EqDecision MemoryCapabilities) by solve_decision.
  assert (EqDecision GpuCapabilities) by solve_decision.
  assert (EqDecision RuntimeCapabilities) by solve_decision.
  assert (EqDecision SocketAddr) by (unfold SocketAddr; apply _).
  assert (EqDecision NetworkCapabilities) by solve_decision.
  solve_decision.
Defined.

(** [MemoryCapabilities::calculate]. *)
Definition calculate (total available owned : u64) (fraction : f64) (limit : option u64)
    (reserve_bytes : u64) (reserve_fraction : f64) : MemoryCapabilities :=
  let effective := Z.min (saturating_add available owned) total in
  let reserve := Z.max reserve_bytes (u64_of_f64 (f64_mul (f64_of_u64 total) reserve_fraction)) in
  let safe_capacity := saturating_sub effective reserve in
  let contribution_ceiling := u64_of_f64 (f64_mul (f64_of_u64 total) fraction) in
  let budget := Z.min (Z.min safe_capacity contribution_ceiling) (default U64_MAX limit) in
  let allocatable := saturating_sub budget owned in
  {| physical_ram_total := total;
     os_available_ram := available;
     trainpool_ram_used := owned;
     trainpool_ram_budget := budget;
     trainpool_ram_available := allocatable;
     safety_reserve := reserve;
     safe_local_ram_allocatable_now := allocatable |}.

(** [MemoryCapabilities::excess]. *)
Definition excess (m : MemoryCapabilities) : u64 :=
  saturating_sub (trainpool_ram_used m) (trainpool_ram_budget m).

(** [gpu::usable_vram]. *)
Definition ADAPTIVE_RESERVE_CAP : u64 := 256 * MIB.
Definition gpu_usable_vram (total free reserve : u64) (fraction : f64) : u64 :=
  let adaptive := Z.min (u64_of_f64 (f64_mul (f64_of_u64 total) fraction)) ADAPTIVE_RESERVE_CAP in
  saturating_sub free (Z.max reserve adaptive).

(** [NodeCapabilities::election_score]. *)
Definition election_score (n : NodeCapabilities) : u64 :=
  fold_left (λ sum gpu, saturating_add sum (vram_total gpu)) (gpus n)
    (physical_ram_total (memory n)).

(** [NodeCapabilities::refresh_memory]; the arguments are the samples of
    [sysinfo]: the available memory and the free memory of the cgroup. *)
Definition refresh_memory (available_memory : u64) (cgroup_free : option u64) (config : Config)
    (owned : u64) (n : NodeCapabilities) : NodeCapabilities :=
  let available := match cgroup_free with
                   | Some free => Z.min available_memory free
                   | None => available_memory
                   end in
  n <| memory := calculate (physical_ram_total (memory n)) available owned
                   (c_ram_fraction config) (c_ram_limit_bytes config)
                   (c_ram_reserve_bytes config) (c_ram_reserve_fraction config) |>.

(** What the system and [nvidia-smi] report when the daemon starts. *)
Record Probe := mkProbe {
  p_incarnation : Uuid;
  p_leader_generation : Uuid;
  p_gpus : list GpuCapabilities;
  p_architecture : string;
  p_os : string;
  p_hostname : option string;
  p_cpu_brand : option string;
  p_physical_cores : option u64;
  p_logical_cores : u64;
  p_total_memory : u64;
  p_available_memory : u64;
  p_cgroup_free : option u64;
  p_version : string;
}.
#[export] Instance eta_Probe : Eta Probe := λ r,
  mkProbe (p_incarnation r) (p_leader_generation r) (p_gpus r) (p_architecture r) (p_os r)
    (p_hostname r) (p_cpu_brand r) (p_physical_cores r) (p_logical_cores r) (p_total_memory r)
    (p_available_memory r) (p_cgroup_free r) (p_version r).

(** [NodeCapabilities::detect]. *)
Definition detect (uuid_to_string : Uuid → string) (id : Uuid) (address : SocketAddr)
    (config : Config) (p : Probe) : NodeCapabilities :=
  let node := {|
    node_id := id;
    incarnation := p_incarnation p;
    leader_generation := p_leader_generation p;
    hostname := default (uuid_to_string id) (p_hostname p);
    os := p_os p;
    architecture := p_architecture p;
    cpu := mkCpu (default "unknown" (p_cpu_brand p)) (default 0 (p_physical_cores p))
             (p_logical_cores p) (p_architecture p);
    memory := mkMemory (p_total_memory p) 0 0 0 0 0 0;
    gpus := p_gpus p;
    network := mkNetwork address (Some address) "framed-tcp-control" (c_data_transport config)
                 (c_chunk_bytes config) 0;
    runtime := mkRuntimeCaps (negb (bool_decide (p_gpus p = []))) true false (p_version p);
  |} in
  refresh_memory (p_available_memory p) (p_cgroup_free p) config 0 node.

(** ** Properties *)

(** C37. The budget never promises memory the host must keep: it respects every
    ceiling, what may still be allocated fits the budget, a node is in
    excess exactly when it owns more than the budget, and if the budget is
    used up the host is left with its whole safety reserve. *)
Theorem calculate_spec total available owned fraction limit reserve_bytes reserve_fraction :
  is_u64 total → is_u64 available → is_u64 owned →
  let m := calculate total available owned fraction limit reserve_bytes reserve_fraction in
  trainpool_ram_budget m <= u64_of_f64 (f64_mul (f64_of_u64 total) fraction)
  ∧ (∀ l, limit = Some l → trainpool_ram_budget m <= l)
  ∧ (0 < trainpool_ram_budget m →
       trainpool_ram_budget m + safety_reserve m <= Z.min (available + owned) total
       ∧ safety_reserve m <= available + owned - trainpool_ram_budget m)
  ∧ reserve_bytes <= safety_reserve m
  ∧ (0 < trainpool_ram_available m →
       owned + trainpool_ram_available m = trainpool_ram_budget m ∧ excess m = 0)
  ∧ (0 < excess m ↔ trainpool_ram_budget m < owned).
Proof.
  unfold is_u64. intros Ht Ha Ho. cbn zeta.
  unfold calculate, excess, saturating_sub, saturating_add. cbn.
  pose proof (u64_of_f64_range (f64_mul (f64_of_u64 total) reserve_fraction)).
  pose proof (u64_of_f64_range (f64_mul (f64_of_u64 total) fraction)).
  split_and!; [lia| |lia..]. intros l ->. cbn. lia.
Qed.

(** Usable VRAM always leaves the configured reserve free on the device,
    and the adaptive part of the reserve is at most 256 MiB. *)
Theorem gpu_usable_vram_spec total free reserve fraction :
  is_u64 free → is_u64 reserve →
  let u := gpu_usable_vram total free reserve fraction in
  0 <= u <= free
  ∧ (0 < u → reserve <= free - u
       ∧ Z.min (u64_of_f64 (f64_mul (f64_of_u64 total) fraction)) (256 * MIB) <= free - u)
  ∧ (u = 0 ∨ free - u <= Z.max reserve (256 * MIB)).
Proof.
  unfold is_u64, gpu_usable_vram, ADAPTIVE_RESERVE_CAP, saturating_sub. cbn zeta. intros Hf Hr.
  pose proof (u64_of_f64_range (f64_mul (f64_of_u64 total) fraction)). lia.
Qed.

Lemma election_score_range n :
  0 <= physical_ram_total (memory n) <= U64_MAX →
  Forall (λ g, 0 <= vram_total g) (gpus n) →
  physical_ram_total (memory n) <= election_score n <= U64_MAX.
Proof.
  unfold election_score. generalize (physical_ram_total (memory n)).
  induction (gpus n) as [|g l IH]; intros z Hz Hg; cbn; [lia|].
  inversion Hg; subst. unfold saturating_add at 2 4.
  specialize (IH (saturating_add z (vram_total g))). unfold saturating_add in *.
  pose proof (IH ltac:(lia) ltac:(done)). lia.
Qed.

Lemma calculate_spec_witness :
  let m := calculate 1000 600 100 (f64_lit 90 100) (Some 800) 50 (f64_lit 10 100) in
  trainpool_ram_budget m = 600 ∧ safety_reserve m = 100 ∧ trainpool_ram_available m = 500
  ∧ trainpool_ram_budget m + safety_reserve m <= Z.min (600 + 100) 1000.
Proof.
  cbn zeta. split_and!; [vm_compute; reflexivity..|].
  apply (calculate_spec 1000 600 100 (f64_lit 90 100) (Some 800) 50 (f64_lit 10 100));
    unfold is_u64, U64_MAX; try lia. vm_compute. reflexivity.
Defined.

Lemma gpu_usable_vram_spec_witness :
  gpu_usable_vram (24 * 1024 * MIB) (20 * 1024 * MIB) (96 * MIB) (f64_lit 2 100) = 20224 * MIB
  ∧ 96 * MIB <= 20 * 1024 * MIB - gpu_usable_vram (24 * 1024 * MIB) (20 * 1024 * MIB) (96 * MIB) (f64_lit 2 100).
Proof.
  split; [vm_compute; reflexivity|].
  apply (gpu_usable_vram_spec (24 * 1024 * MIB) (20 * 1024 * MIB) (96 * MIB) (f64_lit 2 100));
    unfold is_u64, U64_MAX, MIB; try lia. vm_compute. reflexivity.
Defined.
