(* ===== verification/Gpu.v ===== *)
(** * What [nvidia-smi] reports: [src/node/gpu.rs]

    The table of GPUs a node announces. *)

From Stdlib Require Import Floats.SpecFloat.
From Stdlib Require Import Ascii.
From S2P Require Import Prelude.
From S2P Require Import Lists.
From S2P Require Import Bytes.
From S2P Require Import Float64.
From S2P Require Import Text.
From S2P Require Import Config.
From S2P Require Import Node.

(** [str::split] by a character. *)
Fixpoint split_on (c : ascii) (s : string) : list string :=
  match s with
  | EmptyString => [""]
  | String a s =>
      match split_on c s with
      | [] => []
      | w :: ws => if bool_decide (a = c) then "" :: w :: ws else String a w :: ws
      end
  end.
(** A carriage return before the end of the line goes with it. *)
Fixpoint strip_return (s : string) : string :=
  match s with
  | EmptyString => ""
  | String a EmptyString => if bool_decide (a = "013"%char) then "" else s
  | String a s => String a (strip_return s)
  end.
(** [str::lines]: the text after the last line feed is a line if it is not
    empty, and keeps its carriage return. *)
Fixpoint close_lines (l : list string) : list string :=
  match l with
  | [] => []
  | [last] => if bool_decide (last = "") then [] else [last]
  | line :: l => strip_return line :: close_lines l
  end.
Definition lines (s : string) : list string := close_lines (split_on "010" s).

Definition ok {A} (r : Result A) : option A := match r with Ok a => Some a | _ => None end.
(** A field in MiB. *)
Definition mebibytes (field : string) : option u64 := (λ z, wmul z MIB) <$> ok (parse_u64 field).
Definition parse_fields (config : Config) (fields : list string) : option GpuCapabilities :=
  match fields with
  | uuid :: model :: total :: free :: used :: util :: driver :: temp :: rest =>
      if (1 <? length rest)%nat then None else
      total ← mebibytes total;
      free ← mebibytes free;
      used ← mebibytes used;
      Some {|
        gpu_uuid := uuid;
        gpu_model := model;
        vram_total := total;
        vram_free := free;
        vram_used := used;
        usable_vram := gpu_usable_vram total free (c_vram_reserve_bytes config) (c_vram_reserve_fraction config);
        trainpool_allocated_vram := 0;
        utilization := ok (parse_f64 util);
        driver_version := driver;
        temperature := ok (parse_f64 temp);
        cuda_capability := field ← head rest; ok (parse_f64 field);; Some field |}
  | _ => None
  end.
(** One line of [parse_csv]. *)
Definition parse_line (config : Config) (line : string) : option GpuCapabilities :=
  parse_fields config (trim <$> split_on "," line).
Definition parse_csv (config : Config) (output : string) : list GpuCapabilities :=
  omap (parse_line config) (lines output).

(** What a run of [nvidia-smi] gives: nothing if it cannot be run or takes
    too long; its success and its output. *)
Abbreviation Smi := (option (bool * list byte)) (only parsing).
(** [detect]: the first query asks for one more column. *)
Definition detect_gpus (config : Config) (with_capability without : Smi) : list GpuCapabilities :=
  match with_capability with
  | None => []
  | Some (true, output) => parse_csv config (from_utf8_lossy output)
  | Some (false, _) =>
      match without with
      | Some (true, output) => parse_csv config (from_utf8_lossy output)
      | _ => []
      end
  end.

(** ** Reading back a table *)

Fixpoint contains (c : ascii) (s : string) : bool :=
  match s with EmptyString => false | String a s => bool_decide (a = c) || contains c s end.
Lemma split_on_nonempty c s : split_on c s ≠ [].
Proof. induction s as [|a s IH]; [done|]. cbn. destruct (split_on c s); [done|]. by case_bool_decide. Qed.
Lemma split_on_app c s t : contains c s = false → split_on c (s +:+ String c t) = s :: split_on c t.
Proof.
  induction s as [|a s IH]; intros H.
  - change ("" +:+ String c t) with (String c t). cbn [split_on]. rewrite (bool_decide_true (c = c)) by done.
    pose proof (split_on_nonempty c t). by destruct (split_on c t).
  - cbn in H. apply orb_false_iff in H as [H1 H2]. change (String a s +:+ String c t) with (String a (s +:+ String c t)).
    cbn [split_on]. rewrite IH, H1 by done. done.
Qed.
Lemma split_on_none c s : contains c s = false → split_on c s = [s].
Proof.
  induction s as [|a s IH]; intros H; [done|]. cbn in H. apply orb_false_iff in H as [H1 H2].
  cbn [split_on]. by rewrite IH, H1 by done.
Qed.
Lemma contains_app c s t : contains c (s +:+ t) = contains c s || contains c t.
Proof.
  induction s as [|a s IH]; [done|]. change (String a s +:+ t) with (String a (s +:+ t)). cbn. by rewrite IH, orb_assoc.
Qed.

(** A field that neither separates fields nor lines and has no white space
    around it. *)
Definition plain (s : string) : Prop :=
  contains "," s = false ∧ contains "010" s = false ∧ contains "013" s = false ∧ trim s = s.
Definition row_text (fields : list string) : string := join ", " fields.
Lemma trim_space s : trim (" " +:+ s) = trim s.
Proof. done. Qed.
Lemma trim_space_plain s : plain s → trim (" " +:+ s) = s.
Proof. intros (_ & _ & _ & H). by rewrite trim_space. Qed.
Lemma row_text_cons f fs : fs ≠ [] → row_text (f :: fs) = f +:+ String "," (" " +:+ row_text fs).
Proof. by destruct fs. Qed.
(** The fields of a row are read back, a space before the first included. *)
Lemma row_read fs : fs ≠ [] → Forall plain fs → trim <$> split_on "," (" " +:+ row_text fs) = fs.
Proof.
  intros Hne Hf. induction Hf as [|f fs Hp Hf IH]; [done|]. destruct (decide (fs = [])) as [->|Hfs].
  - change (row_text [f]) with f. rewrite split_on_none by (destruct Hp as (Hc & _); done).
    cbn [fmap list_fmap]. by rewrite trim_space_plain.
  - rewrite row_text_cons by done. change (" " +:+ (f +:+ ?t)) with ((" " +:+ f) +:+ t).
    rewrite split_on_app by (destruct Hp as (Hc & _); done).
    rewrite fmap_cons, IH, trim_space_plain by done. done.
Qed.
Lemma split_space s : trim <$> split_on "," (" " +:+ s) = trim <$> split_on "," s.
Proof.
  change (" " +:+ s) with (String " " s). cbn [split_on]. pose proof (split_on_nonempty "," s).
  by destruct (split_on "," s).
Qed.
Lemma row_on_line c fs : c ∈ ["010"; "013"]%char → Forall plain fs → contains c (row_text fs) = false.
Proof.
  intros Hc Hf. induction Hf as [|f fs (_ & H1 & H2 & _) _ IH]; [done|].
  assert (contains c f = false) as Hcf by (apply elem_of_cons in Hc as [->|Hc%list_elem_of_singleton]; subst; done).
  destruct (decide (fs = [])) as [->|Hfs]; [done|]. rewrite row_text_cons by done.
  change (String "," (" " +:+ row_text fs)) with (", " +:+ row_text fs). rewrite !contains_app, Hcf, IH.
  by apply elem_of_cons in Hc as [->|Hc%list_elem_of_singleton]; subst.
Qed.
Lemma strip_return_none s : contains "013" s = false → strip_return s = s.
Proof.
  induction s as [|a s IH]; intros H; [done|]. cbn [contains] in H. apply orb_false_iff in H as [H1 H2].
  cbn [strip_return]. rewrite H1, IH by done. by destruct s.
Qed.
(** Lines, each with its line feed. *)
Fixpoint table (rows : list string) : string :=
  match rows with [] => "" | r :: rows => r +:+ String "010" (table rows) end.
Lemma lines_table rows :
  Forall (λ r, contains "010" r = false ∧ contains "013" r = false) rows → lines (table rows) = rows.
Proof.
  unfold lines. induction 1 as [|r rows [H1 H2] _ IH]; [done|].
  cbn [table]. rewrite split_on_app by done. cbn [close_lines].
  pose proof (split_on_nonempty "010" (table rows)). destruct (split_on "010" (table rows)); [done|].
  by rewrite IH, strip_return_none.
Qed.

(** A GPU as the driver knows it, memory in MiB. *)
Record Row := mkRow {
  row_uuid : string;
  row_model : string;
  row_total : Z;
  row_free : Z;
  row_used : Z;
  row_utilization : string;
  row_driver : string;
  row_temperature : string;
  row_capability : option string;
}.
Definition row_fields (r : Row) : list string :=
  [row_uuid r; row_model r; pretty (row_total r); pretty (row_free r); pretty (row_used r);
   row_utilization r; row_driver r; row_temperature r] ++ option_list (row_capability r).
(** A row that can be written: its memory in bytes fits 64 bits. *)
Record row_ok (r : Row) : Prop := {
  ro_texts : Forall plain [row_uuid r; row_model r; row_utilization r; row_driver r; row_temperature r];
  ro_capability : Forall plain (option_list (row_capability r));
  ro_memory : Forall (λ z, 0 <= z ∧ z * MIB <= U64_MAX) [row_total r; row_free r; row_used r];
}.
(** What a node announces of it. *)
Definition gpu_of (config : Config) (r : Row) : GpuCapabilities :=
  let bytes z := z * MIB in
  mkGpu (row_uuid r) (row_model r) (bytes (row_total r)) (bytes (row_free r)) (bytes (row_used r))
    (gpu_usable_vram (bytes (row_total r)) (bytes (row_free r)) (c_vram_reserve_bytes config)
       (c_vram_reserve_fraction config))
    0 (ok (parse_f64 (row_utilization r)))
    (c ← row_capability r; ok (parse_f64 c);; Some c) (row_driver r) (ok (parse_f64 (row_temperature r))).

Lemma digits_contain c s : digit c = None → all_digits s = true → contains c s = false.
Proof.
  intros Hc. induction s as [|a s IH]; [done|]. cbn [all_digits contains]. intros H. bprop.
  rewrite IH by done. rewrite bool_decide_false; [done|]. intros ->. destruct H as [? H]. congruence.
Qed.
Lemma number_plain z : 0 <= z → plain (pretty z).
Proof.
  intros Hz. pose proof (pretty_digits z Hz) as [H _].
  split_and!; [by apply digits_contain..|by apply trim_digits].
Qed.
Lemma mebibytes_pretty z : 0 <= z ∧ z * MIB <= U64_MAX → mebibytes (pretty z) = Some (z * MIB).
Proof.
  intros Hz. unfold mebibytes, parse_u64. rewrite parse_uint_pretty by (unfold MIB in Hz; lia).
  cbn [ok fmap option_fmap option_map]. f_equal. apply wrap64_small. unfold is_u64, MIB in *. lia.
Qed.
Lemma row_fields_plain r : row_ok r → Forall plain (row_fields r).
Proof.
  intros [Ht Hc Hm]. unfold row_fields. apply Forall_app_2; [|done].
  rewrite !Forall_cons in Ht. rewrite !Forall_cons in Hm. destruct Ht as (? & ? & ? & ? & ? & _), Hm as ([? _] & [? _] & [? _] & _).
  repeat (apply Forall_nil_2 || apply Forall_cons_2); auto using number_plain.
Qed.
Lemma row_fields_read config r : row_ok r → parse_fields config (row_fields r) = Some (gpu_of config r).
Proof.
  intros [_ _ Hm]. rewrite !Forall_cons in Hm. destruct Hm as (H1 & H2 & H3 & _).
  unfold row_fields. cbn [app parse_fields]. rewrite !mebibytes_pretty by done.
  unfold gpu_of. by destruct (row_capability r).
Qed.

(** C38. The GPUs of a node are those the driver lists: what [nvidia-smi] writes
    in its format, a row for each, fields separated by a comma and a space, is
    read back as the same GPUs in the same order, with the memory in bytes
    and the reserve taken off; a value that is no number ([[N/A]]) is left
    out. *)
Theorem table_read_back config rows :
  Forall row_ok rows →
  parse_csv config (table (row_text ∘ row_fields <$> rows)) = gpu_of config <$> rows.
Proof.
  intros H. unfold parse_csv. rewrite lines_table.
  - induction H as [|r rows Hr _ IH]; [done|]. rewrite !fmap_cons. cbn [omap list_omap]. fold (@omap list _).
    assert (parse_line config ((row_text ∘ row_fields) r) = Some (gpu_of config r)) as ->; [|by f_equal].
    rewrite <-row_fields_read by done. unfold parse_line. f_equal.
    rewrite <-split_space. apply row_read; [done|by apply row_fields_plain].
  - apply Forall_fmap. eapply Forall_impl; [exact H|]. intros r Hr%row_fields_plain. unfold compose.
    split; apply row_on_line; done || set_solver.
Qed.

Module SmiExample.
Definition rows : list Row :=
  [mkRow "GPU-1" "NVIDIA A100" 40960 40000 960 "3" "550.54" "41" (Some "8.0");
   mkRow "GPU-2" "Tesla K80" 11441 11441 0 "[N/A]" "470.1" "30" None].
End SmiExample.
Lemma table_read_back_witness :
  length SmiExample.rows = 2%nat
  ∧ parse_csv default_config (table (row_text ∘ row_fields <$> SmiExample.rows))
    = gpu_of default_config <$> SmiExample.rows.
Proof.
  split; [done|]. apply table_read_back. 
  repeat (apply Forall_nil_2 || apply Forall_cons_2); (split; [..|]);
    repeat (apply Forall_nil_2 || apply Forall_cons_2); try (split_and!; vm_compute; reflexivity); 
    vm_compute; split; discriminate.
Defined.
