(* ===== verification/Cluster.v ===== *)
(** * Membership and leader election: [src/cluster/election.rs],
    [src/cluster/membership.rs]

    A node's view is a map of peers with the time each was last heard; the
    leader is computed from the view, not agreed on by messages. *)

From S2P Require Import Prelude.
From S2P Require Import Lists.
From S2P Require Import Node.

(** ** [election.rs] *)
Record Leadership := mkLeadership {
  leader_id : option Uuid;
  leader_epoch : Uuid;
  l_election_score : u64;
}.
#[export] Instance Leadership_eq_dec : EqDecision Leadership.
Proof. solve_decision. Defined.

(** The key [(election_score, node_id)] and the order of pairs. *)
Definition election_key (n : NodeCapabilities) : Z * Z := (election_score n, node_id n).
Definition key_cmp : Z * Z → Z * Z → comparison := lex (on fst Z.compare) (on snd Z.compare).

(** [elect]. *)
Definition elect (nodes : list NodeCapabilities) : Leadership :=
  match max_by_key key_cmp election_key nodes with
  | Some n => mkLeadership (Some (node_id n)) (leader_generation n) (election_score n)
  | None => mkLeadership None 0 0
  end.

(** ** [membership.rs] *)

(** [PEER_TIMEOUT], 7 s, in the nanoseconds of an [Instant]. *)
Definition PEER_TIMEOUT : Z := 7 * 10 ^ 9.

Record Peer := mkPeer { capabilities : NodeCapabilities; last_seen : Z }.
#[export] Instance eta_Peer : Eta Peer := λ r, mkPeer (capabilities r) (last_seen r).
Record Membership := mkMembership { local_id : Uuid; peers : gmap Uuid Peer }.
#[export] Instance eta_Membership : Eta Membership := λ r, mkMembership (local_id r) (peers r).

(** [Membership::update]; [now] is [Instant::now()]. *)
Definition update (now : Z) (c : NodeCapabilities) (m : Membership) : Membership :=
  m <| peers ::= <[node_id c := mkPeer c now]> |>.

(** [Membership::new]. *)
Definition new (now : Z) (local : NodeCapabilities) : Membership :=
  update now local (mkMembership (node_id local) ∅).

(** The condition of [expire]'s filter. *)
Definition stale (now : Z) (m : Membership) (id : Uuid) (p : Peer) : bool :=
  negb (id =? local_id m) && (PEER_TIMEOUT <? saturating_sub now (last_seen p)).

(** [Membership::expire]. *)
Definition expire (now : Z) (m : Membership) : Membership * list Uuid :=
  let dead := (filter (λ '(id, p), stale now m id p = true) (entries (peers m))).*1 in
  (foldl (λ m id, m <| peers ::= delete id |>) m dead, dead).

(** [Membership::nodes] and [Membership::leader]. *)
Definition nodes (m : Membership) : list NodeCapabilities := capabilities <$> values (peers m).
Definition leader (m : Membership) : Leadership := elect (nodes m).

(** An update of a peer in place ([peers.get_mut(&id)]). *)
Definition peer_mut (id : Uuid) (f : NodeCapabilities → NodeCapabilities) (m : Membership) : Membership :=
  m <| peers ::= alter (λ p, p <| capabilities ::= f |>) id |>.

(** The operations the runtime applies to a membership. *)
Inductive member_step : Membership → Membership → Prop :=
| member_update now c m : member_step m (update now c m)
| member_expire now m : member_step m (expire now m).1
| member_mut id f m : (∀ n, node_id (f n) = node_id n) → member_step m (peer_mut id f m).

(** ** Properties *)

#[export] Instance key_cmp_order : CmpOrder key_cmp.
Proof. apply lex_order; apply on_order, Zcompare_order. Qed.

Lemma key_cmp_eq a b : key_cmp a b = Eq → a = b.
Proof.
  destruct a as [a1 a2], b as [b1 b2]. unfold key_cmp, lex, on, then_. cbn.
  destruct (Z.compare_spec a1 b1); [|done..]. intros ->%Z.compare_eq. by subst.
Qed.

Lemma key_cmp_le a b : cmp_le key_cmp a b ↔ a.1 < b.1 ∨ a.1 = b.1 ∧ a.2 <= b.2.
Proof.
  destruct a as [a1 a2], b as [b1 b2]. unfold cmp_le, key_cmp, lex, on, then_. cbn.
  destruct (Z.compare_spec a1 b1); [destruct (Z.compare_spec a2 b2)|..]; intuition (done || lia).
Qed.

Lemma elect_max l :
  match leader_id (elect l) with
  | None => l = [] ∧ elect l = mkLeadership None 0 0
  | Some id => ∃ n, n ∈ l ∧ node_id n = id ∧ leader_epoch (elect l) = leader_generation n
      ∧ l_election_score (elect l) = election_score n
      ∧ ∀ n', n' ∈ l → election_score n' < election_score n
                 ∨ election_score n' = election_score n ∧ node_id n' <= id
  end.
Proof.
  unfold elect. destruct (max_by_key _ _ l) as [n|] eqn:E; cbn.
  - apply max_by_key_min_by in E as [Hin Hmax]; [|apply _]. exists n.
    split_and!; try done. intros n' Hn'%Hmax. by apply key_cmp_le in Hn'.
  - by destruct l.
Qed.

(** The election picks a node of the view with the greatest score, the
    greatest identifier among equals, and reports its generation and score;
    only an empty view has no leader. *)
Theorem elect_spec l :
  match leader_id (elect l) with
  | None => l = [] ∧ elect l = mkLeadership None 0 0
  | Some id => ∃ n, n ∈ l ∧ node_id n = id ∧ leader_epoch (elect l) = leader_generation n
      ∧ l_election_score (elect l) = election_score n
      ∧ ∀ n', n' ∈ l → election_score n' < election_score n
                 ∨ election_score n' = election_score n ∧ node_id n' <= id
  end.
Proof. apply elect_max. Qed.

(** C20. Two nodes that know the same peers, in whatever order they learned of
    them, follow the same leader with the same epoch. *)
Theorem elect_agreement l1 l2 :
  l1 ≡ₚ l2 → NoDup (node_id <$> l1) → elect l1 = elect l2.
Proof.
  intros Hp Hnd. unfold elect. rewrite (max_by_key_perm key_cmp election_key l1 l2); [done| |done].
  intros x y [i Hx]%list_elem_of_lookup [j Hy]%list_elem_of_lookup E.
  assert (node_id x = node_id y) as Hid by (apply key_cmp_eq in E; by injection E).
  assert (i = j) as ->; [|congruence].
  apply (NoDup_lookup _ _ _ (node_id x) Hnd).
  - by rewrite list_lookup_fmap, Hx.
  - by rewrite list_lookup_fmap, Hy, Hid.
Qed.

Record member_inv (m : Membership) : Prop := {
  mi_local : is_Some (peers m !! local_id m);
  mi_keys : ∀ id p, peers m !! id = Some p → node_id (capabilities p) = id;
}.

Lemma elem_of_dead now m id :
  id ∈ (expire now m).2 ↔ ∃ p, peers m !! id = Some p ∧ stale now m id p = true.
Proof.
  cbn. rewrite list_elem_of_fmap. split.
  - intros ([i p] & -> & [Hs Hp%elem_of_entries]%list_elem_of_filter). by exists p.
  - intros (p & Hp & Hs). exists (id, p). split; [done|].
    apply list_elem_of_filter. by rewrite elem_of_entries.
Qed.

Lemma foldl_delete_local m dead :
  local_id (foldl (λ m id, m <| peers ::= delete id |>) m dead) = local_id m.
Proof. revert m. induction dead as [|d dead IH]; intros m; cbn; [done|]. by rewrite IH. Qed.

Lemma foldl_delete_lookup m dead id :
  peers (foldl (λ m id, m <| peers ::= delete id |>) m dead) !! id =
  if decide (id ∈ dead) then None else peers m !! id.
Proof.
  revert m. induction dead as [|d dead IH]; intros m; cbn; [done|]. rewrite IH. cbn.
  destruct (decide (d = id)) as [->|Hne].
  - rewrite lookup_delete_eq. repeat case_decide; set_solver.
  - rewrite lookup_delete_ne by done. repeat case_decide; set_solver.
Qed.

Lemma expire_lookup now m id :
  peers (expire now m).1 !! id =
    match peers m !! id with
    | Some p => if decide (id ≠ local_id m ∧ PEER_TIMEOUT < now - last_seen p) then None else Some p
    | None => None
    end
  ∧ (id ∈ (expire now m).2 ↔ is_Some (peers m !! id) ∧ peers (expire now m).1 !! id = None).
Proof.
  assert (∀ p, stale now m id p = true ↔ id ≠ local_id m ∧ PEER_TIMEOUT < now - last_seen p) as Hst.
  { intros p. unfold stale, saturating_sub, PEER_TIMEOUT.
    rewrite andb_true_iff, negb_true_iff, Z.eqb_neq, Z.ltb_lt. lia. }
  assert (peers (expire now m).1 !! id =
    if decide (id ∈ (expire now m).2) then None else peers m !! id) as E
    by apply foldl_delete_lookup.
  rewrite E. split.
  - destruct (peers m !! id) as [p|] eqn:Hp; [|by case_decide].
    destruct (decide (id ∈ _)) as [Hin|Hin].
    + apply elem_of_dead in Hin as (p' & Hp' & Hs%Hst). simplify_eq.
      by rewrite decide_True.
    + rewrite elem_of_dead in Hin. rewrite decide_False; [done|]. rewrite <-Hst. naive_solver.
  - destruct (decide (id ∈ _)) as [Hin|Hin]; [|by split; [intros ?; done|intros [[p Hp] ?]; congruence]].
    pose proof Hin as (p & Hp & _)%elem_of_dead. split; [|done]. by rewrite Hp.
Qed.

(** Expiry removes exactly the peers that have been silent for more than
    seven seconds, never the node itself, and reports each of them. *)
Theorem peers_expire_spec now m id :
  peers (expire now m).1 !! id =
    match peers m !! id with
    | Some p => if decide (id ≠ local_id m ∧ PEER_TIMEOUT < now - last_seen p) then None else Some p
    | None => None
    end
  ∧ (id ∈ (expire now m).2 ↔ is_Some (peers m !! id) ∧ peers (expire now m).1 !! id = None).
Proof. apply expire_lookup. Qed.

Lemma member_step_inv m m' : member_step m m' → member_inv m → member_inv m'.
Proof.
  intros [now c m0|now m0|id f m0 Hf] [Hl Hk]; split; cbn.
  - destruct (decide (local_id m0 = node_id c)) as [->|Hne];
      [by rewrite lookup_insert_eq|by rewrite lookup_insert_ne].
  - intros id p. rewrite lookup_insert. case_decide; naive_solver.
  - rewrite foldl_delete_local. pose proof (proj1 (expire_lookup now m0 (local_id m0))) as E.
    cbn in E. rewrite E. destruct Hl as [p ->]. rewrite decide_False by naive_solver. by eexists.
  - intros id p. pose proof (proj1 (expire_lookup now m0 id)) as E. cbn in E. rewrite E.
    repeat case_match; naive_solver.
  - destruct Hl as [p Hp]. rewrite lookup_alter. case_decide; subst; rewrite Hp; by eexists.
  - intros i p. rewrite lookup_alter. case_decide; subst; [|apply Hk].
    intros (q & Hq & ->)%fmap_Some. cbn. rewrite Hf. by apply Hk.
Qed.

(** C15. Whatever peers come, change and go, a node always finds itself in its
    own view (the runtime indexes [peers] with its own identifier), the view
    lists each node once, and there is always a leader, which is a peer. *)
Theorem membership_keeps_local now local m :
  rtc member_step (new now local) m →
  local_id m = node_id local
  ∧ (∃ p, peers m !! node_id local = Some p ∧ node_id (capabilities p) = node_id local)
  ∧ NoDup (node_id <$> nodes m)
  ∧ ∃ id, leader_id (leader m) = Some id ∧ is_Some (peers m !! id).
Proof.
  intros Hr.
  assert (member_inv m ∧ local_id m = node_id local) as [[Hl Hk] Hid].
  { revert Hr. apply (rtc_ind_r (λ m, member_inv m ∧ local_id m = node_id local)).
    - split; [|done]. split; cbn; [by rewrite lookup_insert_eq|].
      intros id p. rewrite lookup_insert. case_decide; naive_solver.
    - intros m1 m2 _ Hs [Hi <-]. split; [by eapply member_step_inv|].
      destruct Hs; cbn; [done|apply foldl_delete_local|done]. }
  rewrite Hid in Hl. split_and!; [done| | |].
  - destruct Hl as [p Hp]. eauto.
  - unfold nodes. rewrite <-list_fmap_compose.
    replace ((node_id ∘ capabilities) <$> values (peers m)) with (keys (peers m)); [apply NoDup_keys|].
    unfold keys, values. rewrite <-list_fmap_compose. apply list_fmap_ext.
    intros i [k p] Hi. apply list_elem_of_lookup_2, elem_of_entries in Hi. symmetry. by apply Hk.
  - pose proof (elect_max (nodes m)) as He. unfold leader.
    destruct Hl as [p Hp].
    assert (capabilities p ∈ nodes m) as Hin.
    { unfold nodes. apply list_elem_of_fmap. exists p. split; [done|]. apply elem_of_values. eauto. }
    destruct (leader_id (elect (nodes m))) as [id|].
    + exists id. split; [done|]. destruct He as (n & Hn & <- & _).
      unfold nodes in Hn. apply list_elem_of_fmap in Hn as (q & -> & [k Hq]%elem_of_values).
      by rewrite (Hk _ _ Hq), Hq.
    + destruct He as [He _]. rewrite He in Hin. by apply not_elem_of_nil in Hin.
Qed.

(** ** Witnesses *)
Module Witness.
Definition node (id total : Z) : NodeCapabilities :=
  mkNode id (100 + id) (200 + id) "host" "linux" "x86_64" (mkCpu "cpu" 4 8 "x86_64")
    (mkMemory total 0 0 0 0 0 0) [] (mkNetwork (V4 (ipv4 10 0 0 id), 7432) None "" "udp" 4096 0)
    (mkRuntimeCaps false true false "1").
Definition m : Membership :=
  (expire 9000000000 (update 8000000000 (node 3 50) (update 0 (node 2 90) (new 0 (node 1 50))))).1.
End Witness.

Lemma elect_agreement_witness :
  elect [Witness.node 1 50; Witness.node 2 90; Witness.node 3 90]
    = elect [Witness.node 3 90; Witness.node 1 50; Witness.node 2 90]
  ∧ leader_id (elect [Witness.node 1 50; Witness.node 2 90; Witness.node 3 90]) = Some 3.
Proof.
  split; [|vm_compute; reflexivity]. apply elect_agreement.
  - solve_Permutation.
  - apply (bool_decide_unpack _). vm_compute. exact I.
Defined.

Lemma membership_keeps_local_witness :
  rtc member_step (new 0 (Witness.node 1 50)) Witness.m
  ∧ leader_id (leader Witness.m) = Some 3 ∧ peers Witness.m !! 2 = None
  ∧ ∃ id, leader_id (leader Witness.m) = Some id ∧ is_Some (peers Witness.m !! id).
Proof.
  assert (rtc member_step (new 0 (Witness.node 1 50)) Witness.m) as Hr.
  { eapply rtc_l; [apply (member_update 0)|]. eapply rtc_l; [apply (member_update 8000000000)|].
    eapply rtc_l; [apply member_expire|]. apply rtc_refl. }
  split; [exact Hr|]. split_and!; [vm_compute; reflexivity..|].
  apply (membership_keeps_local 0 (Witness.node 1 50) Witness.m Hr).
Defined.
