(* ===== verification/Scheduler.v ===== *)
(** * Scheduling: [src/scheduler/] and [src/jobs/mod.rs]

    Link estimates ([topology.rs]), the ranking of RAM providers
    ([placement.rs]), the training plan ([planner.rs]) and the job table. *)

From S2P Require Import Prelude.
From S2P Require Import Lists.
From S2P Require Import Float64.
From S2P Require Import Externals.
From S2P Require Import Node.
From S2P Require Import Cluster.

(** ** [topology.rs] *)
Record LinkEstimate := mkLink {
  source : Uuid;
  destination : Uuid;
  latency_ms : f64;
  bytes_per_second : option f64;
  sampled_at_ms : u64;
  link_active_transfers : Z;
}.
#[export] Instance eta_LinkEstimate : Eta LinkEstimate := λ r,
  mkLink (source r) (destination r) (latency_ms r) (bytes_per_second r) (sampled_at_ms r)
    (link_active_transfers r).
#[export] Instance LinkEstimate_eq_dec : EqDecision LinkEstimate.
Proof. solve_decision. Defined.

(** [Topology.links]. *)
Abbreviation Topology := (list LinkEstimate) (only parsing).

Definition same_link (s d : Uuid) (l : LinkEstimate) : bool :=
  (source l =? s) && (destination l =? d).

(** The exponential smoothing of an estimate by a new sample. *)
Definition smooth (sample old : LinkEstimate) : LinkEstimate :=
  let w1 := f64_lit 1 4 in
  let w2 := f64_lit 3 4 in
  sample <| latency_ms ::= λ x, f64_add (f64_mul w1 x) (f64_mul w2 (latency_ms old)) |>
         <| bytes_per_second ::= λ new,
              match new, bytes_per_second old with
              | Some a, Some b => Some (f64_add (f64_mul w1 a) (f64_mul w2 b))
              | Some a, None => Some a
              | None, b => b
              end |>.

(** [Topology::update]: the first link of the pair is replaced in place, a
    new pair goes to the end. *)
Fixpoint topology_update (sample : LinkEstimate) (links : Topology) : Topology :=
  match links with
  | [] => [sample]
  | l :: links =>
      if same_link (source sample) (destination sample) l then smooth sample l :: links
      else l :: topology_update sample links
  end.

(** [links.iter().find(..)]. *)
Definition find_link (s d : Uuid) (links : Topology) : option LinkEstimate :=
  head (filter (λ l, same_link s d l = true) links).

(** [Topology::transfer_cost]. *)
Definition transfer_cost (s d : Uuid) (size : u64) (links : Topology) : f64 :=
  match find_link s d links with
  | Some l =>
      f64_add (f64_div (latency_ms l) (f64_of_u64 1000))
        (f64_mul
           (f64_div (f64_of_u64 size)
              (f64_max (default (f64_of_u64 10000000) (bytes_per_second l)) (f64_of_u64 1)))
           (f64_add (f64_of_u64 1) (f64_of_u64 (link_active_transfers l))))
  | None => f64_add (f64_lit 1 100) (f64_div (f64_of_u64 size) (f64_of_u64 10000000))
  end.

(** ** [placement.rs] *)
Definition eligible (size : u64) (n : NodeCapabilities) : bool :=
  ram_provider (runtime n) && (size <=? trainpool_ram_available (memory n))
  && (excess (memory n) =? 0).

Definition placement_cost (compute : Uuid) (size : u64) (t : Topology) (n : NodeCapabilities) : f64 :=
  f64_mul (transfer_cost compute (node_id n) size t)
    (f64_add (f64_of_u64 1) (f64_of_u64 (active_transfers (network n)))).

Definition placement_cmp : NodeCapabilities * f64 → NodeCapabilities * f64 → comparison :=
  lex (on snd total_cmp)
    (lex (rev_cmp (on (λ p, trainpool_ram_available (memory p.1)) Z.compare))
       (on (λ p, node_id p.1) Z.compare)).

(** [CapacityPlacement::rank_ram]. *)
Definition rank_ram (nodes : list NodeCapabilities) (compute : Uuid) (size : u64) (t : Topology)
    : list NodeCapabilities :=
  let ok := filter (λ n, eligible size n = true) nodes in
  let local := filter (λ n, node_id n = compute) ok in
  let remote := (λ n, (n, placement_cost compute size t n)) <$> filter (λ n, node_id n ≠ compute) ok in
  local ++ (sort_by placement_cmp remote).*1.

(** ** [planner.rs] *)
Record GpuAssignment := mkAssignment {
  a_node_id : Uuid;
  a_gpu_id : string;
  usable_bytes : u64;
  safety_reserve_bytes : u64;
  capacity_share : f64;
}.
Record StageSpec := mkStage { stage_name : string; working_set_bytes : u64 }.
Record StageAssignment := mkStageAssignment { sa_stage : string; sa_node_id : Uuid; sa_gpu_id : string }.
Record TrainingPlan := mkPlan {
  job_id : Uuid;
  plan_leader_id : Uuid;
  plan_leader_epoch : Uuid;
  strategy : string;
  compute_nodes : list Uuid;
  gpu_assignments : list GpuAssignment;
  memory_nodes : list Uuid;
  tensor_placement_policy : string;
  topology : Topology;
  memory_budgets : gmap Uuid u64;
  stages : list StageAssignment;
  execution_supported : bool;
}.

(** The usable GPUs of the compute nodes, with their node, in the order of
    the iterators. *)
Definition candidates (nodes : list NodeCapabilities) : list (Uuid * GpuCapabilities) :=
  mjoin ((λ n, (λ g, (node_id n, g)) <$> filter (λ g, 0 < usable_vram g) (gpus n))
         <$> filter (λ n, gpu_compute (runtime n) = true) nodes).

Definition primary_cmp : Uuid * GpuCapabilities → Uuid * GpuCapabilities → comparison :=
  lex (rev_cmp (on (λ p, usable_vram p.2) Z.compare))
    (lex (on (λ p, gpu_uuid p.2) string_cmp) (on fst Z.compare)).

Definition assign (p : Uuid * GpuCapabilities) : GpuAssignment :=
  mkAssignment p.1 (gpu_uuid p.2) (usable_vram p.2)
    (saturating_sub (vram_free p.2) (usable_vram p.2)) (f64_of_u64 1).

(** The loop over the stages. *)
Fixpoint assign_stages (gpu : option GpuAssignment) (stages : list StageSpec)
    : Result (list StageAssignment) :=
  match stages with
  | [] => Ok []
  | stage :: stages =>
      match gpu with
      | Some g =>
          if working_set_bytes stage <=? usable_bytes g then
            rest ← assign_stages gpu stages;
            Ok (mkStageAssignment (stage_name stage) (a_node_id g) (a_gpu_id g) :: rest)
          else bail ("TRAINPOOL_UNSUPPORTED_WORKING_SET: " +:+ stage_name stage
                     +:+ " exceeds primary GPU capacity")
      | None => bail ("TRAINPOOL_UNSUPPORTED_WORKING_SET: " +:+ stage_name stage
                      +:+ " exceeds primary GPU capacity")
      end
  end.

(** [CapacityPlanner::plan]; [job] is the fresh [Uuid::new_v4()]. *)
Definition plan (job : Uuid) (nodes : list NodeCapabilities) (leader : Leadership) (t : Topology)
    (specs : list StageSpec) : Result TrainingPlan :=
  let primary := min_by primary_cmp (candidates nodes) in
  let gpus := match primary with Some p => [assign p] | None => [] end in
  ensure (negb (negb (bool_decide (length specs = 0%nat)) && bool_decide (length gpus = 0%nat)))
    "TRAINPOOL_NO_CUDA: no eligible primary GPU";;
  assignments ← assign_stages (head gpus) specs;
  let compute := match head gpus with Some g => [a_node_id g] | None => [] end in
  let count := length gpus in
  let providers := filter (λ n, ram_provider (runtime n) = true) nodes in
  id ← ok_or (leader_id leader) "no leader";
  Ok {| job_id := job;
        plan_leader_id := id;
        plan_leader_epoch := leader_epoch leader;
        strategy := if (count =? 0)%nat then "MemoryOnly" else "SingleGpuDistributedMemory";
        compute_nodes := compute;
        gpu_assignments := gpus;
        memory_nodes := node_id <$> providers;
        tensor_placement_policy := "vram-then-local-ram-then-remote-cost";
        topology := t;
        memory_budgets :=
          foldl (λ m n, <[node_id n := trainpool_ram_budget (memory n)]> m) ∅ providers;
        stages := assignments;
        execution_supported := (count =? 1)%nat |}.

(** [require_cuda]. *)
Definition require_cuda `{!UuidText} (p : TrainingPlan) (node : Uuid) : Result unit :=
  ensure (existsb (λ g, a_node_id g =? node) (gpu_assignments p))
    ("TRAINPOOL_NO_CUDA: node " +:+ uuid_str node +:+ " is a memory provider only").

(** ** [jobs/mod.rs] *)
Record Job := mkJob { job_plan : TrainingPlan; job_error : option string }.
#[export] Instance eta_Job : Eta Job := λ r, mkJob (job_plan r) (job_error r).
Abbreviation Jobs := (gmap Uuid Job) (only parsing).

(** [Jobs::lose_compute] and [Jobs::fail]. *)
Definition lose_compute `{!UuidText} (node : Uuid) (js : Jobs) : Jobs :=
  (λ j, if bool_decide (node ∈ compute_nodes (job_plan j))
        then j <| job_error := Some ("TRAINPOOL_COMPUTE_LOST: GPU node " +:+ uuid_str node
                                     +:+ " disappeared") |>
        else j) <$> js.
Definition fail (id : Uuid) (error : string) (js : Jobs) : Jobs :=
  alter (λ j, j <| job_error := Some error |>) id js.

(** ** Properties of the topology *)

Lemma same_link_true s d l : same_link s d l = true ↔ source l = s ∧ destination l = d.
Proof. unfold same_link. by rewrite andb_true_iff, !Z.eqb_eq. Qed.

Lemma find_link_cons s d l links :
  find_link s d (l :: links) = if same_link s d l then Some l else find_link s d links.
Proof. unfold find_link. rewrite filter_cons. by destruct (same_link s d l); case_decide. Qed.

(** A sample changes the estimate of its own link only: it is smoothed
    into the estimate the costs read, an unknown link starts from the sample,
    and no other pair is touched. *)
Theorem topology_update_spec sample links s d :
  find_link s d (topology_update sample links) =
    if decide (source sample = s ∧ destination sample = d) then
      Some (match find_link s d links with Some old => smooth sample old | None => sample end)
    else find_link s d links.
Proof.
  assert (∀ l, source (smooth sample l) = source sample
             ∧ destination (smooth sample l) = destination sample) as Hsm by done.
  induction links as [|l links IH]; cbn [topology_update].
  - rewrite find_link_cons. unfold find_link at 1 2 3. cbn.
    destruct (same_link s d sample) eqn:E.
    + apply same_link_true in E. by rewrite decide_True.
    + rewrite decide_False; [done|]. rewrite <-same_link_true. congruence.
  - destruct (same_link (source sample) (destination sample) l) eqn:El;
      rewrite !find_link_cons.
    + apply same_link_true in El as [E1 E2].
      destruct (same_link s d l) eqn:E.
      * apply same_link_true in E as [E3 E4]. rewrite decide_True by (split; congruence).
        assert (same_link s d (smooth sample l) = true) as ->; [|done].
        apply same_link_true. cbn. split; congruence.
      * rewrite decide_False by (intros [<- <-]; assert (same_link (source sample) (destination sample) l = true)
          by (by apply same_link_true); congruence).
        assert (same_link s d (smooth sample l) = false) as ->; [|done].
        apply not_true_iff_false. rewrite same_link_true. intros [E3 E4]. cbn in *.
        assert (same_link s d l = true) by (apply same_link_true; split; congruence). congruence.
    + destruct (same_link s d l) eqn:E; [|by rewrite IH].
      rewrite decide_False; [done|]. intros [<- <-]. congruence.
Qed.

Lemma topology_update_pairs sample links :
  (λ l, (source l, destination l)) <$> topology_update sample links =
    let ps := (λ l, (source l, destination l)) <$> links in
    if decide ((source sample, destination sample) ∈ ps) then ps
    else ps ++ [(source sample, destination sample)].
Proof.
  cbn zeta. induction links as [|l links IH]; cbn [topology_update]; [done|].
  destruct (same_link _ _ l) eqn:E.
  - apply same_link_true in E as [E1 E2]. cbn. rewrite decide_True by (rewrite E1, E2; set_solver).
    by rewrite E1, E2.
  - cbn [fmap list_fmap]. rewrite IH. clear IH. set (pl := (source l, destination l)).
    set (ps := _ <$> links). set (p := (source sample, destination sample)).
    assert (p ≠ pl) as Hne.
    { intros [= E1 E2]. rewrite (proj2 (same_link_true _ _ l)) in E by done. done. }
    destruct (decide (p ∈ ps)) as [Hin|Hin].
    + rewrite decide_True; [done|]. by right.
    + rewrite decide_False; [done|]. by intros [?|?]%elem_of_cons.
Qed.

(** However many samples arrive, a topology has at most one estimate per
    ordered pair of nodes, and the pairs are those that were sampled. *)
Theorem topology_one_link_per_pair samples :
  let ps := (λ l, (source l, destination l)) <$> foldl (λ t s, topology_update s t) [] samples in
  NoDup ps ∧ ∀ p, p ∈ ps ↔ p ∈ (λ l, (source l, destination l)) <$> samples.
Proof.
  cbn zeta. induction samples as [|s samples IH] using rev_ind; [split; [constructor|done]|].
  rewrite foldl_app, fmap_app. cbn [foldl]. rewrite topology_update_pairs. cbn zeta.
  destruct IH as [Hnd Hin]. case_decide as Hs.
  - split; [done|]. intros p. rewrite elem_of_app, <-Hin. cbn. rewrite list_elem_of_singleton.
    split; [tauto|intros [?| ->]; done].
  - split; [apply NoDup_app; split_and!; [done| |apply NoDup_singleton]|].
    { by intros p Hp ->%list_elem_of_singleton. }
    intros p. by rewrite !elem_of_app, Hin.
Qed.

(** ** Properties of the placement *)

#[export] Instance placement_cmp_order : CmpOrder placement_cmp.
Proof.
  apply lex_order; [apply on_order, on_order, Zcompare_order|].
  apply lex_order; [apply rev_order, on_order, Zcompare_order|apply on_order, Zcompare_order].
Qed.

Lemma placement_cmp_Eq x y : placement_cmp x y = Eq → node_id x.1 = node_id y.1.
Proof.
  unfold placement_cmp, lex, then_. do 2 (case_match; try done). apply Z.compare_eq.
Qed.

Lemma eligible_true size n :
  eligible size n = true ↔ ram_provider (runtime n) = true
    ∧ size <= trainpool_ram_available (memory n) ∧ excess (memory n) <= 0.
Proof.
  unfold eligible. rewrite !andb_true_iff, Z.leb_le, Z.eqb_eq. unfold excess, saturating_sub.
  naive_solver lia.
Qed.

(** The ranking without the sort. *)
Lemma rank_ram_Permutation nodes compute size t :
  rank_ram nodes compute size t ≡ₚ filter (λ n, eligible size n = true) nodes.
Proof.
  unfold rank_ram. cbn zeta. rewrite sort_by_Permutation, <-list_fmap_compose.
  unfold compose. cbn. rewrite list_fmap_id.
  induction (filter (λ n, eligible size n = true) nodes) as [|n l IH]; [done|].
  rewrite !filter_cons. destruct (decide (node_id n = compute)) as [E|E].
  - rewrite decide_False by tauto. cbn. by rewrite IH.
  - rewrite decide_True by done. by rewrite <-Permutation_middle, IH.
Qed.

(** The ranking lists exactly the providers that can hold the block and
    are within their budget; the compute node's own RAM comes before every
    remote node, and remote nodes are in the order of transfer cost, then of
    free capacity, then of identifier. *)
Theorem rank_ram_spec nodes compute size t :
  let r := rank_ram nodes compute size t in
  let key n := (n, placement_cost compute size t n) in
  (∀ n, n ∈ r ↔ n ∈ nodes ∧ ram_provider (runtime n) = true
      ∧ size <= trainpool_ram_available (memory n) ∧ excess (memory n) <= 0)
  ∧ length r = length (filter (λ n, eligible size n = true) nodes)
  ∧ ∃ local remote, r = local ++ remote
      ∧ (∀ n, n ∈ local → node_id n = compute) ∧ (∀ n, n ∈ remote → node_id n ≠ compute)
      ∧ StronglySorted (λ a b, cmp_le placement_cmp (key a) (key b)) remote.
Proof.
  cbn zeta. split_and!.
  - intros n. rewrite rank_ram_Permutation, list_elem_of_filter, eligible_true. tauto.
  - by rewrite rank_ram_Permutation.
  - unfold rank_ram. cbn zeta. eexists _, _. split_and!; [done| | |].
    + by intros n [Hn _]%list_elem_of_filter.
    + intros n ([n' c] & -> & Hin)%list_elem_of_fmap. rewrite sort_by_Permutation in Hin.
      apply list_elem_of_fmap in Hin as (m & [= -> ->] & [Hm _]%list_elem_of_filter). done.
    + set (remote := _ <$> filter _ _).
      assert (∀ p, p ∈ sort_by placement_cmp remote → p.2 = placement_cost compute size t p.1) as Hk.
      { intros p. rewrite sort_by_Permutation. by intros (m & -> & _)%list_elem_of_fmap. }
      pose proof (sort_by_sorted placement_cmp remote) as Hs.
      induction Hs as [|[n c] l Hs IH Hall]; [constructor|]. cbn. constructor.
      * apply IH. intros p Hp. apply Hk. by right.
      * apply Forall_forall. intros m ([m' cm] & -> & Hm)%list_elem_of_fmap. cbn.
        rewrite Forall_forall in Hall. specialize (Hall _ Hm).
        pose proof (Hk _ (list_elem_of_here _ _)) as E1.
        pose proof (Hk _ (list_elem_of_further _ _ _ Hm)) as E2. cbn in E1, E2. by subst.
Qed.

(** The ranking does not depend on the order in which the nodes are
    listed, so every node that sees the same cluster places alike. *)
Theorem rank_ram_deterministic nodes1 nodes2 compute size t :
  nodes1 ≡ₚ nodes2 → NoDup (node_id <$> nodes1) →
  rank_ram nodes1 compute size t = rank_ram nodes2 compute size t.
Proof.
  intros Hp Hnd. unfold rank_ram. cbn zeta.
  assert (∀ x y, x ∈ nodes1 → y ∈ nodes1 → node_id x = node_id y → x = y) as Hinj.
  { intros x y [i Hx]%list_elem_of_lookup [j Hy]%list_elem_of_lookup E.
    assert (i = j) as ->; [|congruence]. apply (NoDup_lookup _ _ _ (node_id x) Hnd).
    - by rewrite list_lookup_fmap, Hx.
    - by rewrite list_lookup_fmap, Hy, E. }
  set (ok1 := filter (λ n, eligible size n = true) nodes1).
  set (ok2 := filter (λ n, eligible size n = true) nodes2).
  assert (ok1 ≡ₚ ok2) as Hok by (unfold ok1, ok2; by rewrite Hp).
  assert (∀ x, x ∈ ok1 → x ∈ nodes1) as H1 by (intros x [_ ?]%list_elem_of_filter; done).
  assert (NoDup ok1) as Hnd1 by (apply NoDup_filter; by eapply NoDup_fmap_1).
  f_equal.
  - assert (∀ l, l ≡ₚ ok1 → NoDup l → (length (filter (λ n, node_id n = compute) l) ≤ 1)%nat) as Hle.
    { intros l Hl Hn. destruct (filter _ l) as [|a [|b r]] eqn:E; cbn; try lia.
      assert (a ∈ filter (λ n, node_id n = compute) l) as [Ha Ha']%list_elem_of_filter
        by (rewrite E; set_solver).
      assert (b ∈ filter (λ n, node_id n = compute) l) as [Hb Hb']%list_elem_of_filter
        by (rewrite E; set_solver).
      assert (a = b) as -> by (apply Hinj; [apply H1; by rewrite <-Hl..|congruence]).
      apply (NoDup_filter (λ n, node_id n = compute)) in Hn. rewrite E in Hn.
      apply NoDup_cons_1_1 in Hn. set_solver. }
    pose proof (Hle ok1 (reflexivity _) Hnd1).
    assert (filter (λ n, node_id n = compute) ok1 ≡ₚ filter (λ n, node_id n = compute) ok2) as Hf
      by by rewrite Hok.
    destruct (filter _ ok1) as [|a [|b r]]; cbn in *; [|..|lia].
    + by apply Permutation_nil_l in Hf.
    + by apply Permutation_singleton_l in Hf.
  - f_equal. apply (StronglySorted_unique_strong (cmp_le placement_cmp));
      [|apply sort_by_sorted, _..|by rewrite !sort_by_Permutation, Hok].
    intros [x cx] [y cy]. rewrite !sort_by_Permutation.
    intros (x' & [= -> ->] & [_ Hx]%list_elem_of_filter)%list_elem_of_fmap
           (y' & [= -> ->] & [_ Hy]%list_elem_of_filter)%list_elem_of_fmap L1 L2.
    rewrite <-Hok in Hy. assert (x' = y') as ->; [|done].
    apply Hinj; [auto..|].
    apply (placement_cmp_Eq (x', placement_cost compute size t x') (y', placement_cost compute size t y')).
    unfold cmp_le in *. rewrite (cmp_opp placement_cmp) in L2.
    destruct (placement_cmp _ _); done.
Qed.

(** ** Properties of the plan *)

#[export] Instance primary_cmp_order : CmpOrder primary_cmp.
Proof.
  apply lex_order; [apply rev_order, on_order, Zcompare_order|].
  apply lex_order; [apply on_order, string_cmp_order|apply on_order, Zcompare_order].
Qed.

Lemma elem_of_candidates nodes id g :
  (id, g) ∈ candidates nodes ↔
  ∃ n, n ∈ nodes ∧ gpu_compute (runtime n) = true ∧ node_id n = id ∧ g ∈ gpus n ∧ 0 < usable_vram g.
Proof.
  unfold candidates. rewrite list_elem_of_join. split.
  - intros (l & Hg & (n & -> & [Hc Hn]%list_elem_of_filter)%list_elem_of_fmap).
    apply list_elem_of_fmap in Hg as (g' & [= -> ->] & [Hu Hin]%list_elem_of_filter). eauto 10.
  - intros (n & Hn & Hc & <- & Hg & Hu).
    exists ((λ g, (node_id n, g)) <$> filter (λ g, 0 < usable_vram g) (gpus n)). split.
    + apply list_elem_of_fmap. exists g. split; [done|]. by apply list_elem_of_filter.
    + apply list_elem_of_fmap. exists n. split; [done|]. by apply list_elem_of_filter.
Qed.

Lemma assign_stages_Ok gpu specs l :
  assign_stages gpu specs = Ok l ↔
  match gpu with
  | Some g => Forall (λ s, working_set_bytes s <= usable_bytes g) specs
      ∧ l = (λ s, mkStageAssignment (stage_name s) (a_node_id g) (a_gpu_id g)) <$> specs
  | None => specs = [] ∧ l = []
  end.
Proof.
  destruct gpu as [g|].
  2: { destruct specs; cbn; split; naive_solver. }
  revert l. induction specs as [|s specs IH]; intros l; cbn [assign_stages].
  - split; [intros [= <-]; by split; [constructor|]|by intros [_ ->]].
  - destruct (Z.leb_spec (working_set_bytes s) (usable_bytes g)).
    + rewrite bind_Ok. split.
      * intros (r & [Hf ->]%IH & [= <-]). by split; [constructor|].
      * intros [[_ Hf]%Forall_cons ->]. eexists. split; [by apply IH|done].
    + split; [done|]. intros [[? _]%Forall_cons _]. lia.
Qed.


(** Planning fails exactly without a leader, without a usable GPU for some
    stage, or with a stage larger than the primary GPU; it never panics. *)
Theorem plan_total job nodes leader t specs :
  (∃ p, plan job nodes leader t specs = Ok p) ↔
  is_Some (leader_id leader) ∧ ∀ s, s ∈ specs →
    ∃ id g, (id, g) ∈ candidates nodes ∧ working_set_bytes s <= usable_vram g.
Proof.
  unfold plan. destruct (min_by primary_cmp (candidates nodes)) as [[nid g]|] eqn:E.
  - apply min_by_spec in E as [Hin Hmin]; [|apply _].
    assert (∀ id' g', (id', g') ∈ candidates nodes → usable_vram g' <= usable_vram g) as Hmax.
    { intros id' g' Hg'%Hmin. unfold cmp_le, primary_cmp, lex, rev_cmp, on, then_ in Hg'.
      cbn in Hg'. destruct (Z.compare_spec (usable_vram g') (usable_vram g)); [lia..|done]. }
    split.
    + intros (p & H). apply bind_Ok in H as ([] & _ & H).
      apply bind_Ok in H as (l & H2%assign_stages_Ok & H).
      apply bind_Ok in H as (id & H3%ok_or_Ok & _). split; [by eexists|].
      intros s Hs. exists nid, g. split; [done|]. destruct H2 as [Hf _].
      rewrite Forall_forall in Hf. by apply Hf.
    + intros [[lid Hl] Hs]. eexists. rewrite andb_false_r. cbn.
      rewrite (proj2 (assign_stages_Ok (Some (assign (nid, g))) specs
        ((λ s, mkStageAssignment (stage_name s) nid (gpu_uuid g)) <$> specs))); [|split; [|done]].
      * by rewrite Hl.
      * apply Forall_forall. intros s (id' & g' & Hg' & Hle)%Hs. cbn. apply Hmax in Hg'. lia.
  - assert (candidates nodes = []) as Ec by (destruct (candidates nodes); [done|discriminate E]).
    rewrite Ec. split.
    + intros (p & H). apply bind_Ok in H as ([] & _ & H).
      apply bind_Ok in H as (l & H2%assign_stages_Ok & H).
      apply bind_Ok in H as (id & H3%ok_or_Ok & _). split; [by eexists|].
      destruct H2 as [-> _]. by intros s ?%not_elem_of_nil.
    + intros [[lid Hl] Hs]. destruct specs as [|s specs].
      * cbn. rewrite Hl. by eexists.
      * destruct (Hs s) as (? & ? & Hin & _); [set_solver|]. by apply not_elem_of_nil in Hin.
Qed.

(** ** Properties of the job table *)

(** A lost node fails exactly the jobs that compute on it, and no job is
    forgotten; a reported failure changes only its own job. *)
Theorem job_failures `{!UuidText} node id error js j :
  lose_compute node js !! j = (λ job,
     if decide (node ∈ compute_nodes (job_plan job))
     then mkJob (job_plan job)
            (Some ("TRAINPOOL_COMPUTE_LOST: GPU node " +:+ uuid_str node +:+ " disappeared"))
     else job) <$> js !! j
  ∧ fail id error js !! j = (if decide (j = id) then (λ job, mkJob (job_plan job) (Some error)) else λ job, job) <$> js !! j.
Proof.
  split.
  - unfold lose_compute. rewrite lookup_fmap. destruct (js !! j) as [job|]; [|done]. cbn.
    f_equal. rewrite decide_bool_decide. by case_match.
  - unfold fail. rewrite lookup_alter. destruct (js !! j) as [job|] eqn:E;
      repeat case_decide; simplify_eq; rewrite ?E; done.
Qed.

(** ** Witnesses *)
Module Witness.
Definition gpu (id : string) (usable : Z) : GpuCapabilities :=
  mkGpu id "model" 1000 900 100 usable 0 None None "1" None.
Definition node (id budget available : Z) (gs : list GpuCapabilities) : NodeCapabilities :=
  mkNode id (100 + id) (200 + id) "host" "linux" "x86_64" (mkCpu "cpu" 4 8 "x86_64")
    (mkMemory 1000 900 (budget - available) budget available 100 available) gs
    (mkNetwork (V4 (ipv4 10 0 0 id), 7432) None "" "udp" 4096 0)
    (mkRuntimeCaps (negb (bool_decide (gs = []))) true false "1").
Definition nodes : list NodeCapabilities :=
  [node 1 500 400 [gpu "a" 700]; node 2 800 800 [gpu "b" 700; gpu "c" 600]; node 3 90 10 []].
End Witness.

Lemma rank_ram_deterministic_witness :
  node_id <$> rank_ram Witness.nodes 2 50 [] = [2; 1]
  ∧ rank_ram Witness.nodes 2 50 [] = rank_ram (rev Witness.nodes) 2 50 [].
Proof.
  split; [vm_compute; reflexivity|]. apply rank_ram_deterministic.
  - apply Permutation_rev.
  - apply (bool_decide_unpack _). vm_compute. exact I.
Defined.

