(* ===== verification/Metrics.v ===== *)
(** * Metrics: [src/metrics/mod.rs] *)

From S2P Require Import Prelude.
From S2P Require Import Float64.

(** Counters and samples of one job; the fields keep their names with the
    prefix [jm_]. *)
Record JobMetrics := mkJobMetrics {
  jm_tensor_allocations : u64;
  jm_tensor_migrations : u64;
  jm_bytes_local_ram_to_gpu : u64;
  jm_bytes_gpu_to_local_ram : u64;
  jm_bytes_remote_ram_to_local : u64;
  jm_bytes_local_to_remote_ram : u64;
  jm_migration_latency_ms : f64;
  jm_prefetch_hits : u64;
  jm_prefetch_misses : u64;
  jm_gpu_wait_for_data_ms : f64;
  jm_ram_pressure_events : u64;
  jm_network_bytes : u64;
  jm_network_wait_ms : f64;
  jm_peak_gpu_residency : u64;
  jm_current_gpu_residency : u64;
  jm_peak_vram_resident_bytes : u64;
  jm_current_vram_resident_bytes : u64;
  jm_peak_local_ram_backing_bytes : u64;
  jm_current_local_ram_backing_bytes : u64;
  jm_peak_remote_ram_backing_bytes : u64;
  jm_current_remote_ram_backing_bytes : u64;
  jm_gpu_to_local_bytes : u64;
  jm_local_to_gpu_bytes : u64;
  jm_gpu_to_remote_bytes : u64;
  jm_remote_to_gpu_bytes : u64;
  jm_remote_to_local_bytes : u64;
  jm_local_to_remote_bytes : u64;
  jm_eviction_count : u64;
  jm_prefetch_count : u64;
  jm_gpu_id : option string;
  jm_peak_ram_residency : u64;
  jm_current_ram_residency : u64;
  jm_failed_transfers : u64;
  jm_udp_datagrams_sent : u64;
  jm_udp_datagrams_received : u64;
  jm_udp_payload_bytes : u64;
  jm_udp_retransmitted_datagrams : u64;
  jm_udp_retransmitted_bytes : u64;
  jm_duplicate_datagrams : u64;
  jm_out_of_order_datagrams : u64;
  jm_nack_count : u64;
  jm_ack_count : u64;
  jm_transfer_sessions : u64;
  jm_active_transfer_sessions : u64;
  jm_average_payload_size : f64;
  jm_estimated_rtt_ms : f64;
  jm_retransmission_timeout_ms : f64;
  jm_packet_loss_estimate : f64;
  jm_effective_throughput_mbps : f64;
  jm_tcp_connections_opened : u64;
  jm_tcp_connections_reused : u64;
  jm_sdk_metrics_timestamp_ms : option u64;
  jm_physical_vram_bytes : option u64;
  jm_driver_free_vram_bytes : option u64;
  jm_driver_used_vram_bytes : option u64;
  jm_torch_allocated_bytes : option u64;
  jm_torch_reserved_bytes : option u64;
  jm_torch_reclaimable_bytes : option u64;
  jm_safe_vram_allocatable_bytes : option u64;
  jm_configured_usable_vram_ceiling_bytes : option u64;
  jm_configured_vram_safety_reserve_bytes : option u64;
}.
#[export] Instance eta_JobMetrics : Eta JobMetrics := λ r,
  mkJobMetrics (jm_tensor_allocations r) (jm_tensor_migrations r) (jm_bytes_local_ram_to_gpu r)
    (jm_bytes_gpu_to_local_ram r) (jm_bytes_remote_ram_to_local r)
    (jm_bytes_local_to_remote_ram r) (jm_migration_latency_ms r) (jm_prefetch_hits r)
    (jm_prefetch_misses r) (jm_gpu_wait_for_data_ms r) (jm_ram_pressure_events r)
    (jm_network_bytes r) (jm_network_wait_ms r) (jm_peak_gpu_residency r)
    (jm_current_gpu_residency r) (jm_peak_vram_resident_bytes r)
    (jm_current_vram_resident_bytes r) (jm_peak_local_ram_backing_bytes r)
    (jm_current_local_ram_backing_bytes r) (jm_peak_remote_ram_backing_bytes r)
    (jm_current_remote_ram_backing_bytes r) (jm_gpu_to_local_bytes r) (jm_local_to_gpu_bytes r)
    (jm_gpu_to_remote_bytes r) (jm_remote_to_gpu_bytes r) (jm_remote_to_local_bytes r)
    (jm_local_to_remote_bytes r) (jm_eviction_count r) (jm_prefetch_count r) (jm_gpu_id r)
    (jm_peak_ram_residency r) (jm_current_ram_residency r) (jm_failed_transfers r)
    (jm_udp_datagrams_sent r) (jm_udp_datagrams_received r) (jm_udp_payload_bytes r)
    (jm_udp_retransmitted_datagrams r) (jm_udp_retransmitted_bytes r) (jm_duplicate_datagrams r)
    (jm_out_of_order_datagrams r) (jm_nack_count r) (jm_ack_count r) (jm_transfer_sessions r)
    (jm_active_transfer_sessions r) (jm_average_payload_size r) (jm_estimated_rtt_ms r)
    (jm_retransmission_timeout_ms r) (jm_packet_loss_estimate r)
    (jm_effective_throughput_mbps r) (jm_tcp_connections_opened r) (jm_tcp_connections_reused r)
    (jm_sdk_metrics_timestamp_ms r) (jm_physical_vram_bytes r) (jm_driver_free_vram_bytes r)
    (jm_driver_used_vram_bytes r) (jm_torch_allocated_bytes r) (jm_torch_reserved_bytes r)
    (jm_torch_reclaimable_bytes r) (jm_safe_vram_allocatable_bytes r)
    (jm_configured_usable_vram_ceiling_bytes r) (jm_configured_vram_safety_reserve_bytes r).

(** [JobMetrics::default]. *)
Definition default_metrics : JobMetrics := {|
  jm_tensor_allocations := 0;
  jm_tensor_migrations := 0;
  jm_bytes_local_ram_to_gpu := 0;
  jm_bytes_gpu_to_local_ram := 0;
  jm_bytes_remote_ram_to_local := 0;
  jm_bytes_local_to_remote_ram := 0;
  jm_migration_latency_ms := f64_zero;
  jm_prefetch_hits := 0;
  jm_prefetch_misses := 0;
  jm_gpu_wait_for_data_ms := f64_zero;
  jm_ram_pressure_events := 0;
  jm_network_bytes := 0;
  jm_network_wait_ms := f64_zero;
  jm_peak_gpu_residency := 0;
  jm_current_gpu_residency := 0;
  jm_peak_vram_resident_bytes := 0;
  jm_current_vram_resident_bytes := 0;
  jm_peak_local_ram_backing_bytes := 0;
  jm_current_local_ram_backing_bytes := 0;
  jm_peak_remote_ram_backing_bytes := 0;
  jm_current_remote_ram_backing_bytes := 0;
  jm_gpu_to_local_bytes := 0;
  jm_local_to_gpu_bytes := 0;
  jm_gpu_to_remote_bytes := 0;
  jm_remote_to_gpu_bytes := 0;
  jm_remote_to_local_bytes := 0;
  jm_local_to_remote_bytes := 0;
  jm_eviction_count := 0;
  jm_prefetch_count := 0;
  jm_gpu_id := None;
  jm_peak_ram_residency := 0;
  jm_current_ram_residency := 0;
  jm_failed_transfers := 0;
  jm_udp_datagrams_sent := 0;
  jm_udp_datagrams_received := 0;
  jm_udp_payload_bytes := 0;
  jm_udp_retransmitted_datagrams := 0;
  jm_udp_retransmitted_bytes := 0;
  jm_duplicate_datagrams := 0;
  jm_out_of_order_datagrams := 0;
  jm_nack_count := 0;
  jm_ack_count := 0;
  jm_transfer_sessions := 0;
  jm_active_transfer_sessions := 0;
  jm_average_payload_size := f64_zero;
  jm_estimated_rtt_ms := f64_zero;
  jm_retransmission_timeout_ms := f64_zero;
  jm_packet_loss_estimate := f64_zero;
  jm_effective_throughput_mbps := f64_zero;
  jm_tcp_connections_opened := 0;
  jm_tcp_connections_reused := 0;
  jm_sdk_metrics_timestamp_ms := None;
  jm_physical_vram_bytes := None;
  jm_driver_free_vram_bytes := None;
  jm_driver_used_vram_bytes := None;
  jm_torch_allocated_bytes := None;
  jm_torch_reserved_bytes := None;
  jm_torch_reclaimable_bytes := None;
  jm_safe_vram_allocatable_bytes := None;
  jm_configured_usable_vram_ceiling_bytes := None;
  jm_configured_vram_safety_reserve_bytes := None;
|}.

Abbreviation Metrics := (gmap Uuid JobMetrics) (only parsing).

(** [*self.jobs.entry(id).or_default()] updated through the reference that
    [Metrics::job] returns. *)
Definition job (id : Uuid) (f : JobMetrics → JobMetrics) (m : Metrics) : Metrics :=
  <[id := f (default default_metrics (m !! id))]> m.

Lemma job_lookup id f m id' :
  job id f m !! id' = if decide (id' = id) then Some (f (default default_metrics (m !! id))) else m !! id'.
Proof.
  unfold job. rewrite lookup_insert. repeat case_decide; congruence.
Qed.
