(* ===== verification/Protocol.v ===== *)
(** * The control protocol: [src/protocol/mod.rs]

    Requests, responses and the cluster-wide view of memory. A response
    carries a JSON value; the JSON library is a parameter. *)

From S2P Require Import Prelude.
From S2P Require Import Lists.
From S2P Require Import Float64.
From S2P Require Import Block.
From S2P Require Import Metrics.
From S2P Require Import Node.
From S2P Require Import Cluster.
From S2P Require Import Scheduler.

Definition VERSION : Z := 1.
Definition MAX_FRAME : Z := 8 * 1024 * 1024.

(** ** Messages *)

(** [Challenge], [Authentication] and [Authenticated]. *)
Record Challenge := mkChallenge { ch_nonce : Uuid }.
Record Authentication := mkAuthentication {
  au_cluster_name : string;
  au_nonce : Uuid;
  au_mac : option string;
}.
Record Authenticated := mkAuthenticated { ad_mac : option string }.

(** [Request]. *)
Inductive Request :=
| Ping
| Status
| Capabilities
| Exchange (node : NodeCapabilities) (inventory : list MemoryBlockHandle)
| Inventory (page : u64)
| GetMetrics
| ReserveStaging (bytes : u64)
| ReleaseStaging (reservation_id : Uuid)
| ReportMetrics (job_id : Uuid) (metrics : JobMetrics)
| Plan (stages : list StageSpec)
| JobStatus (job_id : Uuid)
| Allocate (size : u64) (job_id compute_node : Uuid) (preferred_node : option Uuid)
    (tensor : option TensorMetadata)
| AllocateLocal (handle : MemoryBlockHandle) (leadership : Leadership)
| Resolve (id lease_token : Uuid)
| Register (handle : MemoryBlockHandle) (previous_generation : option u64)
    (leadership : Leadership)
| Publish (handle : MemoryBlockHandle) (leadership : Leadership)
| WriteChunk (handle : MemoryBlockHandle) (transfer_id : Uuid) (offset length total_size : u64)
    (checksum : string) (direct : bool)
| Commit (handle : MemoryBlockHandle) (checksum : string) (direct : bool)
| ReadChunk (handle : MemoryBlockHandle) (transfer_id : Uuid) (offset length : u64) (direct : bool)
| Renew (handle : MemoryBlockHandle) (direct : bool)
| Free (handle : MemoryBlockHandle) (direct : bool)
| MemoryPressure (node_id : Uuid) (currently_owned new_budget excess_bytes : u64)
| Migrate (handle : MemoryBlockHandle) (destination : Uuid) (leadership : Leadership)
| Benchmark (bytes : u64)
| ProbeLink (bytes : u64)
| Measure (destination : Uuid) (bytes : u64)
| GetTopology.

(** ** Responses *)

(** [serde_json::Value] and the conversions [to_value] and [from_value]. *)
Class JsonValue := { Value : Type; Null : Value }.
Class Serde (T : Type) `{!JsonValue} := { to_value : T → Value; from_value : Value → Result T }.
Class SerdeLaws (T : Type) `{!JsonValue, !Serde T} : Prop := {
  from_to_value : ∀ x : T, from_value (to_value x) = Ok x;
}.

Section Response.
Context `{!JsonValue}.

Record Response := mkResponse { r_ok : bool; r_data : Value; r_error : option string }.

(** [Response::data], [Response::error], [into_data] and [check]. *)
Definition response_data {T} `{!Serde T} (value : T) : Response :=
  mkResponse true (to_value value) None.
Definition response_error (error : string) : Response := mkResponse false Null (Some error).
Definition into_data {T} `{!Serde T} (r : Response) : Result T :=
  ensure (r_ok r) (default "protocol failure" (r_error r));;
  from_value (r_data r).
Definition check (r : Response) : Result unit :=
  ensure (r_ok r) (default "protocol failure" (r_error r)).

(** What [connection] sends for the result of a control request. *)
Definition respond (r : Result Response) : Result Response :=
  match r with Ok a => Ok a | Err e => Ok (response_error e) | Panic => Panic end.

(** A client gets what the handler returned: the value if it succeeded
    and the text of its error if it failed. *)
Theorem response_roundtrip {T} `{!Serde T, !SerdeLaws T} (r : Result T) :
  (respond (response_data <$> r) ≫= into_data) = r
  ∧ (∀ resp, respond (response_data <$> r) = Ok resp →
      check resp = match r with Err e => Err e | _ => Ok () end).
Proof.
  destruct r as [x|e|]; cbn; [unfold into_data; cbn; rewrite from_to_value|..]; split; try done;
    intros ? [= <-]; done.
Qed.
End Response.

(** ** The cluster's memory *)

(** [LogicalTrainingMemory], with the prefix [lm_]. *)
Record LogicalTrainingMemory := mkLogical {
  lm_physical_ram : u64;
  lm_pool_ram_budget : u64;
  lm_pool_ram_allocatable : u64;
  lm_allocated_ram : u64;
  lm_physical_vram : u64;
  lm_free_vram : u64;
  lm_usable_vram : u64;
  lm_allocated_vram : u64;
  lm_logical_training_capacity : u64;
  lm_cluster_physical_vram : u64;
  lm_cluster_usable_vram : u64;
  lm_primary_gpu_physical_vram : u64;
  lm_primary_gpu_usable_vram : u64;
  lm_pool_ram_owned : u64;
  lm_current_job_backing_capacity : u64;
  lm_current_job_remaining_capacity : u64;
  lm_disk_spill : bool;
  lm_local_physical_ram : u64;
  lm_local_os_available_ram : u64;
  lm_local_pool_ram_budget : u64;
  lm_local_pool_ram_used : u64;
  lm_local_pool_ram_allocatable : u64;
  lm_local_ram_safety_reserve : u64;
  lm_remote_pool_ram_used : u64;
  lm_sdk_metrics_timestamp_ms : option u64;
  lm_sdk_metrics_age_ms : option u64;
  lm_sdk_physical_vram_bytes : option u64;
  lm_driver_used_vram_bytes : option u64;
  lm_driver_free_vram_bytes : option u64;
  lm_torch_allocated_bytes : option u64;
  lm_torch_reserved_bytes : option u64;
  lm_torch_reclaimable_bytes : option u64;
  lm_trainpool_resident_vram_bytes : option u64;
  lm_safe_vram_allocatable_bytes : option u64;
  lm_configured_usable_vram_ceiling_bytes : option u64;
  lm_configured_vram_safety_reserve_bytes : option u64;
}.
#[export] Instance eta_LogicalTrainingMemory : Eta LogicalTrainingMemory := λ r,
  mkLogical (lm_physical_ram r) (lm_pool_ram_budget r) (lm_pool_ram_allocatable r)
    (lm_allocated_ram r) (lm_physical_vram r) (lm_free_vram r) (lm_usable_vram r)
    (lm_allocated_vram r) (lm_logical_training_capacity r) (lm_cluster_physical_vram r)
    (lm_cluster_usable_vram r) (lm_primary_gpu_physical_vram r) (lm_primary_gpu_usable_vram r)
    (lm_pool_ram_owned r) (lm_current_job_backing_capacity r)
    (lm_current_job_remaining_capacity r) (lm_disk_spill r) (lm_local_physical_ram r)
    (lm_local_os_available_ram r) (lm_local_pool_ram_budget r) (lm_local_pool_ram_used r)
    (lm_local_pool_ram_allocatable r) (lm_local_ram_safety_reserve r)
    (lm_remote_pool_ram_used r) (lm_sdk_metrics_timestamp_ms r) (lm_sdk_metrics_age_ms r)
    (lm_sdk_physical_vram_bytes r) (lm_driver_used_vram_bytes r) (lm_driver_free_vram_bytes r)
    (lm_torch_allocated_bytes r) (lm_torch_reserved_bytes r) (lm_torch_reclaimable_bytes r)
    (lm_trainpool_resident_vram_bytes r) (lm_safe_vram_allocatable_bytes r)
    (lm_configured_usable_vram_ceiling_bytes r) (lm_configured_vram_safety_reserve_bytes r).

Definition default_logical : LogicalTrainingMemory := {|
  lm_physical_ram := 0;
  lm_pool_ram_budget := 0;
  lm_pool_ram_allocatable := 0;
  lm_allocated_ram := 0;
  lm_physical_vram := 0;
  lm_free_vram := 0;
  lm_usable_vram := 0;
  lm_allocated_vram := 0;
  lm_logical_training_capacity := 0;
  lm_cluster_physical_vram := 0;
  lm_cluster_usable_vram := 0;
  lm_primary_gpu_physical_vram := 0;
  lm_primary_gpu_usable_vram := 0;
  lm_pool_ram_owned := 0;
  lm_current_job_backing_capacity := 0;
  lm_current_job_remaining_capacity := 0;
  lm_disk_spill := false;
  lm_local_physical_ram := 0;
  lm_local_os_available_ram := 0;
  lm_local_pool_ram_budget := 0;
  lm_local_pool_ram_used := 0;
  lm_local_pool_ram_allocatable := 0;
  lm_local_ram_safety_reserve := 0;
  lm_remote_pool_ram_used := 0;
  lm_sdk_metrics_timestamp_ms := None;
  lm_sdk_metrics_age_ms := None;
  lm_sdk_physical_vram_bytes := None;
  lm_driver_used_vram_bytes := None;
  lm_driver_free_vram_bytes := None;
  lm_torch_allocated_bytes := None;
  lm_torch_reserved_bytes := None;
  lm_torch_reclaimable_bytes := None;
  lm_trainpool_resident_vram_bytes := None;
  lm_safe_vram_allocatable_bytes := None;
  lm_configured_usable_vram_ceiling_bytes := None;
  lm_configured_vram_safety_reserve_bytes := None;
|}.

(** [ClusterStatus]. *)
Record ClusterStatus := mkStatus {
  cs_local_node : Uuid;
  cs_leadership : Leadership;
  cs_nodes : list NodeCapabilities;
  cs_logical_memory : LogicalTrainingMemory;
  cs_topology : Topology;
  cs_chunk_bytes : u64;
  cs_lease_seconds : u64;
}.

Definition add_gpu (m : LogicalTrainingMemory) (g : GpuCapabilities) : LogicalTrainingMemory :=
  m <| lm_physical_vram ::= λ x, x +w vram_total g |>
    <| lm_free_vram ::= λ x, x +w vram_free g |>
    <| lm_usable_vram ::= λ x, x +w usable_vram g |>
    <| lm_allocated_vram ::= λ x, x +w trainpool_allocated_vram g |>.

Definition add_node (m : LogicalTrainingMemory) (n : NodeCapabilities) : LogicalTrainingMemory :=
  let m := m <| lm_physical_ram ::= λ x, x +w physical_ram_total (memory n) |> in
  let m := if ram_provider (runtime n) then
      m <| lm_pool_ram_budget ::= λ x, x +w trainpool_ram_budget (memory n) |>
        <| lm_pool_ram_allocatable ::= λ x, x +w trainpool_ram_available (memory n) |>
        <| lm_allocated_ram ::= λ x, x +w trainpool_ram_used (memory n) |>
    else m in
  foldl add_gpu m (gpus n).

(** The pairs [(n, g)] [from_nodes] compares, and its comparison. *)
Definition node_candidates (nodes : list NodeCapabilities) : list (NodeCapabilities * GpuCapabilities) :=
  mjoin ((λ n, (λ g, (n, g)) <$> filter (λ g, 0 < usable_vram g) (gpus n))
         <$> filter (λ n, gpu_compute (runtime n) = true) nodes).
Definition node_primary_cmp : NodeCapabilities * GpuCapabilities → NodeCapabilities * GpuCapabilities → comparison :=
  lex (rev_cmp (on (λ p, usable_vram p.2) Z.compare))
    (lex (on (λ p, gpu_uuid p.2) string_cmp) (on (λ p, node_id p.1) Z.compare)).

(** [LogicalTrainingMemory::from_nodes]. *)
Definition from_nodes (nodes : list NodeCapabilities) : LogicalTrainingMemory :=
  let m := foldl add_node default_logical nodes in
  let m := m <| lm_cluster_physical_vram := lm_physical_vram m |>
             <| lm_cluster_usable_vram := lm_usable_vram m |>
             <| lm_pool_ram_owned := lm_allocated_ram m |> in
  let m := match min_by node_primary_cmp (node_candidates nodes) with
           | Some (_, gpu) =>
               m <| lm_primary_gpu_physical_vram := vram_total gpu |>
                 <| lm_primary_gpu_usable_vram := usable_vram gpu |>
           | None => m
           end in
  let m := m <| lm_current_job_backing_capacity := lm_primary_gpu_usable_vram m +w lm_pool_ram_budget m |> in
  let m := m <| lm_current_job_remaining_capacity := lm_primary_gpu_usable_vram m +w lm_pool_ram_allocatable m |> in
  m <| lm_logical_training_capacity := lm_current_job_remaining_capacity m |>.

Lemma min_by_map {A B} (f : A → B) (c : A → A → comparison) (d : B → B → comparison) l :
  (∀ x y, c x y = d (f x) (f y)) → min_by d (f <$> l) = f <$> min_by c l.
Proof.
  intros H. destruct l as [|x l]; [done|]. cbn. f_equal. revert x.
  induction l as [|y l IH]; intros x; cbn; [done|]. rewrite <-H. destruct (c x y); apply IH.
Qed.

Lemma candidates_map nodes : candidates nodes = (λ p, (node_id p.1, p.2)) <$> node_candidates nodes.
Proof.
  unfold candidates, node_candidates. rewrite fmap_join, <-list_fmap_compose. f_equal.
  apply list_fmap_ext. intros i n _. unfold compose. by rewrite <-list_fmap_compose.
Qed.

Lemma foldl_wsum {A B} (g : B → Z) (f : B → A → B) (h : A → Z) :
  (∀ b a, g b = wrap64 (g b) → g (f b a) = wrap64 (g b + h a)) →
  ∀ l b, g b = wrap64 (g b) → g (foldl f b l) = wrap64 (g b + zsum (h <$> l)).
Proof.
  intros H l. induction l as [|a l IH]; intros b Hb; cbn.
  - by rewrite Z.add_0_r.
  - rewrite IH, H by (rewrite ?H by done; unfold wrap64; by rewrite ?Zmod_mod).
    unfold wrap64. rewrite Zplus_mod_idemp_l. f_equal. unfold zsum. cbn. lia.
Qed.

Lemma add_node_primary m n :
  lm_primary_gpu_usable_vram (add_node m n) = lm_primary_gpu_usable_vram m
  ∧ lm_primary_gpu_physical_vram (add_node m n) = lm_primary_gpu_physical_vram m.
Proof.
  unfold add_node. cbn zeta.
  rewrite !(foldl_invariant _ add_gpu) by done. by destruct (ram_provider _).
Qed.

Lemma from_nodes_primary nodes :
  lm_primary_gpu_usable_vram (from_nodes nodes) =
    match min_by node_primary_cmp (node_candidates nodes) with Some (_, g) => usable_vram g | None => 0 end
  ∧ lm_primary_gpu_physical_vram (from_nodes nodes) =
    match min_by node_primary_cmp (node_candidates nodes) with Some (_, g) => vram_total g | None => 0 end.
Proof.
  unfold from_nodes. cbn zeta.
  destruct (min_by _ _) as [[n g]|]; [done|]. cbn.
  rewrite !(foldl_invariant _ add_node); [done|..]; intros; apply add_node_primary.
Qed.

Lemma elem_of_node_candidates nodes n g :
  (n, g) ∈ node_candidates nodes → n ∈ nodes ∧ g ∈ gpus n.
Proof.
  unfold node_candidates. rewrite list_elem_of_join.
  intros (l & Hg & (m & -> & [Hc Hn]%list_elem_of_filter)%list_elem_of_fmap).
  by apply list_elem_of_fmap in Hg as (g' & [= -> ->] & [Hu Hin]%list_elem_of_filter).
Qed.


(** A field of [from_nodes] that only [add_node] sets is a sum over the nodes. *)
Ltac total g :=
  match goal with |- context [from_nodes ?nodes] =>
    transitivity (g (foldl add_node default_logical nodes));
    [unfold from_nodes; cbn zeta; by destruct (min_by _ _) as [[??]|]|];
    match goal with |- _ = wrap64 (zsum (?h <$> _)) =>
      rewrite (foldl_wsum g add_node h); [done| |done] end end.
Ltac provider g :=
  intros m n Hm; unfold add_node; cbn zeta;
  rewrite (foldl_invariant g add_gpu) by done;
  destruct (ram_provider _); cbn; [done|by rewrite Z.add_0_r].

(** The totals are the sums over the nodes (modulo the width of the
    counters): physical memory of every node, pool memory of the RAM
    providers only, and what a job can still get is the primary GPU plus the
    allocatable pool. *)
Theorem from_nodes_totals nodes :
  let m := from_nodes nodes in
  let providers := filter (λ n, ram_provider (runtime n) = true) nodes in
  lm_physical_ram m = wrap64 (zsum ((λ n, physical_ram_total (memory n)) <$> nodes))
  ∧ lm_pool_ram_budget m = wrap64 (zsum ((λ n, trainpool_ram_budget (memory n)) <$> providers))
  ∧ lm_pool_ram_owned m = wrap64 (zsum ((λ n, trainpool_ram_used (memory n)) <$> providers))
  ∧ lm_cluster_usable_vram m = wrap64 (zsum (usable_vram <$> mjoin (gpus <$> nodes)))
  ∧ lm_logical_training_capacity m
    = wrap64 (lm_primary_gpu_usable_vram m
              + zsum ((λ n, trainpool_ram_available (memory n)) <$> providers)).
Proof.
  cbn zeta.
  assert (∀ (f : NodeCapabilities → Z) l, zsum (f <$> filter (λ n, ram_provider (runtime n) = true) l)
    = zsum ((λ n, if ram_provider (runtime n) then f n else 0) <$> l)) as Hf.
  { intros f l. induction l as [|n l IH]; [done|]. rewrite filter_cons, fmap_cons.
    unfold zsum in *. cbn [foldr]. rewrite <-IH.
    destruct (ram_provider (runtime n)); [rewrite decide_True by done|rewrite decide_False by done]; done. }
  assert (∀ l, zsum (usable_vram <$> mjoin (gpus <$> l)) = zsum ((λ n, zsum (usable_vram <$> gpus n)) <$> l)) as Hj.
  { intros l. induction l as [|n l IH]; [done|]. cbn [fmap list_fmap].
    change (mjoin (gpus n :: ?x)) with (gpus n ++ mjoin x). rewrite fmap_app, zsum_app, IH. done. }
  rewrite !Hf, Hj. split_and!.
  - total lm_physical_ram. intros m n Hm. unfold add_node. cbn zeta.
    rewrite (foldl_invariant lm_physical_ram add_gpu) by done. by destruct (ram_provider _).
  - total lm_pool_ram_budget. provider lm_pool_ram_budget.
  - transitivity (lm_allocated_ram (from_nodes nodes)).
    { unfold from_nodes. cbn zeta. by destruct (min_by _ _) as [[??]|]. }
    total lm_allocated_ram. provider lm_allocated_ram.
  - transitivity (lm_usable_vram (from_nodes nodes)).
    { unfold from_nodes. cbn zeta. by destruct (min_by _ _) as [[??]|]. }
    total lm_usable_vram. intros m n Hm. unfold add_node. cbn zeta.
    rewrite (foldl_wsum lm_usable_vram add_gpu usable_vram) by (done || by destruct (ram_provider _)).
    by destruct (ram_provider _).
  - transitivity (lm_primary_gpu_usable_vram (from_nodes nodes)
                  +w lm_pool_ram_allocatable (from_nodes nodes)); [done|].
    rewrite <-wadd_wrap_r. f_equal. total lm_pool_ram_allocatable. provider lm_pool_ram_allocatable.
Qed.


(** ** Witnesses *)
Module Witness.
Definition json : JsonValue := {| Value := option Z; Null := None |}.
Definition serde_z : @Serde Z json :=
  {| to_value := Some : Z → @Value json;
     from_value := λ v : @Value json, match v with Some z => Ok z | None => Err "invalid type: null" end |}.
Lemma serde_z_laws : @SerdeLaws Z json serde_z.
Proof. by split. Qed.
End Witness.

Lemma response_roundtrip_witness :
  (respond (@response_data Witness.json Z Witness.serde_z <$> Ok 7) ≫= @into_data Witness.json Z Witness.serde_z)
  = Ok 7.
Proof.
  apply (@response_roundtrip Witness.json Z Witness.serde_z Witness.serde_z_laws (Ok 7)).
Defined.

