(* ===== verification/Transport.v ===== *)
(** * Framed control transport: [src/transport/mod.rs]

    Length-prefixed JSON frames over a byte stream, and the mutual
    authentication both ends run before anything else. *)

From S2P Require Import Prelude.
From S2P Require Import Lists.
From S2P Require Import Bytes.
From S2P Require Import Externals.
From S2P Require Import Config.
From S2P Require Import Protocol.

(** ** Signatures *)
Section Signatures.
Context `{!Hmac, !Hex, !UuidText}.

(** [signature]: [new_from_slice] accepts any key. *)
Definition signature (secret : option string) (bytes : list byte) : option string :=
  (λ s, hex_encode (hmac_sha256 (as_bytes s) bytes)) <$> secret.

(** [verify]; [verify_slice] compares the whole tag. *)
Definition verify (secret : option string) (bytes : list byte) (supplied : option string)
    : Result unit :=
  match secret, supplied with
  | None, None => Ok ()
  | Some key, Some tag =>
      code ← hex_decode tag;
      ensure (bool_decide (code = hmac_sha256 (as_bytes key) bytes)) "TRAINPOOL_AUTH_FAILED"
  | _, _ => bail "TRAINPOOL_AUTH_FAILED: cluster secret mismatch"
  end.

(** [transcript]. *)
Definition transcript (role : string) (server client : Uuid) (cluster : string) : string :=
  role +:+ "|" +:+ uuid_str server +:+ "|" +:+ uuid_str client +:+ "|" +:+ cluster.

Lemma verify_signature `{!HexLaws} secret bytes : verify secret bytes (signature secret bytes) = Ok ().
Proof.
  destruct secret as [key|]; [|done]. cbn. rewrite hex_decode_encode. cbn.
  by rewrite bool_decide_true.
Qed.

Lemma verify_Ok secret bytes supplied :
  verify secret bytes supplied = Ok () ↔
  match secret, supplied with
  | None, None => True
  | Some key, Some tag => hex_decode tag = Ok (hmac_sha256 (as_bytes key) bytes)
  | _, _ => False
  end.
Proof.
  destruct secret as [key|], supplied as [tag|]; cbn; try done.
  rewrite bind_Ok. split.
  - by intros (c & -> & ->%ensure_Ok%bool_decide_eq_true).
  - intros ->. eexists. split; [done|]. by rewrite bool_decide_true.
Qed.

Lemma string_app_inj_len (a b c d : string) :
  String.length a = String.length b → a +:+ c = b +:+ d → a = b ∧ c = d.
Proof.
  revert b. induction a as [|x a IH]; intros [|y b] Hl E; try done.
  cbn in *. injection E as -> E'. by destruct (IH b ltac:(lia) E') as [-> ->].
Qed.

Lemma string_sep_inj (a b c d : string) :
  String.length a = String.length b → a +:+ "|" +:+ c = b +:+ "|" +:+ d → a = b ∧ c = d.
Proof. intros Hl [-> E]%string_app_inj_len; [|done]. injection E as E. by split. Qed.

(** The text between the first bars determines the parties. *)
Lemma transcript_inj `{!UuidTextLaws} r1 r2 s1 s2 c1 c2 k1 k2 :
  r1 ∈ ["client"; "server"] → r2 ∈ ["client"; "server"] →
  is_uuid s1 → is_uuid s2 → is_uuid c1 → is_uuid c2 →
  transcript r1 s1 c1 k1 = transcript r2 s2 c2 k2 → r1 = r2 ∧ s1 = s2 ∧ c1 = c2 ∧ k1 = k2.
Proof.
  intros Hr1 Hr2 Hs1 Hs2 Hc1 Hc2 E.
  assert (String.length r1 = String.length r2) as Hl by (set_unfold; naive_solver).
  apply string_sep_inj in E as [-> E]; [|done].
  apply string_sep_inj in E as [Es E]; [|by rewrite !uuid_str_length].
  apply string_sep_inj in E as [Ec Ek]; [|by rewrite !uuid_str_length].
  split_and!; try done; by apply uuid_str_inj.
Qed.
End Signatures.

(** ** Frames *)

(** [serde_json] on a [Wire]: its bytes, and parsing it without looking at
    the message. *)
Class JsonWire `{!JsonValue} := {
  wire_to_vec : Z * Value → list byte;
  wire_from_slice : list byte → Result (Z * Value);
}.
Class JsonWireLaws `{!JsonValue, !JsonWire} : Prop := {
  wire_from_to : ∀ w, wire_from_slice (wire_to_vec w) = Ok w;
}.

(** The two directions of a connection, as seen from one end: the bytes that
    will have arrived and the bytes sent. *)
Record Stream := mkStream { rx : list byte; tx : list byte }.
#[export] Instance eta_Stream : Eta Stream := λ r, mkStream (rx r) (tx r).

Section Frames.
Context `{!JsonValue, !JsonWire, !Hmac, !Hex, !UuidText}.

(** [AsyncReadExt::read_exact] and [read_u32]. *)
Definition read_exact (n : Z) : SM Stream (list byte) := act (λ s,
  if zlen (rx s) <? n then (s <| rx := [] |>, Err "early eof")
  else (s <| rx := drop (Z.to_nat n) (rx s) |>, Ok (take (Z.to_nat n) (rx s)))).
Definition read_u32 : SM Stream Z := bytes ← read_exact 4; mret (be_val bytes).
Definition write_all (bytes : list byte) : SM Stream unit := modify (λ s, s <| tx ::= (.++ bytes) |>).

(** [write_frame]. *)
Definition write_frame {T} `{!Serde T} (message : T) : SM Stream unit :=
  let bytes := wire_to_vec (VERSION, to_value message) in
  ensureM (zlen bytes <=? MAX_FRAME) "control frame exceeds limit";;
  write_all (be_bytes 4 (zlen bytes));;
  write_all bytes.

(** [read_frame]. *)
Definition read_frame {T} `{!Serde T} : SM Stream T :=
  size ← read_u32;
  ensureM (size <=? MAX_FRAME) "control frame exceeds limit";;
  bytes ← read_exact size;
  value ← lift (wire_from_slice bytes);
  ensureM (value.1 =? VERSION)
    ("TRAINPOOL_PROTOCOL_VERSION: expected " +:+ pretty VERSION +:+ ", received " +:+ pretty value.1);;
  lift (from_value value.2).

(** The bytes of a frame. *)
Definition frame {T} `{!Serde T} (message : T) : list byte :=
  let bytes := wire_to_vec (VERSION, to_value message) in be_bytes 4 (zlen bytes) ++ bytes.
Definition frame_fits {T} `{!Serde T} (message : T) : Prop :=
  zlen (wire_to_vec (VERSION, to_value message)) <= MAX_FRAME.

Context `{!Serde Challenge, !Serde Authentication, !Serde Authenticated}.

(** [server_auth]; [server] is the fresh [Uuid::new_v4()]. *)
Definition server_auth (config : Config) (server : Uuid) : SM Stream unit :=
  write_frame (mkChallenge server);;
  auth ← read_frame (T := Authentication);
  ensureM (bool_decide (au_cluster_name auth = c_cluster_name config)) "TRAINPOOL_CLUSTER_MISMATCH";;
  lift (verify (c_cluster_secret config)
          (as_bytes (transcript "client" server (au_nonce auth) (c_cluster_name config)))
          (au_mac auth));;
  write_frame (mkAuthenticated (signature (c_cluster_secret config)
    (as_bytes (transcript "server" server (au_nonce auth) (c_cluster_name config))))).

(** [TcpTransport::connect] on an open connection; [client] is fresh. *)
Definition connect (config : Config) (client : Uuid) : SM Stream unit :=
  challenge ← read_frame (T := Challenge);
  write_frame (mkAuthentication (c_cluster_name config) client
    (signature (c_cluster_secret config)
       (as_bytes (transcript "client" (ch_nonce challenge) client (c_cluster_name config)))));;
  accepted ← read_frame (T := Authenticated);
  lift (verify (c_cluster_secret config)
          (as_bytes (transcript "server" (ch_nonce challenge) client (c_cluster_name config)))
          (ad_mac accepted)).

(** [TcpTransport::control] after [connect]: one request, one response. *)
Definition control {Req Resp} `{!Serde Req, !Serde Resp} (config : Config) (client : Uuid)
    (request : Req) : SM Stream Resp :=
  connect config client;;
  write_frame request;;
  read_frame.

(** ** Frame properties *)

Lemma read_exact_app n a b s :
  rx s = a ++ b → zlen a = n → read_exact n s = (s <| rx := b |>, Ok a).
Proof.
  intros E Hn. unfold read_exact, act. rewrite E, length_app.
  destruct (Z.ltb_spec (Z.of_nat (length a + length b)) n); [lia|].
  by rewrite drop_app_length', take_app_length' by lia.
Qed.

Lemma write_frame_spec {T} `{!Serde T} (m : T) s :
  frame_fits m → write_frame m s = (s <| tx ::= (.++ frame m) |>, Ok ()).
Proof.
  intros Hf. unfold write_frame, ensureM, lift, mbind, SM_bind. cbn zeta.
  rewrite (proj2 (Z.leb_le _ _) Hf). cbn [ensure].
  unfold frame, write_all, modify, set. cbn [rx tx]. by rewrite <-(assoc_L (++)).
Qed.

(** A message that [serde_json] writes within the limit and reads back. *)
Record readable {T} `{!Serde T} (m : T) : Prop := {
  rd_fits : frame_fits m;
  rd_wire : wire_from_slice (wire_to_vec (VERSION, to_value m)) = Ok (VERSION, to_value m);
  rd_value : from_value (to_value m) = Ok m;
}.
Lemma read_readable {T} `{!Serde T} (m : T) rest s :
  readable m → rx s = frame m ++ rest → read_frame s = (s <| rx := rest |>, Ok m).
Proof.
  intros [Hf Hw Hv] E. unfold read_frame, read_u32, ensureM, lift, mbind, SM_bind, mret, SM_ret.
  set (bytes := wire_to_vec (VERSION, to_value m)) in *.
  assert (rx s = be_bytes 4 (zlen bytes) ++ bytes ++ rest) as E'.
  { rewrite E. unfold frame. cbn zeta. by rewrite <-(assoc_L (++)). }
  rewrite (read_exact_app 4 _ _ _ E') by (by rewrite be_bytes_length).
  rewrite be_val_bytes_small by (unfold frame_fits, MAX_FRAME in Hf; fold bytes in Hf; lia).
  assert ((zlen bytes <=? MAX_FRAME) = true) as -> by by apply Z.leb_le.
  cbn [ensure]. rewrite (read_exact_app _ bytes rest) by done. cbn -[bytes].
  rewrite Hw. cbn. rewrite Hv. by destruct s.
Qed.
Lemma read_frame_spec {T} `{!Serde T, !SerdeLaws T, !JsonWireLaws} (m : T) rest s :
  frame_fits m → rx s = frame m ++ rest → read_frame s = (s <| rx := rest |>, Ok m).
Proof. intros Hf. apply read_readable. split; [done|apply wire_from_to|apply from_to_value]. Qed.

(** [n] messages read from a connection. *)
Fixpoint read_frames {T} `{!Serde T} (n : nat) : SM Stream (list T) :=
  match n with
  | O => mret []
  | S n => m ← read_frame; ms ← read_frames n; mret (m :: ms)
  end.
Fixpoint write_frames {T} `{!Serde T} (ms : list T) : SM Stream unit :=
  match ms with [] => mret () | m :: ms => write_frame m;; write_frames ms end.


Lemma write_frame_Ok {T} `{!Serde T} (m : T) s : (write_frame m s).2 = Ok () ↔ frame_fits m.
Proof.
  unfold write_frame, ensureM, lift, mbind, SM_bind, frame_fits. cbn zeta.
  destruct (Z.leb_spec (zlen (wire_to_vec (VERSION, to_value m))) MAX_FRAME); cbn; split; done || lia.
Qed.

(** A frame longer than [MAX_FRAME] is refused before its body is read,
    and a frame of another protocol version before its message is looked at;
    writing never produces a frame the other side would refuse for its
    length. *)
Theorem read_frame_rejects {T} `{!Serde T, !JsonWireLaws} size v value rest sent :
  (MAX_FRAME < size < 2 ^ 32 →
     read_frame (T := T) (mkStream (be_bytes 4 size ++ rest) sent)
     = (mkStream rest sent, Err "control frame exceeds limit"))
  ∧ (v ≠ VERSION → zlen (wire_to_vec (v, value)) <= MAX_FRAME →
     let bytes := wire_to_vec (v, value) in
     read_frame (T := T) (mkStream ((be_bytes 4 (zlen bytes) ++ bytes) ++ rest) sent)
     = (mkStream rest sent, Err ("TRAINPOOL_PROTOCOL_VERSION: expected 1, received " +:+ pretty v)))
  ∧ ∀ (m : T) s, (write_frame m s).2 = Ok () ↔ frame_fits m.
Proof.
  split_and!.
  - intros Hs. unfold read_frame, read_u32, ensureM, lift, mbind, SM_bind, mret, SM_ret.
    rewrite (read_exact_app 4 (be_bytes 4 size) rest) by (done || by rewrite be_bytes_length).
    rewrite be_val_bytes_small by (unfold MAX_FRAME in Hs; lia).
    destruct (Z.leb_spec size MAX_FRAME); [lia|done].
  - intros Hv Hl. cbn zeta. set (bytes := wire_to_vec (v, value)) in *.
    unfold read_frame, read_u32, ensureM, lift, mbind, SM_bind, mret, SM_ret.
    rewrite (read_exact_app 4 (be_bytes 4 (zlen bytes)) (bytes ++ rest))
      by (rewrite ?be_bytes_length; cbn [rx]; rewrite <-?(assoc_L (++)); done).
    rewrite be_val_bytes_small by (unfold MAX_FRAME in Hl; lia).
    rewrite (proj2 (Z.leb_le _ _) Hl). cbn [ensure].
    rewrite (read_exact_app _ bytes rest) by done. cbn -[bytes pretty].
    unfold bytes. rewrite wire_from_to. cbn -[pretty].
    destruct (Z.eqb_spec v VERSION); [done|]. done.
  - apply write_frame_Ok.
Qed.

(** ** The handshake *)

(** Challenges and answers are small. *)
Definition handshake_fits (config : Config) (server client : Uuid) : Prop :=
  frame_fits (mkChallenge server)
  ∧ frame_fits (mkAuthentication (c_cluster_name config) client
      (signature (c_cluster_secret config) (as_bytes (transcript "client" server client (c_cluster_name config)))))
  ∧ frame_fits (mkAuthenticated
      (signature (c_cluster_secret config) (as_bytes (transcript "server" server client (c_cluster_name config))))).


(** What the server has checked when it accepts. *)
Lemma server_auth_Ok `{!JsonWireLaws} cs server s s' :
  server_auth cs server s = (s', Ok ()) →
  ∃ auth, (read_frame (T := Authentication) (s <| tx ::= (.++ frame (mkChallenge server)) |>)).2 = Ok auth
    ∧ au_cluster_name auth = c_cluster_name cs
    ∧ verify (c_cluster_secret cs)
        (as_bytes (transcript "client" server (au_nonce auth) (c_cluster_name cs))) (au_mac auth) = Ok ().
Proof.
  unfold server_auth, mbind, SM_bind.
  destruct (write_frame (mkChallenge server) s) as [s1 [u1|e|]] eqn:E1; [|done..].
  assert (frame_fits (mkChallenge server)) as Hf.
  { apply (write_frame_Ok _ s). rewrite E1. by destruct u1. }
  rewrite write_frame_spec in E1 by done. injection E1 as <- <-.
  destruct (read_frame _) as [s2 [auth|e|]] eqn:E2; [|done..].
  unfold ensureM, lift. destruct (bool_decide _) eqn:E3; [|done]. apply bool_decide_eq_true in E3.
  cbn [ensure]. destruct (verify _ _ _) as [[]|e|] eqn:E4; [|done..]. intros _. by exists auth.
Qed.

End Frames.

(** ** Witnesses

    A JSON library for countable types: a value is the code of what it
    represents, written bit by bit. *)
Module ToyJson.
Fixpoint to_bits (p : positive) : list byte :=
  match p with xH => [] | xO p => x00 :: to_bits p | xI p => x01 :: to_bits p end.
Fixpoint of_bits (l : list byte) : positive :=
  match l with [] => xH | x00 :: l => xO (of_bits l) | _ :: l => xI (of_bits l) end.
Lemma of_to_bits p : of_bits (to_bits p) = p.
Proof. induction p; cbn; congruence. Qed.

#[export] Instance json : JsonValue := {| Value := positive; Null := 1%positive |}.
#[export] Instance serde `{Countable T} : Serde T := {|
  to_value := encode : T → Value;
  from_value v := ok_or (decode (v : positive)) "invalid value";
|}.
#[export] Instance serde_laws `{Countable T} : SerdeLaws T.
Proof. split. intros x. cbn. by rewrite decode_encode. Qed.
#[export] Instance wire : JsonWire := {|
  wire_to_vec w := to_bits (encode (w : Z * positive));
  wire_from_slice b := ok_or (decode (of_bits b)) "invalid frame";
|}.
#[export] Instance wire_laws : JsonWireLaws.
Proof. split. intros w. cbn. by rewrite of_to_bits, decode_encode. Qed.

#[export] Instance Challenge_eq_dec : EqDecision Challenge.
Proof. solve_decision. Defined.
#[export] Instance Challenge_countable : Countable Challenge.
Proof. refine (inj_countable' ch_nonce mkChallenge _). by intros []. Defined.
#[export] Instance Authentication_eq_dec : EqDecision Authentication.
Proof. solve_decision. Defined.
#[export] Instance Authentication_countable : Countable Authentication.
Proof.
  refine (inj_countable' (λ a, (au_cluster_name a, au_nonce a, au_mac a))
    (λ '(c, n, m), mkAuthentication c n m) _). by intros [].
Defined.
#[export] Instance Authenticated_eq_dec : EqDecision Authenticated.
Proof. solve_decision. Defined.
#[export] Instance Authenticated_countable : Countable Authenticated.
Proof. refine (inj_countable' ad_mac mkAuthenticated _). by intros []. Defined.
End ToyJson.

Import Toy ToyJson.

Module Witness.
Definition config : Config := default_config <| c_cluster_secret := Some "k" |>.
Definition auth : Authentication := mkAuthentication "trainpool" 22
  (signature (Some "k") (as_bytes (transcript "client" 11 22 "trainpool"))).
Definition s : Stream := mkStream (frame auth) [].
Lemma fits : handshake_fits config 11 22.
Proof. split_and!; apply Z.leb_le; vm_compute; reflexivity. Qed.
End Witness.


Lemma read_frame_rejects_witness :
  read_frame (T := Z) (mkStream (be_bytes 4 9000000 ++ [x00]) [])
  = (mkStream [x00] [], Err "control frame exceeds limit").
Proof.
  exact (proj1 (read_frame_rejects (T := Z) 9000000 1 (@Null json) [x00] []) (conj eq_refl eq_refl)).
Defined.


