(* ===== verification/UdpWire.v ===== *)
(** * Datagrams of the data plane: [src/transport/udp.rs], lines 19-235

    The packet header, its digest and its authentication tag, and the bitmap
    of an acknowledgement. *)

From S2P Require Import Prelude.
From S2P Require Import Lists.
From S2P Require Import Bytes.
From S2P Require Import Float64.
From S2P Require Import Externals.
From S2P Require Import Block.

Definition MAGIC : list byte := as_bytes "TPU1".
Definition VERSION : byte := x01.
Definition HEADER_LEN : Z := 166.
Definition MAX_DATAGRAM : Z := 1400.
Definition ACK_BITS : nat := 256.

Inductive Kind := Start | StartAck | Data | Ack | Nack | Fin | Complete | Abort_ | ReadRequest | Error.
#[export] Instance Kind_eq_dec : EqDecision Kind.
Proof. solve_decision. Defined.

(** [kind as u8] and [Kind::try_from]. *)
Definition kind_u8 (k : Kind) : Z :=
  match k with
  | Start => 1 | StartAck => 2 | Data => 3 | Ack => 4 | Nack => 5
  | Fin => 6 | Complete => 7 | Abort_ => 8 | ReadRequest => 9 | Error => 10
  end.
Definition kind_try_from (value : Z) : Result Kind :=
  match value with
  | 1 => Ok Start | 2 => Ok StartAck | 3 => Ok Data | 4 => Ok Ack | 5 => Ok Nack
  | 6 => Ok Fin | 7 => Ok Complete | 8 => Ok Abort_ | 9 => Ok ReadRequest | 10 => Ok Error
  | _ => bail ("unknown UDP packet kind " +:+ pretty value)
  end.

Record Packet := mkPacket {
  kind : Kind;
  flags : Z;
  transfer_id : Uuid;
  object_id : Uuid;
  block_id : Uuid;
  lease_token : Uuid;
  generation : u64;
  sequence_id : Z;
  offset : u64;
  total_size : u64;
  payload : list byte;
}.
#[export] Instance eta_Packet : Eta Packet := λ r,
  mkPacket (kind r) (flags r) (transfer_id r) (object_id r) (block_id r) (lease_token r)
    (generation r) (sequence_id r) (offset r) (total_size r) (payload r).
#[export] Instance Packet_eq_dec : EqDecision Packet.
Proof. solve_decision. Defined.

(** The ranges of the fields' Rust types. *)
Record packet_ok (p : Packet) : Prop := {
  po_flags : 0 <= flags p < 2 ^ 16;
  po_transfer : is_uuid (transfer_id p);
  po_object : is_uuid (object_id p);
  po_block : is_uuid (block_id p);
  po_lease : is_uuid (lease_token p);
  po_generation : is_u64 (generation p);
  po_sequence : 0 <= sequence_id p < 2 ^ 32;
  po_offset : is_u64 (offset p);
  po_total : is_u64 (total_size p);
}.

(** [Packet::for_handle]. *)
Definition for_handle (k : Kind) (h : MemoryBlockHandle) (transfer : Uuid) : Packet :=
  mkPacket k 0 transfer (h_job_id h) (h_id h) (h_lease_token h) (h_generation h) 0 0 (h_size h) [].

Section Wire.
Context `{BL : !Blake3, HM : !Hmac}.

(** [authentication_tag]. *)
Definition authentication_tag (secret : option string) (header payload : list byte) : list byte :=
  match secret with
  | None => replicate 32 x00
  | Some key => hmac_sha256 (as_bytes key) (header ++ payload)
  end.

(** The bytes [encode] authenticates: everything before the tag. *)
Definition header (p : Packet) : list byte :=
  MAGIC ++ [VERSION] ++ be_bytes 1 (kind_u8 (kind p)) ++ be_bytes 2 (flags p)
  ++ be_bytes 16 (transfer_id p) ++ be_bytes 16 (object_id p) ++ be_bytes 16 (block_id p)
  ++ be_bytes 16 (lease_token p) ++ be_bytes 8 (generation p) ++ be_bytes 4 (sequence_id p)
  ++ be_bytes 8 (offset p) ++ be_bytes 8 (total_size p) ++ be_bytes 2 (zlen (payload p))
  ++ blake3_hash (payload p).

(** [Packet::encode]. *)
Definition encode (secret : option string) (p : Packet) : Result (list byte) :=
  ensure (zlen (payload p) + HEADER_LEN <=? MAX_DATAGRAM) "UDP datagram exceeds MTU-safe envelope";;
  let bytes := header p in
  let tag := authentication_tag secret bytes (payload p) in
  Ok (bytes ++ tag ++ payload p).

(** [datagram[a..b]]. *)
Definition sub (a b : Z) (d : list byte) : Result (list byte) := unwrap (slice a b d).
Definition be_sub (a b : Z) (d : list byte) : Result Z := be_val <$> sub a b d.

(** [Packet::decode]. *)
Definition decode (d : list byte) (secret : option string) : Result Packet :=
  ensure (within HEADER_LEN MAX_DATAGRAM (zlen d)) "invalid UDP datagram length";;
  magic ← sub 0 4 d;
  ensure (bool_decide (magic = MAGIC)) "invalid UDP magic";;
  version ← unwrap (d !! 4%nat);
  ensure (bool_decide (version = VERSION)) "unsupported UDP protocol version";;
  k ← unwrap (d !! 5%nat);
  kind ← kind_try_from (byte_val k);
  flags ← be_sub 6 8 d;
  transfer_id ← be_sub 8 24 d;
  object_id ← be_sub 24 40 d;
  block_id ← be_sub 40 56 d;
  lease_token ← be_sub 56 72 d;
  generation ← be_sub 72 80 d;
  sequence_id ← be_sub 80 84 d;
  offset ← be_sub 84 92 d;
  total_size ← be_sub 92 100 d;
  payload_len ← be_sub 100 102 d;
  ensure (zlen d =? HEADER_LEN + payload_len) "UDP payload length mismatch";;
  payload ← sub HEADER_LEN (zlen d) d;
  digest ← sub 102 134 d;
  ensure (bool_decide (digest = blake3_hash payload)) "TRAINPOOL_CHECKSUM_MISMATCH: UDP datagram";;
  head ← sub 0 134 d;
  let expected := authentication_tag secret head payload in
  tag ← sub 134 166 d;
  ensure (bool_decide (tag = expected)) "TRAINPOOL_AUTH_FAILED: UDP datagram";;
  Ok {| kind := kind; flags := flags; transfer_id := transfer_id; object_id := object_id;
        block_id := block_id; lease_token := lease_token; generation := generation;
        sequence_id := sequence_id; offset := offset; total_size := total_size;
        payload := payload |}.

(** ** Bitmaps *)

(** One step of the loop of [bitmap_payload]. *)
Definition set_bit (index : nat) (payload : list byte) : list byte :=
  alter (λ b, byte_of (Z.lor (byte_val b) (Z.shiftl 1 (Z.of_nat (index mod 8)))))
    (4 + index / 8)%nat payload.
Fixpoint set_bits (index : nat) (bits : list bool) (payload : list byte) : list byte :=
  match bits with
  | [] => payload
  | v :: bits => set_bits (S index) bits (if v then set_bit index payload else payload)
  end.

(** [bitmap_payload]. *)
Definition bitmap_payload (base : Z) (bits : list bool) (window : Z) : list byte :=
  let payload := be_bytes 4 base ++ replicate 34 x00 in
  let payload := set_bits 0 (take ACK_BITS bits) payload in
  take 36 payload ++ be_bytes 2 (Z.min window 65535).

(** [parse_bitmap]. *)
Definition parse_bitmap (payload : list byte) : Result (Z * list byte * Z) :=
  ensure (zlen payload =? 38) "invalid ACK/NACK bitmap";;
  base ← be_sub 0 4 payload;
  bitmap ← sub 4 36 payload;
  window ← be_sub 36 38 payload;
  Ok (base, bitmap, window).

(** [bitmap_contains]; the second conjunct is only reached in range. *)
Definition bitmap_contains (bitmap : list byte) (index : nat) : bool :=
  (index <? ACK_BITS)%nat &&
  match bitmap !! (index / 8)%nat with
  | Some b => negb (Z.land (byte_val b) (Z.shiftl 1 (Z.of_nat (index mod 8))) =? 0)
  | None => false
  end.

(** ** Statistics *)
Record TransferStats := mkStats {
  datagrams_sent : u64;
  datagrams_received : u64;
  payload_bytes : u64;
  retransmitted_datagrams : u64;
  retransmitted_bytes : u64;
  ack_count : u64;
  nack_count : u64;
  duplicate_datagrams : u64;
  out_of_order_datagrams : u64;
  estimated_rtt_ms : f64;
  retransmission_timeout_ms : f64;
  elapsed_ms : f64;
}.
#[export] Instance eta_TransferStats : Eta TransferStats := λ r,
  mkStats (datagrams_sent r) (datagrams_received r) (payload_bytes r) (retransmitted_datagrams r)
    (retransmitted_bytes r) (ack_count r) (nack_count r) (duplicate_datagrams r)
    (out_of_order_datagrams r) (estimated_rtt_ms r) (retransmission_timeout_ms r) (elapsed_ms r).
Definition default_stats : TransferStats := mkStats 0 0 0 0 0 0 0 0 0 f64_zero f64_zero f64_zero.

(** [TransferStats::loss_estimate] and [throughput_mbps]. *)
Definition loss_estimate (s : TransferStats) : f64 :=
  if datagrams_sent s =? 0 then f64_zero
  else f64_div (f64_of_u64 (retransmitted_datagrams s)) (f64_of_u64 (datagrams_sent s)).
Definition throughput_mbps (s : TransferStats) : f64 :=
  if f64_le (elapsed_ms s) f64_zero then f64_zero
  else f64_div (f64_div (f64_mul (f64_of_u64 (payload_bytes s)) (f64_of_u64 8)) (elapsed_ms s)) (f64_of_u64 1000).

(** ** The wire format *)

(** The datagram field by field. *)
Definition fields (p : Packet) (tag : list byte) : list (list byte) :=
  [MAGIC; [VERSION]; be_bytes 1 (kind_u8 (kind p)); be_bytes 2 (flags p);
   be_bytes 16 (transfer_id p); be_bytes 16 (object_id p); be_bytes 16 (block_id p);
   be_bytes 16 (lease_token p); be_bytes 8 (generation p); be_bytes 4 (sequence_id p);
   be_bytes 8 (offset p); be_bytes 8 (total_size p); be_bytes 2 (zlen (payload p));
   blake3_hash (payload p); tag; payload p].

Lemma kind_round k : kind_try_from (kind_u8 k) = Ok k.
Proof. by destruct k. Qed.

Lemma kind_try_from_Ok v k : kind_try_from v = Ok k → v = kind_u8 k.
Proof.
  unfold kind_try_from. intros H.
  repeat (case_match; try discriminate H; try (injection H as <-; reflexivity)).
Qed.

Lemma kind_u8_range k : 0 <= kind_u8 k < 256.
Proof. destruct k; cbn; lia. Qed.

Context `{BLL : !Blake3Laws, HML : !HmacLaws}.

Lemma authentication_tag_length secret h pl : length (authentication_tag secret h pl) = 32%nat.
Proof. destruct secret; [apply hmac_length|done]. Qed.

Lemma header_length p : zlen (header p) = 134.
Proof.
  unfold header. rewrite !length_app, blake3_hash_length. autorewrite with len. done.
Qed.

Lemma encode_fields p tag : header p ++ tag ++ payload p = mjoin (fields p tag).
Proof.
  unfold header, fields. cbn [mjoin list_join]. rewrite app_nil_r. by rewrite <-!(assoc_L (++)).
Qed.

(** A field of a datagram, as [decode] slices it. *)
Ltac field i :=
  match goal with |- slice ?a ?b (mjoin (fields ?p ?tag)) = _ =>
    apply (slice_nth (fields p tag) i); [reflexivity|cbn -[be_bytes MAGIC blake3_hash]|];
    autorewrite with len; rewrite ?be_bytes_length, ?blake3_hash_length, ?authentication_tag_length;
    try reflexivity
  end.

Lemma sub_Ok a b d x : sub a b d = Ok x ↔ slice a b d = Some x.
Proof. unfold sub. apply unwrap_Ok. Qed.

Lemma be_sub_Ok a b d z :
  0 <= a <= b → be_sub a b d = Ok z ↔ 0 <= z < 256 ^ (b - a) ∧ slice a b d = Some (be_bytes (Z.to_nat (b - a)) z).
Proof.
  intros Hab. unfold be_sub, sub. destruct (slice a b d) as [x|] eqn:E; cbn; [|naive_solver].
  apply slice_length in E. assert (length x = Z.to_nat (b - a)) as El by lia.
  replace (b - a) with (Z.of_nat (Z.to_nat (b - a))) at 1 by lia.
  generalize dependent (Z.to_nat (b - a)). intros n <-. split.
  - intros [= <-]. rewrite be_bytes_val. split; [apply be_val_range|done].
  - intros [Hz [= Ex]]. f_equal. rewrite Ex. by apply be_val_bytes_small.
Qed.

Lemma mjoin_fields_length p tag :
  length tag = 32%nat → zlen (mjoin (fields p tag)) = HEADER_LEN + zlen (payload p).
Proof.
  intros Ht. rewrite <-encode_fields, !length_app, Ht.
  pose proof (header_length p). unfold HEADER_LEN. lia.
Qed.

Lemma encode_Ok secret p d :
  encode secret p = Ok d ↔ zlen (payload p) + HEADER_LEN <= MAX_DATAGRAM
    ∧ d = mjoin (fields p (authentication_tag secret (header p) (payload p))).
Proof.
  unfold encode. rewrite ensure_then, Z.leb_le, <-encode_fields. cbn zeta.
  generalize (header p ++ authentication_tag secret (header p) (payload p) ++ payload p).
  intros l. split; [intros [? [= ->]]|intros [? ->]]; done.
Qed.

(** What [decode] reads where. *)
Record parsed (d : list byte) (p : Packet) (head tag : list byte) : Prop := {
  pd_length : zlen d = HEADER_LEN + zlen (payload p);
  pd_max : zlen d <= MAX_DATAGRAM;
  pd_magic : sub 0 4 d = Ok MAGIC;
  pd_version : d !! 4%nat = Some VERSION;
  pd_kind : d !! 5%nat = Some (byte_of (kind_u8 (kind p)));
  pd_flags : be_sub 6 8 d = Ok (flags p);
  pd_transfer : be_sub 8 24 d = Ok (transfer_id p);
  pd_object : be_sub 24 40 d = Ok (object_id p);
  pd_block : be_sub 40 56 d = Ok (block_id p);
  pd_lease : be_sub 56 72 d = Ok (lease_token p);
  pd_generation : be_sub 72 80 d = Ok (generation p);
  pd_sequence : be_sub 80 84 d = Ok (sequence_id p);
  pd_offset : be_sub 84 92 d = Ok (offset p);
  pd_total : be_sub 92 100 d = Ok (total_size p);
  pd_payload_len : be_sub 100 102 d = Ok (zlen (payload p));
  pd_payload : sub HEADER_LEN (zlen d) d = Ok (payload p);
  pd_digest : sub 102 134 d = Ok (blake3_hash (payload p));
  pd_head : sub 0 134 d = Ok head;
  pd_tag : sub 134 166 d = Ok tag;
}.

Lemma decode_parsed d secret p :
  decode d secret = Ok p ↔ ∃ head, parsed d p head (authentication_tag secret head (payload p)).
Proof.
  split.
  - intros H. unfold decode in H. inv_ok1 H. injection H as <-. cbn [payload].
    repeat match goal with
    | H : bool_decide _ = true |- _ => apply bool_decide_eq_true in H; subst
    end.
    match goal with H : within _ _ _ = true |- _ => apply within_true in H end.
    match goal with H : (_ =? _) = true |- _ => apply Z.eqb_eq in H end.
    match goal with H : kind_try_from _ = Ok _ |- _ => apply kind_try_from_Ok in H as Hk end.
    assert (zlen a17 = a15) as Hl.
    { match goal with H : sub HEADER_LEN _ _ = _ |- _ => apply sub_Ok, slice_length in H end. lia. }
    subst a15. exists a20. rewrite <-(byte_of_val a4), Hk in E4. split; try done; cbn; lia.
  - intros [head []]. unfold decode.
    rewrite ensure_then, within_true. split; [unfold HEADER_LEN in *; lia|].
    rewrite pd_magic0. cbn [mbind Result_bind]. rewrite ensure_then, bool_decide_eq_true. split; [done|].
    rewrite pd_version0. cbn [unwrap mbind Result_bind].
    rewrite ensure_then, bool_decide_eq_true. split; [done|].
    rewrite pd_kind0. cbn [unwrap mbind Result_bind].
    rewrite byte_val_of, Z.mod_small by apply kind_u8_range. rewrite kind_round. cbn [mbind Result_bind].
    rewrite pd_flags0, pd_transfer0, pd_object0, pd_block0, pd_lease0. cbn [mbind Result_bind].
    rewrite pd_generation0, pd_sequence0, pd_offset0, pd_total0, pd_payload_len0. cbn [mbind Result_bind].
    rewrite ensure_then, Z.eqb_eq. split; [done|].
    rewrite pd_payload0, pd_digest0. cbn [mbind Result_bind].
    rewrite ensure_then, bool_decide_eq_true. split; [done|].
    rewrite pd_head0, pd_tag0. cbn [mbind Result_bind].
    rewrite ensure_then, bool_decide_eq_true. split; [done|]. by destruct p.
Qed.

(** The slices of a concatenation of fields, and back. *)
Lemma fields_sub p tag i a b f :
  fields p tag !! i = Some f → zsum ((λ l, zlen l) <$> take i (fields p tag)) = a →
  b = a + zlen f → sub a b (mjoin (fields p tag)) = Ok f.
Proof. intros Hi Ha Hb. unfold sub. by rewrite (slice_nth _ i _ _ _ Hi Ha). Qed.

Lemma fields_be_sub p tag i a b n z :
  fields p tag !! i = Some (be_bytes n z) → zsum ((λ l, zlen l) <$> take i (fields p tag)) = a →
  b = a + Z.of_nat n → 0 <= z < 256 ^ Z.of_nat n → be_sub a b (mjoin (fields p tag)) = Ok z.
Proof.
  intros Hi Ha Hb Hz. unfold be_sub. rewrite (fields_sub p tag i a b _ Hi Ha) by (by rewrite be_bytes_length).
  cbn. by rewrite be_val_bytes_small.
Qed.

Ltac at_field H i := eapply (H _ _ i);
  [reflexivity|cbn -[be_bytes]; rewrite ?be_bytes_length, ?blake3_hash_length; reflexivity|..];
  rewrite ?be_bytes_length, ?blake3_hash_length; try reflexivity; try lia.

Lemma fields_parsed p tag :
  packet_ok p → zlen (payload p) + HEADER_LEN <= MAX_DATAGRAM → length tag = 32%nat →
  parsed (mjoin (fields p tag)) p (header p) tag.
Proof.
  intros [P1 P2 P3 P4 P5 P6 P7 P8 P9] Hl Ht. pose proof (mjoin_fields_length p tag Ht) as Hd.
  unfold is_uuid, is_u64, U64_MAX, HEADER_LEN, MAX_DATAGRAM in *.
  split; unfold HEADER_LEN, MAX_DATAGRAM in *; try done; try lia.
  - by apply (fields_sub _ _ 0).
  - apply slice_one. apply (slice_nth _ 2); [|done..]. cbn. by rewrite Z.div_1_r.
  - at_field fields_be_sub 3%nat.
  - at_field fields_be_sub 4%nat.
  - at_field fields_be_sub 5%nat.
  - at_field fields_be_sub 6%nat.
  - at_field fields_be_sub 7%nat.
  - at_field fields_be_sub 8%nat.
  - at_field fields_be_sub 9%nat.
  - at_field fields_be_sub 10%nat.
  - at_field fields_be_sub 11%nat.
  - at_field fields_be_sub 12%nat.
  - eapply (fields_sub _ _ 15); [reflexivity| |by cbn].
    cbn -[be_bytes]. by rewrite !be_bytes_length, blake3_hash_length, Ht.
  - at_field fields_sub 13%nat.
  - rewrite <-encode_fields. apply sub_Ok. unfold slice. rewrite !length_app.
    pose proof (header_length p). rewrite (proj2 (andb_true_iff _ _)) by (rewrite andb_true_iff, !Z.leb_le; lia).
    f_equal. rewrite drop_0. apply take_app_length'. lia.
  - at_field fields_sub 14%nat.
Qed.

Lemma parsed_fields d p head tag :
  parsed d p head tag → packet_ok p ∧ head = header p ∧ d = mjoin (fields p tag).
Proof.
  intros [].
  apply be_sub_Ok in pd_flags0 as [R1 F1], pd_transfer0 as [R2 F2], pd_object0 as [R3 F3],
    pd_block0 as [R4 F4], pd_lease0 as [R5 F5], pd_generation0 as [R6 F6],
    pd_sequence0 as [R7 F7], pd_offset0 as [R8 F8], pd_total0 as [R9 F9],
    pd_payload_len0 as [R10 F10]; try lia.
  apply sub_Ok in pd_magic0, pd_payload0, pd_digest0, pd_head0, pd_tag0.
  apply slice_one in pd_version0, pd_kind0.
  assert (∀ z, [byte_of z] = be_bytes 1 z) as E1 by (intros z; cbn; by rewrite Z.div_1_r).
  rewrite E1 in pd_kind0.
  assert (slice 0 134 d = Some (header p)) as Eh.
  { unfold header. do 13 (eapply slice_join; [eassumption|]). eassumption. }
  split_and!; [|congruence|].
  { split; unfold is_uuid, is_u64, U64_MAX; cbn in *; lia. }
  pose proof (slice_full d _ eq_refl) as Hf. rewrite <-encode_fields.
  assert (slice 0 (zlen d) d = Some (header p ++ tag ++ payload p)) as Ed by (do 2 (eapply slice_join; [eassumption|]); eassumption).
  congruence.
Qed.

Lemma decode_Ok d secret p :
  decode d secret = Ok p ↔ packet_ok p ∧ encode secret p = Ok d.
Proof.
  rewrite decode_parsed, encode_Ok. split.
  - intros (head & Hp). pose proof (parsed_fields _ _ _ _ Hp) as (Ho & -> & ->).
    split_and!; [done| |done]. destruct Hp. unfold HEADER_LEN in *. lia.
  - intros (Ho & Hl & ->). exists (header p). apply fields_parsed; [done..|].
    apply authentication_tag_length.
Qed.

Lemma decode_total d secret : no_panic (decode d secret).
Proof.
  unfold decode. destruct (within _ _ _) eqn:Hl; [|done]. apply within_true in Hl.
  unfold HEADER_LEN, MAX_DATAGRAM in *. cbn [ensure mbind Result_bind].
  assert (∀ {B} a b (f : list byte → Result B), 0 <= a <= b → b <= zlen d →
    (∀ x, no_panic (f x)) → no_panic (sub a b d ≫= f)) as Hsub.
  { intros B a b f Hab Hb Hf. unfold sub. destruct (slice_is_Some a b d) as [x ->]; [lia..|]. apply Hf. }
  assert (∀ {B} a b (f : Z → Result B), 0 <= a <= b → b <= zlen d →
    (∀ x, no_panic (f x)) → no_panic (be_sub a b d ≫= f)) as Hbe.
  { intros B a b f Hab Hb Hf. unfold be_sub, sub. destruct (slice_is_Some a b d) as [x ->]; [lia..|]. apply Hf. }
  assert (∀ {B} (b : bool) m (f : () → Result B), (∀ x, no_panic (f x)) → no_panic (ensure b m ≫= f)) as Hen.
  { intros B b m f Hf. destruct b; [apply Hf|done]. }
  assert (∀ i, (i < 166)%nat → is_Some (d !! i)) as Hix by (intros i Hi; apply lookup_lt_is_Some; lia).
  apply Hsub; [lia..|]. intros magic. apply Hen. intros _.
  destruct (Hix 4%nat) as [v ->]; [lia|]. cbn [unwrap mbind Result_bind]. apply Hen. intros _.
  destruct (Hix 5%nat) as [k ->]; [lia|]. cbn [unwrap mbind Result_bind].
  assert (no_panic (kind_try_from (byte_val k))) as Hk.
  { unfold kind_try_from. by repeat case_match. }
  destruct (kind_try_from _) as [kd|e|]; [|done..]. cbn [mbind Result_bind].
  do 10 (apply Hbe; [lia..|]; intros ?). apply Hen. intros _.
  apply Hsub; [unfold HEADER_LEN; lia..|]. intros pl.
  apply Hsub; [lia..|]. intros digest. apply Hen. intros _.
  apply Hsub; [lia..|]. intros head. apply Hsub; [lia..|]. intros tag. by apply Hen.
Qed.

(** C10. The wire format is canonical: a node accepts a datagram as a packet
    exactly if it is the datagram [encode] makes of that packet under the
    same secret. So what is sent is what is received, no two datagrams mean
    the same packet, and any change of a datagram is noticed or is the
    encoding of another packet with its own valid tag. Whatever bytes come,
    [decode] answers: no index of the datagram is out of range. *)
Theorem decode_iff_encode d secret p :
  (decode d secret = Ok p ↔ packet_ok p ∧ encode secret p = Ok d) ∧ no_panic (decode d secret).
Proof. split; [apply decode_Ok|apply decode_total]. Qed.

(** With a cluster secret, only a holder of the secret can make a node act
    on a datagram: an accepted datagram carries the HMAC under that secret of
    its header and payload, and a datagram two clusters accept has the same
    HMAC under both secrets. *)
Theorem decode_authentic d key p :
  decode d (Some key) = Ok p →
  d = header p ++ hmac_sha256 (as_bytes key) (header p ++ payload p) ++ payload p
  ∧ ∀ key' p', decode d (Some key') = Ok p' →
      p' = p ∧ hmac_sha256 (as_bytes key') (header p ++ payload p)
               = hmac_sha256 (as_bytes key) (header p ++ payload p).
Proof.
  rewrite decode_Ok, encode_Ok. cbn [authentication_tag]. rewrite <-encode_fields.
  intros (Hp & Hl & Ed). split; [done|]. intros key' p'.
  rewrite decode_Ok, encode_Ok. cbn [authentication_tag]. rewrite <-encode_fields.
  intros (Hp' & Hl' & Ed'). rewrite Ed in Ed'.
  pose proof (header_length p). pose proof (header_length p').
  apply app_inj_1 in Ed' as [Eh Ed']; [|lia].
  apply app_inj_1 in Ed' as [Et Epl]; [|by rewrite !hmac_length].
  split; [|congruence].
  assert (∀ q, packet_ok q → zlen (payload q) + HEADER_LEN <= MAX_DATAGRAM →
    decode (header q ++ replicate 32 x00 ++ payload q) None = Ok q) as Hd.
  { intros q Hq Hlq. apply decode_Ok. split; [done|]. apply encode_Ok.
    split; [done|]. by rewrite encode_fields. }
  pose proof (Hd p Hp Hl) as E1. pose proof (Hd p' Hp' Hl') as E2. congruence.
Qed.

(** ** Bitmaps *)

Lemma set_bit_length i pl : length (set_bit i pl) = length pl.
Proof. apply length_alter. Qed.
Lemma set_bits_length i bits pl : length (set_bits i bits pl) = length pl.
Proof.
  revert i pl. induction bits as [|v bits IH]; intros i pl; cbn; [done|].
  rewrite IH. destruct v; [apply set_bit_length|done].
Qed.

(** The bit an index selects in a payload under construction. *)
Definition bit_at (pl : list byte) (i : nat) : bool :=
  match pl !! (4 + i / 8)%nat with
  | Some b => Z.testbit (byte_val b) (Z.of_nat (i mod 8))
  | None => false
  end.

Lemma set_bit_spec pl i j :
  (4 + i / 8 < length pl)%nat → bit_at (set_bit i pl) j = (i =? j)%nat || bit_at pl j.
Proof.
  intros Hi. unfold bit_at, set_bit.
  pose proof (Nat.mod_upper_bound i 8 ltac:(lia)). pose proof (Nat.mod_upper_bound j 8 ltac:(lia)).
  destruct (decide (i / 8 = j / 8)%nat) as [E|E].
  - rewrite E, list_lookup_alter_eq. rewrite E in Hi.
    destruct (lookup_lt_is_Some_2 _ _ Hi) as [b ->]. cbn [fmap option_fmap option_map].
    rewrite byte_val_of. change 256 with (2 ^ 8).
    rewrite Z.mod_pow2_bits_low by lia. rewrite Z.lor_spec, orb_comm. f_equal.
    rewrite Z.shiftl_1_l, Z.pow2_bits_eqb by lia.
    pose proof (Nat.div_mod i 8 ltac:(lia)). pose proof (Nat.div_mod j 8 ltac:(lia)).
    destruct (Nat.eqb_spec i j) as [->|Hne]; [apply Z.eqb_refl|]. apply Z.eqb_neq. lia.
  - rewrite list_lookup_alter_ne by lia. destruct (Nat.eqb_spec i j); [subst; lia|done].
Qed.

Lemma set_bits_spec pl i bits j :
  (∀ k, (k < i + length bits)%nat → (4 + k / 8 < length pl)%nat) →
  bit_at (set_bits i bits pl) j = ((i <=? j)%nat && default false (bits !! (j - i)%nat)) || bit_at pl j.
Proof.
  revert i pl. induction bits as [|v bits IH]; intros i pl Hk; cbn [set_bits].
  - by rewrite andb_false_r.
  - cbn [length] in *. rewrite IH by (intros k Hlt; destruct v; rewrite ?set_bit_length; apply Hk; lia).
    assert (bit_at (if v then set_bit i pl else pl) j = (v && (i =? j)%nat) || bit_at pl j) as ->.
    { destruct v; [|done]. rewrite set_bit_spec; [done|]. apply Hk. lia. }
    rewrite (orb_assoc _ (_ && _)). f_equal.
    destruct (Nat.eqb_spec i j) as [->|Hne].
    + rewrite Nat.sub_diag, (proj2 (Nat.leb_le j j)) by lia. cbn [lookup list_lookup default].
      rewrite andb_true_r. destruct (Nat.leb_spec (S j) j); [lia|]. done.
    + rewrite andb_false_r, orb_false_r.
      destruct (Nat.leb_spec (S i) j), (Nat.leb_spec i j); try lia; try done.
      by replace (j - i)%nat with (S (j - S i)) by lia.
Qed.

Lemma land_pow2 x k : 0 <= k → negb (Z.land x (2 ^ k) =? 0) = Z.testbit x k.
Proof.
  intros Hk. assert (Z.land x (2 ^ k) = if Z.testbit x k then 2 ^ k else 0) as ->.
  { apply Z.bits_inj'. intros n Hn. rewrite Z.land_spec, Z.pow2_bits_eqb by done.
    destruct (Z.eqb_spec k n) as [<-|Hne].
    - rewrite andb_true_r. destruct (Z.testbit x k) eqn:E; [|by rewrite Z.bits_0].
      by rewrite Z.pow2_bits_eqb, Z.eqb_refl by done.
    - rewrite andb_false_r. destruct (Z.testbit x k); [|by rewrite Z.bits_0].
      rewrite Z.pow2_bits_eqb by done. symmetry. by apply Z.eqb_neq. }
  pose proof (Z.pow_pos_nonneg 2 k ltac:(lia) Hk).
  destruct (Z.testbit x k); [|done]. apply negb_true_iff, Z.eqb_neq. lia.
Qed.

(** An acknowledgement says what the receiver has: the base, the window
    and every bit of the first 256 come back from the 38 bytes, and bits
    that were not given read as not received. *)
Theorem bitmap_roundtrip base bits window :
  0 <= base < 2 ^ 32 → 0 <= window →
  ∃ bitmap, parse_bitmap (bitmap_payload base bits window) = Ok (base, bitmap, Z.min window 65535)
  ∧ length bitmap = 32%nat
  ∧ ∀ i, bitmap_contains bitmap i = (i <? 256)%nat && default false (bits !! i).
Proof.
  intros Hb Hw. unfold parse_bitmap, bitmap_payload. cbn zeta.
  set (pl := set_bits 0 (take ACK_BITS bits) (be_bytes 4 base ++ replicate 34 x00)).
  assert (length pl = 38%nat) as Hl.
  { unfold pl. rewrite set_bits_length, length_app, be_bytes_length, length_replicate. done. }
  assert (take 4 pl = be_bytes 4 base) as Hbase.
  { assert (∀ bits i l, take 4 (set_bits i bits l) = take 4 l) as Ht.
    { clear. intros bits. induction bits as [|v bits IH]; intros i l; cbn [set_bits]; [done|]. rewrite IH.
      destruct v; [|done]. apply list_eq. intros k. destruct (decide (k < 4)%nat).
      - rewrite !lookup_take_lt by done. apply list_lookup_alter_ne. lia.
      - by rewrite !lookup_take_ge by lia. }
    unfold pl. rewrite Ht. apply take_app_length'. by rewrite be_bytes_length. }
  set (fs := [be_bytes 4 base; drop 4 (take 36 pl); be_bytes 2 (Z.min window 65535)]).
  assert (take 36 pl ++ be_bytes 2 (Z.min window 65535) = mjoin fs) as E.
  { unfold fs. cbn [mjoin list_join]. rewrite app_nil_r, (assoc_L (++)). f_equal.
    rewrite <-Hbase. replace (take 4 pl) with (take 4 (take 36 pl)) by (by rewrite take_take).
    by rewrite take_drop. }
  assert (length (drop 4 (take 36 pl)) = 32%nat) as Hl2 by (rewrite length_drop, length_take; lia).
  exists (drop 4 (take 36 pl)). split_and!; [|done|].
  - rewrite E, ensure_then. split.
    { rewrite <-E, length_app, length_take, be_bytes_length, Hl. done. }
    unfold be_sub, sub. clear E. revert fs Hl2. generalize (drop 4 (take 36 pl)). intros mid fs Hl2.
    rewrite (slice_nth fs 0 _ 0 4 eq_refl), (slice_nth fs 1 _ 4 36 eq_refl), (slice_nth fs 2 _ 36 38 eq_refl);
      try (unfold fs; cbn -[be_bytes]; rewrite ?be_bytes_length, ?Hl2; reflexivity).
    cbn -[be_bytes]. rewrite !be_val_bytes_small by lia. done.
  - intros i. unfold bitmap_contains, ACK_BITS. destruct (Nat.ltb_spec i 256); [|done]. cbn [andb].
    assert (i / 8 < 32)%nat as Hi by (apply Nat.Div0.div_lt_upper_bound; lia).
    assert (drop 4 (take 36 pl) !! (i / 8)%nat = pl !! (4 + i / 8)%nat) as ->
      by (rewrite lookup_drop; apply lookup_take_lt; lia).
    transitivity (bit_at pl i).
    + unfold bit_at. destruct (pl !! _) as [b|]; [|done].
      rewrite Z.shiftl_1_l. apply land_pow2. lia.
    + unfold pl. rewrite set_bits_spec.
      * rewrite Nat.sub_0_r. replace (bit_at _ i) with false.
        { rewrite orb_false_r. cbn [Nat.leb andb]. by rewrite lookup_take_lt. }
        unfold bit_at. rewrite lookup_app_r by (rewrite be_bytes_length; lia).
        rewrite be_bytes_length, lookup_replicate_2 by lia. symmetry. apply Z.testbit_0_l.
      * rewrite length_take, length_app, be_bytes_length, length_replicate. unfold ACK_BITS.
        intros k Hk. assert (k / 8 < 32)%nat by (apply Nat.Div0.div_lt_upper_bound; lia). lia.
Qed.
End Wire.

(** ** Witnesses *)
Import Toy.
Module Witness.
Definition packet : Packet := mkPacket Data 0 1 2 3 4 5 6 7 1000 [x61; x62].
Lemma packet_is_ok : packet_ok packet.
Proof. by split. Qed.
Definition datagram : list byte := match encode (Some "key") packet with Ok d => d | _ => [] end.
End Witness.

Lemma decode_authentic_witness :
  decode Witness.datagram (Some "key") = Ok Witness.packet
  ∧ Witness.datagram = header Witness.packet
      ++ hmac_sha256 (as_bytes "key") (header Witness.packet ++ payload Witness.packet)
      ++ payload Witness.packet.
Proof.
  assert (decode Witness.datagram (Some "key") = Ok Witness.packet) as E by (vm_compute; reflexivity).
  split; [exact E|]. apply (decode_authentic Witness.datagram "key" Witness.packet E).
Defined.

Lemma decode_iff_encode_witness :
  decode Witness.datagram (Some "key") = Ok Witness.packet ∧ decode Witness.datagram (Some "yek") = Err "TRAINPOOL_AUTH_FAILED: UDP datagram".
Proof.
  split; [|vm_compute; reflexivity].
  apply (proj1 (decode_iff_encode Witness.datagram (Some "key") Witness.packet)).
  split; [exact Witness.packet_is_ok|vm_compute; reflexivity].
Defined.

Lemma bitmap_roundtrip_witness :
  ∃ bitmap, parse_bitmap (bitmap_payload 7 [true; false; true] 70000) = Ok (7, bitmap, Z.min 70000 65535)
  ∧ length bitmap = 32%nat
  ∧ ∀ i, bitmap_contains bitmap i = (i <? 256)%nat && default false ([true; false; true] !! i).
Proof. apply (bitmap_roundtrip 7 [true; false; true] 70000); [split; [discriminate|reflexivity]|discriminate]. Defined.
