(* ===== verification/UdpIo.v ===== *)
(** * Datagram sockets: [src/transport/udp_io.rs]

    What a task sees of its socket and its clock: the batches its successive
    receives return (an operating system that coalesces datagrams returns
    several at once), the datagrams it sends, the readings of [Instant::now].
    [send_segmented] and [receive_batch_now] put datagrams together and take
    them apart again. *)

From S2P Require Import Prelude.
From S2P Require Import Lists.
From S2P Require Import Bytes.
From S2P Require Import UdpWire.

Definition MAX_GSO_SEGMENTS : Z := 64.
Definition MAX_GSO_BYTES : Z := 65535.

(** [max_gso_segments]. *)
Definition max_gso_segments (segment_size : Z) : Z :=
  let by_bytes := MAX_GSO_BYTES / segment_size in
  if by_bytes <? MAX_GSO_SEGMENTS then by_bytes else MAX_GSO_SEGMENTS.

(** [ReceivedBatch]. *)
Record ReceivedBatch := mkBatch { ba_datagrams : list (list byte); ba_source : SocketAddr }.

(** [receive_batch_now] on Linux, from what [recvmsg] reports: whether the
    message was truncated, its bytes, and the segment size of the [UDP_GRO]
    control message, if there is one. *)
Definition receive_batch_now (truncated : bool) (buffer : list byte) (gro : option Z)
    : Result (list (list byte)) :=
  ensure (negb truncated) "truncated UDP GRO buffer";;
  let segment_size := default (zlen buffer) gro in
  ensure (negb ((segment_size =? 0) || (MAX_DATAGRAM <? segment_size))) "invalid UDP GRO segment size";;
  Ok (chunks (Z.to_nat segment_size) buffer).

(** ** Sockets *)

(** [so_inbox]: the results of the successive calls of [receive_batch] under
    a deadline, [None] for one that timed out or failed. When they are used
    up, every call times out. [so_waits] counts the receives and the sleeps,
    [so_ticks] the readings of the clock. *)
Record Socket := mkSocket {
  so_inbox : list (option ReceivedBatch);
  so_sent : list (SocketAddr * list byte);
  so_slept : list Z;
  so_waits : nat;
  so_ticks : nat;
}.
#[export] Instance eta_Socket : Eta Socket := λ r,
  mkSocket (so_inbox r) (so_sent r) (so_slept r) (so_waits r) (so_ticks r).

(** A clock, in nanoseconds: what it says after so many waits and readings. *)
Definition Clock : Type := nat → nat → Z.
(** What a task that has just created its socket sees. *)
Definition new_socket (inbox : list (option ReceivedBatch)) : Socket := mkSocket inbox [] [] 0 0.

Section Socket.
(** The clock; the error of the
    [n]-th datagram sent, if there is one; whether the kernel takes the
    segmented message that follows [n] datagrams. *)
Context (clock : Clock) (send_error : nat → option string) (gso : nat → bool).

Definition now : SM Socket Z := act (λ s, (s <| so_ticks ::= S |>, Ok (clock (so_waits s) (so_ticks s)))).
Definition elapsed_since (start : Z) : SM Socket Z := t ← now; mret (saturating_sub t start).
Definition sleep (duration : Z) : SM Socket unit := modify (λ s, s <| so_slept ::= (.++ [duration]) |> <| so_waits ::= S |>).
(** [timeout(_, receive_batch(socket))]. *)
Definition receive : SM Socket (option ReceivedBatch) := act (λ s,
  match so_inbox s with
  | [] => (s <| so_waits ::= S |>, Ok None)
  | b :: inbox => (s <| so_inbox := inbox |> <| so_waits ::= S |>, Ok b)
  end).
(** [socket.send_to(datagram, destination)]. *)
Definition send_to (destination : SocketAddr) (datagram : list byte) : SM Socket unit := act (λ s,
  match send_error (length (so_sent s)) with
  | Some e => (s, Err e)
  | None => (s <| so_sent ::= (.++ [(destination, datagram)]) |>, Ok ())
  end).
Fixpoint send_each (destination : SocketAddr) (ds : list (list byte)) : SM Socket unit :=
  match ds with
  | [] => mret ()
  | d :: ds => send_to destination d;; send_each destination ds
  end.

(** [send_segmented]: one message the kernel cuts, or one per datagram. *)
Definition send_segmented (destination : SocketAddr) (encoded : list byte) (segment_size segments : Z)
    : SM Socket unit :=
  sent ← gets (λ s, length (so_sent s));
  if (1 <? segments) && (zlen encoded <=? MAX_GSO_BYTES) && gso sent
  then modify (λ s, s <| so_sent ::= (.++ ((destination,.) <$> chunks (Z.to_nat segment_size) encoded)) |>)
  else send_each destination (chunks (Z.to_nat segment_size) encoded).
End Socket.

(** ** Boundaries *)

(** Datagrams that may share a buffer: all of size [n] but the last, which
    may be shorter. *)
Fixpoint segmented (n : nat) (ds : list (list byte)) : Prop :=
  match ds with
  | [] => True
  | [d] => (0 < length d ≤ n)%nat
  | d :: ds => length d = n ∧ segmented n ds
  end.

Lemma segmented_cons n d ds :
  segmented n (d :: ds) → (0 < length d ≤ n)%nat ∧ segmented n ds ∧ (ds ≠ [] → length d = n).
Proof.
  destruct ds as [|d' ds]; [done|]. intros [H1 H2]. split_and!; try done; try lia.
  enough (0 < n)%nat by lia. clear -H2. revert d' H2. induction ds as [|d ds IH]; intros d'; cbn; [lia|].
  intros [<- H]. by apply (IH d).
Qed.

Lemma chunks_segmented n ds : (0 < n)%nat → segmented n ds → chunks n (mjoin ds) = ds.
Proof.
  intros Hn. unfold chunks.
  enough (∀ fuel, (length (mjoin ds) ≤ fuel)%nat → segmented n ds → chunks_fuel fuel n (mjoin ds) = ds) as H by auto.
  induction ds as [|d ds IH]; intros fuel Hf Hs; [by destruct fuel|].
  apply segmented_cons in Hs as (Hd & Hs & Hl). change (mjoin (d :: ds)) with (d ++ mjoin ds) in *.
  rewrite length_app in Hf. destruct fuel as [|fuel]; [lia|].
  destruct (d ++ mjoin ds) as [|x l] eqn:E; [destruct d; cbn in *; [lia|done]|].
  cbn [chunks_fuel]. rewrite <-E. clear x l E.
  destruct ds as [|d' ds].
  - change (mjoin (M := list) (@nil (list byte))) with (@nil byte). rewrite app_nil_r, take_ge, drop_ge by lia.
    by destruct fuel.
  - rewrite <-(Hl ltac:(done)), take_app_length, drop_app_length, (Hl ltac:(done)). f_equal. apply IH; [lia|done].
Qed.

(** C36. Coalescing is transparent: datagrams of one size, the last one possibly
    shorter, that were put into one buffer are cut at the same places by the
    sender, with or without the help of the kernel, and by a receiver that
    learns the size. *)
Theorem segmentation_transparent send_error gso destination n ds s :
  (0 < n ≤ 1400)%nat → ds ≠ [] → segmented n ds → (∀ i, send_error i = None) →
  send_segmented send_error gso destination (mjoin ds) (Z.of_nat n) (zlen ds) s
    = (s <| so_sent ::= (.++ ((destination,.) <$> ds)) |>, Ok ())
  ∧ receive_batch_now false (mjoin ds) (Some (Z.of_nat n)) = Ok ds.
Proof.
  intros Hn Hds Hs He. split.
  - unfold send_segmented, gets, mbind, SM_bind. rewrite Nat2Z.id, chunks_segmented by (done || lia).
    case_match; [done|]. clear -He. revert s. induction ds as [|d ds IH]; intros s; cbn.
    + unfold mret, SM_ret. destruct s; unfold set; cbn. by rewrite app_nil_r.
    + unfold mbind, SM_bind, send_to, act. rewrite He, IH. unfold set. cbn. by rewrite <-(assoc_L (++)).
  - unfold receive_batch_now, MAX_DATAGRAM.
    change (default (zlen (mjoin ds)) (Some (Z.of_nat n))) with (Z.of_nat n).
    destruct (Z.eqb_spec (Z.of_nat n) 0); [lia|]. destruct (Z.ltb_spec 1400 (Z.of_nat n)); [lia|].
    cbn. by rewrite Nat2Z.id, chunks_segmented by (done || lia).
Qed.

Lemma segmentation_transparent_witness :
  let ds := [[x41; x42]; [x43; x44]; [x45]] in
  segmented 2 ds
  ∧ receive_batch_now false (mjoin ds) (Some 2) = Ok ds
  ∧ so_sent (send_segmented (λ _, None) (λ _, false) (V4 7, 1) (mjoin ds) 2 3 (new_socket [])).1
    = [((V4 7, 1), [x41; x42]); ((V4 7, 1), [x43; x44]); ((V4 7, 1), [x45])].
Proof.
  cbn zeta. assert (segmented 2 [[x41; x42]; [x43; x44]; [x45]]) as H by (repeat split; cbn; lia).
  split; [exact H|].
  destruct (segmentation_transparent (λ _, None) (λ _, false) (V4 7, 1) 2 [[x41; x42]; [x43; x44]; [x45]]
    (new_socket []) ltac:(lia) ltac:(discriminate) H (λ _, eq_refl)) as [H1 H2].
  split; [exact H2|]. change (Z.of_nat 2) with 2 in H1. change (zlen [[x41; x42]; [x43; x44]; [x45]]) with 3 in H1.
  rewrite H1. reflexivity.
Defined.
