(* ===== verification/UdpSystem.v ===== *)
(** * The system calls of datagram sockets: [src/transport/udp_io.rs]

    [UdpIo] says what segmentation and coalescing do to datagrams. Here: how
    [sendmsg] and [recvmsg] are called, retried and read on Linux. *)

From S2P Require Import Prelude.
From S2P Require Import Lists.
From S2P Require Import Bytes.
From S2P Require Import UdpWire.
From S2P Require Import UdpIo.

(** ** Receiving *)

(** A control message: its level, its type, its length with the header, and
    the first two bytes of its data as a number. *)
Record ControlMessage := mkControl { cm_level : Z; cm_type : Z; cm_len : Z; cm_value : N }.
(** [IPPROTO_UDP], [UDP_GRO], and [CMSG_LEN] of a [u16] on a 64-bit system. *)
Definition IPPROTO_UDP : Z := 17.
Definition UDP_GRO : Z := 104.
Definition CMSG_LEN_U16 : Z := 18.
(** The walk along the control messages, to the first segment size. *)
Fixpoint gro_size (control : list ControlMessage) : option Z :=
  match control with
  | [] => None
  | m :: control =>
      if (cm_level m =? IPPROTO_UDP) && (cm_type m =? UDP_GRO) && (CMSG_LEN_U16 <=? cm_len m)
      then Some (Z.of_N (cm_value m)) else gro_size control
  end.
Lemma gro_size_nonneg control size : gro_size control = Some size → 0 <= size.
Proof. induction control as [|m control IH]; [done|]. cbn. case_match; [intros [= <-]; lia|done]. Qed.
(** What one non-blocking call gives: nothing yet, an error, or a value. *)
Inductive Attempt (A : Type) := WouldBlock | Failed (error : string) | Completed (a : A).
Arguments WouldBlock {A}.
Arguments Failed {A} error.
Arguments Completed {A} a.
(** A message of [recvmsg]; its source if it is an IP address. *)
Record Message := mkMessage {
  me_truncated : bool;
  me_bytes : list byte;
  me_control : list ControlMessage;
  me_source : option SocketAddr;
}.
(** [receive_batch_now] after the call. *)
Definition received_message (m : Message) : Result ReceivedBatch :=
  datagrams ← receive_batch_now (me_truncated m) (me_bytes m) (gro_size (me_control m));
  source ← ok_or (me_source m) "non-IP UDP source";
  Ok (mkBatch datagrams source).
(** A loop until the socket is ready: the calls it makes, one after the other;
    [None] if it waits still. The same loop receives and sends. *)
Fixpoint until_ready {A B} (now : A → Result B) (calls : list (Attempt A)) : option (Result B) :=
  match calls with
  | [] => None
  | WouldBlock :: calls => until_ready now calls
  | Failed e :: _ => Some (Err e)
  | Completed a :: _ => Some (now a)
  end.
(** [receive_batch]. *)
Definition receive_batch : list (Attempt Message) → option (Result ReceivedBatch) := until_ready received_message.

(** ** Sending *)

(** [send_gso_now]: [sent] is how many bytes [sendmsg] took. *)
Definition send_gso_now (encoded : list byte) (sent : Z) : Result unit :=
  ensure (sent =? zlen encoded) "partial UDP GSO send".
(** [send_gso]. *)
Definition send_gso (encoded : list byte) : list (Attempt Z) → option (Result unit) := until_ready (send_gso_now encoded).
(** [enable_gro]: what [setsockopt] returned. *)
Definition enable_gro (status : Z) : bool := status =? 0.
(** The local address of [bind_for_peer]. *)
Definition bind_for_peer (destination : SocketAddr) : SocketAddr :=
  match destination.1 with V4 _ => (V4 0, 0) | V6 _ => (V6 0, 0) end.

(** ** Properties *)

Lemma until_ready_spec {A B} (now : A → Result B) calls r :
  until_ready now calls = Some r ↔
  ∃ n rest, (calls = replicate n WouldBlock ++ rest)
  ∧ ((∃ e rest', rest = Failed e :: rest' ∧ r = Err e) ∨ ∃ a rest', rest = Completed a :: rest' ∧ r = now a).
Proof.
  split.
  - induction calls as [|[|e|a] calls IH]; cbn; [done|..].
    + intros H. destruct (IH H) as (n & rest & -> & Hr). by exists (S n), rest.
    + intros [= <-]. exists 0%nat, (Failed e :: calls). split; [done|]. left. eauto.
    + intros [= <-]. exists 0%nat, (Completed a :: calls). split; [done|]. right. eauto.
  - intros (n & rest & -> & Hr). induction n as [|n IH]; cbn; [|done].
    destruct Hr as [(e & rest' & -> & ->)|(a & rest' & -> & ->)]; done.
Qed.

Lemma chunks_segmented_inv n (l : list byte) : (0 < n)%nat → segmented n (chunks n l).
Proof.
  intros Hn. unfold chunks. generalize (le_n (length l)). generalize (length l) at 2 3 as fuel. intros fuel. revert l.
  induction fuel as [|fuel IH]; intros l Hl; [done|]. cbn [chunks_fuel]. destruct l as [|x l]; [done|].
  set (y := x :: l) in *. specialize (IH (drop n y)). rewrite length_drop in IH. specialize (IH ltac:(cbn in *; lia)).
  assert (0 < length (take n y) ≤ n)%nat as Ht by (rewrite length_take; subst y; cbn in *; lia).
  destruct (chunks_fuel fuel n (drop n y)) as [|d ds] eqn:E; cbn [segmented]; [done|]. split; [|done].
  rewrite length_take. destruct (decide (n ≤ length y)%nat) as [|Hlt]; [lia|].
  rewrite drop_ge in E by lia. by destruct fuel.
Qed.

(** What is received is what arrived: a batch comes from the first call that
    does not block, whose message was whole; its datagrams, put together, are
    the bytes of the message; each has between 1 and 1400 bytes, and all but
    the last have the size the kernel reported. *)
Theorem receive_batch_exact calls batch :
  receive_batch calls = Some (Ok batch) →
  ∃ n m rest, calls = replicate n WouldBlock ++ Completed m :: rest
  ∧ me_truncated m = false ∧ me_source m = Some (ba_source batch)
  ∧ mjoin (ba_datagrams batch) = me_bytes m
  ∧ Forall (λ d, (0 < length d)%nat ∧ zlen d <= MAX_DATAGRAM) (ba_datagrams batch)
  ∧ segmented (Z.to_nat (default (zlen (me_bytes m)) (gro_size (me_control m)))) (ba_datagrams batch).
Proof.
  intros (n & rest & -> & [(e & rest' & _ & [=])|(m & rest' & -> & H)])%until_ready_spec.
  unfold received_message in H. symmetry in H. apply bind_Ok in H as (ds & Hr & H). apply bind_Ok in H as (source & Hs & [= <-]).
  unfold receive_batch_now in Hr. apply ensure_then in Hr as [Ht Hr]. apply negb_true_iff in Ht. cbv zeta in Hr.
  set (size := default (zlen (me_bytes m)) (gro_size (me_control m))) in *.
  apply ensure_then in Hr as [Hsize [= <-]]. apply negb_true_iff, orb_false_iff in Hsize as [H0 Hmax].
  apply Z.eqb_neq in H0. apply Z.ltb_ge in Hmax. 
  exists n, m, rest'. cbn [ba_source ba_datagrams]. 
  split; [done|]. split; [done|]. split; [unfold ok_or in Hs; destruct (me_source m); [by injection Hs as ->|done]|].
  assert (0 < size).
  { enough (0 <= size) by lia. unfold size. destruct (gro_size _) eqn:E; cbn; [by eapply gro_size_nonneg|lia]. }
  pose proof (chunks_segmented_inv (Z.to_nat size) (me_bytes m) ltac:(lia)) as Hseg.
  split_and!; [apply chunks_concat; lia| |exact Hseg].
  revert Hseg. generalize (chunks (Z.to_nat size) (me_bytes m)). intros ds.
  induction ds as [|d ds IH]; intros Hseg; [done|]. apply segmented_cons in Hseg as (Hd & Hseg & _).
  constructor; [|by apply IH]. split; [lia|]. lia.
Qed.

Module ReceiveExample.
(** Two datagrams in one message of five bytes, after a call that blocked. *)
Definition calls : list (Attempt Message) :=
  [WouldBlock; Completed (mkMessage false [x41; x42; x43; x44; x45]
     [mkControl 0 8 20 7; mkControl IPPROTO_UDP UDP_GRO 20 3] (Some (V4 7, 9)))].
Definition batch : ReceivedBatch := mkBatch [[x41; x42; x43]; [x44; x45]] (V4 7, 9).
End ReceiveExample.
Lemma receive_batch_exact_witness :
  receive_batch ReceiveExample.calls = Some (Ok ReceiveExample.batch)
  ∧ Forall (λ d, (0 < length d)%nat ∧ zlen d <= MAX_DATAGRAM) (ba_datagrams ReceiveExample.batch).
Proof.
  assert (receive_batch ReceiveExample.calls = Some (Ok ReceiveExample.batch)) as H by (vm_compute; reflexivity).
  split; [exact H|]. destruct (receive_batch_exact _ _ H) as (n & m & rest & _ & _ & _ & _ & Hf & _). exact Hf.
Defined.
