(* ===== verification/UdpSender.v ===== *)
(** * The UDP data plane, sending side: [src/transport/udp.rs]

    [send_payload] offers a chunk with [START], sends its packets window by
    window with selective repeat, and closes with [FIN]. The model runs on a
    socket whose receives return what the network made of them: any finite
    sequence of batches, then silence. *)

From Stdlib Require Import Floats.SpecFloat.
From S2P Require Import Prelude.
From S2P Require Import Lists.
From S2P Require Import Bytes.
From S2P Require Import Float64.
From S2P Require Import Externals.
From S2P Require Import Block.
From S2P Require Import Config.
From S2P Require Import UdpWire.
From S2P Require Import UdpIo.

(** ** Retransmission timeout *)

(** [update_rto]: the new timeout, [srtt] and [rttvar]. *)
Definition MIN_RTO_MS : f64 := f64_of_u64 50.
Definition update_rto (sample_ms : f64) (srtt : option f64) (rttvar : f64)
    : Result (Z * option f64 * f64) :=
  let '(srtt, rttvar) :=
    match srtt with
    | Some previous =>
        (Some (f64_add (f64_mul (f64_lit 875 1000) previous) (f64_mul (f64_lit 125 1000) sample_ms)),
         f64_add (f64_mul (f64_lit 75 100) rttvar)
           (f64_mul (f64_lit 25 100) (f64_abs (f64_sub previous sample_ms))))
    | None => (Some sample_ms, f64_div sample_ms (f64_of_u64 2))
    end in
  let milliseconds := f64_clamp (f64_add (default sample_ms srtt) (f64_mul (f64_of_u64 4) rttvar))
                        MIN_RTO_MS (f64_of_u64 2000) in
  rto ← from_secs_f64 (f64_div milliseconds (f64_of_u64 1000));
  Ok (rto, srtt, rttvar).

(** [(rto * 2).min(Duration::from_secs(2))]. *)
Definition RTO_MAX : Z := 2 * NANOS.
Definition backoff (rto : Z) : Z := Z.min (rto * 2) RTO_MAX.
(** [duration.as_secs_f64() * 1000.0]. *)
Definition as_millis_f64 (d : Z) : f64 := f64_mul (as_secs_f64 d) (f64_of_u64 1000).

(** ** Requests and packets *)

(** [SendPayload]. *)
Record SendPayload := mkSend {
  sp_handle : MemoryBlockHandle;
  sp_transfer_id : Uuid;
  sp_offset : u64;
  sp_payload : list byte;
  sp_read_response : bool;
}.

(** [index.try_into()?] from [usize] to [u32]. *)
Definition try_u32 (z : Z) : Result Z :=
  ensure (z <? 2 ^ 32) "out of range integral type conversion attempted";; Ok z.

Section Packets.
Context `{BL : !Blake3}.
Context (payload_bytes_max : Z) (r : SendPayload).

Definition packet_count : Z := div_ceil (zlen (sp_payload r)) payload_bytes_max.
(** A packet of this transfer. *)
Definition own_packet (k : Kind) (sequence offset : Z) (payload : list byte) : Packet :=
  let p := for_handle k (sp_handle r) (sp_transfer_id r) in
  mkPacket k (Z.b2z (sp_read_response r)) (transfer_id p) (object_id p) (block_id p)
    (lease_token p) (generation p) sequence offset (total_size p) payload.
Definition start_packet : Packet :=
  own_packet Start packet_count (sp_offset r)
    (be_bytes 8 (zlen (sp_payload r)) ++ blake3_hash (sp_payload r)).
Definition data_payload (sequence : Z) : list byte :=
  take (Z.to_nat payload_bytes_max) (drop (Z.to_nat (sequence * payload_bytes_max)) (sp_payload r)).
Definition data_packet (sequence : Z) : Packet :=
  own_packet Data sequence (sp_offset r +w sequence * payload_bytes_max) (data_payload sequence).
Definition fin_packet : Packet :=
  own_packet Fin packet_count (sp_offset r) (blake3_hash (sp_payload r)).
Definition abort_packet : Packet := own_packet Abort_ 0 (sp_offset r) [].
End Packets.

(** ** The state of a transfer *)
Record Sender := mkSender {
  sd_stats : TransferStats;
  sd_rto : Z;
  sd_window : Z;
  sd_srtt : option f64;
  sd_rttvar : f64;
  sd_acknowledged : list bool;
  sd_socket : Socket;
}.
#[export] Instance eta_Sender : Eta Sender := λ r,
  mkSender (sd_stats r) (sd_rto r) (sd_window r) (sd_srtt r) (sd_rttvar r) (sd_acknowledged r)
    (sd_socket r).

Definition on_socket {A} (m : SM Socket A) : SM Sender A := act (λ s,
  (s <| sd_socket := (m (sd_socket s)).1 |>, (m (sd_socket s)).2)).
Definition stat (f : TransferStats → TransferStats) : SM Sender unit :=
  modify (λ s, s <| sd_stats ::= f |>).
(** Adding to one counter of the statistics. *)
Abbreviation bump f n := (stat (set f (λ x, x +w n))).

(** [rto = update_rto(sample, &mut srtt, &mut rttvar)]. *)
Definition sample_rtt (sample : f64) : SM Sender unit := act (λ s,
  match update_rto sample (sd_srtt s) (sd_rttvar s) with
  | Ok (rto, srtt, rttvar) =>
      (s <| sd_rto := rto |> <| sd_srtt := srtt |> <| sd_rttvar := rttvar |>, Ok ())
  | Err e => (s, Err e)
  | Panic => (s, Panic)
  end).
Definition shrink_window (receiver_window : Z) : SM Sender unit :=
  modify (λ s, s <| sd_window ::= λ w, Z.min w (Z.max receiver_window 2) |>).

(** The two loops over the bits of a bitmap; [missing] is [NACK]'s reading. *)
Definition mark_range (lo hi ack_base : Z) (test : nat → bool) (acked : list bool) : list bool :=
  foldl (λ acked i,
    let sequence := ack_base + Z.of_nat i in
    if (lo <=? sequence) && (sequence <? hi) && test i
    then <[Z.to_nat sequence := true]> acked else acked) acked (seq 0 ACK_BITS).
Arguments mark_range : simpl never.

(** ** The protocol *)
Section Sender.
Context `{BL : !Blake3, HM : !Hmac}.
Context (clock : Clock) (send_error : nat → option string) (gso : nat → bool).
Context (config : Config) (destination : SocketAddr) (r : SendPayload).
(** What a loop that used up its fuel would return; no run depends on it. *)
Context (out_of_fuel : string).

Abbreviation secret := (c_cluster_secret config).
Abbreviation payload_max := (c_udp_payload_bytes config).
Abbreviation count := (packet_count payload_max r).
Abbreviation send wire := (on_socket (send_to send_error destination wire)).

(** A datagram while waiting for [START_ACK]; [true] breaks the loop. *)
Definition start_reply (retries : Z) (handshake_started : Z) (datagram : list byte) : SM Sender bool :=
  p ← lift (decode datagram secret);
  bump datagrams_received 1;;
  if (transfer_id p =? sp_transfer_id r) && bool_decide (kind p = StartAck) then
    bump ack_count 1;;
    (if zlen (payload p) =? 2 then shrink_window (be_val (payload p)) else mret ());;
    (if retries =? 0 then
       elapsed ← on_socket (elapsed_since clock handshake_started);
       let sample := as_millis_f64 elapsed in
       sample_rtt sample;;
       stat (set estimated_rtt_ms (λ _, sample))
     else mret ());;
    mret true
  else if (transfer_id p =? sp_transfer_id r) && bool_decide (kind p = Error) then
    bailM (from_utf8_lossy (payload p))
  else mret false.

(** [for datagram in batch.datagrams], left by the first that breaks. *)
Fixpoint until_break (f : list byte → SM Sender bool) (ds : list (list byte)) : SM Sender bool :=
  match ds with
  | [] => mret false
  | d :: ds => b ← f d; if (b : bool) then mret true else until_break f ds
  end.

(** The batch of a receive, if it came from the peer. *)
Definition from_peer (b : option ReceivedBatch) : option (list (list byte)) :=
  match b with
  | Some b => if bool_decide (ba_source b = destination) then Some (ba_datagrams b) else None
  | None => None
  end.

(** ['handshake: loop]. *)
Fixpoint handshake (fuel : nat) (start_wire : list byte) (started : Z) (retries : Z) : SM Sender unit :=
  match fuel with
  | O => bailM out_of_fuel
  | S fuel =>
      send start_wire;;
      bump datagrams_sent 1;;
      batch ← on_socket receive;
      match from_peer batch with
      | Some ds =>
          finished ← until_break (start_reply retries started) ds;
          if (finished : bool) then mret () else handshake fuel start_wire started retries
      | None =>
          bump retransmitted_datagrams 1;;
          ensureM (retries + 1 <=? c_udp_max_retries config) "TRAINPOOL_TRANSFER_TIMEOUT: UDP START";;
          modify (λ s, s <| sd_rto ::= backoff |>);;
          handshake fuel start_wire started (retries + 1)
      end
  end.

(** [acknowledged[base..end].iter().any(|value| !*value)]. *)
Definition unacknowledged (base finish : Z) : SM Sender bool :=
  acked ← gets sd_acknowledged;
  window ← lift (unwrap (slice base finish acked));
  mret (existsb negb window).

(** The sleep that keeps the pace after [sent] packets of a round. *)
Definition pace (round_started pacing_interval sent : Z) : SM Sender unit :=
  elapsed ← on_socket (elapsed_since clock round_started);
  match checked_sub (saturating_mul pacing_interval sent * 1000) elapsed with
  | Some delay => on_socket (sleep delay)
  | None => mret ()
  end.

Definition segment_size : Z := HEADER_LEN + c_udp_payload_bytes config.
Definition flush (encoded : list byte) (segments : Z) : SM Sender unit :=
  on_socket (send_segmented send_error gso destination encoded segment_size segments).

(** The packets of a round, from [sequences] on; [encoded] of [segments]
    packets is not sent yet, [sent] are accounted, [paced_at] when last slept. *)
Fixpoint send_packets (round round_started pacing_interval : Z) (sequences : list Z)
    (encoded : list byte) (segments sent paced_at : Z) : SM Sender unit :=
  match sequences with
  | [] =>
      (if 0 <? segments then flush encoded segments else mret ());;
      if negb (paced_at =? sent) then pace round_started pacing_interval sent else mret ()
  | sequence :: sequences =>
      acked ← gets sd_acknowledged;
      is_acknowledged ← lift (unwrap (acked !! Z.to_nat sequence));
      if (is_acknowledged : bool)
      then send_packets round round_started pacing_interval sequences encoded segments sent paced_at
      else
        sequence ← lift (try_u32 sequence);
        let p := data_packet (c_udp_payload_bytes config) r sequence in
        wire ← lift (encode secret p);
        bump datagrams_sent 1;;
        (if 0 <? round then
           bump retransmitted_datagrams 1;; bump retransmitted_bytes (zlen (payload p))
         else bump payload_bytes (zlen (payload p)));;
        if segments + 1 =? max_gso_segments segment_size then
          flush (encoded ++ wire) (segments + 1);;
          pace round_started pacing_interval (sent + 1);;
          send_packets round round_started pacing_interval sequences [] 0 (sent + 1) (sent + 1)
        else send_packets round round_started pacing_interval sequences (encoded ++ wire)
               (segments + 1) (sent + 1) paced_at
  end.

(** A datagram of the receiving half of a round; [sampled] is whether the
    round trip was measured. The value is whether the loop breaks, and
    [sampled] after it. *)
Definition round_reply (round round_started base finish : Z) (sampled : bool) (datagram : list byte)
    : SM Sender (bool * bool) :=
  p ← lift (decode datagram secret);
  bump datagrams_received 1;;
  if negb (transfer_id p =? sp_transfer_id r) then mret (false, sampled)
  else if bool_decide (kind p = Error) then bailM (from_utf8_lossy (payload p))
  else if bool_decide (kind p = Ack) then
    '(ack_base, bitmap, receiver_window) ← lift (parse_bitmap (payload p));
    shrink_window receiver_window;;
    bump ack_count 1;;
    (if (round =? 0) && negb sampled then
       elapsed ← on_socket (elapsed_since clock round_started);
       let sample := as_millis_f64 elapsed in
       sample_rtt sample;;
       modify (λ s, s <| sd_stats ::= set estimated_rtt_ms (λ _, default sample (sd_srtt s)) |>)
     else mret ());;
    modify (λ s, s <| sd_acknowledged ::= mark_range 0 count ack_base (bitmap_contains bitmap) |>);;
    mret (false, sampled || (round =? 0))
  else if bool_decide (kind p = Nack) then
    '(ack_base, bitmap, receiver_window) ← lift (parse_bitmap (payload p));
    shrink_window receiver_window;;
    bump nack_count 1;;
    modify (λ s, s <| sd_acknowledged ::=
      mark_range base finish ack_base (negb ∘ bitmap_contains bitmap) |>);;
    mret (true, sampled)
  else mret (false, sampled).

Fixpoint round_batch (round round_started base finish : Z) (sampled : bool) (ds : list (list byte))
    : SM Sender bool :=
  match ds with
  | [] => mret sampled
  | d :: ds =>
      '(stop, sampled) ← round_reply round round_started base finish sampled d;
      if (stop : bool) then mret sampled else round_batch round round_started base finish sampled ds
  end.

(** [while Instant::now() < deadline && ...]. *)
Fixpoint receive_round (fuel : nat) (round round_started deadline base finish : Z) (sampled : bool)
    : SM Sender unit :=
  match fuel with
  | O => bailM out_of_fuel
  | S fuel =>
      t ← on_socket (now clock);
      missing ← (if t <? deadline then unacknowledged base finish else mret false);
      if (missing : bool) then
        on_socket (now clock);;
        batch ← on_socket receive;
        match batch with
        | None => mret ()
        | Some b =>
            if bool_decide (ba_source b = destination) then
              sampled ← round_batch round round_started base finish sampled (ba_datagrams b);
              receive_round fuel round round_started deadline base finish sampled
            else receive_round fuel round round_started deadline base finish sampled
        end
      else mret ()
  end.

(** One pass of the loop over rounds: send, receive, back off. *)
Definition one_round (base finish round : Z) : SM Sender unit :=
  round_started ← on_socket (now clock);
  let pacing_interval := saturating_mul (c_udp_pacing_micros config) (2 ^ Z.min round 4) in
  send_packets round round_started pacing_interval (seqZ base (finish - base)) [] 0 0 0;;
  t ← on_socket (now clock);
  rto ← gets sd_rto;
  inbox ← gets (λ s, length (so_inbox (sd_socket s)));
  receive_round (S inbox) round round_started (t + rto) base finish false;;
  ensureM (round + 1 <=? c_udp_max_retries config)
    "TRAINPOOL_TRANSFER_TIMEOUT: bounded UDP retry exhausted";;
  if 1 <? round + 1
  then modify (λ s, s <| sd_rto ::= backoff |> <| sd_window ::= λ w, Z.max (w / 2) 2 |>)
  else mret ().
Fixpoint rounds (fuel : nat) (base finish round : Z) : SM Sender unit :=
  match fuel with
  | O => bailM out_of_fuel
  | S fuel =>
      missing ← unacknowledged base finish;
      if (missing : bool)
      then one_round base finish round;; rounds fuel base finish (round + 1)
      else mret ()
  end.
Fixpoint windows (fuel : nat) (base : Z) : SM Sender unit :=
  match fuel with
  | O => bailM out_of_fuel
  | S fuel =>
      if base <? count then
        window ← gets sd_window;
        let finish := Z.min (base + window) count in
        rounds (S (S (Z.to_nat (c_udp_max_retries config)))) base finish 0;;
        windows fuel finish
      else mret ()
  end.

(** A datagram while waiting for [COMPLETE]. *)
Definition fin_reply (datagram : list byte) : SM Sender bool :=
  p ← lift (decode datagram secret);
  bump datagrams_received 1;;
  let mine := transfer_id p =? sp_transfer_id r in
  if mine && bool_decide (kind p = Complete) then bump ack_count 1;; mret true
  else if mine && bool_decide (kind p = Error) then bailM (from_utf8_lossy (payload p))
  else if mine && bool_decide (kind p = Nack) then bump nack_count 1;; mret false
  else mret false.
(** [for attempt in 0..=config.udp_max_retries]. *)
Fixpoint finish_attempts (n : nat) (first : bool) (fin_wire : list byte) (started : Z) : SM Sender TransferStats :=
  match n with
  | O => bailM "TRAINPOOL_TRANSFER_TIMEOUT: UDP FIN acknowledgement"
  | S n =>
      send fin_wire;;
      bump datagrams_sent 1;;
      (if first then mret () else bump retransmitted_datagrams 1);;
      batch ← on_socket receive;
      completed ← match from_peer batch with
                  | Some ds => until_break fin_reply ds
                  | None => mret false
                  end;
      if (completed : bool) then
        elapsed ← on_socket (elapsed_since clock started);
        modify (λ s, s <| sd_stats ::= λ st,
          st <| retransmission_timeout_ms := as_millis_f64 (sd_rto s) |>
             <| estimated_rtt_ms := default (estimated_rtt_ms st) (sd_srtt s) |>
             <| elapsed_ms := as_millis_f64 elapsed |> |>);;
        gets sd_stats
      else
        modify (λ s, s <| sd_rto ::= backoff |>);;
        finish_attempts n false fin_wire started
  end.

(** [send_payload_inner]. *)
Definition send_payload_inner : SM Sender TransferStats :=
  let payload := sp_payload r in
  ensureM (negb (zlen payload =? 0)) "zero-length UDP transfer";;
  ensureM (zlen payload <=? c_chunk_bytes config) "UDP transfer exceeds configured chunk size";;
  ensureM match checked_add (sp_offset r) (zlen payload) with
          | Some e => e <=? h_size (sp_handle r) | None => false end
    "UDP transfer range exceeds block";;
  started ← on_socket (now clock);
  lift (try_u32 count);;
  start_wire ← lift (encode secret (start_packet (c_udp_payload_bytes config) r));
  handshake_started ← on_socket (now clock);
  inbox ← gets (λ s, length (so_inbox (sd_socket s)));
  handshake (inbox + Z.to_nat (c_udp_max_retries config) + 2) start_wire handshake_started 0;;
  modify (λ s, s <| sd_acknowledged := replicate (Z.to_nat count) false |>);;
  windows (S (Z.to_nat count)) 0;;
  fin_wire ← lift (encode secret (fin_packet (c_udp_payload_bytes config) r));
  finish_attempts (S (Z.to_nat (c_udp_max_retries config))) true fin_wire started.

Definition fresh_sender (s : Socket) : Sender :=
  mkSender default_stats (c_udp_initial_rto_ms config * 1000000)
    (Z.min (c_udp_window_packets config) (Z.of_nat ACK_BITS)) None f64_zero [] s.

(** [send_payload]. *)
Definition send_payload : SM Socket TransferStats := act (λ s,
  let (s', result) := send_payload_inner (fresh_sender s) in
  match result with
  | Err e =>
      let s' := sd_socket s' in
      match encode secret (abort_packet r) with
      | Ok wire => ((send_to send_error destination wire s').1, Err e)
      | Err _ => (s', Err e)
      | Panic => (s', Panic)
      end
  | result => (sd_socket s', result)
  end).
(** ** What a transfer does

    Every statement below is about any network, any clock and any errors of
    the operating system. *)

(** The packets a transfer may send: one [START], [DATA] by sequence number,
    one [FIN], one [ABORT]. *)
Definition own_packets : list Packet :=
  [start_packet payload_max r; fin_packet payload_max r; abort_packet r]
  ++ (data_packet payload_max r <$> seqZ 0 count).
Definition own_datagram (x : SocketAddr * list byte) : Prop :=
  x.1 = destination ∧ ∃ p, p ∈ own_packets ∧ encode secret p = Ok x.2.

(** A packet of the transfer that the peer sent. *)
Definition heard (s0 : Socket) (d : list byte) : Prop :=
  ∃ b, Some b ∈ so_inbox s0 ∧ ba_source b = destination ∧ d ∈ ba_datagrams b.
Definition heard_packet (s0 : Socket) (p : Packet) : Prop :=
  ∃ d, heard s0 d ∧ decode d secret = Ok p ∧ transfer_id p = sp_transfer_id r.
(** [p] says that [sequence] arrived. *)
Definition confirms (p : Packet) (sequence : Z) : Prop :=
  ∃ base bitmap window (i : nat), parse_bitmap (payload p) = Ok (base, bitmap, window)
  ∧ sequence = base + Z.of_nat i ∧ (i < ACK_BITS)%nat
  ∧ ((kind p = Ack ∧ bitmap_contains bitmap i = true)
     ∨ (kind p = Nack ∧ bitmap_contains bitmap i = false)).

(** The socket of a transfer that started with [s0]. *)
Record socket_inv (s0 s : Socket) : Prop := {
  si_inbox : ∀ x, x ∈ so_inbox s → x ∈ so_inbox s0;
  si_sent : ∀ x, x ∈ so_sent s → x ∈ so_sent s0 ∨ own_datagram x;
}.
(** Every sequence of [K] is marked, and only what the peer confirmed. *)
Definition acked_inv (s0 : Socket) (K : nat → Prop) (acked : list bool) : Prop :=
  (∀ k, K k → acked !! k = Some true)
  ∧ ∀ k, acked !! k = Some true → ∃ p, heard_packet s0 p ∧ confirms p (Z.of_nat k).
Definition inv (s0 : Socket) (K : nat → Prop) (s : Sender) : Prop :=
  socket_inv s0 (sd_socket s) ∧ acked_inv s0 K (sd_acknowledged s) ∧ 2 <= sd_window s.

Lemma inv_on_socket {A} s0 K (m : SM Socket A) Q :
  yields (socket_inv s0) m Q → yields (inv s0 K) (on_socket m) Q.
Proof. intros H s [H1 H2]. split; [split; [apply (H _ H1)|done]|]. apply (H _ H1). Qed.
Lemma inv_modify s0 K f :
  (∀ s, sd_socket (f s) = sd_socket s) → (∀ s, sd_acknowledged (f s) = sd_acknowledged s) →
  (∀ s, 2 <= sd_window s → 2 <= sd_window (f s)) → preserves (inv s0 K) (modify f).
Proof. intros H1 H2 Hw s (H3 & H4 & H5). split_and!; cbn; rewrite ?H1, ?H2; auto. Qed.

Lemma inv_now s0 : preserves (socket_inv s0) (now clock).
Proof. intros s [H1 H2]. by split. Qed.
Lemma inv_elapsed s0 t : preserves (socket_inv s0) (elapsed_since clock t).
Proof. apply preserves_bind; [apply inv_now|]. intros. apply preserves_ret. Qed.
Lemma inv_sleep s0 t : preserves (socket_inv s0) (sleep t).
Proof. intros s [H1 H2]. by split. Qed.

Lemma inv_receive s0 : yields (socket_inv s0) receive
  (λ b, ∀ ds d, from_peer b = Some ds → d ∈ ds → heard s0 d).
Proof.
  intros s [H1 H2]. unfold receive, act. destruct (so_inbox s) as [|b inbox] eqn:E; cbn.
  - split; [split; [intros x; cbn; rewrite E; by intros ?%elem_of_nil|done]|]. by intros ? [= <-].
  - split; [split; [|done]; intros x Hx; apply H1, elem_of_cons; by right|].
    intros ? [= <-] ds d Hp Hd. unfold from_peer in Hp. destruct b as [b|]; [|done].
    case_bool_decide; simplify_eq. exists b. split_and!; [|done..]. apply H1, elem_of_cons. by left.
Qed.

Lemma inv_send_to s0 wire p :
  p ∈ own_packets → encode secret p = Ok wire →
  preserves (socket_inv s0) (send_to send_error destination wire).
Proof.
  intros Hp Hw s [H1 H2]. unfold send_to, act. destruct (send_error _); cbn; [done|].
  split; [done|]. intros x. cbn. rewrite elem_of_app, list_elem_of_singleton.
  intros [Hx| ->]; [by apply H2|]. right. split; [done|]. by exists p.
Qed.

Lemma inv_send_each s0 ds :
  Forall (λ d, own_datagram (destination, d)) ds →
  preserves (socket_inv s0) (send_each send_error destination ds).
Proof.
  induction 1 as [|d ds [_ (p & Hp & He)] _ IH]; cbn; [apply preserves_ret|].
  apply preserves_bind; [by eapply inv_send_to|done].
Qed.

Lemma inv_send_segmented s0 n ds k :
  (0 < n)%nat → segmented n ds → Forall (λ d, own_datagram (destination, d)) ds →
  preserves (socket_inv s0) (send_segmented send_error gso destination (mjoin ds) (Z.of_nat n) k).
Proof.
  intros Hn Hs Hd. unfold send_segmented. rewrite Nat2Z.id, chunks_segmented by done.
  apply preserves_bind; [apply preserves_gets|]. intros sent. case_match; [|by apply inv_send_each].
  intros s [H1 H2]. split; [done|]. intros x. cbn. rewrite elem_of_app, list_elem_of_fmap.
  intros [Hx|(d & -> & Hx)]; [by apply H2|]. right. by eapply Forall_forall in Hd.
Qed.

Context `{BLL : !Blake3Laws, HML : !HmacLaws}.
Context (payload_max_pos : 0 < c_udp_payload_bytes config).

Lemma encode_length p w : encode secret p = Ok w → zlen w = HEADER_LEN + zlen (payload p).
Proof.
  intros [_ ->]%encode_Ok. apply mjoin_fields_length, authentication_tag_length.
Qed.

Lemma count_spec : (count - 1) * payload_max < zlen (sp_payload r) <= count * payload_max.
Proof. by apply (div_ceil_spec _ _ count); [lia|lia|]. Qed.

Lemma data_payload_length k :
  0 <= k < count → let n := zlen (data_payload payload_max r k) in
  0 < n <= payload_max ∧ (k + 1 < count → n = payload_max).
Proof.
  intros Hk. pose proof count_spec. unfold data_payload. cbn zeta.
  rewrite length_take, length_drop. split; [nia|]. intros. nia.
Qed.

Definition segment_nat : nat := Z.to_nat (segment_size).
Definition full (w : list byte) : Prop := length w = segment_nat.

Lemma data_wire_length k w :
  0 <= k < count → encode secret (data_packet payload_max r k) = Ok w →
  (0 < length w ≤ segment_nat)%nat ∧ (k + 1 < count → full w).
Proof.
  intros Hk Hw%encode_length. pose proof (data_payload_length k Hk) as [H1 H2].
  unfold full, segment_nat, segment_size, HEADER_LEN in *.
  change (payload (data_packet _ _ _)) with (data_payload payload_max r k) in Hw.
  split; [lia|]. intros H. apply H2 in H. lia.
Qed.

Lemma segmented_full ws : Forall full ws → (0 < segment_nat)%nat → segmented segment_nat ws.
Proof.
  unfold full. intros H Hn. induction H as [|w ws Hw Hws IH]; [done|]. destruct ws; cbn; [lia|done].
Qed.
Lemma segmented_snoc ws w :
  Forall full ws → (0 < length w ≤ segment_nat)%nat → segmented segment_nat (ws ++ [w]).
Proof.
  intros H Hw. induction H as [|x ws Hx Hws IH]; [done|]. cbn. destruct ws; cbn in *; done.
Qed.

Lemma inv_stat s0 K f : preserves (inv s0 K) (stat f).
Proof. by apply inv_modify. Qed.
Lemma inv_socket_step {A} s0 K (m : SM Socket A) :
  preserves (socket_inv s0) m → preserves (inv s0 K) (on_socket m).
Proof. intros H. eapply yields_preserves, inv_on_socket, preserves_yields, H. Qed.
Lemma inv_sample_rtt s0 K x : preserves (inv s0 K) (sample_rtt x).
Proof. intros s Hs. unfold sample_rtt, act. case_match; [|done..]. by repeat case_match. Qed.
Lemma inv_shrink s0 K w : preserves (inv s0 K) (shrink_window w).
Proof. apply inv_modify; try done. intros s Hs. cbn. lia. Qed.
Lemma inv_clock s0 K : preserves (inv s0 K) (on_socket (now clock)).
Proof. apply inv_socket_step, inv_now. Qed.
Lemma inv_clock_elapsed s0 K t : preserves (inv s0 K) (on_socket (elapsed_since clock t)).
Proof. apply inv_socket_step, inv_elapsed. Qed.
Lemma inv_pace s0 K t i n : preserves (inv s0 K) (pace t i n).
Proof.
  unfold pace. apply preserves_bind; [apply inv_clock_elapsed|]. sm_walk.
  apply inv_socket_step, inv_sleep.
Qed.
Create HintDb sender.
#[local] Hint Resolve inv_stat inv_sample_rtt inv_shrink inv_clock inv_clock_elapsed inv_pace : sender.

Lemma inv_flush s0 K ws k :
  segmented segment_nat ws → Forall (λ w, own_datagram (destination, w)) ws →
  preserves (inv s0 K) (flush (mjoin ws) k).
Proof.
  intros Hs Hw. apply inv_socket_step. assert (0 < segment_size) by (unfold segment_size, HEADER_LEN; lia).
  unfold flush. replace segment_size with (Z.of_nat segment_nat) by (unfold segment_nat; lia).
  apply inv_send_segmented; [unfold segment_nat; lia|done..].
Qed.

Lemma own_data k w :
  0 <= k < count → encode secret (data_packet payload_max r k) = Ok w → own_datagram (destination, w).
Proof.
  intros Hk Hw. split; [done|]. exists (data_packet payload_max r k). split; [|done].
  unfold own_packets. apply elem_of_app. right. apply list_elem_of_fmap. exists k.
  split; [done|]. apply elem_of_seqZ. lia.
Qed.

Lemma inv_send_packets s0 K round t0 interval n : ∀ lo ws segments sent paced,
  0 <= lo → lo + Z.of_nat n <= count → Forall (λ w, own_datagram (destination, w)) ws →
  (match n with O => segmented segment_nat ws | _ => Forall full ws end) →
  preserves (inv s0 K) (send_packets round t0 interval (seqZ lo (Z.of_nat n)) (mjoin ws) segments sent paced).
Proof.
  induction n as [|n IH]; intros lo ws segments sent paced Hlo Hn Hw Hf.
  - cbn. apply preserves_bind; [case_match; [by apply inv_flush|apply preserves_ret]|].
    sm_walk; auto with sender nocore.
  - rewrite seqZ_cons, Nat2Z.inj_succ, Z.pred_succ by lia. cbn [send_packets].
    assert (0 < segment_nat)%nat by (unfold segment_nat, segment_size, HEADER_LEN; lia).
    apply preserves_bind; [apply preserves_gets|]. intros acked.
    apply preserves_bind; [apply preserves_lift|]. intros [].
    { apply IH; [lia..|done|]. destruct n; [by apply segmented_full|done]. }
    eapply yields_preserves, yields_bind.
    { apply yields_lift. intros z Hz. unfold try_u32 in Hz. apply ensure_then in Hz as [_ [= Hz]]. exact (eq_sym Hz). }
    intros z ->. eapply yields_bind.
    { apply yields_lift. intros w Hw'. exact Hw'. }
    intros w Ew. apply preserves_yields.
    destruct (data_wire_length lo w ltac:(lia) Ew) as [Hl Hfull].
    assert (Forall (λ w, own_datagram (destination, w)) (ws ++ [w])) as Hws.
    { apply Forall_app. split; [done|]. apply Forall_singleton. by eapply own_data; [|exact Ew]; lia. }
    assert (mjoin (ws ++ [w]) = mjoin ws ++ w) as Ej by (rewrite join_app; cbn; by rewrite app_nil_r).
    rewrite <-Ej. apply preserves_bind; [auto with sender nocore|]. intros _.
    apply preserves_bind; [sm_walk; auto with sender nocore|]. intros _.
    destruct (segments + 1 =? _).
    + apply preserves_bind; [apply inv_flush; [by apply segmented_snoc|done]|]. intros _.
      apply preserves_bind; [auto with sender nocore|]. intros _.
      apply (IH (Z.succ lo) []); [lia..|done|]. by destruct n.
    + apply IH; [lia..|done|]. destruct n; [by apply segmented_snoc|].
      apply Forall_app. split; [done|]. apply Forall_singleton, Hfull. lia.
Qed.

Lemma mark_range_lookup lo hi base test acked k :
  0 <= lo → mark_range lo hi base test acked !! k = Some true →
  acked !! k = Some true
  ∨ ∃ i : nat, (i < ACK_BITS)%nat ∧ Z.of_nat k = base + Z.of_nat i ∧ test i = true.
Proof.
  intros Hlo. unfold mark_range. assert (∀ i, i ∈ seq 0 ACK_BITS → (i < ACK_BITS)%nat) as Hi
    by (intros i ?%elem_of_seq; lia).
  revert acked Hi. generalize (seq 0 ACK_BITS). intros l. induction l as [|i l IH]; intros acked Hi; [by left|].
  cbn [foldl]. intros [H|H]%IH; [|by right|by intros; apply Hi, elem_of_cons; right].
  case_match eqn:E; [|by left]. bprop.
  destruct (decide (k = Z.to_nat (base + Z.of_nat i))) as [->|Hne].
  - right. exists i. split_and!; [apply Hi, elem_of_cons; by left|lia|done].
  - left. by rewrite list_lookup_insert_ne in H.
Qed.
Lemma mark_range_mono lo hi base test acked k :
  acked !! k = Some true → mark_range lo hi base test acked !! k = Some true.
Proof.
  unfold mark_range. generalize (seq 0 ACK_BITS). intros l. revert acked.
  induction l as [|i l IH]; intros acked H; [done|]. cbn [foldl]. apply IH.
  case_match; [|done]. destruct (decide (k = Z.to_nat (base + Z.of_nat i))) as [->|Hne].
  - apply list_lookup_insert_eq. by eapply lookup_lt_Some.
  - by rewrite list_lookup_insert_ne.
Qed.

Lemma inv_mark s0 K lo hi base (test : nat → bool) :
  0 <= lo →
  (∀ i, (i < ACK_BITS)%nat → test i = true → ∃ p, heard_packet s0 p ∧ confirms p (base + Z.of_nat i)) →
  preserves (inv s0 K) (modify (λ s, s <| sd_acknowledged ::= mark_range lo hi base test |>)).
Proof.
  intros Hlo H s (H1 & [H2 H3] & H4). split; [done|]. split; [|done]. split; cbn.
  - intros k Hk. by apply mark_range_mono, H2.
  - intros k [Hk|(i & Hi & -> & Ht)]%mark_range_lookup; [by apply H3|by apply H|done].
Qed.

(** What a datagram of the peer decodes to, when the code has checked that
    it belongs to the transfer. *)
Lemma heard_decode s0 K d {A} (f : Packet → SM Sender A) Q :
  heard s0 d →
  (∀ p, (transfer_id p = sp_transfer_id r → heard_packet s0 p) → yields (inv s0 K) (f p) Q) →
  yields (inv s0 K) (lift (decode d secret) ≫= f) Q.
Proof.
  intros Hd Hf. eapply yields_bind; [apply yields_lift; intros p Hp; exact Hp|].
  intros p Hp. apply Hf. intros Ht. by exists d.
Qed.

Lemma inv_start_reply s0 K retries started d :
  preserves (inv s0 K) (start_reply retries started d).
Proof.
  unfold start_reply. sm_walk; auto with sender nocore.
Qed.

Lemma inv_until_break s0 K f ds (Q : Prop) :
  (∀ d, d ∈ ds → yields (inv s0 K) (f d) (λ b, b = true → Q)) →
  yields (inv s0 K) (until_break f ds) (λ b, b = true → Q).
Proof.
  induction ds as [|d ds IH]; intros H; cbn; [by apply yields_ret|].
  eapply yields_bind; [apply H, elem_of_cons; by left|]. intros [] Hb; cbn.
  - by apply yields_ret.
  - apply IH. intros d' Hd'. apply H, elem_of_cons. by right.
Qed.

Lemma inv_handshake s0 K fuel wire started retries :
  encode secret (start_packet payload_max r) = Ok wire →
  preserves (inv s0 K) (handshake fuel wire started retries).
Proof.
  intros Hw. revert retries. induction fuel as [|fuel IH]; intros retries; cbn; [apply preserves_lift|].
  apply preserves_bind.
  { apply inv_socket_step. eapply inv_send_to; [|exact Hw]. by left. }
  intros _. apply preserves_bind; [auto with sender nocore|]. intros _.
  eapply yields_preserves, yields_bind; [apply inv_on_socket, inv_receive|].
  intros batch Hb. destruct (from_peer batch) as [ds|].
  - eapply yields_bind.
    { apply (inv_until_break s0 K _ ds True). intros d _. 
      by eapply yields_mono; [apply preserves_yields, inv_start_reply|]. }
    intros [] _; apply preserves_yields; [apply preserves_ret|apply IH].
  - apply preserves_yields. apply preserves_bind; [auto with sender nocore|]. intros _.
    apply preserves_bind; [apply preserves_lift|]. intros _.
    apply preserves_bind; [by apply inv_modify|]. intros _. apply IH.
Qed.

(** What an [ACK] or a [NACK] of the peer marks is confirmed. *)
Lemma inv_mark_reported s0 K p lo hi base bitmap window (test : nat → bool) :
  0 <= lo → heard_packet s0 p → parse_bitmap (payload p) = Ok (base, bitmap, window) →
  (∀ i, test i = true → (kind p = Ack ∧ bitmap_contains bitmap i = true)
                        ∨ (kind p = Nack ∧ bitmap_contains bitmap i = false)) →
  preserves (inv s0 K) (modify (λ s, s <| sd_acknowledged ::= mark_range lo hi base test |>)).
Proof.
  intros Hlo Hp Hx Ht. apply inv_mark; [done|]. intros i Hi Hti. exists p. split; [done|].
  exists base, bitmap, window, i. split_and!; [done..|]. by apply Ht.
Qed.

Lemma inv_round_reply s0 K round started base finish sampled d :
  0 <= base → heard s0 d → preserves (inv s0 K) (round_reply round started base finish sampled d).
Proof.
  intros Hb Hd. eapply yields_preserves, heard_decode; [exact Hd|]. intros p Hp. apply preserves_yields.
  apply preserves_bind; [auto with sender nocore|]. intros _.
  case_match eqn:Ht; [apply preserves_ret|]. bprop. specialize (Hp Ht).
  case_match; [apply preserves_lift|]. case_match eqn:Hk; [|case_match eqn:Hk'; [|apply preserves_ret]]; bprop.
  all: eapply yields_preserves, yields_bind; [apply yields_lift; intros x Hx; exact Hx|].
  all: intros [[ack_base bitmap] w] Hx; apply preserves_yields; sm_walk; auto with sender nocore.
  all: first
    [ eapply inv_mark_reported; [lia|done..|]; first [by auto|intros i Hi%negb_true_iff; by auto]
    | by apply inv_modify ].
Qed.

Lemma inv_round_batch s0 K round started base finish sampled ds :
  0 <= base → (∀ d, d ∈ ds → heard s0 d) →
  preserves (inv s0 K) (round_batch round started base finish sampled ds).
Proof.
  intros Hb. revert sampled. induction ds as [|d ds IH]; intros sampled Hd; cbn; [apply preserves_ret|].
  apply preserves_bind; [apply inv_round_reply; [done|]; apply Hd, elem_of_cons; by left|].
  intros [[] s]; [apply preserves_ret|]. apply IH. intros d' Hd'. apply Hd, elem_of_cons. by right.
Qed.

Lemma inv_receive_round s0 K fuel round started deadline base finish sampled :
  0 <= base → preserves (inv s0 K) (receive_round fuel round started deadline base finish sampled).
Proof.
  intros Hb. revert sampled. induction fuel as [|fuel IH]; intros sampled; cbn; [apply preserves_lift|].
  apply preserves_bind; [auto with sender nocore|]. intros t.
  apply preserves_bind; [unfold unacknowledged; sm_walk|]. intros [|]; [|apply preserves_ret].
  apply preserves_bind; [auto with sender nocore|]. intros _.
  eapply yields_preserves, yields_bind; [apply inv_on_socket, inv_receive|].
  intros [b|] Hr; apply preserves_yields; [|apply preserves_ret]. case_bool_decide as Hsrc; [|apply IH].
  apply preserves_bind; [|apply IH]. apply inv_round_batch; [done|].
  intros d Hd. eapply Hr; [|exact Hd]. unfold from_peer. by rewrite bool_decide_true.
Qed.

Lemma inv_one_round s0 K base finish round :
  0 <= base <= finish → finish <= count → preserves (inv s0 K) (one_round base finish round).
Proof.
  intros Hb Hf. unfold one_round. apply preserves_bind; [auto with sender nocore|]. intros t0.
  apply preserves_bind.
  { replace (finish - base) with (Z.of_nat (Z.to_nat (finish - base))) by lia.
    apply (inv_send_packets s0 K round t0 _ _ base []); [lia|lia|done|]. by destruct (Z.to_nat _). }
  sm_walk; auto with sender nocore; first
    [apply inv_receive_round; lia|apply inv_modify; try done; intros; cbn; lia].
Qed.

(** A window is left when every packet of it is acknowledged. *)
Definition below (n : Z) (k : nat) : Prop := Z.of_nat k < n.

Lemma unacknowledged_done base finish s s' :
  0 <= base → unacknowledged base finish s = (s', Ok false) →
  s' = s ∧ ∀ k, base <= Z.of_nat k < finish → sd_acknowledged s !! k = Some true.
Proof.
  intros Hb. unfold unacknowledged. rewrite sm_bind_Ok. intros (acked & s1 & [= <- <-] & H).
  rewrite sm_bind_Ok in H. destruct H as (w & s2 & [= <- Hw] & [= <- He]). split; [done|].
  apply unwrap_Ok in Hw. intros k Hk.
  assert (w !! (k - Z.to_nat base)%nat = sd_acknowledged s !! k) as <-.
  { unfold slice in Hw. case_match; [|done]. injection Hw as <-.
    rewrite lookup_take_lt by lia. rewrite lookup_drop. f_equal. lia. }
  assert (k - Z.to_nat base < length w)%nat as [b E]%lookup_lt_is_Some.
  { apply slice_length in Hw. lia. }
  rewrite E. f_equal. destruct b; [done|]. exfalso. apply not_true_iff_false in He. apply He.
  apply existsb_exists. exists false. split; [|done]. apply list_elem_of_In. by eapply list_elem_of_lookup_2.
Qed.

Lemma rounds_done s0 fuel base finish round s s' :
  0 <= base <= finish → finish <= count → inv s0 (below base) s →
  rounds fuel base finish round s = (s', Ok ()) → inv s0 (below finish) s'.
Proof.
  intros Hb Hf. revert round s. induction fuel as [|fuel IH]; intros round s Hs; cbn; [done|].
  rewrite sm_bind_Ok. intros ([|] & s1 & H & Hk).
  - assert (s1 = s) as ->.
    { unfold unacknowledged in H. rewrite sm_bind_Ok in H. destruct H as (? & ? & [= <- <-] & H).
      rewrite sm_bind_Ok in H. by destruct H as (? & ? & [= <- _] & [= <- _]). }
    rewrite sm_bind_Ok in Hk. destruct Hk as (u & s2 & H1 & H2).
    eapply IH; [|exact H2]. pose proof (inv_one_round s0 (below base) base finish round Hb Hf s Hs) as Hi.
    by rewrite H1 in Hi.
  - injection Hk as <-. apply unacknowledged_done in H as [-> Ha]; [|lia].
    destruct Hs as (H1 & [H2 H3] & H4). split; [done|]. split; [|done]. split; [|done]. unfold below. intros k Hk.
    destruct (decide (Z.of_nat k < base)); [by apply H2|apply Ha; lia].
Qed.

Lemma windows_done s0 fuel base s s' :
  0 <= base <= count → inv s0 (below base) s →
  windows fuel base s = (s', Ok ()) → inv s0 (below count) s'.
Proof.
  revert base s. induction fuel as [|fuel IH]; intros base s Hb Hs; [done|]. cbn [windows].
  destruct (Z.ltb_spec base count).
  - rewrite sm_bind_Ok. intros (w & s1 & [= <- <-] & H1). rewrite sm_bind_Ok in H1.
    destruct H1 as ([] & s2 & H1 & H2). destruct Hs as (Hs & Ha & Hw).
    eapply IH; [|eapply (rounds_done s0 _ base _ 0 s s2); [| | |exact H1]|exact H2]; [lia|lia|lia|done].
  - intros [= <-]. by replace count with base by lia.
Qed.

Lemma inv_unacknowledged s0 K base finish : preserves (inv s0 K) (unacknowledged base finish).
Proof. unfold unacknowledged. sm_walk. Qed.

Lemma inv_rounds s0 K fuel base finish round :
  0 <= base <= finish → finish <= count → preserves (inv s0 K) (rounds fuel base finish round).
Proof.
  intros Hb Hf. revert round. induction fuel as [|fuel IH]; intros round; [apply preserves_lift|].
  cbn [rounds]. apply preserves_bind; [apply inv_unacknowledged|]. intros [|]; [|apply preserves_ret].
  apply preserves_bind; [by apply inv_one_round|auto].
Qed.

Lemma inv_windows s0 K fuel base : 0 <= base <= count → preserves (inv s0 K) (windows fuel base).
Proof.
  revert base. induction fuel as [|fuel IH]; intros base Hb; [apply preserves_lift|].
  cbn [windows]. destruct (Z.ltb_spec base count); [|apply preserves_ret].
  eapply yields_preserves, (yields_bind _ _ _ (λ w, 2 <= w)).
  { apply yields_gets. by intros s (_ & _ & Hw). }
  intros w Hw. apply preserves_yields, preserves_bind; [apply inv_rounds; lia|].
  intros _. apply IH. lia.
Qed.

(** The peer answered with [k]. *)
Definition heard_kind (s0 : Socket) (k : Kind) : Prop := ∃ p, heard_packet s0 p ∧ kind p = k.

Lemma inv_fin_reply s0 K d :
  heard s0 d → yields (inv s0 K) (fin_reply d) (λ b, b = true → heard_kind s0 Complete).
Proof.
  intros Hd. apply heard_decode; [done|]. intros p Hp.
  eapply yields_bind; [apply preserves_yields; auto with sender nocore|]. intros _ _. cbn zeta.
  case_match eqn:H1; bprop.
  { eapply yields_bind; [apply preserves_yields; auto with sender nocore|]. intros _ _.
    apply yields_ret. intros _. exists p. auto. }
  case_match; [by apply yields_lift|]. case_match; [|by apply yields_ret].
  eapply yields_bind; [apply preserves_yields; auto with sender nocore|]. intros _ _. by apply yields_ret.
Qed.

Lemma inv_finish s0 K n first wire started :
  encode secret (fin_packet payload_max r) = Ok wire →
  yields (inv s0 K) (finish_attempts n first wire started) (λ _, heard_kind s0 Complete).
Proof.
  intros Hw. revert first. induction n as [|n IH]; intros first; cbn; [by apply yields_lift|].
  eapply yields_bind.
  { apply preserves_yields, inv_socket_step. eapply inv_send_to; [|exact Hw]. right. by left. }
  intros _ _. eapply yields_bind; [apply preserves_yields; auto with sender nocore|]. intros _ _.
  eapply yields_bind.
  { apply preserves_yields. destruct first; [apply preserves_ret|auto with sender nocore]. }
  intros _ _. eapply yields_bind; [apply inv_on_socket, inv_receive|]. intros batch Hb.
  eapply (yields_bind _ _ _ (λ b, b = true → heard_kind s0 Complete)).
  { destruct (from_peer batch) as [ds|] eqn:E; [|by apply yields_ret].
    apply inv_until_break. intros d Hd. apply inv_fin_reply. by eapply Hb; [exact E|]. }
  intros [] Hc.
  - eapply yields_mono; [apply preserves_yields|by auto].
    sm_walk; auto with sender nocore. by apply inv_modify.
  - eapply yields_bind; [apply preserves_yields; by apply inv_modify|]. auto.
Qed.
#[local] Hint Resolve inv_handshake inv_windows : sender.

Context (window_min : 2 <= c_udp_window_packets config).

Lemma fresh_inv s0 : inv s0 (below 0) (fresh_sender s0).
Proof.
  split_and!; [split; by auto|split|cbn; unfold ACK_BITS; lia].
  - unfold below. lia.
  - intros k. cbn. by rewrite lookup_nil.
Qed.

Lemma inv_acked_reset s0 :
  preserves (inv s0 (below 0)) (modify (λ s, s <| sd_acknowledged := replicate (Z.to_nat count) false |>)).
Proof.
  intros s (H1 & H2 & H3). split; [done|]. split; [|done]. split; cbn.
  - unfold below. lia.
  - intros k [[=] _]%lookup_replicate.
Qed.

Lemma inv_inner s0 : preserves (inv s0 (below 0)) send_payload_inner.
Proof.
  unfold send_payload_inner. cbv zeta.
  do 4 (apply preserves_bind; [first [apply preserves_lift|auto with sender nocore]|intros ?]).
  apply preserves_bind; [apply preserves_lift|]. intros _.
  eapply yields_preserves, yields_bind; [apply yields_lift; intros w Hw; exact Hw|]. intros start Hstart.
  apply preserves_yields. pose proof count_spec.
  apply preserves_bind; [auto with sender nocore|]. intros t.
  apply preserves_bind; [apply preserves_gets|]. intros n.
  apply preserves_bind; [by apply inv_handshake|]. intros _.
  apply preserves_bind; [apply inv_acked_reset|]. intros _.
  apply preserves_bind; [apply inv_windows; nia|]. intros _.
  eapply yields_preserves, yields_bind; [apply yields_lift; intros w Hw; exact Hw|]. intros fin Hfin.
  by apply inv_finish.
Qed.

(** A transfer that succeeds went through its windows and was completed. *)
Lemma inner_done s0 s' stats :
  send_payload_inner (fresh_sender s0) = (s', Ok stats) →
  acked_inv s0 (below count) (sd_acknowledged s') ∧ heard_kind s0 Complete.
Proof.
  unfold send_payload_inner. cbv zeta. pose proof (fresh_inv s0) as Hi. pose proof count_spec.
  revert Hi. generalize (fresh_sender s0). intros s Hi.
  do 3 (rewrite sm_bind_Ok; intros (? & ? & [= <- _] & H0); revert H0).
  rewrite sm_bind_Ok. intros (t & s1 & H1 & H0).
  apply (preserves_run _ _ _ _ _ (inv_clock s0 (below 0))) in H1; [|exact Hi]. clear Hi. revert H0.
  rewrite sm_bind_Ok. intros (? & ? & [= <- _] & H0). revert H0.
  rewrite sm_bind_Ok. intros (start & ? & [= <- Hst] & H0). revert H0.
  rewrite sm_bind_Ok. intros (t2 & s2 & H2 & H0).
  apply (preserves_run _ _ _ _ _ (inv_clock s0 (below 0))) in H2; [|exact H1]. clear H1. revert H0.
  rewrite sm_bind_Ok. intros (n & ? & [= <- _] & H0). revert H0.
  rewrite sm_bind_Ok. intros (? & s3 & H3 & H0).
  apply (preserves_run _ _ _ _ _ (inv_handshake s0 (below 0) _ _ _ _ Hst)) in H3; [|exact H2]. clear H2. revert H0.
  rewrite sm_bind_Ok. intros (? & s4 & H4 & H0).
  apply (preserves_run _ _ _ _ _ (inv_acked_reset s0)) in H4; [|exact H3]. clear H3. revert H0.
  rewrite sm_bind_Ok. intros ([] & s5 & H5 & H0).
  apply (windows_done s0) in H5; [|nia|exact H4]. clear H4. revert H0.
  rewrite sm_bind_Ok. intros (fin & ? & [= <- Hfin] & H0).
  pose proof (inv_finish s0 (below count) (S (Z.to_nat (c_udp_max_retries config))) true fin t Hfin s5 H5) as H6.
  rewrite H0 in H6. destruct H6 as [H6 H7]. split; [apply H6|]. by eapply H7.
Qed.

(** C21. Whatever the network does, a transfer sends to its destination and
    nothing but the datagrams of its own packets: the offer, the pieces of
    the chunk, the end and the abort. When it reports success, every piece was
    confirmed by an acknowledgement of the peer that decodes under the
    cluster's secret, and so was the completion. *)
Theorem send_payload_sound s0 s' result :
  send_payload s0 = (s', result) →
  (∀ x, x ∈ so_sent s' → x ∈ so_sent s0 ∨ own_datagram x)
  ∧ ∀ stats, result = Ok stats →
      (∀ k, 0 <= k < count → ∃ p, heard_packet s0 p ∧ confirms p k)
      ∧ heard_kind s0 Complete.
Proof.
  unfold send_payload, act. pose proof (inv_inner s0 _ (fresh_inv s0)) as (Hi & _ & _).
  pose proof (inner_done s0) as Hd. destruct (send_payload_inner (fresh_sender s0)) as [s1 [stats|e|]]; cbn in Hi.
  - intros [= <- <-]. split; [apply Hi|]. intros st _.
    destruct (Hd s1 stats eq_refl) as [[H1 H2] H3]. split; [|done]. intros k Hk.
    rewrite <-(Z2Nat.id k) by lia. apply H2, H1. unfold below. lia.
  - intros H. split; [|by destruct (encode _ _); intros; simplify_eq].
    destruct (encode secret (abort_packet r)) as [wire|?|] eqn:E; simplify_eq; [|apply Hi..].
    apply (inv_send_to s0 wire (abort_packet r)); [|done..]. right. right. by left.
  - intros [= <- <-]. split; [apply Hi|done].
Qed.

(** ** Cost

    [outstanding s] bounds what may still happen: the datagrams sent and those
    still to be received. *)
Definition outstanding (s : Sender) : Z := zlen (so_sent (sd_socket s)) + zlen (so_inbox (sd_socket s)).
Definition costs {A} (k : Z) (m : SM Sender A) : Prop := ∀ s, outstanding (m s).1 <= outstanding s + k.
(** The steps that neither send nor receive. *)
Definition quiet (S : list (SocketAddr * list byte)) (I : list (option ReceivedBatch)) (s : Sender) : Prop :=
  so_sent (sd_socket s) = S ∧ so_inbox (sd_socket s) = I.

Lemma costs_bind {A B} k1 k2 (m : SM Sender A) (f : A → SM Sender B) :
  0 <= k2 → costs k1 m → (∀ a, costs k2 (f a)) → costs (k1 + k2) (m ≫= f).
Proof.
  intros Hk Hm Hf s. specialize (Hm s). unfold mbind, SM_bind.
  destruct (m s) as [s' [a|e|]]; cbn in *; [specialize (Hf a s')|..]; lia.
Qed.
Lemma costs_free {A B} k (m : SM Sender A) (f : A → SM Sender B) :
  0 <= k → costs 0 m → (∀ a, costs k (f a)) → costs k (m ≫= f).
Proof. intros Hk. by apply (costs_bind 0 k). Qed.
Lemma costs_lift {A B} k (x : Result A) (f : A → SM Sender B) :
  0 <= k → (∀ a, x = Ok a → costs k (f a)) → costs k (lift x ≫= f).
Proof.
  intros Hk Hf s. unfold mbind, SM_bind, lift. destruct x as [a|e|]; [by apply Hf|cbn; lia..].
Qed.
Lemma costs_le {A} k k' (m : SM Sender A) : costs k m → k <= k' → costs k' m.
Proof. intros H Hk s. specialize (H s). lia. Qed.
Lemma costs_quiet {A} (m : SM Sender A) : (∀ S I, preserves (quiet S I) m) → costs 0 m.
Proof.
  intros H s. destruct (H _ _ s (conj eq_refl eq_refl)) as [H1 H2]. unfold outstanding. rewrite H1, H2. lia.
Qed.

Lemma quiet_modify S I f : (∀ s, sd_socket (f s) = sd_socket s) → preserves (quiet S I) (modify f).
Proof. intros H s [H1 H2]. unfold quiet, modify. cbn. by rewrite H. Qed.
Lemma quiet_clock S I : preserves (quiet S I) (on_socket (now clock)).
Proof. by intros s. Qed.
Lemma quiet_elapsed S I t : preserves (quiet S I) (on_socket (elapsed_since clock t)).
Proof. by intros s. Qed.
Lemma quiet_sleep S I t : preserves (quiet S I) (on_socket (sleep t)).
Proof. by intros s. Qed.
Lemma quiet_stat S I f : preserves (quiet S I) (stat f).
Proof. by apply quiet_modify. Qed.
Lemma quiet_shrink S I w : preserves (quiet S I) (shrink_window w).
Proof. by apply quiet_modify. Qed.
Lemma quiet_sample S I x : preserves (quiet S I) (sample_rtt x).
Proof. intros s Hs. unfold sample_rtt, act. case_match; [|done..]. by repeat case_match. Qed.
#[local] Hint Resolve quiet_clock quiet_elapsed quiet_sleep quiet_stat quiet_shrink quiet_sample : sender.
Lemma quiet_pace S I t i n : preserves (quiet S I) (pace t i n).
Proof. unfold pace. sm_walk; auto with sender nocore. Qed.
Lemma quiet_unacknowledged S I a b : preserves (quiet S I) (unacknowledged a b).
Proof. unfold unacknowledged. sm_walk. Qed.
#[local] Hint Resolve quiet_pace quiet_unacknowledged : sender.

Lemma quiet_start_reply S I n t d : preserves (quiet S I) (start_reply n t d).
Proof. unfold start_reply. sm_walk; auto with sender nocore. Qed.
Lemma quiet_round_reply S I n t a b x d : preserves (quiet S I) (round_reply n t a b x d).
Proof. unfold round_reply. sm_walk; auto with sender nocore; by apply quiet_modify. Qed.
Lemma quiet_fin_reply S I d : preserves (quiet S I) (fin_reply d).
Proof. unfold fin_reply. sm_walk; auto with sender nocore. Qed.
Lemma quiet_until_break S I f ds :
  (∀ d, preserves (quiet S I) (f d)) → preserves (quiet S I) (until_break f ds).
Proof. intros H. induction ds as [|d ds IH]; cbn; sm_walk; auto. Qed.
Lemma quiet_round_batch S I n t a b x ds : preserves (quiet S I) (round_batch n t a b x ds).
Proof.
  revert x. induction ds as [|d ds IH]; intros x; cbn; sm_walk; auto using quiet_round_reply.
Qed.

Lemma send_to_cost wire s :
  let s' := (send_to send_error destination wire s).1 in
  so_inbox s' = so_inbox s ∧ zlen (so_sent s') <= zlen (so_sent s) + 1.
Proof.
  cbn zeta. unfold send_to, act. destruct (send_error (length (so_sent s))); cbn; split; try done; [lia|].
  rewrite length_app. cbn. lia.
Qed.
Lemma costs_send wire : costs 1 (send wire).
Proof.
  intros s. destruct (send_to_cost wire (sd_socket s)) as [H1 H2]. unfold outstanding, on_socket, act. cbn.
  rewrite H1. lia.
Qed.

(** A receive pays for the batch it returns. *)
Lemma receive_pays s :
  so_sent (sd_socket (on_socket receive s).1) = so_sent (sd_socket s)
  ∧ (on_socket receive s).2 = Ok (default None (head (so_inbox (sd_socket s))))
  ∧ so_inbox (sd_socket (on_socket receive s).1) = tail (so_inbox (sd_socket s)).
Proof.
  unfold on_socket, receive, act. cbn. destruct (so_inbox (sd_socket s)) as [|x l] eqn:E; cbn; by rewrite ?E.
Qed.
Lemma costs_receive {A} k (f : option ReceivedBatch → SM Sender A) :
  0 <= k → (∀ b, costs (match b with Some _ => k + 1 | None => k end) (f b)) →
  costs k (on_socket receive ≫= f).
Proof.
  intros Hk Hf s. unfold mbind, SM_bind. destruct (receive_pays s) as (H1 & H2 & H3).
  destruct (on_socket receive s) as [s' b]. cbn in *. subst b.
  specialize (Hf (default None (head (so_inbox (sd_socket s)))) s'). unfold outstanding in *. rewrite H1, H3 in Hf.
  destruct (so_inbox (sd_socket s)) as [|[x|] l]; cbn in *; lia.
Qed.

Lemma costs_send_each ds : costs (zlen ds) (on_socket (send_each send_error destination ds)).
Proof.
  intros s. unfold outstanding, on_socket, act. cbn. generalize (sd_socket s). clear s.
  induction ds as [|d ds IH]; intros s; [cbn; lia|]. cbn [send_each length]. unfold mbind, SM_bind.
  pose proof (send_to_cost d s) as [H1 H2].
  destruct (send_to send_error destination d s) as [s' [a|e|]]; cbn in *; try (rewrite H1; lia).
  specialize (IH s'). rewrite H1 in IH. lia.
Qed.

Lemma costs_flush ws k : segmented segment_nat ws → costs (zlen ws) (flush (mjoin ws) k).
Proof.
  intros Hs. assert (0 < segment_size) by (unfold segment_size, HEADER_LEN; lia).
  intros s. unfold flush. replace segment_size with (Z.of_nat segment_nat) by (unfold segment_nat; lia).
  unfold on_socket, act, send_segmented. rewrite Nat2Z.id, chunks_segmented by (done || (unfold segment_nat; lia)).
  unfold mbind, SM_bind, gets. case_match.
  - unfold outstanding, modify. cbn. rewrite length_app, length_fmap. lia.
  - apply (costs_send_each ws s).
Qed.

Lemma costs_send_packets round t0 interval n : ∀ lo ws segments sent paced,
  0 <= lo → lo + Z.of_nat n <= count →
  (match n with O => segmented segment_nat ws | _ => Forall full ws end) →
  costs (zlen ws + Z.of_nat n)
    (send_packets round t0 interval (seqZ lo (Z.of_nat n)) (mjoin ws) segments sent paced).
Proof.
  induction n as [|n IH]; intros lo ws segments sent paced Hlo Hn Hf.
  - cbn [Z.of_nat seqZ seq fmap list_fmap send_packets]. apply costs_bind; [lia| |].
    { destruct (0 <? segments); [by apply costs_flush|]. apply (costs_le 0); [apply costs_quiet; sm_walk|lia]. }
    intros _. apply costs_quiet. sm_walk; auto with sender nocore.
  - rewrite seqZ_cons, Nat2Z.inj_succ, Z.pred_succ by lia. cbn [send_packets].
    assert (0 < segment_nat)%nat by (unfold segment_nat, segment_size, HEADER_LEN; lia).
    apply costs_free; [lia|apply costs_quiet; sm_walk|]. intros acked.
    apply costs_free; [lia|apply costs_quiet; sm_walk|]. intros [].
    { eapply costs_le; [apply IH; [lia..|]; destruct n; [by apply segmented_full|done]|lia]. }
    apply costs_lift; [lia|]. intros z [_ [= <-]]%ensure_then. cbv zeta.
    apply costs_lift; [lia|]. intros w Ew.
    destruct (data_wire_length lo w ltac:(lia) Ew) as [Hl Hfull].
    assert (mjoin (ws ++ [w]) = mjoin ws ++ w) as Ej by (rewrite join_app; cbn; by rewrite app_nil_r).
    assert (zlen (ws ++ [w]) = zlen ws + 1) as El by (rewrite length_app; cbn; lia).
    rewrite <-Ej.
    apply costs_free; [lia|apply costs_quiet; auto with sender nocore|]. intros _.
    apply costs_free; [lia|apply costs_quiet; sm_walk; auto with sender nocore|]. intros _.
    destruct (segments + 1 =? _).
    + replace (zlen ws + Z.succ (Z.of_nat n)) with (zlen (ws ++ [w]) + (0 + Z.of_nat n)) by lia.
      apply costs_bind; [lia|apply costs_flush; by apply segmented_snoc|]. intros _.
      apply costs_free; [lia|apply costs_quiet; auto with sender nocore|]. intros _.
      apply (IH (Z.succ lo) []); [lia..|]. by destruct n.
    + replace (zlen ws + Z.succ (Z.of_nat n)) with (zlen (ws ++ [w]) + Z.of_nat n) by lia.
      apply IH; [lia..|]. destruct n; [by apply segmented_snoc|]. apply Forall_app. split; [done|].
      apply Forall_singleton, Hfull. lia.
Qed.

Lemma costs_receive_round fuel round started deadline base finish sampled :
  costs 0 (receive_round fuel round started deadline base finish sampled).
Proof.
  revert sampled. induction fuel as [|fuel IH]; intros sampled; [apply costs_quiet; intros; apply preserves_lift|]. cbn [receive_round].
  apply costs_free; [lia|apply costs_quiet; auto with sender nocore|]. intros t.
  apply costs_free; [lia|apply costs_quiet; sm_walk; auto with sender nocore|]. intros [|];
    [|apply costs_quiet; sm_walk].
  apply costs_free; [lia|apply costs_quiet; auto with sender nocore|]. intros _.
  apply costs_receive; [lia|]. intros [b|]; [|apply costs_quiet; sm_walk].
  apply (costs_le 0); [|lia]. case_bool_decide; [|apply IH].
  apply costs_free; [lia|apply costs_quiet; intros; apply quiet_round_batch|intros; apply IH].
Qed.

Lemma costs_one_round base finish round :
  0 <= base <= finish → finish <= count → costs (finish - base) (one_round base finish round).
Proof.
  intros Hb Hf. unfold one_round.
  apply costs_free; [lia|apply costs_quiet; auto with sender nocore|]. intros t0. cbv zeta.
  replace (finish - base) with (0 + Z.of_nat (Z.to_nat (finish - base)) + 0) at 1 by lia.
  apply costs_bind; [lia| |].
  { replace (finish - base) with (Z.of_nat (Z.to_nat (finish - base))) at 2 by lia.
    apply (costs_send_packets round t0 _ _ base []); [lia..|]. by destruct (Z.to_nat _). }
  intros _. apply costs_free; [lia|apply costs_quiet; auto with sender nocore|]. intros t.
  apply costs_free; [lia|apply costs_quiet; sm_walk|]. intros rto.
  apply costs_free; [lia|apply costs_quiet; sm_walk|]. intros n.
  apply costs_free; [lia|apply costs_receive_round|]. intros _.
  apply costs_quiet. sm_walk. by apply quiet_modify.
Qed.

Abbreviation max_retries := (c_udp_max_retries config).

(** A round counts as a retry even when it is the first, and even when it
    brought every acknowledgement. *)
Lemma one_round_counts base finish round s s' :
  one_round base finish round s = (s', Ok ()) → round + 1 <= max_retries.
Proof.
  unfold one_round. do 6 (rewrite sm_bind_Ok; intros (? & ? & _ & E); revert E).
  rewrite sm_bind_Ok. intros (? & ? & E & _).
  unfold ensureM, lift, ensure in E. destruct (Z.leb_spec (round + 1) max_retries); [lia|done].
Qed.

Lemma costs_rounds fuel base finish round :
  0 <= base <= finish → finish <= count → 0 <= round <= max_retries →
  costs ((finish - base) * (max_retries - round + 1)) (rounds fuel base finish round).
Proof.
  intros Hb Hf. revert round. induction fuel as [|fuel IH]; intros round Hr.
  { apply (costs_le 0); [apply costs_quiet; intros; apply preserves_lift|nia]. }
  cbn [rounds]. apply costs_free; [nia|apply costs_quiet; auto with sender nocore|]. intros [|];
    [|apply (costs_le 0); [apply costs_quiet; sm_walk|nia]].
  destruct (decide (round = max_retries)) as [->|Hne].
  - intros s. unfold mbind, SM_bind. pose proof (costs_one_round base finish max_retries Hb Hf s) as Hc.
    destruct (one_round base finish max_retries s) as [s' [[]|e|]] eqn:E; cbn in Hc |- *; [|nia..].
    apply one_round_counts in E. lia.
  - replace ((finish - base) * (max_retries - round + 1))
      with ((finish - base) + (finish - base) * (max_retries - (round + 1) + 1)) by lia.
    apply costs_bind; [nia|by apply costs_one_round|]. intros _. apply IH. lia.
Qed.

Lemma costs_handshake fuel wire started retries :
  0 <= retries <= max_retries → costs (max_retries - retries + 1) (handshake fuel wire started retries).
Proof.
  revert retries. induction fuel as [|fuel IH]; intros retries Hr.
  { apply (costs_le 0); [apply costs_quiet; intros; apply preserves_lift|lia]. }
  cbn [handshake]. replace (max_retries - retries + 1) with (1 + (max_retries - retries)) by lia.
  apply costs_bind; [lia|apply costs_send|]. intros _.
  apply costs_free; [lia|apply costs_quiet; auto with sender nocore|]. intros _.
  apply costs_receive; [lia|]. intros b.
  assert (∀ k, max_retries - retries <= k → costs k (
    bump retransmitted_datagrams 1;;
    ensureM (retries + 1 <=? max_retries) "TRAINPOOL_TRANSFER_TIMEOUT: UDP START";;
    modify (λ s, s <| sd_rto ::= backoff |>);;
    handshake fuel wire started (retries + 1))) as Ht.
  { intros k Hk. apply (costs_le (max_retries - retries)); [|lia].
    apply costs_free; [lia|apply costs_quiet; auto with sender nocore|]. intros _.
    apply costs_lift; [lia|]. intros _ Hle%ensure_Ok. bprop.
    apply costs_free; [lia|apply costs_quiet; intros; by apply quiet_modify|]. intros _.
    eapply costs_le; [apply IH; lia|lia]. }
  destruct b as [b|]; cbn [from_peer]; [|by apply Ht].
  case_bool_decide; [|apply Ht; lia].
  apply costs_free; [lia|apply costs_quiet; intros; apply quiet_until_break, quiet_start_reply|]. intros [|].
  - apply (costs_le 0); [apply costs_quiet; sm_walk|lia].
  - eapply costs_le; [apply IH; lia|lia].
Qed.

Lemma costs_finish n first wire started : costs (Z.of_nat n) (finish_attempts n first wire started).
Proof.
  revert first. induction n as [|n IH]; intros first; [apply costs_quiet; intros; apply preserves_lift|].
  rewrite Nat2Z.inj_succ, <-Z.add_1_l. cbn [finish_attempts].
  apply costs_bind; [lia|apply costs_send|]. intros _.
  apply costs_free; [lia|apply costs_quiet; auto with sender nocore|]. intros _.
  apply costs_free; [lia|apply costs_quiet; destruct first; sm_walk; auto with sender nocore|]. intros _.
  apply costs_receive; [lia|]. intros b. apply (costs_le (Z.of_nat n)); [|case_match; lia].
  apply costs_free; [lia| |].
  { apply costs_quiet. intros S I. destruct (from_peer b); [|sm_walk].
    apply quiet_until_break, quiet_fin_reply. }
  intros [|].
  - apply (costs_le 0); [|lia]. apply costs_quiet. sm_walk; auto with sender nocore. by apply quiet_modify.
  - apply costs_free; [lia|apply costs_quiet; intros; by apply quiet_modify|]. auto.
Qed.

(** [costs] from the states of a transfer. *)
Definition costs_in {A} s0 (k : Z) (m : SM Sender A) : Prop :=
  ∀ s, inv s0 (below 0) s → outstanding (m s).1 <= outstanding s + k.
Lemma costs_in_bind {A B} s0 k1 k2 (m : SM Sender A) (f : A → SM Sender B) :
  0 <= k2 → preserves (inv s0 (below 0)) m → costs_in s0 k1 m →
  (∀ a, costs_in s0 k2 (f a)) → costs_in s0 (k1 + k2) (m ≫= f).
Proof.
  intros Hk Hp Hm Hf s Hs. specialize (Hm s Hs). specialize (Hp s Hs). unfold mbind, SM_bind.
  destruct (m s) as [s' [a|e|]]; cbn in *; [|lia..]. specialize (Hf a s' Hp). lia.
Qed.

Lemma costs_windows s0 fuel base :
  0 <= max_retries → 0 <= base <= count → costs_in s0 ((count - base) * (max_retries + 1)) (windows fuel base).
Proof.
  intros Hm. revert base. induction fuel as [|fuel IH]; intros base Hb s Hs; [cbn; nia|].
  cbn [windows]. destruct (Z.ltb_spec base count); [|cbn; nia].
  unfold mbind, SM_bind, gets. pose proof Hs as (_ & _ & Hw). set (finish := Z.min _ _).
  assert (base < finish <= count) as Hf by lia.
  pose proof (costs_rounds (S (S (Z.to_nat max_retries))) base finish 0 ltac:(lia) ltac:(lia) ltac:(lia) s) as Hc.
  pose proof (inv_rounds s0 (below 0) (S (S (Z.to_nat max_retries))) base finish 0 ltac:(lia) ltac:(lia) s Hs) as Hi.
  destruct (rounds _ base finish 0 s) as [s' [a|e|]]; cbn in Hc, Hi |- *; [|nia..].
  specialize (IH finish ltac:(lia) s' Hi). nia.
Qed.

(** The most datagrams a transfer of [n] packets sends to a peer whose
    batches are [inbox]. *)
Definition datagram_limit (inbox : Z) : Z := inbox + (count + 2) * (max_retries + 1) + 1.

Lemma costs_in_step {A B} s0 k (m : SM Sender A) (f : A → SM Sender B) :
  0 <= k → preserves (inv s0 (below 0)) m → costs 0 m → (∀ a, costs_in s0 k (f a)) → costs_in s0 k (m ≫= f).
Proof. intros Hk Hp Hm. apply (costs_in_bind s0 0 k); [done..|]. intros s _. apply Hm. Qed.
Lemma costs_in_lift {A B} s0 k (x : Result A) (f : A → SM Sender B) :
  0 <= k → (∀ a, x = Ok a → costs_in s0 k (f a)) → costs_in s0 k (lift x ≫= f).
Proof. intros Hk Hf s Hs. unfold mbind, SM_bind, lift. destruct x as [a|e|]; [by apply Hf|cbn; lia..]. Qed.

Lemma costs_inner s0 : 0 <= max_retries → costs_in s0 ((count + 2) * (max_retries + 1)) send_payload_inner.
Proof.
  intros Hm. pose proof count_spec as Hc. assert (0 <= count) as Hc0 by nia. clear Hc.
  unfold send_payload_inner. cbv zeta.
  do 3 (apply costs_in_lift; [nia|intros _ _]).
  apply costs_in_step; [nia|auto with sender nocore|apply costs_quiet; auto with sender nocore|]. intros t0.
  apply costs_in_lift; [nia|intros _ _]. apply costs_in_lift; [nia|intros start Hstart].
  apply costs_in_step; [nia|auto with sender nocore|apply costs_quiet; auto with sender nocore|]. intros t1.
  apply costs_in_step; [nia|apply preserves_gets|apply costs_quiet; intros; apply preserves_gets|]. intros n.
  replace ((count + 2) * (max_retries + 1))
    with ((max_retries - 0 + 1) + ((count - 0) * (max_retries + 1) + (max_retries + 1))) by lia.
  apply costs_in_bind; [nia|by apply inv_handshake| |].
  { intros s _. apply costs_handshake. lia. }
  intros _. apply costs_in_step; [nia|apply inv_acked_reset|apply costs_quiet; intros; by apply quiet_modify|].
  intros _. apply costs_in_bind; [lia|apply inv_windows; lia|by apply costs_windows; lia|].
  intros _. apply costs_in_lift; [lia|intros fin Hfin]. intros s _.
  replace (max_retries + 1) with (Z.of_nat (S (Z.to_nat max_retries))) by lia. apply costs_finish.
Qed.

Lemma send_payload_cost s0 :
  0 <= max_retries →
  zlen (so_sent (send_payload s0).1) <= zlen (so_sent s0) + datagram_limit (zlen (so_inbox s0)).
Proof.
  intros Hm. pose proof (costs_inner s0 Hm _ (fresh_inv s0)) as Hc. unfold outstanding in Hc. cbn in Hc.
  unfold send_payload, act, datagram_limit.
  destruct (send_payload_inner (fresh_sender s0)) as [s1 [stats|e|]]; cbn in Hc |- *; [lia| |lia].
  destruct (encode secret (abort_packet r)) as [wire|?|]; cbn; [|lia..].
  pose proof (send_to_cost wire (sd_socket s1)) as [_ H2]. lia.
Qed.
End Sender.

(** ** Termination *)

(** Two runs that would differ in what a loop without fuel returns. *)
Section Termination.
Context `{BL : !Blake3, HM : !Hmac, BLL : !Blake3Laws, HML : !HmacLaws}.
Context (clock : Clock) (send_error : nat → option string) (gso : nat → bool).
Context (config : Config) (destination : SocketAddr) (r : SendPayload) (e1 e2 : string).
Context (config_valid : valid config).
Abbreviation max_retries := (c_udp_max_retries config).
Abbreviation count := (packet_count (c_udp_payload_bytes config) r).

(** What [quiet] says of a run. *)
Lemma quiet_inbox {A} (m : SM Sender A) s s' x :
  (∀ S I, preserves (quiet S I) m) → m s = (s', x) → so_inbox (sd_socket s') = so_inbox (sd_socket s).
Proof. intros H E. destruct (H _ _ s (conj eq_refl eq_refl)) as [_ H2]. by rewrite E in H2. Qed.
Lemma receive_inbox s s' b :
  on_socket receive s = (s', Ok b) →
  so_inbox (sd_socket s') = tail (so_inbox (sd_socket s))
  ∧ (b ≠ None → length (so_inbox (sd_socket s)) = S (length (so_inbox (sd_socket s')))).
Proof.
  intros E. destruct (receive_pays s) as (_ & Hb & Hi). rewrite E in Hb, Hi. cbn in Hb, Hi.
  split; [done|]. injection Hb as ->. rewrite Hi. by destruct (so_inbox (sd_socket s)).
Qed.

Lemma handshake_fuel fuel wire started retries s :
  0 <= retries <= max_retries →
  (length (so_inbox (sd_socket s)) + Z.to_nat (max_retries - retries) < fuel)%nat →
  handshake clock send_error config destination r e1 fuel wire started retries s
  = handshake clock send_error config destination r e2 fuel wire started retries s.
Proof.
  revert retries s. induction fuel as [|fuel IH]; intros retries s Hr Hf; [lia|]. cbn [handshake].
  apply sm_bind_ext; [done|]. intros [] s1 H1. apply sm_bind_ext; [done|]. intros [] s2 H2.
  apply sm_bind_ext; [done|]. intros batch s3 H3.
  assert (so_inbox (sd_socket s1) = so_inbox (sd_socket s)) as E1.
  { pose proof (send_to_cost send_error destination wire (sd_socket s)) as [H _].
    unfold on_socket, act in H1. by injection H1 as <- _. }
  apply quiet_inbox in H2; [|intros; apply quiet_stat]. rewrite E1 in H2.
  apply receive_inbox in H3 as [H3 H4]. rewrite H2 in H3, H4. clear E1 H1 H2 s1 s2.
  destruct (from_peer destination batch) as [ds|] eqn:Ed.
  - apply sm_bind_ext; [done|]. intros [] s4 H5; [done|].
    apply quiet_inbox in H5; [|intros; apply quiet_until_break, quiet_start_reply].
    apply IH; [done|]. rewrite H5. rewrite H4 in Hf by (by intros ->). lia.
  - apply sm_bind_ext; [done|]. intros [] s4 H5. apply quiet_inbox in H5; [|intros; apply quiet_stat].
    apply sm_bind_ext; [done|]. intros [] s5 [= <- H6]. apply ensure_Ok in H6. bprop.
    apply sm_bind_ext; [done|]. intros [] s6 H7. apply quiet_inbox in H7; [|intros; by apply quiet_modify].
    apply IH; [lia|]. rewrite H7, H5, H3. destruct (so_inbox (sd_socket s)); cbn in *; lia.
Qed.

Lemma receive_round_fuel fuel round started deadline base finish sampled s :
  (length (so_inbox (sd_socket s)) < fuel)%nat →
  receive_round clock config destination r e1 fuel round started deadline base finish sampled s
  = receive_round clock config destination r e2 fuel round started deadline base finish sampled s.
Proof.
  revert sampled s. induction fuel as [|fuel IH]; intros sampled s Hf; [lia|]. cbn [receive_round].
  apply sm_bind_ext; [done|]. intros t s1 H1. apply quiet_inbox in H1; [|apply quiet_clock].
  apply sm_bind_ext; [done|]. intros missing s2 H2.
  apply quiet_inbox in H2; [|intros; destruct (t <? deadline); [apply quiet_unacknowledged|apply preserves_ret]].
  destruct missing; [|done].
  apply sm_bind_ext; [done|]. intros t' s3 H3. apply quiet_inbox in H3; [|apply quiet_clock].
  apply sm_bind_ext; [done|]. intros [b|] s4 [H4 H5]%receive_inbox; [|done].
  specialize (H5 ltac:(done)). rewrite H3, H2, H1 in H5.
  destruct (bool_decide _); [|apply IH; lia].
  apply sm_bind_ext; [done|]. intros x s5 H6. apply quiet_inbox in H6; [|intros; apply quiet_round_batch].
  apply IH. rewrite H6. lia.
Qed.

Abbreviation one_round_ e := (one_round clock send_error gso config destination r e).
Lemma one_round_fuel base finish round s : one_round_ e1 base finish round s = one_round_ e2 base finish round s.
Proof.
  unfold one_round. apply sm_bind_ext; [done|]. intros t s1 _. cbv zeta.
  apply sm_bind_ext; [done|]. intros [] s2 _. apply sm_bind_ext; [done|]. intros t' s3 _.
  apply sm_bind_ext; [done|]. intros rto s4 _. apply sm_bind_ext; [done|]. intros n s5 [= <- <-].
  apply sm_bind_ext; [apply receive_round_fuel; lia|done].
Qed.

Lemma rounds_fuel fuel base finish round s :
  0 <= round <= max_retries → max_retries + 1 < Z.of_nat fuel + round →
  rounds clock send_error gso config destination r e1 fuel base finish round s
  = rounds clock send_error gso config destination r e2 fuel base finish round s.
Proof.
  revert round s. induction fuel as [|fuel IH]; intros round s Hr Hf; [lia|]. cbn [rounds].
  apply sm_bind_ext; [done|]. intros [] s1 _; [|done].
  apply sm_bind_ext; [apply one_round_fuel|]. intros [] s2 H2%one_round_counts. apply IH; lia.
Qed.

Lemma windows_fuel s0 K fuel base s :
  0 <= base <= count → count - base < Z.of_nat fuel → inv config destination r s0 K s →
  windows clock send_error gso config destination r e1 fuel base s
  = windows clock send_error gso config destination r e2 fuel base s.
Proof.
  destruct config_valid. pose proof within_true as Hw.
  revert base s. induction fuel as [|fuel IH]; intros base s Hb Hf Hs; [lia|]. cbn [windows].
  destruct (Z.ltb_spec base count); [|done].
  apply sm_bind_ext; [done|]. intros w s1 [= <- <-]. pose proof Hs as (_ & _ & Hw').
  apply sm_bind_ext; [apply rounds_fuel; lia|]. intros [] s2 H2.
  eapply (preserves_run (inv config destination r s0 K)) in H2; [|apply inv_rounds; first [done|lia]|exact Hs].
  apply IH; [lia..|done].
Qed.

Lemma inner_fuel s0 :
  send_payload_inner clock send_error gso config destination r e1 (fresh_sender config s0)
  = send_payload_inner clock send_error gso config destination r e2 (fresh_sender config s0).
Proof.
  destruct config_valid. pose proof (fresh_inv config destination r ltac:(lia) s0) as Hi.
  revert Hi. generalize (fresh_sender config s0). intros s Hi.
  assert (0 <= count) as Hcount by (pose proof (count_spec config r ltac:(lia)); nia).
  unfold send_payload_inner. cbv zeta.
  do 3 (apply sm_bind_ext; [done|]; intros ? ? [= <- _]).
  apply sm_bind_ext; [done|]. intros t s1 H1.
  eapply (preserves_run (inv config destination r s0 (below 0))) in H1; [|apply inv_clock|exact Hi].
  apply sm_bind_ext; [done|]. intros ? ? [= <- _]. apply sm_bind_ext; [done|]. intros start ? [= <- Hst].
  apply sm_bind_ext; [done|]. intros t2 s2 H2.
  eapply (preserves_run (inv config destination r s0 (below 0))) in H2; [|apply inv_clock|exact H1].
  apply sm_bind_ext; [done|]. intros n ? [= <- <-].
  apply sm_bind_ext; [apply handshake_fuel; lia|]. intros ? s3 H3.
  eapply (preserves_run (inv config destination r s0 (below 0))) in H3; [|by apply inv_handshake|exact H2].
  apply sm_bind_ext; [done|]. intros ? s4 H4.
  eapply (preserves_run (inv config destination r s0 (below 0))) in H4; [|by apply inv_acked_reset|exact H3].
  apply sm_bind_ext; [|done]. eapply windows_fuel; [lia..|done].
Qed.

(** C25. A transfer always ends: no loop needs more iterations than the model
    grants, whatever arrives and whenever (no run depends on what a loop without
    fuel would return), and the datagrams sent are bounded by the batches
    received, the packets of the chunk and the configured retries. *)
Theorem send_payload_terminates s0 :
  send_payload clock send_error gso config destination r e1 s0
    = send_payload clock send_error gso config destination r e2 s0
  ∧ zlen (so_sent (send_payload clock send_error gso config destination r e1 s0).1)
    <= zlen (so_sent s0) + zlen (so_inbox s0) + (count + 2) * (max_retries + 1) + 1.
Proof.
  split; [unfold send_payload, act; by rewrite inner_fuel|]. destruct config_valid.
  pose proof (send_payload_cost clock send_error gso config destination r e1 ltac:(lia) ltac:(lia) s0 ltac:(lia)).
  unfold datagram_limit in *. lia.
Qed.
End Termination.

(** ** The retry limit *)

(** The last round is wasted: the round that follows [udp_max_retries]
    others sends its packets and waits for their acknowledgements, but the
    transfer fails whatever they are. *)
Theorem last_round_cannot_succeed `{BL : !Blake3, HM : !Hmac} clock send_error gso config destination r
    out_of_fuel base finish s :
  (one_round clock send_error gso config destination r out_of_fuel base finish
     (c_udp_max_retries config) s).2 ≠ Ok ().
Proof.
  destruct (one_round _ _ _ _ _ _ _ _ _ _ s) as [s' x] eqn:E. cbn. intros ->.
  apply one_round_counts in E. lia.
Qed.

(** ** Witnesses *)
Import Toy.
Module Witness.
Definition config : Config := default_config <| c_cluster_secret := Some "key"%string |>
  <| c_udp_max_retries := 2 |>.
Definition peer : SocketAddr := (V4 7, 9000).
Definition handle : MemoryBlockHandle := mkHandle 5 9 8 1 1 (Ram 1) None Writing 77 1000 1 None.
Definition request : SendPayload := mkSend handle 3 0 [x41; x42; x43; x44; x45; x46] false.
Definition reply (k : Kind) (payload : list byte) : option ReceivedBatch :=
  match encode (Some "key"%string) (mkPacket k 0 3 9 5 77 1 0 0 8 payload) with
  | Ok d => Some (mkBatch [d] peer)
  | _ => None
  end.
Definition ack : list byte := bitmap_payload 0 [true] 256.
(** The peer answers at once; the data is lost once; it is lost twice. *)
Definition prompt : Socket := new_socket [reply StartAck []; reply Ack ack; reply Complete []].
Definition lossy : Socket := new_socket [reply StartAck []; None; reply Ack ack; reply Complete []].
Definition lossier : Socket :=
  new_socket [reply StartAck []; None; None; reply Ack ack; reply Complete []].
Abbreviation run s :=
  (send_payload (λ _ n, Z.of_nat n) (λ _, None) (λ _, false) config peer request "" s).
Lemma send_config_valid : valid config.
Proof. apply validate_Ok_valid. vm_compute. reflexivity. Qed.
End Witness.

(** Two lost rounds use up two retries. *)
Example two_losses_fail :
  (is_ok (Witness.run Witness.lossy).2, (Witness.run Witness.lossier).2)
  = (true, Err "TRAINPOOL_TRANSFER_TIMEOUT: bounded UDP retry exhausted").
Proof. vm_compute. reflexivity. Qed.

Lemma send_payload_sound_witness :
  let (s', result) := Witness.run Witness.lossy in
  length (so_sent s') = 4%nat
  ∧ Forall (own_datagram Witness.config Witness.peer Witness.request) (so_sent s')
  ∧ (∃ p, heard_packet Witness.config Witness.peer Witness.request Witness.lossy p ∧ confirms p 0)
  ∧ heard_kind Witness.config Witness.peer Witness.request Witness.lossy Complete.
Proof.
  destruct (Witness.run Witness.lossy) as [s' result] eqn:E.
  assert (length (so_sent s') = 4%nat ∧ is_ok result = true) as [H1 H2].
  { change s' with (s', result).1. change result with (s', result).2 at 2. rewrite <-E.
    split; vm_compute; reflexivity. }
  destruct (send_payload_sound (λ _ n, Z.of_nat n) (λ _, None) (λ _, false) Witness.config Witness.peer
    Witness.request "" ltac:(reflexivity) ltac:(discriminate) Witness.lossy s' result E) as [H3 H4].
  split; [exact H1|]. split.
  - apply Forall_forall. intros x Hx. destruct (H3 x Hx) as [Hn|Ho]; [|exact Ho].
    change (so_sent Witness.lossy) with (@nil (SocketAddr * list byte)) in Hn. inversion Hn.
  - destruct result as [stats|e|]; [|discriminate H2..]. destruct (H4 stats eq_refl) as [H5 H6].
    split; [|exact H6]. apply H5. vm_compute. split; congruence.
Defined.

Lemma send_payload_terminates_witness :
  valid Witness.config
  ∧ zlen (so_sent (Witness.run Witness.lossier).1) <= 15.
Proof.
  split; [exact Witness.send_config_valid|].
  pose proof (send_payload_terminates (λ _ n, Z.of_nat n) (λ _, None) (λ _, false) Witness.config Witness.peer
    Witness.request "" "" Witness.send_config_valid Witness.lossier) as [_ H].
  match type of H with _ <= ?bound => assert (bound = 15) as E by (vm_compute; reflexivity) end.
  rewrite E in H. exact H.
Defined.
