(* ===== verification/Timeout.v ===== *)
(** * The retransmission timeout: [update_rto] of [src/transport/udp.rs]

    The estimator works on [f64] milliseconds and converts its result back with
    [Duration::from_secs_f64], which panics on NaN, infinities and negative
    numbers. Here: it never does, and the timeout keeps its limits. *)

From Stdlib Require Import Floats.SpecFloat.
From S2P Require Import Prelude.
From S2P Require Import Lists.
From S2P Require Import Float64.
From S2P Require Import Rounding.
From S2P Require Import UdpSender.

(** A [Duration] holds less than [2^64] seconds. *)
Definition is_duration (d : Z) : Prop := 0 <= d < 2 ^ 64 * NANOS.

(** ** Constants as doubles *)
#[local] Opaque scaled.
Ltac constant := vm_compute; try done; intuition discriminate.
Abbreviation thousand := (S754_finite false 8796093022208000 (-43)).
Lemma thousand_eq : f64_of_u64 1000 = thousand.
Proof. vm_compute. reflexivity. Qed.
Lemma nanos_eq : f64_of_u64 NANOS = S754_finite false 8388608000000000 (-23).
Proof. vm_compute. reflexivity. Qed.

Lemma as_secs_upto d : is_duration d → upto 1 65 (as_secs_f64 d).
Proof.
  intros [Hd1 Hd2]. unfold as_secs_f64.
  assert (0 <= d / NANOS < 2 ^ 64) as Hq by (split; [apply Z.div_pos|apply Z.div_lt_upper_bound]; unfold NANOS in *; lia).
  assert (0 <= d mod NANOS < NANOS) as Hr by (apply Z.mod_pos_bound; unfold NANOS; lia).
  apply (upto_mono (2 ^ 52 + 1) 12); [vm_compute; discriminate|]. apply upto_add; [constant|lia|lia| |].
  - apply (upto_mono 1 64); [vm_compute; discriminate|]. apply upto_of_u64; [constant|lia|].
    replace 64 with (0 + 64) by lia. rewrite scaled_shift by lia. apply scaled_le; lia.
  - rewrite nanos_eq. apply (upto_mono 1 0); [vm_compute; discriminate|].
    apply (upto_div NANOS 0 NANOS 0 1 0); [constant|constant|lia|lia|vm_compute; reflexivity|lia|lia|vm_compute; reflexivity|].
    apply upto_of_u64; [constant|lia|]. apply scaled_le; lia.
Qed.
Lemma as_millis_upto d : is_duration d → upto 1 75 (as_millis_f64 d).
Proof.
  intros Hd. unfold as_millis_f64. rewrite f64_mul_comm, thousand_eq.
  apply (upto_mono (1 * 125) (65 + 3)); [vm_compute; discriminate|].
  apply upto_mul; [constant|lia..|vm_compute; reflexivity|by apply as_secs_upto].
Qed.

(** ** The estimator *)

(** The smoothed round trip and its variation stay finite. *)
Record estimate_ok (srtt : option f64) (rttvar : f64) : Prop := {
  eo_srtt : ∀ x, srtt = Some x → upto 1 75 x;
  eo_var : upto 1 75 rttvar;
}.
Lemma estimate_none : estimate_ok None f64_zero.
Proof. by split. Qed.

(** [c * x] for the constants of the estimator. *)
Lemma upto_seven_eighths x : upto 1 75 x → upto 7 72 (f64_mul (f64_lit 875 1000) x).
Proof.
  intros Hx. change (f64_lit 875 1000) with (S754_finite false 7881299347898368 (-53)).
  apply (upto_mul 1 75 7 (-3)); [constant|lia..|vm_compute; reflexivity|done].
Qed.
Lemma upto_eighth x : upto 1 75 x → upto 1 72 (f64_mul (f64_lit 125 1000) x).
Proof.
  intros Hx. change (f64_lit 125 1000) with (S754_finite false 4503599627370496 (-55)).
  apply (upto_mul 1 75 1 (-3)); [constant|lia..|vm_compute; reflexivity|done].
Qed.
Lemma upto_three_quarters x : upto 1 75 x → upto 3 73 (f64_mul (f64_lit 75 100) x).
Proof.
  intros Hx. change (f64_lit 75 100) with (S754_finite false 6755399441055744 (-53)).
  apply (upto_mul 1 75 3 (-2)); [constant|lia..|vm_compute; reflexivity|done].
Qed.
Lemma upto_quarter x : upto 1 75 x → upto 1 73 (f64_mul (f64_lit 25 100) x).
Proof.
  intros Hx. change (f64_lit 25 100) with (S754_finite false 4503599627370496 (-54)).
  apply (upto_mul 1 75 1 (-2)); [constant|lia..|vm_compute; reflexivity|done].
Qed.
Lemma upto_half x : upto 1 75 x → upto 1 74 (f64_div x (f64_of_u64 2)).
Proof.
  intros Hx. change (f64_of_u64 2) with (S754_finite false 4503599627370496 (-51)).
  apply (upto_div 1 75 2 0); [constant|constant|lia|lia|vm_compute; reflexivity|lia|lia|vm_compute; reflexivity|done].
Qed.
Lemma upto_four x : upto 1 75 x → upto 4 75 (f64_mul (f64_of_u64 4) x).
Proof.
  intros Hx. change (f64_of_u64 4) with (S754_finite false 4503599627370496 (-50)).
  apply (upto_mul 1 75 4 0); [constant|lia..|vm_compute; reflexivity|done].
Qed.

(** What [clamp] leaves: a double between 50 and 2000. *)
Abbreviation fifty := (S754_finite false 7036874417766400 (-47)).
Abbreviation two_thousand := (S754_finite false 8796093022208000 (-42)).
Lemma fifty_range : canonical 7036874417766400 (-47)
  ∧ scaled 50 0 <= scaled 7036874417766400 (-47) <= scaled 125 4.
Proof. constant. Qed.
Lemma two_thousand_range : canonical 8796093022208000 (-42)
  ∧ scaled 50 0 <= scaled 8796093022208000 (-42) <= scaled 125 4.
Proof. constant. Qed.
Lemma not_below_fifty m e :
  canonical (Z.pos m) e → f64_lt (S754_finite false m e) fifty = false → scaled 50 0 <= scaled (Z.pos m) e.
Proof.
  intros Hc E. apply Z.nlt_ge. intros H. apply not_true_iff_false in E. apply E.
  apply canonical_lt; [exact Hc|apply fifty_range|]. eapply Z.lt_le_trans; [exact H|apply fifty_range].
Qed.
Lemma not_above_two_thousand m e :
  canonical (Z.pos m) e → f64_lt two_thousand (S754_finite false m e) = false →
  scaled (Z.pos m) e <= scaled 125 4.
Proof.
  intros Hc E. apply Z.nlt_ge. intros H. apply not_true_iff_false in E. apply E.
  apply canonical_lt; [apply two_thousand_range|exact Hc|]. eapply Z.le_lt_trans; [apply two_thousand_range|exact H].
Qed.
Lemma clamp_range b f x :
  upto b f x → ∃ m e, f64_clamp x MIN_RTO_MS (f64_of_u64 2000) = S754_finite false m e
    ∧ canonical (Z.pos m) e ∧ scaled 50 0 <= scaled (Z.pos m) e <= scaled 125 4.
Proof.
  change MIN_RTO_MS with fifty. change (f64_of_u64 2000) with two_thousand. intros Hx.
  unfold f64_clamp. destruct x as [s|s| |[] m e]; try (by destruct Hx).
  - eexists _, _. split; [done|apply fifty_range].
  - destruct Hx as (Hc & _). destruct (f64_lt _ fifty) eqn:E1; [eexists _, _; split; [done|apply fifty_range]|].
    destruct (f64_lt two_thousand _) eqn:E2; [eexists _, _; split; [done|apply two_thousand_range]|].
    exists m, e. split_and!; [done|done|by apply not_below_fifty|by apply not_above_two_thousand].
Qed.

(** Milliseconds to a [Duration]. *)
Lemma div_nearest_le num den n : 0 < den → num <= n * den → div_nearest num den <= n.
Proof.
  intros Hd Hn. unfold div_nearest.
  pose proof (Z.div_mod num den ltac:(lia)) as E. pose proof (Z.mod_pos_bound num den Hd).
  assert (num / den < n ∨ num / den = n ∧ num mod den = 0) as [|[-> ->]] by nia.
  - repeat case_match; lia.
  - change (2 * 0) with 0. rewrite (proj2 (Z.compare_lt_iff 0 den)) by done. lia.
Qed.
Lemma div_nearest_ge num den n : 0 < den → (2 * n - 1) * den < 2 * num → n <= div_nearest num den.
Proof.
  intros Hd Hn. unfold div_nearest.
  pose proof (Z.div_mod num den ltac:(lia)) as E. pose proof (Z.mod_pos_bound num den Hd).
  destruct (Z.compare_spec (2 * (num mod den)) den); [case_match|..]; nia.
Qed.
Lemma secs_range m e :
  canonical (Z.pos m) e → scaled 50 0 <= scaled (Z.pos m) e <= scaled 125 4 →
  ∃ d, from_secs_f64 (f64_div (S754_finite false m e) (f64_of_u64 1000)) = Ok d ∧ 50000000 <= d <= 2000000000.
Proof.
  intros Hc [Hlo Hhi]. rewrite thousand_eq. unfold f64_div, SFdiv. cbn [xorb].
  destruct (div_range (Z.pos m) e 8796093022208000 (-43) 125 4 125 3 1 1) as (q & k & l & p & j & -> & -> & Hp & Hj & Hv & Hlow);
    [done|lia|lia|constant|constant|vm_compute; reflexivity|lia|lia|done|vm_compute; reflexivity|].
  specialize (Hlow 1 56294995342131 (-50) ltac:(lia) ltac:(lia) ltac:(lia) ltac:(lia)).
  assert (scaled 56294995342131 (-50) <= scaled p j) as Hl.
  { apply Hlow. etrans; [|apply Z.mul_le_mono_nonneg_r; [apply Z.lt_le_incl, SCALE_pos|exact Hlo]].
    vm_compute. discriminate. }
  clear Hlow. destruct Hp as [->|Hp].
  { exfalso. revert Hl. vm_compute. auto. }
  assert (j <= -51) as Hj51.
  { destruct Hp as ([Hp0 _] & ? & [->|Hp]); [lia|]. pose proof (digits_spec p Hp0) as [Hd _].
    assert (53 <= digits p) as Hdp.
    { unfold digits. assert (52 <= Z.log2 p); [apply Z.log2_le_pow2; lia|lia]. }
    pose proof (scaled_exponents p j 1 1 1 ltac:(lia) Hd ltac:(lia) ltac:(lia) ltac:(lia) ltac:(lia) (proj2 Hv)). lia. }
  assert (0 < p) as Hp0 by apply Hp. destruct p as [|p|p]; [lia| |lia]. unfold double. rewrite (proj2 (Z.leb_le j 971)) by lia.
  cbn [from_secs_f64]. rewrite (proj2 (Z.leb_gt 0 j)) by lia.
  assert (0 < 2 ^ (- j)) as Hden by lia.
  (* the value on the grid of the result *)
  assert (Z.pos p <= 2 * 2 ^ (- j)) as Hup.
  { destruct Hv as [_ Hv]. replace 1 with (j + (1 - j)) in Hv at 2 by lia. rewrite scaled_shift, scaled_le in Hv by lia.
    replace (1 - j) with (1 + - j) in Hv by lia. rewrite Z.pow_add_r in Hv by lia. lia. }
  assert (56294995342131 * 2 ^ (- j) <= Z.pos p * 2 ^ 50) as Hdn.
  { replace (-50) with (j + (- j - 50)) in Hl by lia. rewrite scaled_shift, scaled_le in Hl by lia.
    replace (- j) with (- j - 50 + 50) by lia. rewrite Z.pow_add_r by lia. lia. }
  assert (50000000 <= div_nearest (Z.pos p * NANOS) (2 ^ (- j)) <= 2000000000) as Hd.
  { unfold NANOS. split; [apply div_nearest_ge|apply div_nearest_le]; try done; lia. }
  exists (div_nearest (Z.pos p * NANOS) (2 ^ (- j))). split; [|done].
  rewrite (proj2 (Z.ltb_lt _ _)); [done|]. unfold NANOS in *. lia.
Qed.

(** One sample. *)
Lemma update_rto_range d srtt rttvar :
  is_duration d → estimate_ok srtt rttvar →
  ∃ rto srtt' rttvar', update_rto (as_millis_f64 d) srtt rttvar = Ok (rto, srtt', rttvar')
  ∧ 50000000 <= rto <= 2000000000 ∧ estimate_ok srtt' rttvar'.
Proof.
  intros Hd [Hs Hv]. pose proof (as_millis_upto d Hd) as Hm. unfold update_rto.
  set (pair := match srtt with Some _ => _ | None => _ end).
  assert (∃ x v, pair = (Some x, v) ∧ upto 1 75 x ∧ upto 1 75 v) as (x & v & -> & Hx & Hv').
  { unfold pair. destruct srtt as [previous|].
    - specialize (Hs _ eq_refl). eexists _, _. split_and!; [done|..].
      + apply (upto_mono 8 72); [vm_compute; discriminate|].
        apply (upto_add 7 1); [constant|lia|lia|by apply upto_seven_eighths|by apply upto_eighth].
      + apply (upto_mono 4 73); [vm_compute; discriminate|].
        apply (upto_add 3 1); [constant|lia|lia|by apply upto_three_quarters|].
        apply upto_quarter, upto_distance; [constant|done..].
    - eexists _, _. split_and!; [done|done|].
      apply (upto_mono 1 74); [vm_compute; discriminate|by apply upto_half]. }
  change (default (as_millis_f64 d) (Some x)) with x.
  destruct (clamp_range 5 75 (f64_add x (f64_mul (f64_of_u64 4) v))) as (m & e & -> & Hc & Hr).
  { apply (upto_add 1 4); [constant|lia|lia|done|by apply upto_four]. }
  destruct (secs_range m e Hc Hr) as (rto & -> & Hrto). exists rto, (Some x), v.
  split_and!; [done|lia|lia|]. split; [by intros ? [= <-]|done].
Qed.

(** The timeouts after each of a sequence of round trips. *)
Fixpoint timeouts (trips : list Z) (srtt : option f64) (rttvar : f64) : Result (list Z) :=
  match trips with
  | [] => Ok []
  | d :: trips =>
      '(rto, srtt, rttvar) ← update_rto (as_millis_f64 d) srtt rttvar;
      rtos ← timeouts trips srtt rttvar;
      Ok (rto :: rtos)
  end.

(** C31. The retransmission timeout keeps its limits: whatever round trips are
    measured one after the other, however long (up to what a [Duration] can
    hold) and however many, the estimator never panics, and every timeout it
    computes is between 50 milliseconds and 2 seconds, to the nanosecond. *)
Theorem timeouts_in_range trips :
  Forall is_duration trips →
  ∃ rtos, timeouts trips None f64_zero = Ok rtos ∧ length rtos = length trips
    ∧ Forall (λ rto, 50000000 <= rto <= 2000000000) rtos.
Proof.
  intros Ht. pose proof estimate_none as He. revert He. generalize (@None f64), f64_zero.
  induction Ht as [|d trips Hd Ht IH]; intros srtt rttvar He; [by exists []|]. cbn [timeouts].
  destruct (update_rto_range d srtt rttvar Hd He) as (rto & srtt' & rttvar' & -> & Hr & He').
  destruct (IH _ _ He') as (rtos & E & El & Ef). cbn. rewrite E. exists (rto :: rtos).
  split_and!; [done|cbn; by rewrite El|by constructor].
Qed.

(** Ten milliseconds, three seconds, nothing, a year. *)
Lemma timeouts_in_range_witness :
  timeouts [10000000; 3000000000; 0; 31536000000000000] None f64_zero
    = Ok [50000000; 2000000000; 2000000000; 2000000000]
  ∧ Forall (λ rto, 50000000 <= rto <= 2000000000) [50000000; 2000000000; 2000000000; 2000000000].
Proof.
  assert (timeouts [10000000; 3000000000; 0; 31536000000000000] None f64_zero
    = Ok [50000000; 2000000000; 2000000000; 2000000000]) as E by (vm_compute; reflexivity).
  split; [exact E|].
  destruct (timeouts_in_range [10000000; 3000000000; 0; 31536000000000000]) as (rtos & E' & _ & H).
  - repeat constructor; vm_compute; done.
  - rewrite E in E'. injection E' as <-. exact H.
Defined.
