(* ===== verification/Delivery.v ===== *)
(** * Delivery over a lossy network: [send_payload] of [src/transport/udp.rs]

    [UdpSender] shows that a transfer that reports success was confirmed, and
    that it always ends. Here: it does succeed when the peer answers and the
    network loses no more than the retries allow. *)

From Stdlib Require Import Floats.SpecFloat.
From S2P Require Import Prelude.
From S2P Require Import Lists.
From S2P Require Import Bytes.
From S2P Require Import Float64.
From S2P Require Import Externals.
From S2P Require Import Block.
From S2P Require Import Config.
From S2P Require Import UdpWire.
From S2P Require Import UdpIo.
From S2P Require Import UdpSender.
From S2P Require Import Timeout.

(** [succeeds P m Q]: from a state of [P], [m] returns a value, without error
    or panic, and ends as [Q] says. *)
Definition succeeds {S A} (P : S → Prop) (m : SM S A) (Q : A → S → Prop) : Prop :=
  ∀ s, P s → ∃ a s', m s = (s', Ok a) ∧ Q a s'.
Lemma succeeds_bind {S A B} (P : S → Prop) (m : SM S A) (f : A → SM S B) Q R :
  succeeds P m Q → (∀ a, succeeds (Q a) (f a) R) → succeeds P (m ≫= f) R.
Proof.
  intros Hm Hf s Hs. destruct (Hm s Hs) as (a & s' & E & Ha). unfold mbind, SM_bind. rewrite E. by apply Hf.
Qed.
(** The same when the value is known, or known to satisfy [C]. *)
Lemma succeeds_bind_at {S A B} (P P' : S → Prop) (m : SM S A) x (f : A → SM S B) R :
  succeeds P m (λ a s, a = x ∧ P' s) → succeeds P' (f x) R → succeeds P (m ≫= f) R.
Proof.
  intros Hm Hf. eapply succeeds_bind; [exact Hm|]. intros a s [-> Hs]. by apply Hf.
Qed.
Lemma succeeds_bind_where {S A B} (P P' : S → Prop) (C : A → Prop) (m : SM S A) (f : A → SM S B) R :
  succeeds P m (λ a s, P' s ∧ C a) → (∀ a, C a → succeeds P' (f a) R) → succeeds P (m ≫= f) R.
Proof. intros Hm Hf. eapply succeeds_bind; [exact Hm|]. intros a s [Hs Ha]. by apply Hf. Qed.
Lemma succeeds_lift {S A B} (P : S → Prop) (x : Result A) a (f : A → SM S B) R :
  x = Ok a → succeeds P (f a) R → succeeds P (lift x ≫= f) R.
Proof. intros -> Hf s Hs. by apply Hf. Qed.
Lemma succeeds_gets {S A B} (P : S → Prop) (g : S → A) (f : A → SM S B) R :
  (∀ s0, P s0 → succeeds (λ s, P s ∧ g s = g s0) (f (g s0)) R) → succeeds P (gets g ≫= f) R.
Proof. intros Hf s Hs. by apply (Hf s Hs s). Qed.
Lemma succeeds_ret {S A} (P : S → Prop) (a : A) (Q : A → S → Prop) : (∀ s, P s → Q a s) → succeeds P (mret a) Q.
Proof. intros H s Hs. exists a, s. by split; [|apply H]. Qed.
Lemma succeeds_modify {S} (P : S → Prop) f (Q : unit → S → Prop) :
  (∀ s, P s → Q () (f s)) → succeeds P (modify f) Q.
Proof. intros H s Hs. eexists _, _. by split; [|apply H]. Qed.
Lemma succeeds_mono {S A} (P P' : S → Prop) (m : SM S A) (Q Q' : A → S → Prop) :
  succeeds P m Q → (∀ s, P' s → P s) → (∀ a s, Q a s → Q' a s) → succeeds P' m Q'.
Proof. intros Hm HP HQ s Hs. destruct (Hm s (HP s Hs)) as (a & s' & E & Ha). exists a, s'. auto. Qed.
(** [always P m]: [m] succeeds and stays in [P]. *)
Definition always {S A} (P : S → Prop) (m : SM S A) : Prop := succeeds P m (λ _, P).
Lemma always_bind {S A B} (P : S → Prop) (m : SM S A) (f : A → SM S B) R :
  always P m → (∀ a, succeeds P (f a) R) → succeeds P (m ≫= f) R.
Proof. intros Hm Hf. by eapply succeeds_bind. Qed.

Section Delivery.
Context `{BL : !Blake3, HM : !Hmac, BLL : !Blake3Laws, HML : !HmacLaws}.
Context (clock : Clock) (gso : nat → bool).
Context (config : Config) (destination : SocketAddr) (r : SendPayload) (out_of_fuel : string).

Abbreviation secret := (c_cluster_secret config).
Abbreviation payload_max := (c_udp_payload_bytes config).
Abbreviation max_retries := (c_udp_max_retries config).
Abbreviation count := (packet_count payload_max r).
(** Every datagram can be sent. *)
Definition no_error (_ : nat) : option string := None.

Context (config_valid : valid config).
(** What the caller hands over. *)
Record sendable : Prop := {
  se_payload : 0 < zlen (sp_payload r) <= c_chunk_bytes config;
  se_range : sp_offset r + zlen (sp_payload r) <= h_size (sp_handle r) <= U64_MAX;
}.
(** Between two readings of the clock with no wait in between, less than 10
    milliseconds pass: the task is not descheduled for longer than its shortest
    timeout. A wait, for a datagram or to pace, may take any time. *)
Record steady : Prop := {
  st_range : ∀ w n, is_duration (clock w n);
  st_step : ∀ w n, clock w (S n) < clock w n + 10000000;
}.
Context (ready : sendable) (timely : steady).

(** ** The state between the steps of a transfer *)
Record phase (w : Z) (acked : list bool) (inbox : list (option ReceivedBatch)) (s : Sender) : Prop := {
  ph_window : sd_window s = w;
  ph_acked : sd_acknowledged s = acked;
  ph_inbox : so_inbox (sd_socket s) = inbox;
  ph_rto : 10000000 <= sd_rto s;
  ph_estimate : estimate_ok (sd_srtt s) (sd_rttvar s);
}.

Lemma phase_stat w acked I f : always (phase w acked I) (stat f).
Proof. apply succeeds_modify. intros s []. by split. Qed.
Lemma phase_socket {A} w acked I (m : SM Socket A) :
  (∀ s, ∃ a s', m s = (s', Ok a) ∧ so_inbox s' = so_inbox s) → always (phase w acked I) (on_socket m).
Proof.
  intros Hm s [P1 P2 P3 P4 P5]. destruct (Hm (sd_socket s)) as (a & s' & E & Hi).
  unfold on_socket, act. rewrite E. eexists _, _. split; [done|]. split; try done. cbn. congruence.
Qed.
Lemma phase_now w acked I :
  succeeds (phase w acked I) (on_socket (now clock))
    (λ t s, phase w acked I s ∧ is_duration t ∧ ∃ n, so_ticks (sd_socket s) = S n ∧ t = clock (so_waits (sd_socket s)) n).
Proof.
  intros s [P1 P2 P3 P4 P5]. eexists _, _. split; [done|]. split_and!; [by split|apply timely|by eexists].
Qed.
Lemma phase_read w acked I :
  succeeds (phase w acked I) (on_socket (now clock)) (λ t s, phase w acked I s ∧ is_duration t).
Proof.
  eapply succeeds_mono; [apply phase_now|done|]. by intros t s (H1 & H2 & _).
Qed.
Lemma phase_elapsed w acked I start :
  0 <= start →
  succeeds (phase w acked I) (on_socket (elapsed_since clock start)) (λ d s, phase w acked I s ∧ is_duration d).
Proof.
  intros Hs s [P1 P2 P3 P4 P5]. eexists _, _. split; [done|]. split; [by split|].
  pose proof (st_range timely (so_waits (sd_socket s)) (so_ticks (sd_socket s))) as [H1 H2]. unfold is_duration, saturating_sub in *. lia.
Qed.
Lemma phase_sample w acked I d :
  is_duration d → always (phase w acked I) (sample_rtt (as_millis_f64 d)).
Proof.
  intros Hd s [P1 P2 P3 P4 P5]. unfold sample_rtt, act.
  destruct (update_rto_range d _ _ Hd P5) as (rto & srtt & rttvar & -> & Hr & He).
  eexists _, _. split; [done|]. split; try done. cbn. lia.
Qed.
Lemma phase_backoff w acked I : always (phase w acked I) (modify (λ s, s <| sd_rto ::= backoff |>)).
Proof.
  apply succeeds_modify. intros s []. split; try done. cbn. unfold backoff, RTO_MAX, NANOS. lia.
Qed.
Definition shrunk (announced w : Z) : Z := Z.min w (Z.max announced 2).
Lemma phase_shrink w acked I rw :
  succeeds (phase w acked I) (shrink_window rw) (λ _, phase (shrunk rw w) acked I).
Proof. apply succeeds_modify. intros s []. split; try done. cbn. unfold shrunk. congruence. Qed.
Lemma phase_receive w acked b I :
  succeeds (phase w acked (b :: I)) (on_socket receive) (λ b' s, b' = b ∧ phase w acked I s).
Proof.
  intros s [P1 P2 P3 P4 P5]. unfold on_socket, receive, act. rewrite P3. eexists _, _. split; [done|].
  split; [done|]. by split.
Qed.
Lemma sends_to d s : ∃ a s', send_to no_error destination d s = (s', Ok a) ∧ so_inbox s' = so_inbox s.
Proof. by eexists _, _. Qed.
Lemma sends_each ds : ∀ s, ∃ a s', send_each no_error destination ds s = (s', Ok a) ∧ so_inbox s' = so_inbox s.
Proof.
  induction ds as [|d ds IH]; intros s; [by eexists _, _|]. cbn [send_each]. unfold mbind, SM_bind.
  destruct (sends_to d s) as (? & s1 & -> & E1). destruct (IH s1) as (? & s2 & -> & E2).
  eexists _, _. split; [done|congruence].
Qed.
Lemma phase_send w acked I d : always (phase w acked I) (on_socket (send_to no_error destination d)).
Proof. apply phase_socket, sends_to. Qed.
Lemma phase_flush w acked I l k : always (phase w acked I) (flush no_error gso config destination l k).
Proof.
  apply phase_socket. intros s. unfold send_segmented, gets, mbind, SM_bind.
  case_match; [by eexists _, _|]. apply sends_each.
Qed.
Lemma phase_pace w acked I t i n : 0 <= t → always (phase w acked I) (pace clock t i n).
Proof.
  intros Ht. unfold pace. eapply succeeds_bind; [by apply phase_elapsed|]. intros d.
  apply (succeeds_mono (phase w acked I) _ _ (λ _, phase w acked I)); [|by intros s []|done].
  case_match; [|by apply succeeds_ret]. apply phase_socket. by eexists _, _.
Qed.

(** One step that keeps the phase. *)
Ltac stay := apply always_bind; [first [apply phase_stat|apply phase_send|apply phase_flush|by apply phase_pace
  |apply phase_backoff|by apply phase_sample]|intros _].

(** ** Acknowledgements *)

(** The packets before [base] are acknowledged, the others are not. *)
Definition acked_upto (base : Z) : list bool :=
  replicate (Z.to_nat base) true ++ replicate (Z.to_nat (count - base)) false.
Lemma acked_upto_lookup base (k : nat) :
  0 <= base <= count → acked_upto base !! k = if Z.of_nat k <? count then Some (Z.of_nat k <? base) else None.
Proof.
  intros Hb. unfold acked_upto. destruct (Z.ltb_spec (Z.of_nat k) base).
  - rewrite lookup_app_l by (rewrite length_replicate; lia). rewrite lookup_replicate_2 by lia.
    by rewrite (proj2 (Z.ltb_lt _ count)) by lia.
  - rewrite lookup_app_r by (rewrite length_replicate; lia). rewrite length_replicate.
    destruct (Z.ltb_spec (Z.of_nat k) count).
    + by rewrite lookup_replicate_2 by lia.
    + apply lookup_replicate_None. lia.
Qed.
Lemma acked_upto_length base : 0 <= base <= count → zlen (acked_upto base) = count.
Proof. intros Hb. unfold acked_upto. rewrite length_app, !length_replicate. lia. Qed.

Lemma mark_range_length lo hi base test acked : length (mark_range lo hi base test acked) = length acked.
Proof.
  unfold mark_range. generalize (seq 0 ACK_BITS). intros l. revert acked.
  induction l as [|i l IH]; intros acked; [done|]. cbn [foldl]. rewrite IH.
  case_match; [apply length_insert|done].
Qed.
Definition mark_one (lo hi base : Z) (test : nat → bool) (acked : list bool) (i : nat) : list bool :=
  if (lo <=? base + Z.of_nat i) && (base + Z.of_nat i <? hi) && test i
  then <[Z.to_nat (base + Z.of_nat i) := true]> acked else acked.
Lemma mark_one_mono lo hi base test l acked k :
  acked !! k = Some true → foldl (mark_one lo hi base test) acked l !! k = Some true.
Proof.
  revert acked. induction l as [|i l IH]; intros acked H; [done|]. cbn [foldl]. apply IH. unfold mark_one.
  case_match; [|done]. destruct (decide (k = Z.to_nat (base + Z.of_nat i))) as [->|Hne].
  - apply list_lookup_insert_eq. by eapply lookup_lt_Some.
  - by rewrite list_lookup_insert_ne.
Qed.
Lemma mark_range_sets lo hi base test acked (i : nat) :
  0 <= lo → (i < ACK_BITS)%nat → lo <= base + Z.of_nat i < hi → test i = true → hi <= zlen acked →
  mark_range lo hi base test acked !! Z.to_nat (base + Z.of_nat i) = Some true.
Proof.
  intros Hlo Hi Hr Ht Hlen. assert (i ∈ seq 0 ACK_BITS) as Hin by (apply elem_of_seq; lia).
  change (foldl (mark_one lo hi base test) acked (seq 0 ACK_BITS) !! Z.to_nat (base + Z.of_nat i) = Some true).
  revert acked Hlen Hin. generalize (seq 0 ACK_BITS). intros l.
  induction l as [|j l IH]; intros acked Hlen Hin; [by apply elem_of_nil in Hin|]. cbn [foldl].
  apply elem_of_cons in Hin as [<-|Hin].
  - apply mark_one_mono. unfold mark_one. rewrite (proj2 (Z.leb_le lo _)), (proj2 (Z.ltb_lt _ hi)), Ht by lia.
    apply list_lookup_insert_eq. lia.
  - apply IH; [|done]. unfold mark_one. case_match; [by rewrite length_insert|done].
Qed.

(** A packet of the peer, alone in its batch. *)
Definition delivers (b : option ReceivedBatch) (p : Packet) : Prop :=
  ∃ d, b = Some (mkBatch [d] destination) ∧ decode d secret = Ok p ∧ transfer_id p = sp_transfer_id r.
(** An acknowledgement of the packets from [base] to [finish] and of none
    beyond, with a receive window. *)
Definition reports (p : Packet) (base finish rw : Z) : Prop :=
  kind p = Ack ∧ ∃ ack_base bitmap, parse_bitmap (payload p) = Ok (ack_base, bitmap, rw) ∧ 0 <= ack_base
  ∧ (∀ k, base <= k < finish → ∃ i : nat, k = ack_base + Z.of_nat i ∧ bitmap_contains bitmap i = true)
  ∧ (∀ i : nat, bitmap_contains bitmap i = true → ack_base + Z.of_nat i < finish).

Lemma mark_reported ack_base bitmap base finish :
  0 <= base <= finish → finish <= count → 0 <= ack_base →
  (∀ k, base <= k < finish → ∃ i : nat, k = ack_base + Z.of_nat i ∧ bitmap_contains bitmap i = true) →
  (∀ i : nat, bitmap_contains bitmap i = true → ack_base + Z.of_nat i < finish) →
  mark_range 0 count ack_base (bitmap_contains bitmap) (acked_upto base) = acked_upto finish.
Proof.
  intros Hb Hf Ha Hall Hnone. apply list_eq. intros k.
  pose proof (mark_range_length 0 count ack_base (bitmap_contains bitmap) (acked_upto base)) as Hlen.
  pose proof (acked_upto_length base ltac:(lia)) as Hlb. rewrite (acked_upto_lookup finish) by lia.
  destruct (Z.ltb_spec (Z.of_nat k) count) as [Hk|Hk]; [|apply lookup_ge_None_2; lia].
  assert (∃ x, mark_range 0 count ack_base (bitmap_contains bitmap) (acked_upto base) !! k = Some x) as [x Hx].
  { apply lookup_lt_is_Some_2. lia. }
  rewrite Hx. f_equal. destruct (Z.ltb_spec (Z.of_nat k) finish) as [Hkf|Hkf].
  - destruct (Z.ltb_spec (Z.of_nat k) base) as [Hkb|Hkb].
    + rewrite (mark_range_mono 0 count ack_base (bitmap_contains bitmap) (acked_upto base) k) in Hx; [congruence|].
      rewrite acked_upto_lookup, (proj2 (Z.ltb_lt _ count)), (proj2 (Z.ltb_lt _ base)) by lia. done.
    + destruct (Hall (Z.of_nat k) ltac:(lia)) as (i & E & Hi).
      assert (i < ACK_BITS)%nat as Hbits. { unfold bitmap_contains in Hi. bprop. by apply Nat.ltb_lt. }
      pose proof (mark_range_sets 0 count ack_base (bitmap_contains bitmap) (acked_upto base) i
        ltac:(lia) Hbits ltac:(lia) Hi ltac:(lia)) as Hm.
      rewrite <-E, Nat2Z.id in Hm. congruence.
  - destruct x; [|done]. apply mark_range_lookup in Hx as [Hx|(i & _ & E & Hi)]; [|specialize (Hnone i Hi); lia|lia].
    rewrite acked_upto_lookup in Hx by lia. rewrite (proj2 (Z.ltb_lt _ count)) in Hx by lia.
    injection Hx as Hx. bprop. lia.
Qed.

(** ** The handshake *)

Lemma sends_packet p : zlen (payload p) <= 1200 → ∃ w, encode secret p = Ok w.
Proof.
  intros Hp. eexists. apply encode_Ok. split; [|done]. unfold HEADER_LEN, MAX_DATAGRAM. lia.
Qed.
(** The window after [START_ACK]. *)
Definition accepted_window (p : Packet) (w : Z) : Z :=
  if zlen (payload p) =? 2 then shrunk (be_val (payload p)) w else w.
Lemma phase_start_reply w I d p retries started :
  decode d secret = Ok p → transfer_id p = sp_transfer_id r → kind p = StartAck → 0 <= started →
  succeeds (phase w [] I) (start_reply clock config r retries started d)
    (λ b s, b = true ∧ phase (accepted_window p w) [] I s).
Proof.
  intros Hd Ht Hk Hs. unfold start_reply. eapply succeeds_lift; [done|]. stay.
  rewrite Ht, Z.eqb_refl, Hk, bool_decide_true by done. cbn [andb]. stay.
  eapply (succeeds_bind _ _ _ (λ _, phase (accepted_window p w) [] I)).
  { unfold accepted_window. destruct (zlen (payload p) =? 2); [apply phase_shrink|by apply succeeds_ret]. }
  intros _. cbv beta. apply always_bind.
  { destruct (retries =? 0); [|by apply succeeds_ret].
    eapply succeeds_bind_where; [by apply phase_elapsed|]. intros e He. cbv zeta. stay. apply phase_stat. }
  intros _. by apply succeeds_ret.
Qed.
Lemma from_peer_own d : from_peer destination (Some (mkBatch [d] destination)) = Some [d].
Proof. cbn. by rewrite bool_decide_true. Qed.

Lemma handshake_succeeds b p w I wire started lost : ∀ retries fuel,
  delivers b p → kind p = StartAck → 0 <= started → 0 <= retries → retries + Z.of_nat lost <= max_retries →
  (lost < fuel)%nat →
  succeeds (phase w [] (replicate lost None ++ b :: I))
    (handshake clock no_error config destination r out_of_fuel fuel wire started retries)
    (λ _, phase (accepted_window p w) [] I).
Proof.
  induction lost as [|lost IH]; intros retries fuel Hb Hk Hs Hr Hm Hf;
    (destruct fuel as [|fuel]; [lia|]); cbn [handshake replicate app]; do 2 stay;
    (eapply succeeds_bind_at; [apply phase_receive|]).
  - destruct Hb as (d & -> & Hd & Ht). rewrite from_peer_own.
    apply (succeeds_bind_at _ (phase (accepted_window p w) [] I) _ true); [|by apply succeeds_ret].
    cbn [until_break]. eapply succeeds_bind_at; [by apply (phase_start_reply w I d p)|]. by apply succeeds_ret.
  - cbn [from_peer]. stay. apply (succeeds_lift _ _ ()); [apply ensure_Ok, Z.leb_le; lia|]. stay.
    apply IH; done || lia.
Qed.

(** ** The packets of a round *)

Lemma count_bounds : 0 < count ∧ (count - 1) * payload_max < zlen (sp_payload r) ∧ count < 2 ^ 32.
Proof.
  destruct ready as [[Hp Hc] _]. destruct config_valid.
  pose proof (proj1 (div_ceil_spec (zlen (sp_payload r)) payload_max count ltac:(lia) ltac:(lia)) eq_refl).
  split_and!; nia.
Qed.
Lemma data_fits k : zlen (payload (data_packet payload_max r k)) <= 1200.
Proof. destruct config_valid. cbn. unfold data_payload. rewrite length_take. lia. Qed.
Lemma phase_send_packets w base I round t interval sequences : ∀ encoded segments sent paced,
  0 <= t → 0 <= base <= count → Forall (λ k, 0 <= k < count) sequences →
  always (phase w (acked_upto base) I)
    (send_packets clock no_error gso config destination r round t interval sequences encoded segments sent paced).
Proof.
  intros encoded segments sent paced Ht Hb Hs. revert encoded segments sent paced.
  induction Hs as [|k sequences Hk Hs IH]; intros encoded segments sent paced; cbn [send_packets].
  - apply always_bind; [destruct (0 <? segments); [apply phase_flush|by apply succeeds_ret]|]. intros _.
    destruct (negb _); [by apply phase_pace|by apply succeeds_ret].
  - apply succeeds_gets. intros s0 H0. eapply succeeds_mono; [|by intros s [H _]; exact H|by intros a s H; exact H].
    rewrite (ph_acked _ _ _ _ H0), acked_upto_lookup, (proj2 (Z.ltb_lt _ count)) by lia.
    eapply succeeds_lift; [done|]. destruct (_ <? base); [apply IH|].
    eapply succeeds_lift; [unfold try_u32; by rewrite (proj2 (Z.ltb_lt _ _)) by (pose proof count_bounds; lia)|].
    destruct (sends_packet (data_packet payload_max r k) (data_fits k)) as [wire Hw].
    eapply succeeds_lift; [exact Hw|]. stay.
    apply always_bind; [destruct (0 <? round); [stay|]; apply phase_stat|]. intros _.
    destruct (segments + 1 =? _); [stay; stay; apply IH|apply IH].
Qed.

(** ** Rounds *)

Lemma slice_acked base finish :
  0 <= base < finish → finish <= count →
  (∃ l, slice base finish (acked_upto base) = Some l ∧ existsb negb l = true)
  ∧ (∃ l, slice base finish (acked_upto finish) = Some l ∧ existsb negb l = false).
Proof.
  intros Hb Hf. pose proof (acked_upto_length base ltac:(lia)). pose proof (acked_upto_length finish ltac:(lia)).
  destruct (slice_is_Some base finish (acked_upto base)) as [l1 H1]; [lia..|].
  destruct (slice_is_Some base finish (acked_upto finish)) as [l2 H2]; [lia..|].
  split; [exists l1|exists l2]; (split; [done|]).
  - unfold slice in H1. case_match; [|done]. injection H1 as <-. apply existsb_exists. exists false. split; [|done].
    apply list_elem_of_In, list_elem_of_lookup. exists 0%nat.
    rewrite lookup_take_lt, lookup_drop, Nat.add_0_r by lia. rewrite acked_upto_lookup, Z2Nat.id by lia.
    by rewrite (proj2 (Z.ltb_lt _ count)), Z.ltb_irrefl by lia.
  - unfold slice in H2. case_match; [|done]. injection H2 as <-. apply not_true_iff_false.
    intros (x & Hx & Hn)%existsb_exists. apply list_elem_of_In, list_elem_of_lookup in Hx as [i Hi].
    apply lookup_take_Some in Hi as [Hi Hlt]. rewrite lookup_drop, acked_upto_lookup in Hi by lia.
    rewrite (proj2 (Z.ltb_lt _ count)), (proj2 (Z.ltb_lt _ finish)) in Hi by lia. by injection Hi as <-.
Qed.
Lemma phase_unacknowledged w base finish acked I l :
  slice base finish acked = Some l →
  succeeds (phase w acked I) (unacknowledged base finish) (λ b s, b = existsb negb l ∧ phase w acked I s).
Proof.
  intros Hl s Hs. unfold unacknowledged, gets, mbind, SM_bind, lift. rewrite (ph_acked _ _ _ _ Hs), Hl.
  by eexists _, _.
Qed.

(** A round that has just read the clock, with its timeout. *)
Definition timed (w : Z) (acked : list bool) (I : list (option ReceivedBatch)) (v n : nat) (rto : Z) (s : Sender) : Prop :=
  phase w acked I s ∧ so_waits (sd_socket s) = v ∧ so_ticks (sd_socket s) = S n ∧ sd_rto s = rto.
Lemma timed_now w acked I v n rto :
  succeeds (timed w acked I v n rto) (on_socket (now clock)) (λ t s, t = clock v (S n) ∧ phase w acked I s).
Proof.
  intros s ([P1 P2 P3 P4 P5] & Hv & Ht & _). eexists _, _. split; [done|]. cbn. split; [by rewrite Hv, Ht|by split].
Qed.
Lemma timed_in_time w acked I v n rto s : timed w acked I v n rto s → (clock v (S n) <? clock v n + rto) = true.
Proof. intros ([_ _ _ Hr _] & _ & _ & <-). apply Z.ltb_lt. pose proof (st_step timely v n). lia. Qed.

Lemma timed_start {A} (f : Z → SM Sender A) w acked I R :
  (∀ v n rto, succeeds (timed w acked I v n rto) (f (clock v n)) R) →
  succeeds (phase w acked I) (on_socket (now clock) ≫= f) R.
Proof.
  intros Hf. eapply succeeds_bind; [apply phase_now|]. intros t s (Hs & _ & n & Hn & ->).
  by apply (Hf _ n (sd_rto s)).
Qed.
Lemma timed_rto {A} (f : Z → SM Sender A) w acked I v n rto R :
  succeeds (timed w acked I v n rto) (f rto) R → succeeds (timed w acked I v n rto) (gets sd_rto ≫= f) R.
Proof. intros Hf s Hs. pose proof Hs as (_ & _ & _ & E). unfold gets, mbind, SM_bind. rewrite E. by apply Hf. Qed.
Lemma timed_inbox {A} (f : nat → SM Sender A) w acked I v n rto R :
  succeeds (timed w acked I v n rto) (f (length I)) R →
  succeeds (timed w acked I v n rto) (gets (λ s, length (so_inbox (sd_socket s))) ≫= f) R.
Proof.
  intros Hf s Hs. pose proof Hs as (Hp & _). unfold gets, mbind, SM_bind. rewrite (ph_inbox _ _ _ _ Hp). by apply Hf.
Qed.

(** The first wait of a round: the clock is read, a packet is missing. *)
Lemma receive_starts {A} (f : bool → SM Sender A) w base finish I v n rto R :
  0 <= base < finish → finish <= count →
  succeeds (phase w (acked_upto base) I) (f true) R →
  succeeds (timed w (acked_upto base) I v n rto)
    (t ← on_socket (now clock);
     missing ← (if t <? clock v n + rto then unacknowledged base finish else mret false);
     f missing) R.
Proof.
  intros Hb Hf Hk s Hs. pose proof (timed_in_time _ _ _ _ _ _ _ Hs) as Hlt. revert s Hs.
  assert (∀ s, timed w (acked_upto base) I v n rto s → timed w (acked_upto base) I v n rto s) as H by done.
  destruct (slice_acked base finish Hb Hf) as [(l & Hl & He) _].
  eapply (succeeds_bind_at _ _ _ _ _ _ (timed_now w (acked_upto base) I v n rto)). rewrite Hlt.
  eapply succeeds_bind_at; [by apply phase_unacknowledged|]. by rewrite He.
Qed.

Lemma receive_lost fuel round started w base finish I v n rto :
  0 <= base < finish → finish <= count →
  succeeds (timed w (acked_upto base) (None :: I) v n rto)
    (receive_round clock config destination r out_of_fuel (S fuel) round started (clock v n + rto) base finish false)
    (λ _, phase w (acked_upto base) I).
Proof.
  intros Hb Hf. cbn [receive_round]. apply receive_starts; [done..|].
  eapply succeeds_bind_where; [apply phase_read|]. intros _ _.
  eapply succeeds_bind_at; [apply phase_receive|]. by apply succeeds_ret.
Qed.

Lemma phase_round_reply round started w base finish I d p rw :
  0 <= started → 0 <= base < finish → finish <= count →
  decode d secret = Ok p → transfer_id p = sp_transfer_id r → reports p base finish rw →
  succeeds (phase w (acked_upto base) I) (round_reply clock config r round started base finish false d)
    (λ x s, x = (false, round =? 0) ∧ phase (shrunk rw w) (acked_upto finish) I s).
Proof.
  intros Hs Hb Hf Hd Ht (Hk & ack_base & bitmap & Hp & Ha & Hall & Hnone). unfold round_reply.
  eapply succeeds_lift; [done|]. stay. rewrite Ht, Z.eqb_refl, Hk. cbn [negb].
  rewrite bool_decide_false, bool_decide_true by done. eapply succeeds_lift; [done|].
  eapply succeeds_bind; [apply phase_shrink|]. intros ?. cbv beta. stay. apply always_bind.
  { destruct (_ && _); [|by apply succeeds_ret].
    eapply succeeds_bind_where; [by apply phase_elapsed|]. intros e He. cbv zeta. stay.
    apply succeeds_modify. intros s []. by split. }
  intros _. apply (succeeds_bind _ _ _ (λ _, phase (shrunk rw w) (acked_upto finish) I)).
  - apply succeeds_modify. intros s []. split; try done. cbn. rewrite ph_acked0. apply mark_reported; done || lia.
  - intros _. by apply succeeds_ret.
Qed.
Lemma receive_acked fuel round started w base finish I v n rto b p rw :
  0 <= started → 0 <= base < finish → finish <= count → delivers b p → reports p base finish rw →
  succeeds (timed w (acked_upto base) (b :: I) v n rto)
    (receive_round clock config destination r out_of_fuel (S (S fuel)) round started (clock v n + rto) base finish false)
    (λ _, phase (shrunk rw w) (acked_upto finish) I).
Proof.
  intros Hst Hb Hf (d & -> & Hd & Ht) Hr. cbn [receive_round]. apply receive_starts; [done..|].
  eapply succeeds_bind_where; [apply phase_read|]. intros _ _.
  eapply succeeds_bind_at; [apply phase_receive|]. cbn [ba_source ba_datagrams]. rewrite bool_decide_true by done.
  apply (succeeds_bind _ _ _ (λ _, phase (shrunk rw w) (acked_upto finish) I)).
  { cbn [round_batch]. eapply succeeds_bind_at; [by eapply phase_round_reply|]. by apply succeeds_ret. }
  intros sampled. eapply succeeds_bind_where; [apply phase_read|]. intros t _.
  destruct (slice_acked base finish Hb Hf) as [_ (l & Hl & He)].
  apply (succeeds_bind_at _ (phase (shrunk rw w) (acked_upto finish) I) _ false); [|by apply succeeds_ret].
  destruct (t <? _); [|by apply succeeds_ret]. rewrite <-He. by apply phase_unacknowledged.
Qed.

(** The end of a round, and the round: what is received decides. *)
Definition halved (w : Z) : Z := Z.max (w / 2) 2.
Definition after_round (round w : Z) : Z := if 1 <? round + 1 then halved w else w.
Lemma one_round_succeeds base finish round w I w' acked' :
  0 <= base < finish → finish <= count → round + 1 <= max_retries →
  (∀ started v n rto, 0 <= started →
     succeeds (timed w (acked_upto base) I v n rto)
       (receive_round clock config destination r out_of_fuel (S (length I)) round started (clock v n + rto) base finish false)
       (λ _, phase w' acked' (tail I))) →
  succeeds (phase w (acked_upto base) I)
    (one_round clock no_error gso config destination r out_of_fuel base finish round)
    (λ _, phase (after_round round w') acked' (tail I)).
Proof.
  intros Hb Hf Hr Hrec. unfold one_round. eapply succeeds_bind_where; [apply phase_read|]. intros started [Hs _].
  apply always_bind.
  { apply phase_send_packets; [done|lia|]. apply Forall_forall. intros k Hk%elem_of_seqZ. lia. }
  intros _. apply timed_start. intros v n rto. apply timed_rto. apply timed_inbox.
  eapply succeeds_bind; [by apply Hrec|]. intros ?. cbv beta.
  apply (succeeds_lift _ _ ()); [apply ensure_Ok, Z.leb_le; lia|]. unfold after_round.
  destruct (1 <? round + 1); [|by apply succeeds_ret].
  apply succeeds_modify. intros s []. split; try done; cbn; [by rewrite ph_window0|].
  unfold backoff, RTO_MAX, NANOS. lia.
Qed.

(** Rounds whose answers are lost, then one that is answered. *)
Fixpoint window_after (lost : nat) (round w rw : Z) : Z :=
  match lost with
  | O => after_round round (shrunk rw w)
  | S lost => window_after lost (round + 1) (after_round round w) rw
  end.
Lemma rounds_succeed b p rw base finish I lost : ∀ fuel round w,
  0 <= base < finish → finish <= count → delivers b p → reports p base finish rw →
  0 <= round → round + Z.of_nat lost < max_retries → (lost + 1 < fuel)%nat →
  succeeds (phase w (acked_upto base) (replicate lost None ++ b :: I))
    (rounds clock no_error gso config destination r out_of_fuel fuel base finish round)
    (λ _, phase (window_after lost round w rw) (acked_upto finish) I).
Proof.
  induction lost as [|lost IH]; intros fuel round w Hb Hf Hd Hr Hrd Hm Hfuel;
    (destruct fuel as [|fuel]; [lia|]); cbn [rounds];
    destruct (slice_acked base finish Hb Hf) as [(l & Hl & He) (l' & Hl' & He')];
    (eapply succeeds_bind_at; [by apply phase_unacknowledged|]); rewrite He.
  - eapply succeeds_bind.
    { apply (one_round_succeeds base finish round w (b :: I) (shrunk rw w) (acked_upto finish)); [done..|lia|].
      intros started v n rto Hs. by eapply receive_acked. }
    intros ?. cbv beta. destruct fuel as [|fuel]; [lia|]. cbn [rounds].
    eapply succeeds_bind_at; [by apply phase_unacknowledged|]. rewrite He'. by apply succeeds_ret.
  - eapply succeeds_bind.
    { apply (one_round_succeeds base finish round w (None :: replicate lost None ++ b :: I) w (acked_upto base));
        [done..|lia|]. intros started v n rto Hs. by apply receive_lost. }
    intros ?. cbv beta. apply IH; done || lia.
Qed.

(** ** Windows, and the end *)

(** What arrives while the windows from [base] on are sent, the current one
    of [w] packets: for each, some receives that yield nothing, fewer than the
    retries, and an acknowledgement of the whole window. *)
Inductive served : Z → Z → list (option ReceivedBatch) → list (option ReceivedBatch) → Prop :=
| served_all w I : served count w I I
| served_window base w lost b p rw I rest :
    base < count → Z.of_nat lost < max_retries →
    delivers b p → reports p base (Z.min (base + w) count) rw →
    served (Z.min (base + w) count) (window_after lost 0 w rw) I rest →
    served base w (replicate lost None ++ b :: I) rest.

Lemma after_round_min round w : 2 <= w → 2 <= after_round round w.
Proof. unfold after_round, halved. case_match; lia. Qed.
Lemma window_after_min lost rw : ∀ round w, 2 <= w → 2 <= window_after lost round w rw.
Proof.
  induction lost as [|lost IH]; intros round w Hw; cbn [window_after].
  - apply after_round_min. unfold shrunk. lia.
  - by apply IH, after_round_min.
Qed.
Lemma windows_succeed base w I rest :
  served base w I rest → ∀ fuel, 2 <= w → 0 <= base <= count → count - base < Z.of_nat fuel →
  succeeds (phase w (acked_upto base) I)
    (windows clock no_error gso config destination r out_of_fuel fuel base)
    (λ _ s, ∃ w', phase w' (acked_upto count) rest s).
Proof.
  induction 1 as [w I|base w lost b p rw I rest Hlt Hlost Hb Hr _ IH]; intros fuel Hw Hbase Hfuel;
    (destruct fuel as [|fuel]; [lia|]); cbn [windows].
  - rewrite Z.ltb_irrefl. apply succeeds_ret. eauto.
  - rewrite (proj2 (Z.ltb_lt _ _)) by done. apply succeeds_gets. intros s0 H0. rewrite (ph_window _ _ _ _ H0).
    eapply succeeds_mono; [|by intros s [H _]; exact H|by intros a s H; exact H].
    eapply succeeds_bind; [eapply (rounds_succeed b p rw _ _ I lost); done || lia|].
    intros ?. cbv beta. apply IH; [by apply window_after_min|lia|lia].
Qed.

Lemma finish_succeeds b p wire started lost : ∀ n first w acked I,
  delivers b p → kind p = Complete → 0 <= started → (lost < n)%nat →
  succeeds (phase w acked (replicate lost None ++ b :: I))
    (finish_attempts clock no_error config destination r n first wire started)
    (λ _ s, so_inbox (sd_socket s) = I).
Proof.
  induction lost as [|lost IH]; intros n first w acked I Hb Hk Hs Hn;
    (destruct n as [|n]; [lia|]); cbn [finish_attempts replicate app]; do 2 stay;
    (apply always_bind; [destruct first; [by apply succeeds_ret|apply phase_stat]|]); intros _;
    (eapply succeeds_bind_at; [apply phase_receive|]).
  - destruct Hb as (d & -> & Hd & Ht). rewrite from_peer_own.
    apply (succeeds_bind_at _ (phase w acked I) _ true).
    { cbn [until_break]. apply (succeeds_bind_at _ (phase w acked I) _ true); [|by apply succeeds_ret].
      unfold fin_reply. eapply succeeds_lift; [done|]. stay. rewrite Ht, Z.eqb_refl, Hk, bool_decide_true by done.
      cbn [andb]. stay. by apply succeeds_ret. }
    eapply succeeds_bind_where; [by apply phase_elapsed|]. intros e _.
    apply (succeeds_bind _ _ _ (λ _ s, so_inbox (sd_socket s) = I)).
    { apply succeeds_modify. by intros s []. }
    intros ? s H. by eexists _, _.
  - cbn [from_peer]. apply (succeeds_bind_at _ (phase w acked (replicate lost None ++ b :: I)) _ false); [by apply succeeds_ret|].
    stay. apply IH; done || lia.
Qed.

End Delivery.

(** ** A transfer through losses *)
Import Toy.
Module Lossy.
(** The offer, the data and the end are lost, the last one twice. Every wait
    takes a second. *)
Definition clock : Clock := λ waits readings, Z.min (Z.of_nat waits * 1000000000 + Z.of_nat readings * 1000) (2 ^ 62).
Definition from_peer (k : Kind) (bytes : list byte) : Packet := mkPacket k 0 3 9 5 77 1 0 0 8 bytes.
Definition socket : Socket := new_socket
  [None; Witness.reply StartAck []; None; Witness.reply Ack Witness.ack; None; None; Witness.reply Complete []].

Lemma is_sendable : sendable Witness.config Witness.request.
Proof. by split. Qed.
Lemma is_steady : steady clock.
Proof. split; intros; unfold is_duration, clock, NANOS; lia. Qed.
Lemma arrives k bytes :
  match encode (Some "key"%string) (from_peer k bytes) with
  | Ok d => bool_decide (decode d (Some "key"%string) = Ok (from_peer k bytes))
  | _ => false
  end = true →
  delivers Witness.config Witness.peer Witness.request (Witness.reply k bytes) (from_peer k bytes).
Proof.
  unfold Witness.reply, delivers. change (mkPacket k 0 3 9 5 77 1 0 0 8 bytes) with (from_peer k bytes).
  destruct (encode _ _) as [d| |]; [|done..]. intros H%bool_decide_eq_true. by exists d.
Qed.
Lemma acknowledges : reports (from_peer Ack Witness.ack) 0 1 256.
Proof.
  split; [done|]. exists 0, (x01 :: replicate 31 x00). split; [vm_refl|]. split; [done|]. split.
  - intros k Hk. assert (k = 0) as -> by lia. by exists 0%nat.
  - intros i Hi. destruct i as [|i]; [done|]. exfalso.
    assert (forallb (λ i, negb (bitmap_contains (x01 :: replicate 31 x00) i)) (seq 1 255) = true) as H by vm_refl.
    rewrite forallb_forall in H. specialize (H (S i)). rewrite Hi in H.
    assert (S i < 256)%nat. { unfold bitmap_contains in Hi. apply andb_true_iff in Hi as [Hl%Nat.ltb_lt _]. exact Hl. }
    discriminate H. apply in_seq. lia.
Qed.
End Lossy.

