(* ===== verification/UdpReader.v ===== *)
(** * The UDP data plane, reading side: [src/transport/udp.rs]

    [read] asks the owner of a block for a range and [receive_payload] puts
    the packets of the answer together, acknowledges them and checks the
    digest announced in [START]. *)

From S2P Require Import Prelude.
From S2P Require Import Lists.
From S2P Require Import Bytes.
From S2P Require Import Float64.
From S2P Require Import Externals.
From S2P Require Import Block.
From S2P Require Import Config.
From S2P Require Import UdpWire.
From S2P Require Import UdpIo.
From S2P Require Import UdpSender.

Create HintDb reader.

(** The variables of [receive_payload]. *)
Record Reader := mkReader {
  rv_stats : TransferStats;
  rv_buffer : list byte;
  rv_received : list bool;
  rv_received_count : Z;
  rv_last_sequence : option Z;
  rv_socket : Socket;
}.
#[export] Instance eta_Reader : Eta Reader := λ r,
  mkReader (rv_stats r) (rv_buffer r) (rv_received r) (rv_received_count r) (rv_last_sequence r)
    (rv_socket r).

Definition with_socket {A} (m : SM Socket A) : SM Reader A := act (λ s,
  (s <| rv_socket := (m (rv_socket s)).1 |>, (m (rv_socket s)).2)).
Definition rv_stat (f : TransferStats → TransferStats) : SM Reader unit :=
  modify (λ s, s <| rv_stats ::= f |>).
Abbreviation count_one f := (rv_stat (set f (λ x, x +w 1))).

Section Reader.
Context `{BL : !Blake3, HM : !Hmac}.
Context (clock : Clock) (send_error : nat → option string).
Context (config : Config) (handle : MemoryBlockHandle).
(** What a loop that used up its fuel would return; no run depends on it. *)
Context (out_of_fuel : string).
Abbreviation secret := (c_cluster_secret config).

(** [Packet::for_handle(kind, handle, transfer_id)] with a payload. *)
Definition answer (k : Kind) (transfer : Uuid) (payload : list byte) : Packet :=
  (for_handle k handle transfer) <| UdpWire.payload := payload |>.
Definition reply_to (source : SocketAddr) (p : Packet) : SM Reader unit :=
  wire ← lift (encode secret p);
  with_socket (send_to send_error source wire);;
  count_one datagrams_sent.

Section Payload.
(** Where the offer came from, the offer, and when the read started. *)
Context (source : SocketAddr) (start : Packet) (started : Z).
Abbreviation packet_count := (sequence_id start).
Definition announced_digest : list byte := drop 8 (payload start).

(** [Kind::Data]: the sequence number to acknowledge, if there is one. *)
Definition read_data (coalesced : bool) (p : Packet) (ack : option Z) : SM Reader (option Z) :=
  let sequence := sequence_id p in
  ensureM (sequence <? packet_count) "UDP sequence outside transfer";;
  let begin := sequence * c_udp_payload_bytes config in
  buffer ← gets rv_buffer;
  ensureM (begin + zlen (payload p) <=? zlen buffer) "UDP data range invalid";;
  received ← gets rv_received;
  seen ← lift (unwrap (received !! Z.to_nat sequence));
  if (seen : bool) then
    count_one duplicate_datagrams;;
    mret (Some sequence)
  else
    last ← gets rv_last_sequence;
    (match last with
     | Some previous => if sequence <? previous then count_one out_of_order_datagrams else mret ()
     | None => mret ()
     end);;
    buffer ← lift (unwrap (splice begin (payload p) buffer));
    modify (λ s, s <| rv_buffer := buffer |>
                   <| rv_received ::= <[Z.to_nat sequence := true]> |>
                   <| rv_received_count ::= λ n, n + 1 |>);;
    rv_stat (set payload_bytes (λ x, x +w zlen (payload p)));;
    modify (λ s, s <| rv_last_sequence := Some sequence |>);;
    count ← gets rv_received_count;
    mret (if coalesced || (count mod 8 =? 0) || (count =? packet_count) then Some sequence else ack).

(** [Kind::Fin] once every packet came. *)
Definition read_complete (p : Packet) : SM Reader (list byte * TransferStats) :=
  ensureM (bool_decide (payload p = announced_digest)) "UDP FIN checksum changed";;
  buffer ← gets rv_buffer;
  ensureM (bool_decide (blake3_hash buffer = announced_digest)) "TRAINPOOL_CHECKSUM_MISMATCH: UDP transfer";;
  reply_to source (answer Complete (transfer_id start) []);;
  count_one ack_count;;
  elapsed ← with_socket (elapsed_since clock started);
  rv_stat (set elapsed_ms (λ _, as_millis_f64 elapsed));;
  stats ← gets rv_stats;
  mret (buffer, stats).

(** [Kind::Fin] while packets are missing. *)
Definition read_missing : SM Reader unit :=
  received ← gets rv_received;
  reply_to source (answer Nack (transfer_id start)
    (bitmap_payload 0 (negb <$> received) (c_udp_window_packets config)));;
  count_one nack_count.

(** The packets of a batch; [inl] is a [return]. *)
Fixpoint read_batch (coalesced : bool) (ack : option Z) (ds : list (list byte))
    : SM Reader (list byte * TransferStats + option Z) :=
  match ds with
  | [] => mret (inr ack)
  | d :: ds =>
      p ← lift (decode d secret);
      count_one datagrams_received;;
      if negb (transfer_id p =? transfer_id start) then read_batch coalesced ack ds
      else match kind p with
      | Data => ack ← read_data coalesced p ack; read_batch coalesced ack ds
      | Fin =>
          count ← gets rv_received_count;
          if count =? packet_count then r ← read_complete p; mret (inl r)
          else read_missing;; read_batch coalesced ack ds
      | Abort_ | Error => bailM "TRAINPOOL_TRANSFER_ABORTED"
      | _ => read_batch coalesced ack ds
      end
  end.

(** The acknowledgement a batch ends with. *)
Definition read_ack (sequence : Z) : SM Reader unit :=
  let base := sequence / Z.of_nat ACK_BITS * Z.of_nat ACK_BITS in
  received ← gets rv_received;
  let bits := (λ i, default false (received !! (Z.to_nat base + i)%nat)) <$> seq 0 ACK_BITS in
  reply_to source (answer Ack (transfer_id start) (bitmap_payload base bits (c_udp_window_packets config)));;
  count_one ack_count.

Fixpoint read_loop (fuel : nat) (retries : Z) : SM Reader (list byte * TransferStats) :=
  match fuel with
  | O => bailM out_of_fuel
  | S fuel =>
      batch ← with_socket receive;
      match batch with
      | None =>
          ensureM (retries + 1 <=? c_udp_max_retries config) "TRAINPOOL_TRANSFER_TIMEOUT: UDP read";;
          read_loop fuel (retries + 1)
      | Some b =>
          if negb (bool_decide (ba_source b = source)) then read_loop fuel retries
          else
            r ← read_batch (1 <? zlen (ba_datagrams b)) None (ba_datagrams b);
            match r with
            | inl result => mret result
            | inr (Some sequence) => read_ack sequence;; read_loop fuel retries
            | inr None => read_loop fuel retries
            end
      end
  end.

(** [receive_payload]. *)
Definition receive_payload : SM Socket (list byte * TransferStats) := act (λ s,
  match ensure (zlen (payload start) =? 40) "invalid UDP START metadata" with
  | Ok _ =>
      let length := be_val (take 8 (payload start)) in
      match ensure ((0 <? packet_count) && (length <=? c_chunk_bytes config)) "invalid UDP read session" with
      | Ok _ =>
          let reader := mkReader default_stats (replicate (Z.to_nat length) x00)
                          (replicate (Z.to_nat packet_count) false) 0 None s in
          let ack := (answer StartAck (transfer_id start)
                       (be_bytes 2 (Z.min (c_udp_window_packets config) (Z.of_nat ACK_BITS))))
                     <| flags := 1 |> in
          let run := reply_to source ack;;
                     read_loop (List.length (so_inbox s) + Z.to_nat (c_udp_max_retries config) + 1) 0 in
          (rv_socket (run reader).1, (run reader).2)
      | Err e => (s, Err e)
      | Panic => (s, Panic)
      end
  | Err e => (s, Err e)
  | Panic => (s, Panic)
  end).
End Payload.

(** The datagrams of the answer to a read request; [Some] is a [return]. *)
Fixpoint read_offer (transfer : Uuid) (source : SocketAddr) (started : Z) (ds : list (list byte))
    : SM Socket (option (list byte * TransferStats)) :=
  match ds with
  | [] => mret None
  | d :: ds =>
      p ← lift (decode d secret);
      if (transfer_id p =? transfer) && bool_decide (kind p = Start)
      then r ← receive_payload source p started; mret (Some r)
      else if (transfer_id p =? transfer) && bool_decide (kind p = Error)
      then bailM (from_utf8_lossy (payload p))
      else read_offer transfer source started ds
  end.
Fixpoint read_request (fuel : nat) (transfer : Uuid) (wire : list byte) (destination : SocketAddr)
    (started retries : Z) : SM Socket (list byte * TransferStats) :=
  match fuel with
  | O => bailM out_of_fuel
  | S fuel =>
      send_to send_error destination wire;;
      batch ← receive;
      match batch with
      | Some b =>
          r ← read_offer transfer (ba_source b) started (ba_datagrams b);
          match r with
          | Some result => mret result
          | None => read_request fuel transfer wire destination started retries
          end
      | None =>
          ensureM (retries + 1 <=? c_udp_max_retries config) "TRAINPOOL_TRANSFER_TIMEOUT";;
          read_request fuel transfer wire destination started (retries + 1)
      end
  end.

(** [ReliableUdpDataTransport::read]. *)
Definition read (destination : SocketAddr) (transfer : Uuid) (offset length : Z)
    : SM Socket (list byte * TransferStats) :=
  ensureM (length <=? c_chunk_bytes config) "UDP read exceeds configured chunk size";;
  sequence ← lift (try_u32 length);
  wire ← lift (encode secret ((for_handle ReadRequest handle transfer)
                               <| UdpWire.offset := offset |> <| sequence_id := sequence |>));
  started ← now clock;
  inbox ← gets (λ s, List.length (so_inbox s));
  read_request (inbox + Z.to_nat (c_udp_max_retries config) + 1) transfer wire destination started 0.

(** ** Integrity *)

(** The buffer keeps the announced length; [Q] is what is known of a [START]. *)
Definition sized (n : Z) (s : Reader) : Prop := zlen (rv_buffer s) = n.
Definition verified (start : Packet) (n : Z) (r : list byte * TransferStats) : Prop :=
  zlen r.1 = n ∧ blake3_hash r.1 = announced_digest start.

Lemma sized_modify n f : (∀ s, rv_buffer (f s) = rv_buffer s) → preserves (sized n) (modify f).
Proof. intros H s Hs. unfold sized. cbn. by rewrite H. Qed.
Lemma sized_stat n f : preserves (sized n) (rv_stat f).
Proof. by apply sized_modify. Qed.
Lemma sized_socket {A} n (m : SM Socket A) : preserves (sized n) (with_socket m).
Proof. by intros s Hs. Qed.
#[local] Hint Resolve sized_stat sized_socket : reader.
Lemma sized_reply n source p : preserves (sized n) (reply_to source p).
Proof. unfold reply_to. sm_walk; auto with reader nocore. Qed.
#[local] Hint Resolve sized_reply : reader.

Lemma sized_data n start coalesced p ack : preserves (sized n) (read_data start coalesced p ack).
Proof.
  unfold read_data. cbv zeta. apply preserves_bind; [apply preserves_lift|]. intros _.
  eapply yields_preserves, (yields_bind _ _ _ (λ b, zlen b = n)); [by apply yields_gets|]. intros b Hb.
  apply preserves_yields. apply preserves_bind; [apply preserves_lift|]. intros _.
  apply preserves_bind; [apply preserves_gets|]. intros received.
  apply preserves_bind; [apply preserves_lift|]. intros [|]; [sm_walk; auto with reader nocore|].
  apply preserves_bind; [apply preserves_gets|]. intros last.
  apply preserves_bind; [destruct last; sm_walk; auto with reader nocore|]. intros _.
  eapply yields_preserves, (yields_bind _ _ _ (λ b, zlen b = n)).
  { apply yields_lift. intros b' Hb'%unwrap_Ok. apply splice_length in Hb'. congruence. }
  intros b' Hb'. apply preserves_yields. apply preserves_bind; [intros s _; exact Hb'|].
  sm_walk; auto with reader nocore; by apply sized_modify.
Qed.

Lemma complete_verified n source start started p :
  yields (sized n) (read_complete source start started p) (verified start n).
Proof.
  unfold read_complete. eapply yields_bind; [by apply preserves_yields, preserves_lift|]. intros _ _.
  eapply (yields_bind _ _ _ (λ b, zlen b = n)); [by apply yields_gets|]. intros b Hb.
  eapply (yields_bind _ _ _ (λ _, blake3_hash b = announced_digest start)).
  { apply yields_lift. intros [] H%ensure_Ok. by bprop. }
  intros _ Hd. do 4 (eapply yields_bind; [apply preserves_yields; auto with reader nocore|]; intros ? _).
  eapply yields_bind; [apply preserves_yields, preserves_gets|]. intros st _. by apply yields_ret.
Qed.

Lemma batch_verified n source start started coalesced ack ds :
  yields (sized n) (read_batch source start started coalesced ack ds)
    (λ r, match r with inl r => verified start n r | inr _ => True end).
Proof.
  revert ack. induction ds as [|d ds IH]; intros ack; cbn [read_batch]; [by apply yields_ret|].
  eapply yields_bind; [by apply preserves_yields, preserves_lift|]. intros p _.
  eapply yields_bind; [apply preserves_yields; auto with reader nocore|]. intros _ _.
  destruct (negb _); [apply IH|]. destruct (kind p); try apply IH; try (by apply yields_lift).
  - eapply yields_bind; [apply preserves_yields, sized_data|]. intros a _. apply IH.
  - eapply yields_bind; [apply preserves_yields, preserves_gets|]. intros c _. destruct (_ =? _).
    + eapply yields_bind; [apply complete_verified|]. intros r Hr. by apply yields_ret.
    + eapply yields_bind; [apply preserves_yields; unfold read_missing; sm_walk; auto with reader nocore|].
      intros _ _. apply IH.
Qed.

Lemma loop_verified n source start started fuel retries :
  yields (sized n) (read_loop source start started fuel retries) (verified start n).
Proof.
  revert retries. induction fuel as [|fuel IH]; intros retries; cbn [read_loop]; [by apply yields_lift|].
  eapply yields_bind; [apply preserves_yields; auto with reader nocore|]. intros [b|] _.
  - destruct (negb _); [apply IH|]. eapply yields_bind; [apply batch_verified|].
    intros [r|[k|]] Hr; [by apply yields_ret| |apply IH].
    eapply yields_bind; [apply preserves_yields; unfold read_ack; cbv zeta; sm_walk; auto with reader nocore|].
    intros _ _. apply IH.
  - eapply yields_bind; [by apply preserves_yields, preserves_lift|]. intros _ _. apply IH.
Qed.

(** The offer that is answered is one of the datagrams that arrived. *)
Definition offered (s0 : Socket) (transfer : Uuid) (start : Packet) : Prop :=
  ∃ b d, Some b ∈ so_inbox s0 ∧ d ∈ ba_datagrams b ∧ decode d secret = Ok start
  ∧ transfer_id start = transfer ∧ kind start = Start.

Lemma receive_payload_verified source start started s s' r :
  receive_payload source start started s = (s', Ok r) →
  zlen (payload start) = 40 ∧ be_val (take 8 (payload start)) <= c_chunk_bytes config
  ∧ verified start (be_val (take 8 (payload start))) r.
Proof.
  unfold receive_payload, act. destruct (ensure (zlen _ =? 40) _) as [[]|?|] eqn:E1; try done.
  destruct (ensure (_ && _) _) as [[]|?|] eqn:E2; try done. cbv zeta.
  apply ensure_Ok in E1, E2. bprop.
  set (n := be_val (take 8 (payload start))) in *. intros Hrun. injection Hrun as _ Hr. split; [done|]. split; [done|].
  match type of Hr with (?m ?s).2 = _ => assert (yields (sized n) m (verified start n)) as Hy end.
  { eapply yields_bind; [apply preserves_yields, sized_reply|]. intros _ _. apply loop_verified. }
  eapply Hy; [|exact Hr]. unfold sized. cbn. rewrite length_replicate. pose proof (be_val_range (take 8 (payload start))). unfold n. lia.
Qed.

Lemma offer_verified transfer source started ds s s' r :
  read_offer transfer source started ds s = (s', Ok (Some r)) →
  ∃ d start, d ∈ ds ∧ decode d secret = Ok start ∧ transfer_id start = transfer ∧ kind start = Start
  ∧ zlen (payload start) = 40 ∧ be_val (take 8 (payload start)) <= c_chunk_bytes config
  ∧ verified start (be_val (take 8 (payload start))) r.
Proof.
  revert s. induction ds as [|d ds IH]; intros s; cbn [read_offer]; [done|].
  rewrite sm_bind_Ok. intros (p & s1 & [= <- Hd] & H). destruct (_ && bool_decide (kind p = Start)) eqn:Hs.
  - rewrite sm_bind_Ok in H. destruct H as (r' & s2 & Hr & [= <- <-]). bprop.
    apply receive_payload_verified in Hr. exists d, p. split_and!; [apply elem_of_cons; by left|done..| | |];
      apply Hr.
  - destruct (_ && bool_decide (kind p = Error)); [done|]. destruct (IH _ H) as (d' & st & Hd' & Hst). exists d', st.
    split; [apply elem_of_cons; by right|done].
Qed.

Lemma offer_none transfer source started ds s s' :
  read_offer transfer source started ds s = (s', Ok None) → s' = s.
Proof.
  induction ds as [|d ds IH]; cbn [read_offer]; [by intros [= <-]|].
  rewrite sm_bind_Ok. intros (p & s1 & [= <- Hd] & H). destruct (_ && bool_decide (kind p = Start)).
  - rewrite sm_bind_Ok in H. by destruct H as (? & ? & _ & [=]).
  - destruct (_ && bool_decide (kind p = Error)); [done|by apply IH].
Qed.

(** C24. Integrity of remote reads: what [read] returns has the length and the
    [blake3] digest that a [START] of this transfer announced, a datagram that
    decodes under the cluster's secret; it is at most a chunk, whatever else the
    network delivers. *)
Theorem read_verified destination transfer offset length s0 s' buffer stats :
  read destination transfer offset length s0 = (s', Ok (buffer, stats)) →
  ∃ start, offered s0 transfer start ∧ zlen (payload start) = 40
  ∧ zlen buffer = be_val (take 8 (payload start)) ∧ zlen buffer <= c_chunk_bytes config
  ∧ blake3_hash buffer = drop 8 (payload start).
Proof.
  unfold read. rewrite sm_bind_Ok. intros (? & ? & [= <- _] & H). revert H.
  rewrite sm_bind_Ok. intros (q & ? & [= <- _] & H). revert H.
  rewrite sm_bind_Ok. intros (wire & ? & [= <- _] & H). revert H.
  rewrite sm_bind_Ok. intros (t & s1 & H1 & H). revert H.
  rewrite sm_bind_Ok. intros (n & ? & [= <- Hn] & H). revert H. clear Hn.
  assert (∀ x, x ∈ so_inbox s1 → x ∈ so_inbox s0) as Hin by (by injection H1 as <- _).
  clear H1. generalize (n + Z.to_nat (c_udp_max_retries config) + 1)%nat. intros fuel.
  generalize 0. intros retries. revert s1 retries Hin.
  induction fuel as [|fuel IH]; intros s1 retries Hin; cbn [read_request]; [done|].
  rewrite sm_bind_Ok. intros (? & s2 & H2 & H). revert H.
  rewrite sm_bind_Ok. intros (batch & s3 & H3 & H).
  assert ((∀ x, x ∈ so_inbox s3 → x ∈ so_inbox s0) ∧ (∀ b, batch = Some b → Some b ∈ so_inbox s0)) as [Hin3 Hb].
  { destruct (send_to_cost send_error destination wire s1) as [E _]. rewrite H2 in E. cbn in E.
    unfold receive, act in H3. destruct (so_inbox s2) as [|y l] eqn:Ei; simplify_eq/=.
    - split; [by rewrite Ei, E|done].
    - rewrite <-E in Hin. split; [|intros b ->]; intros; apply Hin, elem_of_cons; auto. }
  destruct batch as [b|].
  - rewrite sm_bind_Ok in H. destruct H as (r & s4 & H4 & H). destruct r as [r|].
    + injection H as <- ->. apply offer_verified in H4 as (d & start & Hd & Hdec & Ht & Hk & H40 & Hle & Hl & Hh).
      exists start. cbn in *. split_and!; try done; [|lia]. by exists b, d; auto.
    + apply offer_none in H4 as ->. by apply (IH s3 retries).
  - rewrite sm_bind_Ok in H. destruct H as (? & ? & [= <- _] & H). by apply (IH s3 (retries + 1)).
Qed.
End Reader.

(** ** Termination *)
Section Inbox.
Context `{BL : !Blake3, HM : !Hmac}.
Context (clock : Clock) (send_error : nat → option string).
Context (config : Config) (handle : MemoryBlockHandle).

(** Only a receive takes from the inbox. *)
Definition inbox_is (I : list (option ReceivedBatch)) (s : Reader) : Prop := so_inbox (rv_socket s) = I.
Lemma inbox_modify I f : (∀ s, rv_socket (f s) = rv_socket s) → preserves (inbox_is I) (modify f).
Proof. intros H s Hs. unfold inbox_is. cbn. by rewrite H. Qed.
Lemma inbox_stat I f : preserves (inbox_is I) (rv_stat f).
Proof. by apply inbox_modify. Qed.
Lemma inbox_elapsed I t : preserves (inbox_is I) (with_socket (elapsed_since clock t)).
Proof. by intros s. Qed.
Lemma inbox_send I source wire : preserves (inbox_is I) (with_socket (send_to send_error source wire)).
Proof.
  intros s Hs. unfold inbox_is, with_socket, act. cbn.
  by destruct (send_to_cost send_error source wire (rv_socket s)) as [-> _].
Qed.
#[local] Hint Resolve inbox_stat inbox_elapsed inbox_send : reader.
Lemma inbox_reply I source p : preserves (inbox_is I) (reply_to send_error config source p).
Proof. unfold reply_to. sm_walk; auto with reader nocore. Qed.
#[local] Hint Resolve inbox_reply : reader.
Lemma inbox_data I start coalesced p ack : preserves (inbox_is I) (read_data config start coalesced p ack).
Proof. unfold read_data. cbv zeta. sm_walk; auto with reader nocore; by apply inbox_modify. Qed.
Lemma inbox_complete I source start started p :
  preserves (inbox_is I) (read_complete clock send_error config handle source start started p).
Proof. unfold read_complete. sm_walk; auto with reader nocore. Qed.
Lemma inbox_missing I source start : preserves (inbox_is I) (read_missing send_error config handle source start).
Proof. unfold read_missing. sm_walk; auto with reader nocore. Qed.
Lemma inbox_ack I source start k : preserves (inbox_is I) (read_ack send_error config handle source start k).
Proof. unfold read_ack. cbv zeta. sm_walk; auto with reader nocore. Qed.
#[local] Hint Resolve inbox_data inbox_complete inbox_missing inbox_ack : reader.
Lemma inbox_batch I source start started coalesced ack ds :
  preserves (inbox_is I) (read_batch clock send_error config handle source start started coalesced ack ds).
Proof.
  revert ack. induction ds as [|d ds IH]; intros ack; cbn [read_batch]; sm_walk; auto with reader nocore.
Qed.
Lemma inbox_run {A} (m : SM Reader A) s s' x :
  (∀ I, preserves (inbox_is I) m) → m s = (s', x) → so_inbox (rv_socket s') = so_inbox (rv_socket s).
Proof. intros H E. pose proof (H _ s eq_refl) as H2. unfold inbox_is in H2. by rewrite E in H2. Qed.
Lemma with_receive s s' b :
  with_socket receive s = (s', Ok b) → so_inbox (rv_socket s') = tail (so_inbox (rv_socket s))
  ∧ (b ≠ None → length (so_inbox (rv_socket s)) = S (length (so_inbox (rv_socket s')))).
Proof.
  unfold with_socket, receive, act. destruct (so_inbox (rv_socket s)) as [|x l] eqn:E; intros [= <- <-]; cbn.
  - by rewrite E.
  - done.
Qed.

Context (e1 e2 : string).
Abbreviation loop e := (read_loop clock send_error config handle e).

Lemma loop_fuel source start started fuel retries s :
  0 <= retries <= c_udp_max_retries config →
  (length (so_inbox (rv_socket s)) + Z.to_nat (c_udp_max_retries config - retries) < fuel)%nat →
  loop e1 source start started fuel retries s = loop e2 source start started fuel retries s.
Proof.
  revert retries s. induction fuel as [|fuel IH]; intros retries s Hr Hf; [lia|]. cbn [read_loop].
  apply sm_bind_ext; [done|]. intros [b|] s1 [H1 H2]%with_receive.
  - specialize (H2 ltac:(done)). destruct (negb _); [apply IH; [done|lia]|].
    apply sm_bind_ext; [done|]. intros [r|[k|]] s2 H3; [done| |].
    + apply inbox_run in H3; [|intros; apply inbox_batch].
      apply sm_bind_ext; [done|]. intros [] s3 H4. apply inbox_run in H4; [|intros; apply inbox_ack].
      apply IH; [done|]. rewrite H4, H3. lia.
    + apply inbox_run in H3; [|intros; apply inbox_batch]. apply IH; [done|]. rewrite H3. lia.
  - apply sm_bind_ext; [done|]. intros [] s2 [= <- Hle]. apply ensure_Ok in Hle. bprop. apply IH; [lia|].
    rewrite H1. destruct (so_inbox (rv_socket s)); cbn in *; lia.
Qed.

Abbreviation payload_ e := (receive_payload clock send_error config handle e).
Lemma receive_payload_fuel source start started s :
  0 <= c_udp_max_retries config → payload_ e1 source start started s = payload_ e2 source start started s.
Proof.
  intros Hm. unfold receive_payload, act. destruct (ensure (zlen _ =? 40) _); try done.
  destruct (ensure _ _); try done. cbv zeta.
  match goal with |- ((rv_socket ?a.1), ?a.2) = ((rv_socket ?b.1), ?b.2) => enough (a = b) as -> by done end.
  apply sm_bind_ext; [done|]. intros [] s1 H1. apply inbox_run in H1; [|intros; apply inbox_reply].
  apply loop_fuel; [lia|]. rewrite H1. cbn. lia.
Qed.

Abbreviation offer e := (read_offer clock send_error config handle e).
Lemma offer_fuel transfer source started ds s :
  0 <= c_udp_max_retries config → offer e1 transfer source started ds s = offer e2 transfer source started ds s.
Proof.
  intros Hm. revert s. induction ds as [|d ds IH]; intros s; cbn [read_offer]; [done|].
  apply sm_bind_ext; [done|]. intros p s1 _. destruct (_ && _).
  - apply sm_bind_ext; [by apply receive_payload_fuel|done].
  - destruct (_ && _); [done|apply IH].
Qed.

Abbreviation request e := (read_request clock send_error config handle e).
Lemma request_fuel fuel transfer wire destination started retries s :
  0 <= retries <= c_udp_max_retries config →
  (length (so_inbox s) + Z.to_nat (c_udp_max_retries config - retries) < fuel)%nat →
  request e1 fuel transfer wire destination started retries s
  = request e2 fuel transfer wire destination started retries s.
Proof.
  revert retries s. induction fuel as [|fuel IH]; intros retries s Hr Hf; [lia|]. cbn [read_request].
  apply sm_bind_ext; [done|]. intros [] s1 H1.
  assert (so_inbox s1 = so_inbox s) as E1.
  { pose proof (send_to_cost send_error destination wire s) as [H _]. by rewrite H1 in H. }
  apply sm_bind_ext; [done|]. intros batch s2 H2.
  unfold receive, act in H2. rewrite E1 in H2. destruct (so_inbox s) as [|x l] eqn:Ei; simplify_eq/=.
  - apply sm_bind_ext; [done|]. intros [] s3 [= <- Hle]. apply ensure_Ok in Hle. bprop.
    apply IH; [lia|]. cbn. rewrite E1. cbn. lia.
  - destruct batch as [b|].
    + apply sm_bind_ext; [apply offer_fuel; lia|]. intros [r|] s3 H3; [done|].
      apply offer_none in H3 as ->. apply IH; [done|]. cbn. lia.
    + apply sm_bind_ext; [done|]. intros [] s3 [= <- Hle]. apply ensure_Ok in Hle. bprop.
      apply IH; [lia|]. cbn. lia.
Qed.

End Inbox.

(** ** Witnesses *)
Import Toy.
Module Witness.
Definition config : Config := default_config <| c_cluster_secret := Some "key"%string |>.
Definition owner : SocketAddr := (V4 7, 9000).
Definition handle : MemoryBlockHandle := mkHandle 5 9 8 1 1 (Ram 1) None Ready 77 1000 1 None.
Definition chunk : list byte := [x41; x42; x43; x44; x45; x46].
Definition packet (k : Kind) (sequence : Z) (payload : list byte) : Packet :=
  mkPacket k 1 3 9 5 77 1 sequence 0 8 payload.
Definition from_owner (p : Packet) : option ReceivedBatch :=
  match encode (Some "key"%string) p with Ok d => Some (mkBatch [d] owner) | _ => None end.
Definition start : Packet := packet Start 1 (be_bytes 8 6 ++ blake3_hash chunk).
(** The first request is lost; an end before the data is answered. *)
Definition s0 : Socket := new_socket
  [None; from_owner start; from_owner (packet Fin 1 (blake3_hash chunk)); from_owner (packet Data 0 chunk);
   from_owner (packet Fin 1 (blake3_hash chunk))].
Abbreviation run := (read (λ _ n, Z.of_nat n) (λ _, None) config handle "" owner 3 0 6 s0).
Lemma read_config_valid : valid config.
Proof. apply validate_Ok_valid. vm_compute. reflexivity. Qed.
End Witness.

Lemma read_verified_witness :
  match Witness.run with
  | (s', Ok (buffer, _)) =>
      buffer = Witness.chunk ∧ length (so_sent s') = 6%nat
      ∧ ∃ start, offered Witness.config Witness.s0 3 start ∧ blake3_hash buffer = drop 8 (payload start)
  | _ => False
  end.
Proof.
  destruct Witness.run as [s' result] eqn:E.
  assert (((λ r : list byte * TransferStats, r.1) <$> result) = Ok Witness.chunk ∧ length (so_sent s') = 6%nat)
    as [H1 H2].
  { change s' with (s', result).1. change result with (s', result).2 at 1. rewrite <-E.
    split; vm_compute; reflexivity. }
  destruct result as [[buffer stats]|e|]; [|clear E; discriminate H1..].
  destruct (read_verified (λ _ n, Z.of_nat n) (λ _, None) Witness.config Witness.handle "" Witness.owner 3 0 6
    Witness.s0 s' buffer stats E) as (start & Ho & _ & _ & _ & Hh).
  split; [injection H1; intros Hb; exact Hb|]. split; [exact H2|]. exists start. split; [exact Ho|exact Hh].
Defined.

