(* ===== verification/Serve.v ===== *)
(** * The accept loop: [src/runtime/mod.rs], [serve]

    One loop takes TCP connections and batches of datagrams and starts a task
    for each, within two budgets of permits. Its state is the permits and
    the tasks that hold them; its events are what [select!] sees and the end
    of a task. *)

From S2P Require Import Prelude.
From S2P Require Import Lists.
From S2P Require Import Bytes.
From S2P Require Import UdpWire.
From S2P Require Import UdpIo.

Definition TCP_PERMITS : Z := 64.
Definition UDP_PERMITS : Z := 256.

(** [sv_permits] and [sv_udp_permits] are what is left of the two semaphores;
    [sv_waiting] is the batch [acquire_many_owned] waits with; [sv_result]
    what [serve] returned. *)
Record Server := mkServer {
  sv_permits : Z;
  sv_udp_permits : Z;
  sv_connections : list SocketAddr;
  sv_batches : list ReceivedBatch;
  sv_waiting : option ReceivedBatch;
  sv_refused : list SocketAddr;
  sv_result : option (Result unit);
}.
#[export] Instance eta_Server : Eta Server := λ r,
  mkServer (sv_permits r) (sv_udp_permits r) (sv_connections r) (sv_batches r) (sv_waiting r)
    (sv_refused r) (sv_result r).
Definition new_server : Server := mkServer TCP_PERMITS UDP_PERMITS [] [] None [] None.

(** [u32::try_from(len).unwrap_or(u32::MAX)]. *)
Definition batch_permits (b : ReceivedBatch) : Z := Z.min (zlen (ba_datagrams b)) (2 ^ 32 - 1).
Arguments batch_permits : simpl never.

(** The arm of [listener.accept()]. *)
Definition accepted (r : Result SocketAddr) (s : Server) : Server :=
  match r with
  | Ok peer =>
      if 0 <? sv_permits s
      then s <| sv_permits ::= λ n, n - 1 |> <| sv_connections ::= (.++ [peer]) |>
      else s <| sv_refused ::= (.++ [peer]) |>
  | r => s <| sv_result := Some (fmap (λ _, ()) r) |>
  end.

(** Starting the task of a batch, once its permits are there. *)
Definition start_batch (b : ReceivedBatch) (s : Server) : Server :=
  if batch_permits b <=? sv_udp_permits s
  then s <| sv_udp_permits ::= λ n, n - batch_permits b |> <| sv_batches ::= (.++ [b]) |>
         <| sv_waiting := None |>
  else s <| sv_waiting := Some b |>.

(** The arm of [receive_batch]: [batch?] ends the loop on an error. *)
Definition received (r : Result ReceivedBatch) (s : Server) : Server :=
  match r with
  | Ok b => start_batch b s
  | r => s <| sv_result := Some (fmap (λ _, ()) r) |>
  end.

(** The end of a task, which drops its permits. *)
Definition connection_ended (i : nat) (s : Server) : Server :=
  match sv_connections s !! i with
  | Some _ => s <| sv_connections ::= delete i |> <| sv_permits ::= λ n, n + 1 |>
  | None => s
  end.
Definition batch_ended (i : nat) (s : Server) : Server :=
  match sv_batches s !! i with
  | Some b => s <| sv_batches ::= delete i |> <| sv_udp_permits ::= λ n, n + batch_permits b |>
  | None => s
  end.

(** What the network may hand over: what [recvmsg] reports for it. *)
Inductive Event :=
| Accept (r : Result SocketAddr)
| Message (truncated : bool) (buffer : list byte) (gro : option Z) (source : SocketAddr)
| ConnectionEnded (i : nat)
| BatchEnded (i : nat).

(** While it waits for permits, or when it has returned, the loop takes no
    event of the network; a task that ends may let a waiting batch in. *)
Definition serve_step (e : Event) (s : Server) : Server :=
  match e with
  | ConnectionEnded i => connection_ended i s
  | BatchEnded i =>
      let s := batch_ended i s in
      match sv_waiting s, sv_result s with Some b, None => start_batch b s | _, _ => s end
  | Accept r =>
      match sv_waiting s, sv_result s with None, None => accepted r s | _, _ => s end
  | Message truncated buffer gro source =>
      match sv_waiting s, sv_result s with
      | None, None =>
          received (ds ← receive_batch_now truncated buffer gro; Ok (mkBatch ds source)) s
      | _, _ => s
      end
  end.
Definition serve (es : list Event) : Server := foldl (λ s e, serve_step e s) new_server es.

(** ** Budgets *)
Definition held (bs : list ReceivedBatch) : Z := zsum (batch_permits <$> bs).
Arguments held : simpl never.

Record server_inv (s : Server) : Prop := {
  sv_tcp : sv_permits s + zlen (sv_connections s) = TCP_PERMITS;
  sv_tcp_left : 0 <= sv_permits s;
  sv_udp : sv_udp_permits s + held (sv_batches s) = UDP_PERMITS;
  sv_udp_left : 0 <= sv_udp_permits s;
}.

Lemma batch_permits_nonneg b : 0 <= batch_permits b.
Proof. unfold batch_permits. lia. Qed.
Lemma held_nonneg bs : 0 <= held bs.
Proof.
  unfold held. induction bs as [|b bs IH]; [done|]. cbn. unfold zsum in *. cbn.
  pose proof (batch_permits_nonneg b). lia.
Qed.
Lemma held_delete bs i b : bs !! i = Some b → held bs = batch_permits b + held (delete i bs).
Proof.
  intros H. rewrite delete_take_drop. rewrite <-(take_drop_middle bs i b H) at 1. unfold held.
  rewrite !fmap_app, !zsum_app. cbn. unfold zsum. cbn. lia.
Qed.

Lemma admit_inv b s : server_inv s → server_inv (start_batch b s).
Proof.
  intros [H1 H2 H3 H4]. unfold start_batch. destruct (Z.leb_spec (batch_permits b) (sv_udp_permits s)); split; cbn; try done; [|lia].
  unfold held in *. rewrite fmap_app, zsum_app. unfold zsum at 2. cbn. lia.
Qed.
Lemma serve_step_inv e s : server_inv s → server_inv (serve_step e s).
Proof.
  intros Hs. destruct e as [r|t buf gro src|i|i]; cbn.
  - destruct (sv_waiting s), (sv_result s); try done. destruct Hs as [H1 H2 H3 H4].
    destruct r as [peer|e|]; cbn; [|by split..]. destruct (Z.ltb_spec 0 (sv_permits s)); split; cbn; try done; try lia.
    unfold TCP_PERMITS in *. rewrite length_app. cbn [length]. lia.
  - destruct (sv_waiting s), (sv_result s); try done. unfold received.
    destruct (_ ≫= _) as [b|e|]; [by apply admit_inv|destruct Hs; by split..].
  - unfold connection_ended. destruct (sv_connections s !! i) eqn:E; [|done]. destruct Hs as [H1 H2 H3 H4].
    split; cbn; try done; [|lia]. pose proof (lookup_lt_Some _ _ _ E). rewrite length_delete by eauto. unfold TCP_PERMITS in *. lia.
  - assert (server_inv (batch_ended i s)) as Hb.
    { unfold batch_ended. destruct (sv_batches s !! i) as [b|] eqn:E; [|done]. destruct Hs as [H1 H2 H3 H4].
      pose proof (batch_permits_nonneg b). rewrite (held_delete _ _ _ E) in H3. split; cbn; try done; lia. }
    destruct (sv_waiting (batch_ended i s)), (sv_result (batch_ended i s)); try done. by apply admit_inv.
Qed.
Lemma serve_inv es : server_inv (serve es).
Proof.
  unfold serve. assert (server_inv new_server) as H by done. revert H. generalize new_server.
  induction es as [|e es IH]; intros s Hs; [done|]. cbn. by apply IH, serve_step_inv.
Qed.

(** C33. Whatever arrives, at most 64 connections and 256 datagrams are being
    handled at any time, and no permit is lost: what is not held by a running
    task is available. *)
Theorem serve_budgets es :
  let s := serve es in
  sv_permits s + zlen (sv_connections s) = 64 ∧ 0 <= sv_permits s
  ∧ sv_udp_permits s + held (sv_batches s) = 256 ∧ 0 <= sv_udp_permits s.
Proof. destruct (serve_inv es). done. Qed.

(** ** The end of the loop *)

(** A message that [receive_batch_now] refuses. *)
Definition malformed (truncated : bool) (buffer : list byte) (gro : option Z) : bool :=
  let n := default (zlen buffer) gro in truncated || (n =? 0) || (1400 <? n).

Lemma receive_malformed truncated buffer gro :
  malformed truncated buffer gro = negb (is_ok (receive_batch_now truncated buffer gro)).
Proof.
  unfold malformed, receive_batch_now, MAX_DATAGRAM. destruct truncated; [done|]. cbn zeta.
  set (n := default (zlen buffer) gro). cbn. by destruct (n =? 0), (1400 <? n).
Qed.

(** A loop that has returned starts nothing any more. *)
Lemma stopped_stays es s e :
  sv_result s = Some (Err e) → sv_waiting s = None →
  let s' := foldl (λ s e, serve_step e s) s es in
  sv_result s' = Some (Err e)
  ∧ (length (sv_connections s') ≤ length (sv_connections s))%nat
  ∧ (length (sv_batches s') ≤ length (sv_batches s))%nat.
Proof.
  revert s. induction es as [|ev es IH]; intros s Hr Hw; [done|]. cbn [foldl].
  enough (sv_result (serve_step ev s) = Some (Err e) ∧ sv_waiting (serve_step ev s) = None
    ∧ (length (sv_connections (serve_step ev s)) ≤ length (sv_connections s))%nat
    ∧ (length (sv_batches (serve_step ev s)) ≤ length (sv_batches s))%nat) as (H1 & H2 & H3 & H4).
  { destruct (IH _ H1 H2) as (? & ? & ?). cbn zeta. split_and!; [done|lia..]. }
  destruct ev as [r|t b g src|i|i]; cbn; rewrite ?Hw, ?Hr; [done..| |].
  - unfold connection_ended. destruct (sv_connections s !! i) eqn:E; [|done]. cbn. split_and!; try done.
    rewrite length_delete by eauto. lia.
  - unfold batch_ended. destruct (sv_batches s !! i) eqn:E; cbn; rewrite Hw; [|done]. cbn. split_and!; try done.
    rewrite length_delete by eauto. lia.
Qed.

(** C39. One datagram ends the daemon: whenever the loop is listening, a UDP
    message from anyone that is empty or longer than 1400 bytes makes [serve]
    return an error, after which it accepts no connection and no datagram;
    nothing about the message is authenticated before. *)
Theorem malformed_datagram_stops_serve es es' truncated buffer gro source :
  sv_waiting (serve es) = None → sv_result (serve es) = None →
  malformed truncated buffer gro = true →
  let s := serve (es ++ Message truncated buffer gro source :: es') in
  (∃ e, sv_result s = Some (Err e))
  ∧ (length (sv_connections s) ≤ length (sv_connections (serve es)))%nat
  ∧ (length (sv_batches s) ≤ length (sv_batches (serve es)))%nat.
Proof.
  intros Hw Hr Hm. cbn zeta. unfold serve. rewrite foldl_app. cbn [foldl].
  change (foldl _ new_server es) with (serve es). rewrite receive_malformed in Hm.
  assert (∃ e, receive_batch_now truncated buffer gro = Err e) as [e He].
  { unfold receive_batch_now in *. cbn zeta in *. destruct truncated; [by eexists|]. cbn in *.
    by destruct (_ || _); [eexists|]. }
  cbn [serve_step]. rewrite Hw, Hr, He. cbn [mbind Result_bind received].
  destruct (stopped_stays es' ((serve es) <| sv_result := Some (Err e) |>) e) as (H1 & H2 & H3); [done..|].
  split_and!; [by exists e|exact H2|exact H3].
Qed.

Lemma malformed_datagram_stops_serve_witness :
  malformed false [] None = true
  ∧ ∃ e, sv_result (serve [Accept (Ok (V4 1, 2)); Message false [] None (V4 9, 9); Accept (Ok (V4 3, 4))])
         = Some (Err e).
Proof.
  split; [reflexivity|].
  apply (malformed_datagram_stops_serve [Accept (Ok (V4 1, 2))] [Accept (Ok (V4 3, 4))] false [] None (V4 9, 9));
    reflexivity.
Defined.
