(* ===== verification/Task.v ===== *)
(** * Concurrent tasks

    An [async] handler is a tree of atomic sections: what it does between two
    points where it may wait (a lock it acquires, a datagram it sends). The
    runtime runs many handlers; a schedule interleaves their sections. *)

From S2P Require Import Prelude.

(** The steps of a section, as equations on states. *)
Ltac sm_unfold :=
  unfold ensureM, bailM, whenM;
  unfold lift, act, gets, modify, mbind, SM_bind, mret, SM_ret.

(** [Atomic guard f next]: a section that waits until [guard] holds (a mutex
    is free), takes the shared state [s] to [f s] and goes on as [next s]. *)
Inductive Task (S A : Type) : Type :=
| Done (r : Result A)
| Atomic (guard : S → bool) (f : S → S) (next : S → Task S A).
Arguments Done {S A} r.
Arguments Atomic {S A} guard f next.

#[export] Instance Task_ret S : MRet (Task S) := λ A a, Done (Ok a).

Fixpoint task_bind {S A B} (k : A → Task S B) (t : Task S A) : Task S B :=
  match t with
  | Done (Ok a) => k a
  | Done (Err e) => Done (Err e)
  | Done Panic => Done Panic
  | Atomic g f next => Atomic g f (λ s, task_bind k (next s))
  end.
#[export] Instance Task_bind S : MBind (Task S) := λ A B k t, task_bind k t.

(** One atomic section, entered when [guard] holds, and one without a wait. *)
Definition waiting {S A} (guard : S → bool) (m : SM S A) : Task S A :=
  Atomic guard (λ s, (m s).1) (λ s, Done (m s).2).
Definition atomically {S A} (m : SM S A) : Task S A := waiting (λ _, true) m.
(** A section that chooses how the task goes on: an early [return]. *)
Definition branch {S A} (m : SM S (Task S A)) : Task S A :=
  Atomic (λ _, true) (λ s, (m s).1)
    (λ s, match (m s).2 with Ok t => t | Err e => Done (Err e) | Panic => Done Panic end).
(** A step without effect on the shared state. *)
Definition pure_step {S A} (r : Result A) : Task S A := Done r.
(** [result.await] as a value: the error does not propagate. *)
Fixpoint caught {S A} (t : Task S A) : Task S (Result A) :=
  match t with
  | Done Panic => Done Panic
  | Done r => Done (Ok r)
  | Atomic g f next => Atomic g f (λ s, caught (next s))
  end.

(** Drop glue [m] that runs on every way out of [t], a panic included, and a
    spawned task, whose panic ends it and nothing else. *)
Fixpoint finally {S A} (m : S → S) (t : Task S A) : Task S A :=
  match t with
  | Done r => Atomic (λ _, true) m (λ _, Done r)
  | Atomic g f next => Atomic g f (λ s, finally m (next s))
  end.
Fixpoint contained {S} (t : Task S unit) : Task S unit :=
  match t with
  | Done _ => Done (Ok ())
  | Atomic g f next => Atomic g f (λ s, contained (next s))
  end.

(** A task alone, run to its end; [None] if it waits forever. *)
Fixpoint run {S A} (t : Task S A) (s : S) : option (S * Result A) :=
  match t with
  | Done r => Some (s, r)
  | Atomic g f next => if g s then run (next s) (f s) else None
  end.

Lemma run_bind {S A B} (t : Task S A) (k : A → Task S B) s :
  run (t ≫= k) s =
    match run t s with
    | Some (s', Ok a) => run (k a) s'
    | Some (s', Err e) => Some (s', Err e)
    | Some (s', Panic) => Some (s', Panic)
    | None => None
    end.
Proof.
  revert s. induction t as [r|g f next IH]; intros s; cbn; [by destruct r|].
  destruct (g s); [apply IH|done].
Qed.

Lemma run_atomically {S A} (m : SM S A) s : run (atomically m) s = Some (m s).
Proof. cbn. by destruct (m s). Qed.

(** ** Schedules *)

(** One section of one task of a pool, or the arrival of a new task of [P]. *)
Inductive pool_step {S A} (P : Task S A → Prop) : S * list (Task S A) → S * list (Task S A) → Prop :=
| pool_run s l1 g f next l2 :
    g s = true → pool_step P (s, l1 ++ Atomic g f next :: l2) (f s, l1 ++ next s :: l2)
| pool_spawn s l t : P t → pool_step P (s, l) (s, l ++ [t]).

(** A task that runs to its end without interruption is a schedule. *)
Lemma run_pool {S A} (P : Task S A → Prop) t s s' r l1 l2 :
  run t s = Some (s', r) → rtc (pool_step P) (s, l1 ++ t :: l2) (s', l1 ++ Done r :: l2).
Proof.
  revert s. induction t as [r0|g f next IH]; intros s; cbn; [by intros [= -> ->]|].
  destruct (g s) eqn:Hg; [|done]. intros H. eapply rtc_l; [by apply pool_run|by apply IH].
Qed.
(** The first [n] sections of a task, and whether its next one can run. *)
Fixpoint advance {S A} (n : nat) (t : Task S A) (s : S) : Task S A * S :=
  match n, t with
  | Datatypes.S n, Atomic g f next => if g s then advance n (next s) (f s) else (t, s)
  | _, _ => (t, s)
  end.
Definition enabled {S A} (t : Task S A) (s : S) : bool :=
  match t with Atomic g _ _ => g s | Done _ => false end.

(** A stop of a task on its way, as a value with its definition. *)
Abbreviation stopped n t s := {c | c = advance n t s} (only parsing).
Definition stop {S A} (n : nat) (t : Task S A) (s : S) : stopped n t s := advance n t s ↾ eq_refl.

Lemma advance_pool {S A} (P : Task S A → Prop) n t s l1 l2 (c : stopped n t s) :
  rtc (pool_step P) (s, l1 ++ t :: l2) ((`c).2, l1 ++ (`c).1 :: l2).
Proof.
  destruct c as [c ->]. cbn. revert t s. induction n as [|n IH]; intros [r|g f next] s; cbn; try done.
  destruct (g s) eqn:Hg; [|done]. eapply rtc_l; [by apply pool_run|apply IH].
Qed.
Lemma spawn_advance {S A} (P : Task S A → Prop) n t s l (c : stopped n t s) :
  P t → rtc (pool_step P) (s, l) ((`c).2, l ++ [(`c).1]).
Proof. intros Ht. eapply rtc_l; [by apply pool_spawn|]. by apply (advance_pool P n t s l []). Qed.
Lemma advance_once {S A} (P : Task S A → Prop) t s l1 l2 (c : stopped 1 t s) :
  enabled t s = true → pool_step P (s, l1 ++ t :: l2) ((`c).2, l1 ++ (`c).1 :: l2).
Proof.
  intros He. destruct c as [c ->], t as [r|g f next]; cbn in *; [done|]. rewrite He.
  by apply (pool_run P s l1 g f next l2).
Qed.

(** [obeys I G Q t]: whatever other tasks do in between, as long as they keep
    [I], every section of [t] keeps [I] and is a transition of [G], and the
    result of [t] satisfies [Q]. [follows]: [t] does not panic. *)
Inductive obeys {S A} (I : S → Prop) (G : S → S → Prop) (Q : Result A → Prop) : Task S A → Prop :=
| obeys_done r : Q r → obeys I G Q (Done r)
| obeys_atomic g f next :
    (∀ s, I s → g s = true → I (f s) ∧ G s (f s) ∧ obeys I G Q (next s)) →
    obeys I G Q (Atomic g f next).
Abbreviation follows I G := (obeys I G no_panic).

(** One step of a proof about [t] by induction. *)
Ltac obeys_ind t IH :=
  induction t as [?r|?g ?f ?next IH]; intros Ht; inversion Ht as [? Hr|? ? ? Hf]; subst; cbn;
  [|constructor; intros s Hs Hg; destruct (Hf s Hs Hg) as (? & ? & ?); split_and!; [done..|]; by apply IH].

Lemma obeys_bind {S A B} I G (Q : Result B → Prop) (t : Task S A) (k : A → Task S B) :
  obeys I G (λ r, match r with Ok a => obeys I G Q (k a) | Err e => Q (Err e) | Panic => Q Panic end) t →
  obeys I G Q (t ≫= k).
Proof. intros Ht. revert Ht. obeys_ind t IH. destruct r; by try constructor. Qed.

Lemma obeys_mono {S A} (I : S → Prop) (G G' : S → S → Prop) (Q Q' : Result A → Prop) t :
  (∀ s s', G s s' → G' s s') → (∀ r, Q r → Q' r) → obeys I G Q t → obeys I G' Q' t.
Proof.
  intros HG HQ. induction t as [r|g f next IH]; intros Ht; inversion Ht as [? Hr|? ? ? Hf]; subst; constructor; [auto|].
  intros s Hs Hg. destruct (Hf s Hs Hg) as (? & ? & ?). auto.
Qed.

Lemma obeys_caught {S A} I G (Q : Result (Result A) → Prop) (t : Task S A) :
  obeys I G (λ r, Q match r with Panic => Panic | _ => Ok r end) t → obeys I G Q (caught t).
Proof. obeys_ind t IH. destruct r; by constructor. Qed.

Lemma obeys_finally {S A} (I : S → Prop) (G : S → S → Prop) (Q : Result A → Prop) m (t : Task S A) :
  (∀ s, I s → I (m s) ∧ G s (m s)) → obeys I G Q t → obeys I G Q (finally m t).
Proof.
  intros Hm. obeys_ind t IH. constructor. intros s Hs _. destruct (Hm s Hs). split_and!; [done..|].
  by constructor.
Qed.

Lemma obeys_contained {S} (I : S → Prop) (G : S → S → Prop) (t : Task S unit) :
  obeys I G (λ _, True) t → follows I G (contained t).
Proof. obeys_ind t IH. by constructor. Qed.

Lemma obeys_pure {S A} I G (Q : Result A → Prop) (r : Result A) : Q r → obeys I G Q (pure_step r : Task S A).
Proof. by constructor. Qed.

Lemma obeys_waiting {S A} (I : S → Prop) (G : S → S → Prop) (Q : Result A → Prop) g (m : SM S A) :
  (∀ s, I s → g s = true → I (m s).1 ∧ G s (m s).1 ∧ Q (m s).2) → obeys I G Q (waiting g m).
Proof.
  intros H. constructor. intros s Hs Hg. destruct (H s Hs Hg) as (? & ? & ?). split_and!; [done..|].
  by constructor.
Qed.
Lemma obeys_atomically {S A} (I : S → Prop) (G : S → S → Prop) (Q : Result A → Prop) (m : SM S A) :
  (∀ s, I s → I (m s).1 ∧ G s (m s).1 ∧ Q (m s).2) → obeys I G Q (atomically m).
Proof. intros H. apply obeys_waiting. auto. Qed.

Lemma follows_bind {S A B} I G (t : Task S A) (k : A → Task S B) :
  follows I G t → (∀ a, follows I G (k a)) → follows I G (t ≫= k).
Proof. intros Ht Hk. apply obeys_bind. eapply obeys_mono; [done| |exact Ht]. by intros [a|e|]. Qed.

Lemma follows_caught {S A} I G (t : Task S A) : follows I G t → follows I G (caught t).
Proof. intros Ht. apply obeys_caught. eapply obeys_mono; [done| |exact Ht]. by intros [a|e|]. Qed.

Lemma follows_caught_bind {S A B} I G (t : Task S A) (k : Result A → Task S B) :
  follows I G t → (∀ r, no_panic r → follows I G (k r)) → follows I G (caught t ≫= k).
Proof.
  intros Ht Hk. apply obeys_bind, obeys_caught. eapply obeys_mono; [done| |exact Ht].
  intros [a|e|] Hr; cbn; auto.
Qed.

Lemma follows_ret {S A} I G (a : A) : follows I G (mret a : Task S A).
Proof. by constructor. Qed.

Lemma follows_pure {S A} I G (r : Result A) : no_panic r → follows I G (pure_step r : Task S A).
Proof. by constructor. Qed.

Lemma follows_pure_bind {S A B} I G (r : Result A) (k : A → Task S B) :
  no_panic r → (∀ a, r = Ok a → follows I G (k a)) → follows I G (pure_step r ≫= k).
Proof. intros Hr Hk. destruct r as [a|e|]; cbn; [by apply Hk|by constructor|done]. Qed.

Lemma follows_waiting {S A} I G g (m : SM S A) :
  (∀ s, I s → g s = true → I (m s).1 ∧ G s (m s).1 ∧ no_panic (m s).2) → follows I G (waiting g m).
Proof. apply obeys_waiting. Qed.
Lemma follows_atomically {S A} I G (m : SM S A) :
  (∀ s, I s → I (m s).1 ∧ G s (m s).1 ∧ no_panic (m s).2) → follows I G (atomically m).
Proof. apply obeys_atomically. Qed.

(** A value that [m] returned satisfies what [m] established of it. *)
Lemma follows_waiting_bind {S A B} I G g (m : SM S A) (Q : A → Prop) (k : A → Task S B) :
  (∀ s, I s → g s = true → I (m s).1 ∧ G s (m s).1
     ∧ match (m s).2 with Ok a => Q a | Err _ => True | Panic => False end) →
  (∀ a, Q a → follows I G (k a)) → follows I G (waiting g m ≫= k).
Proof.
  intros H Hk. apply obeys_bind, obeys_waiting. intros s Hs Hg. destruct (H s Hs Hg) as (? & ? & HQ).
  split_and!; [done..|]. destruct (m s).2; auto.
Qed.
Lemma follows_atomically_bind {S A B} I G (m : SM S A) (Q : A → Prop) (k : A → Task S B) :
  (∀ s, I s → I (m s).1 ∧ G s (m s).1
     ∧ match (m s).2 with Ok a => Q a | Err _ => True | Panic => False end) →
  (∀ a, Q a → follows I G (k a)) → follows I G (atomically m ≫= k).
Proof. intros H. apply follows_waiting_bind. auto. Qed.

Lemma follows_branch {S A} I G (m : SM S (Task S A)) :
  (∀ s, I s → I (m s).1 ∧ G s (m s).1
     ∧ match (m s).2 with Ok t => follows I G t | Err _ => True | Panic => False end) →
  follows I G (branch m).
Proof.
  intros H. constructor. intros s Hs _. destruct (H s Hs) as (? & ? & HQ). split_and!; [done..|].
  destruct (m s).2; [done|by constructor|done].
Qed.

(** What the tasks do alone, every schedule of them does. *)
Lemma pool_step_follows {S A} (I : S → Prop) G P (c c' : S * list (Task S A)) :
  (∀ t, P t → follows I G t) → pool_step P c c' → I c.1 → Forall (follows I G) c.2 →
  I c'.1 ∧ Forall (follows I G) c'.2 ∧ (c'.1 = c.1 ∨ G c.1 c'.1).
Proof.
  intros HP [s l1 g f next l2 Hg|s l t Ht] HI Hl; cbn in *.
  - apply Forall_app in Hl as [Hl1 [Hf' Hl2]%Forall_cons].
    inversion Hf' as [|? ? ? Hf]; subst. destruct (Hf s HI Hg) as (H1 & H2 & H3).
    split_and!; [done| |tauto]. apply Forall_app. split; [done|]. by constructor.
  - split_and!; [done| |by left]. apply Forall_app. split; [done|]. constructor; [by apply HP|done].
Qed.

Lemma pool_follows {S A} (I : S → Prop) G P (c c' : S * list (Task S A)) :
  (∀ t, P t → follows I G t) → rtc (pool_step P) c c' → I c.1 → Forall (follows I G) c.2 →
  I c'.1 ∧ Forall (follows I G) c'.2 ∧ rtc G c.1 c'.1.
Proof.
  intros HP Hr. induction Hr as [c|c c1 c' Hs _ IH]; intros HI Hl; [done|].
  destruct (pool_step_follows I G P c c1 HP Hs HI Hl) as (HI1 & Hl1 & HG).
  destruct (IH HI1 Hl1) as (HI' & Hl' & HG'). split_and!; [done..|].
  destruct HG as [<-|HG]; [done|by eapply rtc_l].
Qed.

(** ** Executions

    [exec t l r]: a run of [t] among tasks that may do anything to the shared
    state in between; [l] lists its own sections, each with the state before
    and after it, and [r] is its result. *)
Inductive exec {S A} : Task S A → list (S * S) → Result A → Prop :=
| exec_done r : exec (Done r) [] r
| exec_atomic g f next s l r : g s = true → exec (next s) l r → exec (Atomic g f next) ((s, f s) :: l) r.

Lemma exec_bind {S A B} (t : Task S A) (k : A → Task S B) l r :
  exec (t ≫= k) l r ↔
  (∃ l1 l2 a, l = l1 ++ l2 ∧ exec t l1 (Ok a) ∧ exec (k a) l2 r)
  ∨ (∃ e, r = Err e ∧ exec t l (Err e)) ∨ (r = Panic ∧ exec t l Panic).
Proof.
  split.
  - revert l. induction t as [r0|g f next IH]; intros l; cbn.
    + destruct r0 as [a|e|]; intros H; [left|right..].
      * exists [], l, a. split_and!; [done|constructor|done].
      * inversion H; subst. left. exists e. split; [done|constructor].
      * inversion H; subst. right. split; [done|constructor].
    + intros H. inversion H as [|? ? ? s l' ? Hg Hn]; subst.
      destruct (IH s l' Hn) as [(l1 & l2 & a & -> & H1 & H2)|[(e & -> & H1)|[-> H1]]]; [left|right..].
      * exists ((s, f s) :: l1), l2, a. split_and!; [done|by constructor|done].
      * left. exists e. split; [done|by constructor].
      * right. split; [done|by constructor].
  - intros [(l1 & l2 & a & -> & H1 & H2)|[(e & -> & H)|[-> H]]].
    + remember (Ok a) as r0 eqn:E. induction H1 as [|g f next s l r0 Hg _ IH]; subst; [done|].
      cbn. constructor; [done|]. by apply IH.
    + remember (Err e) as r0 eqn:E. induction H as [|g f next s l r0 Hg _ IH]; subst; cbn; [constructor|].
      constructor; [done|]. by apply IH.
    + remember Panic as r0 eqn:E. induction H as [|g f next s l r0 Hg _ IH]; subst; cbn; [constructor|].
      constructor; [done|]. by apply IH.
Qed.

(** Every section of an execution does what every section of the task does. *)
Lemma exec_obeys {S A} (I : S → Prop) G (Q : Result A → Prop) t l r :
  obeys I G Q t → exec t l r → Forall (λ '(s, _), I s) l → Forall (λ '(s, s'), G s s') l ∧ Q r.
Proof.
  intros Ht He. revert Ht. induction He as [r|g f next s l r Hg _ IH]; intros Ht Hl.
  - inversion Ht; subst. by split.
  - inversion Ht as [|? ? ? Hf]; subst. apply Forall_cons in Hl as [Hs Hl].
    destruct (Hf s Hs Hg) as (_ & H2 & H3). destruct (IH H3 Hl). by split; [constructor|].
Qed.

Lemma exec_atomic_inv {S A} g f (next : S → Task S A) l r :
  exec (Atomic g f next) l r → ∃ s l', l = (s, f s) :: l' ∧ g s = true ∧ exec (next s) l' r.
Proof. intros H. inversion H; subst. eauto 10. Qed.
Lemma exec_done_inv {S A} (r0 r : Result A) (l : list (S * S)) : exec (Done r0) l r → l = [] ∧ r = r0.
Proof. intros H. by inversion H. Qed.

Lemma exec_finally {S A} m (t : Task S A) l r :
  exec (finally m t) l r → ∃ l' s, l = l' ++ [(s, m s)] ∧ exec t l' r.
Proof.
  revert l. induction t as [r0|g f next IH]; intros l; cbn.
  - intros (s & l' & -> & _ & [-> ->]%exec_done_inv)%exec_atomic_inv. exists [], s. by repeat constructor.
  - intros (s & l' & -> & Hg & (l2 & s2 & -> & H)%IH)%exec_atomic_inv.
    exists ((s, f s) :: l2), s2. split; [done|]. by constructor.
Qed.
Lemma exec_caught {S A} (t : Task S A) l r :
  exec (caught t) l r → ∃ r0, exec t l r0 ∧ r = match r0 with Panic => Panic | _ => Ok r0 end.
Proof.
  revert l. induction t as [r0|g f next IH]; intros l; cbn.
  - intros H. exists r0. destruct r0; apply exec_done_inv in H as [-> ->]; by repeat constructor.
  - intros (s & l' & -> & Hg & (r0 & H & ->)%IH)%exec_atomic_inv. exists r0. split; [|done]. by constructor.
Qed.

(** The execution of a task that runs alone. *)
Fixpoint alone {S A} (t : Task S A) (s : S) : option (list (S * S) * Result A) :=
  match t with
  | Done r => Some ([], r)
  | Atomic g f next =>
      if g s then
        match alone (next s) (f s) with Some (l, r) => Some ((s, f s) :: l, r) | None => None end
      else None
  end.
Lemma alone_exec {S A} (t : Task S A) s l r : alone t s = Some (l, r) → exec t l r.
Proof.
  revert s l. induction t as [r0|g f next IH]; intros s l; cbn.
  - intros [= <- <-]. constructor.
  - destruct (g s) eqn:Hg; [|done]. destruct (alone (next s) (f s)) as [[l' r']|] eqn:E; [|done].
    intros [= <- <-]. constructor; [done|]. by apply IH in E.
Qed.
Abbreviation ran t s := {x | x = alone t s} (only parsing).
Definition run_alone {S A} (t : Task S A) (s : S) : ran t s := alone t s ↾ eq_refl.
Definition own_sections {S A} {t : Task S A} {s} (x : ran t s) : list (S * S) :=
  match `x with Some (l, _) => l | None => [] end.
Definition answer {S A} {t : Task S A} {s} (x : ran t s) : Result A :=
  match `x with Some (_, r) => r | None => Panic end.
Lemma ran_exec {S A} (t : Task S A) s (x : ran t s) :
  is_ok (answer x) = true → ∃ a, answer x = Ok a ∧ exec t (own_sections x) (Ok a).
Proof.
  destruct x as [x Hx]. unfold answer, own_sections. cbn. destruct x as [[l [a|e|]]|]; try done.
  intros _. exists a. split; [done|]. by apply (alone_exec _ s).
Qed.
