(* ===== verification/Runtime.v ===== *)
(** * The state of a daemon: [src/runtime/mod.rs], [Runtime]

    What the handlers of one node share. The configuration and the node's
    identifier never change and are arguments of the handlers. A
    [Reservation] is a Rust value whose drop returns its bytes, so the live
    ones are kept in a store by identity; the clocks and the datagrams handed
    to the socket are part of the state. *)

From S2P Require Import Prelude.
From S2P Require Import Lists.
From S2P Require Import Bytes.
From S2P Require Import Externals.
From S2P Require Import Block.
From S2P Require Import Accounting.
From S2P Require Import LocalRam.
From S2P Require Import Metrics.
From S2P Require Import Cluster.
From S2P Require Import Scheduler.
From S2P Require Import Task.

(** [SessionKey] of [runtime/udp.rs]: source, transfer, block. *)
Abbreviation SessionKey := (IpAddr * Z * Uuid * Uuid)%type (only parsing).

(** [IncomingSession]; [i_reservation] names its reservation. *)
Record IncomingSession := mkSession {
  i_object : Uuid;
  i_lease : Uuid;
  i_generation : u64;
  i_base_offset : u64;
  i_block_size : u64;
  i_payload_size : Z;
  i_packet_count : Z;
  i_checksum : list byte;
  i_buffer : list byte;
  i_received : list bool;
  i_received_count : Z;
  i_last_sequence : option Z;
  i_last_activity : Z;
  i_reservation : Z;
}.
#[export] Instance eta_IncomingSession : Eta IncomingSession := λ r,
  mkSession (i_object r) (i_lease r) (i_generation r) (i_base_offset r) (i_block_size r)
    (i_payload_size r) (i_packet_count r) (i_checksum r) (i_buffer r) (i_received r)
    (i_received_count r) (i_last_sequence r) (i_last_activity r) (i_reservation r).

(** A read the UDP server answers in a task of its own. *)
Record ReadResponse := mkReadResponse {
  rr_destination : SocketAddr;
  rr_handle : MemoryBlockHandle;
  rr_transfer_id : Uuid;
  rr_offset : u64;
  rr_payload : list byte;
}.

Section Runtime.
Context `{BL : !Blake3, UT : !UuidText}.

(** [Runtime]; [rt_incoming], [rt_finishing], [rt_completed] and
    [rt_active_reads] are [udp_server]. *)
Record Runtime := mkRuntime {
  rt_membership : Membership;
  rt_ram : LocalRam;
  rt_residency : gmap Uuid MemoryBlockHandle;
  rt_topology : list LinkEstimate;
  rt_jobs : gmap Uuid Job;
  rt_metrics : gmap Uuid JobMetrics;
  rt_active_transfers : Z;
  rt_staging : gmap Uuid (Z * u64);
  rt_incoming : gmap SessionKey IncomingSession;
  rt_finishing : gset SessionKey;
  rt_completed : gmap (SessionKey * Z) Z;
  rt_active_reads : Z;
  rt_live : gmap Z Reservation;
  rt_next_reservation : Z;
  rt_clock : Z;
  rt_now_ms : u64;
  rt_sent : list (SocketAddr * list byte);
  rt_reads : list ReadResponse;
}.
#[export] Instance eta_Runtime : Eta Runtime := λ r,
  mkRuntime (rt_membership r) (rt_ram r) (rt_residency r) (rt_topology r) (rt_jobs r)
    (rt_metrics r) (rt_active_transfers r) (rt_staging r) (rt_incoming r) (rt_finishing r)
    (rt_completed r) (rt_active_reads r) (rt_live r) (rt_next_reservation r) (rt_clock r)
    (rt_now_ms r) (rt_sent r) (rt_reads r).

(** ** Access to the parts *)
Definition on_ram {A} (m : SM LocalRam A) : SM Runtime A := act (λ s,
  ((s <| rt_ram := (m (rt_ram s)).1 |>), (m (rt_ram s)).2)).
(** [self.metrics.lock().await.job(id)] and an update of it. *)
Definition metric (id : Uuid) (f : JobMetrics → JobMetrics) : SM Runtime unit :=
  modify (λ s, s <| rt_metrics ::= job id f |>).

(** [self.ram.accounting.reserve(bytes)] and the drop of its result. *)
Definition reserve_bytes (bytes : u64) : SM Runtime Z := act (λ s,
  match reserve bytes (accounting (rt_ram s)) with
  | (a, Ok r) =>
      (s <| rt_ram ::= set accounting (λ _, a) |>
         <| rt_live ::= <[rt_next_reservation s := r]> |>
         <| rt_next_reservation ::= Z.succ |>, Ok (rt_next_reservation s))
  | (_, Err e) => (s, Err e)
  | (_, Panic) => (s, Panic)
  end).
Definition drop_bytes (i : Z) (s : Runtime) : Runtime :=
  match rt_live s !! i with
  | Some r => s <| rt_ram ::= set accounting (drop_reservation r) |> <| rt_live ::= delete i |>
  | None => s
  end.

(** Waiting for a block's mutex, and the value behind it. The [Arc] a task
    holds keeps its block on the heap, so a section on the block finds it. *)
Definition unlocked (p : Ptr) (s : Runtime) : bool :=
  negb (bool_decide (p ∈ locked (rt_ram s))) && bool_decide (is_Some (heap (rt_ram s) !! p)).
Definition block_at (p : Ptr) : SM Runtime RamBlock := act (λ s, (s, unwrap (heap (rt_ram s) !! p))).
Definition write_block (p : Ptr) (f : RamBlock → RamBlock) : SM Runtime unit :=
  modify (λ s, s <| rt_ram ::= update_block p f |>).

(** [f] with an [Arc] clone of a block that is dropped on every exit. *)
Definition with_block {A} (id : Uuid) (f : Ptr → Task Runtime A) : Task Runtime A :=
  p ← atomically (on_ram (get id));
  r ← caught (f p);
  atomically (modify (λ s, s <| rt_ram ::= release p |>));;
  pure_step r.
(** The same for a reservation. *)
Definition with_reservation {A} (i : Z) (t : Task Runtime A) : Task Runtime A :=
  r ← caught t;
  atomically (modify (drop_bytes i));;
  pure_step r.

(** ** The invariant of memory

    [rt_wf]: the store is well formed and its counter is the blocks plus the
    live reservations. *)
Definition live_bytes (s : Runtime) : Z := map_sum r_bytes (rt_live s).
Record rt_wf (s : Runtime) : Prop := {
  rw_ram : wf ∅ (live_bytes s) (rt_ram s);
  rw_live : ∀ i r, rt_live s !! i = Some r → r_job r = None ∧ 0 <= r_bytes r;
  rw_fresh : ∀ i, rt_next_reservation s <= i → rt_live s !! i = None;
}.

(** [rt_wf] only reads three fields. *)
Lemma rt_wf_eq s s' :
  rt_ram s' = rt_ram s → rt_live s' = rt_live s → rt_next_reservation s' = rt_next_reservation s →
  rt_wf s → rt_wf s'.
Proof. intros E1 E2 E3 [W1 W2 W3]. unfold live_bytes in *. split; unfold live_bytes; rewrite ?E1, ?E2, ?E3; done. Qed.

Lemma on_ram_wf {A} (m : SM LocalRam A) s :
  (wf ∅ (live_bytes s) (rt_ram s) → wf ∅ (live_bytes s) (m (rt_ram s)).1) →
  rt_wf s → rt_wf (on_ram m s).1.
Proof. intros Hm [W1 W2 W3]. split; cbn; [apply Hm, W1|done..]. Qed.

Lemma wf_ext_accounting D ext ext' s a :
  wf D ext s → owned a - ext' = owned (accounting s) - ext → 0 <= ext' → is_u64 (owned a) →
  jobs a = jobs (accounting s) → wf D ext' (s <| accounting := a |>).
Proof.
  intros [W1 W2 W3 W8 W4 W9 W5 W6 W7] Ho He Hu Hj. split; cbn; try done.
  - rewrite W5 in Ho. lia.
  - intros j. unfold job_owned. rewrite Hj. apply W7.
Qed.

Lemma live_bytes_nonneg s : rt_wf s → 0 <= live_bytes s.
Proof. intros Hw. apply map_sum_nonneg. intros i r Hr. by apply (rw_live _ Hw) in Hr as [_ ?]. Qed.

Lemma reserve_bytes_wf bytes s : is_u64 bytes → rt_wf s → rt_wf (reserve_bytes bytes s).1.
Proof.
  intros Hb Hw. unfold reserve_bytes, act. pose proof (wf_ext _ _ _ (rw_ram _ Hw)) as [_ [Hu Hu']].
  destruct (reserve bytes (accounting (rt_ram s))) as [a [r|e|]] eqn:E; try done.
  apply reserve_Ok in E as (-> & Eo & _ & Em & _ & Ej & _); [|done|apply Hb].
  pose proof (live_bytes_nonneg _ Hw). destruct Hw as [W1 W2 W3].
  assert (map_sum r_bytes (<[rt_next_reservation s := mkReservation bytes None]> (rt_live s))
          = live_bytes s + bytes) as El.
  { rewrite map_sum_insert by (apply W3; lia). cbn. unfold live_bytes. lia. }
  unfold is_u64 in *. split; cbn.
  - unfold live_bytes at 1. cbn. rewrite El.
    eapply (wf_ext_accounting ∅ (live_bytes s)); [exact W1|lia..|unfold is_u64; lia|done].
  - intros i r. rewrite lookup_insert. case_decide; [intros [= <-]; cbn; split; [done|lia]|apply W2].
  - intros i Hi. rewrite lookup_insert_ne by lia. apply W3. lia.
Qed.

Lemma drop_bytes_wf i s : rt_wf s → rt_wf (drop_bytes i s).
Proof.
  intros Hw. unfold drop_bytes. destruct (rt_live s !! i) as [r|] eqn:Hi; [|done].
  pose proof (wf_ext _ _ _ (rw_ram _ Hw)) as [_ Hu].
  pose proof (proj2 (wf_sum_bounds _ _ _ 0 (rw_ram _ Hw))) as Hle.
  pose proof (wf_owned _ _ _ (rw_ram _ Hw)) as Ho.
  pose proof (proj1 (proj1 (wf_sum_bounds _ _ _ 0 (rw_ram _ Hw)))) as Hj.
  pose proof (proj2 (proj1 (wf_sum_bounds _ _ _ 0 (rw_ram _ Hw)))) as Hj'.
  destruct Hw as [W1 W2 W3]. destruct (W2 _ _ Hi) as [Hn Hb].
  assert (r_bytes r <= live_bytes s) as Hrl.
  { apply (map_sum_lookup_le _ _ i); [|done]. intros j x Hx. by apply W2 in Hx as [_ ?]. }
  assert (map_sum r_bytes (delete i (rt_live s)) = live_bytes s - r_bytes r) as El.
  { unfold live_bytes. rewrite (map_sum_delete _ _ _ _ Hi). lia. }
  split; cbn.
  - unfold live_bytes at 1. cbn. rewrite El.
    eapply (wf_ext_accounting ∅ (live_bytes s)); [exact W1|..].
    + rewrite drop_reservation_owned by (done || lia). lia.
    + lia.
    + rewrite drop_reservation_owned by (done || lia). unfold is_u64 in *. lia.
    + unfold drop_reservation. by rewrite Hn.
  - intros j x [_ Hx]%lookup_delete_Some. by apply W2 in Hx.
  - intros j Hj2. apply lookup_delete_None. right. by apply W3.
Qed.

End Runtime.
