(* ===== verification/UdpServer.v ===== *)
(** * The UDP data plane, receiving side: [src/runtime/udp.rs]

    Sessions reassemble a chunk of a block from datagrams that arrive in any
    order, repeatedly or not at all; [FIN] checks the whole and appends it to
    the block. Each handler is a [Task]: its sections are what the code does
    under one lock. A lock taken while another is held is part of the outer
    section. *)

From S2P Require Import Prelude.
From S2P Require Import Lists.
From S2P Require Import Bytes.
From S2P Require Import Float64.
From S2P Require Import Externals.
From S2P Require Import Block.
From S2P Require Import Accounting.
From S2P Require Import LocalRam.
From S2P Require Import Metrics.
From S2P Require Import Config.
From S2P Require Import UdpWire.
From S2P Require Import Task.
From S2P Require Import Runtime.

(** ** Replies *)

(** [response]. *)
Definition response (request : Packet) (k : Kind) (payload : list byte) : Packet :=
  mkPacket k (flags request) (transfer_id request) (object_id request) (block_id request)
    (lease_token request) (generation request) (sequence_id request) (offset request)
    (total_size request) payload.

(** The window of the bitmap a sequence number falls in. *)
Definition ack_base (sequence : Z) : Z := sequence / 256 * 256.

(** [completed_data_ack]. *)
Definition completed_data_ack (request : Packet) (window : u64) : Packet :=
  response request Ack
    (bitmap_payload (ack_base (sequence_id request)) (replicate ACK_BITS true) window).

(** The bits of [received] from [base] on, [absent] beyond its end. *)
Definition window_bits (absent : bool) (received : list bool) (base : Z) : list bool :=
  (λ i, default absent (received !! (Z.to_nat base + i)%nat)) <$> seq 0 ACK_BITS.

(** [apply_udp_stats]. *)
Definition apply_udp_stats (stats : TransferStats) (m : JobMetrics) : JobMetrics :=
  let m := m <| jm_udp_datagrams_sent ::= λ x, x +w datagrams_sent stats |>
             <| jm_udp_datagrams_received ::= λ x, x +w datagrams_received stats |>
             <| jm_udp_payload_bytes ::= λ x, x +w payload_bytes stats |>
             <| jm_udp_retransmitted_datagrams ::= λ x, x +w retransmitted_datagrams stats |>
             <| jm_udp_retransmitted_bytes ::= λ x, x +w retransmitted_bytes stats |>
             <| jm_duplicate_datagrams ::= λ x, x +w duplicate_datagrams stats |>
             <| jm_out_of_order_datagrams ::= λ x, x +w out_of_order_datagrams stats |>
             <| jm_ack_count ::= λ x, x +w ack_count stats |>
             <| jm_nack_count ::= λ x, x +w nack_count stats |> in
  let m := if f64_lt f64_zero (estimated_rtt_ms stats)
           then m <| jm_estimated_rtt_ms := estimated_rtt_ms stats |> else m in
  let m := if f64_lt f64_zero (retransmission_timeout_ms stats)
           then m <| jm_retransmission_timeout_ms := retransmission_timeout_ms stats |> else m in
  let m := m <| jm_packet_loss_estimate :=
                 if jm_udp_datagrams_sent m =? 0 then f64_zero
                 else f64_div (f64_of_u64 (jm_udp_retransmitted_datagrams m))
                        (f64_of_u64 (jm_udp_datagrams_sent m)) |>
             <| jm_effective_throughput_mbps := throughput_mbps stats |> in
  if 0 <? jm_udp_datagrams_sent m
  then m <| jm_average_payload_size := f64_div (f64_of_u64 (jm_udp_payload_bytes m))
                                         (f64_of_u64 (jm_udp_datagrams_sent m)) |>
  else m.

(** Counters. *)
Definition session_opened (m : JobMetrics) : JobMetrics :=
  m <| jm_transfer_sessions ::= λ x, x +w 1 |> <| jm_active_transfer_sessions ::= λ x, x +w 1 |>.
Definition session_closed (m : JobMetrics) : JobMetrics :=
  m <| jm_active_transfer_sessions ::= λ x, saturating_sub x 1 |>.
Definition transfer_failed (m : JobMetrics) : JobMetrics :=
  m <| jm_failed_transfers ::= λ x, x +w 1 |>.
Definition datagram_sent (m : JobMetrics) : JobMetrics :=
  m <| jm_udp_datagrams_sent ::= λ x, x +w 1 |>.

(** ** One session *)

Definition metadata_matches (p : Packet) (s : IncomingSession) : bool :=
  (object_id p =? i_object s) && (lease_token p =? i_lease s)
  && (generation p =? i_generation s) && (total_size p =? i_block_size s).

(** The checks of a data packet against its session that follow the
    metadata; the value is the slot the packet is for and its first byte. A
    sequence number is below 2^32 and a payload size at most 1200, so the
    product does not wrap. *)
Definition data_slot (p : Packet) (s : IncomingSession) : Result (Z * Z) :=
  let sequence := sequence_id p in
  ensure (sequence <? i_packet_count s) "UDP sequence outside session";;
  let begin := sequence * i_payload_size s in
  ensure (offset p =? i_base_offset s +w begin) "UDP packet offset mismatch";;
  ensure (begin + zlen (payload p) <=? zlen (i_buffer s)) "UDP payload range mismatch";;
  Ok (sequence, begin).

(** Storing a payload that is not a duplicate. *)
Definition store_payload (p : Packet) (sequence begin : Z) (s : IncomingSession)
    : Result IncomingSession :=
  buffer ← unwrap (splice begin (payload p) (i_buffer s));
  Ok (s <| i_buffer := buffer |>
        <| i_received ::= <[Z.to_nat sequence := true]> |>
        <| i_received_count ::= λ n, n + 1 |>
        <| i_last_sequence := Some sequence |>).

Definition is_out_of_order (sequence : Z) (s : IncomingSession) : bool :=
  match i_last_sequence s with Some last => sequence <? last | None => false end.

(** One packet of the loop of [handle_udp_data_batch] once its metadata is
    checked: duplicates, out of order, payload bytes. *)
Definition batch_packet (p : Packet) (s : IncomingSession) : Result (IncomingSession * (Z * Z * Z)) :=
  ensure (metadata_matches p s) "UDP session metadata changed";;
  '(sequence, begin) ← data_slot p s;
  seen ← unwrap (i_received s !! Z.to_nat sequence);
  if (seen : bool) then Ok (s, (1, 0, 0))
  else
    s' ← store_payload p sequence begin s;
    Ok (s', (0, if is_out_of_order sequence s then 1 else 0, zlen (payload p))).

(** The whole loop; an error keeps what the packets before it stored. *)
Fixpoint batch_packets (ps : list Packet) (s : IncomingSession) (counts : Z * Z * Z)
    : IncomingSession * Result (Z * Z * Z) :=
  match ps with
  | [] => (s, Ok counts)
  | p :: ps =>
      match batch_packet p s with
      | Ok (s', (d, o, n)) =>
          let '(d0, o0, n0) := counts in batch_packets ps s' (d0 + d, o0 + o, n0 + n)
      | Err e => (s, Err e)
      | Panic => (s, Panic)
      end
  end.

(** The section of [Kind::Data] under the lock of the sessions:
    (duplicate, out of order, acknowledgement). *)
Definition data_packet (window now : Z) (p : Packet)
    : SM IncomingSession (bool * bool * option (list byte)) :=
  s ← gets id;
  ensureM (metadata_matches p s) "UDP session metadata changed";;
  modify (set i_last_activity (λ _, now));;
  '(sequence, begin) ← lift (data_slot p s);
  seen ← lift (unwrap (i_received s !! Z.to_nat sequence));
  (if (seen : bool) then mret () else
     act (λ s, match store_payload p sequence begin s with
               | Ok s' => (s', Ok ()) | Err e => (s, Err e) | Panic => (s, Panic) end));;
  s' ← gets id;
  let out_of_order := negb seen && is_out_of_order sequence s in
  let base := ack_base sequence in
  mret (seen, out_of_order,
        if seen || out_of_order || (i_received_count s' mod 8 =? 0)
           || (i_received_count s' =? i_packet_count s')
        then Some (bitmap_payload base (window_bits false (i_received s') base) window) else None).

(** The acknowledgement a batch ends with. *)
Definition batch_ack (window : Z) (last : Packet) (s : IncomingSession) : list byte :=
  let base := ack_base (sequence_id last) in
  bitmap_payload base (window_bits false (i_received s) base) window.

(** What [FIN] asks for when packets are missing. *)
Definition missing_nack (window : Z) (s : IncomingSession) : list byte :=
  let first_missing := match list_find (λ r, r = false) (i_received s) with
                       | Some (i, _) => Z.of_nat i | None => 0 end in
  let base := ack_base first_missing in
  bitmap_payload base (negb <$> window_bits true (i_received s) base) window.

(** The buffer a finished session adds to its block. *)
Definition append_bytes (transfer : Uuid) (begin : Z) (data : list byte) `{!Blake3} (b : RamBlock)
    : RamBlock :=
  b <| b_bytes ::= λ old, default old (splice begin data old) |>
    <| b_hash ::= λ h, hasher_update h data |>
    <| b_transfer_id := Some transfer |>
    <| b_written := begin + zlen data |>.

(** ** Handlers *)
Section Handlers.
Context `{BL : !Blake3, HM : !Hmac, UT : !UuidText}.
(** The daemon's configuration, and what [send_to] answers: the error of a
    datagram that cannot be sent. *)
Context (config : Config) (send_error : Z → SocketAddr → list byte → option string).

(** [socket.send_to(wire, destination)]. *)
Definition send_to (wire : list byte) (destination : SocketAddr) : SM Runtime unit := act (λ s,
  match send_error (rt_clock s) destination wire with
  | None => (s <| rt_sent ::= (.++ [(destination, wire)]) |>, Ok ())
  | Some e => (s, Err e)
  end).

(** [send_udp_response]. *)
Definition send_udp_response (destination : SocketAddr) (p : Packet) : Task Runtime unit :=
  wire ← pure_step (encode (c_cluster_secret config) p);
  atomically (send_to wire destination);;
  atomically (metric (object_id p) datagram_sent).

Definition session_key (p : Packet) (source : SocketAddr) : SessionKey :=
  (source.1, source.2, transfer_id p, block_id p).

(** [Duration]s in the nanoseconds of the clock. *)
Definition millis (n : Z) : Z := n * 1000000.
Definition incoming_expiry : Z :=
  millis (Z.max (saturating_mul (c_udp_initial_rto_ms config) (c_udp_max_retries config + 2)) 30000).
Definition completed_expiry : Z := millis 120000.
Definition elapsed (since : Z) (s : Runtime) : Z := saturating_sub (rt_clock s) since.

Definition retain_completed : SM Runtime unit := modify (λ s,
  s <| rt_completed ::= filter (λ '(_, t), elapsed t s < completed_expiry) |>).

(** [Kind::ReadRequest]: the section under the lock of the block. *)
Definition read_block (p : Packet) (ptr : Ptr) : SM Runtime (MemoryBlockHandle * list byte) :=
  b ← block_at ptr;
  now ← gets rt_now_ms;
  lift (authorize now (lease_token p) b);;
  ensureM ((h_job_id (b_handle b) =? object_id p) && (h_generation (b_handle b) =? generation p)
           && bool_decide (h_state (b_handle b) = Ready)) "stale UDP read handle";;
  let begin := offset p in
  finish ← lift (ok_or (checked_add begin (sequence_id p)) "UDP range overflow");
  ensureM (finish <=? zlen (b_bytes b)) "UDP read exceeds block";;
  active ← gets rt_active_reads;
  ensureM (active <? c_udp_max_sessions config)
    "TRAINPOOL_UDP_BACKPRESSURE: receiver read-session limit";;
  modify (λ s, s <| rt_active_reads ::= λ n, n + 1 |>);;
  payload ← lift (unwrap (slice begin finish (b_bytes b)));
  mret (b_handle b, payload).

Definition handle_read_request (p : Packet) (source : SocketAddr) : Task Runtime unit :=
  let length := sequence_id p in
  pure_step (ensure ((0 <? length) && (length <=? c_chunk_bytes config)) "invalid UDP read length");;
  with_block (block_id p) (λ ptr,
    '(handle, payload) ← waiting (unlocked ptr) (read_block p ptr);
    atomically (modify (λ s, s <| rt_reads ::=
      (.++ [mkReadResponse source handle (transfer_id p) (offset p) payload]) |>));;
    atomically (metric (object_id p) session_opened)).

(** The end of the task a read is answered in: [result] is what
    [send_payload] returned. *)
Definition read_answered (handle : MemoryBlockHandle) (result : Result TransferStats) : Task Runtime unit :=
  atomically (metric (h_job_id handle) (λ m, session_closed
    match result with Ok stats => apply_udp_stats stats m | _ => transfer_failed m end));;
  atomically (modify (λ s, s <| rt_active_reads ::= λ n, saturating_sub n 1 |>)).

(** [Kind::Start]. *)
Definition start_length (p : Packet) : Z := be_val (take 8 (payload p)).

Definition check_start (p : Packet) (ptr : Ptr) : SM Runtime unit :=
  b ← block_at ptr;
  now ← gets rt_now_ms;
  lift (authorize now (lease_token p) b);;
  ensureM ((h_job_id (b_handle b) =? object_id p) && (h_generation (b_handle b) =? generation p)
           && (h_size (b_handle b) =? total_size p)
           && bool_decide (h_state (b_handle b) = Writing) && (b_written b =? offset p))
    "stale or non-sequential UDP write session".

Definition expired (s : Runtime) (i : IncomingSession) : bool :=
  incoming_expiry <=? elapsed (i_last_activity i) s.

(** Dropping expired sessions: their reservations, then the counters. *)
Definition expire_sessions : SM Runtime unit := modify (λ s,
  let dead := (map_to_list (filter (λ '(_, i), expired s i = true) (rt_incoming s))).*2 in
  let s := s <| rt_incoming ::= filter (λ '(_, i), expired s i = false) |> in
  let s := foldr drop_bytes s (i_reservation <$> dead) in
  foldl (λ s i, s <| rt_metrics ::= job (i_object i) (transfer_failed ∘ session_closed) |>) s dead).

Definition open_session (p : Packet) (key : SessionKey) : SM Runtime unit :=
  sessions ← gets rt_incoming;
  match sessions !! key with
  | Some _ => mret ()
  | None =>
      ensureM (bool_decide (Z.of_nat (size sessions) < c_udp_max_sessions config))
        "TRAINPOOL_UDP_BACKPRESSURE: receiver session limit";;
      reservation ← reserve_bytes (start_length p);
      now ← gets rt_clock;
      modify (λ s, s <| rt_incoming ::= <[key :=
        {| i_object := object_id p;
           i_lease := lease_token p;
           i_generation := generation p;
           i_base_offset := offset p;
           i_block_size := total_size p;
           i_payload_size := c_udp_payload_bytes config;
           i_packet_count := sequence_id p;
           i_checksum := drop 8 (payload p);
           i_buffer := replicate (Z.to_nat (start_length p)) x00;
           i_received := replicate (Z.to_nat (sequence_id p)) false;
           i_received_count := 0;
           i_last_sequence := None;
           i_last_activity := now;
           i_reservation := reservation |}]> |>);;
      metric (object_id p) session_opened
  end.

Definition handle_start (p : Packet) (source : SocketAddr) : Task Runtime unit :=
  pure_step (ensure (zlen (payload p) =? 40) "invalid UDP START metadata");;
  let length := start_length p in
  pure_step (ensure ((0 <? length) && (length <=? c_chunk_bytes config)) "invalid UDP session length");;
  pure_step (ensure (sequence_id p =? div_ceil length (c_udp_payload_bytes config))
    "invalid UDP packet count");;
  pure_step (ensure match checked_add (offset p) length with
                    | Some e => e <=? total_size p | None => false end "UDP session exceeds block");;
  with_block (block_id p) (λ ptr,
    waiting (unlocked ptr) (check_start p ptr);;
    atomically (expire_sessions;; open_session p (session_key p source));;
    send_udp_response source
      (response p StartAck (be_bytes 2 (Z.min (c_udp_window_packets config) 256)))).

(** [Kind::Data]. *)
Definition completed_base (p : Packet) : option Z :=
  checked_sub (offset p) (sequence_id p * c_udp_payload_bytes config).
Definition already_completed (p : Packet) (key : SessionKey) (s : Runtime) : bool :=
  match completed_base p with
  | Some base => bool_decide (is_Some (rt_completed s !! (key, base)))
  | None => false
  end.

(** A section on one session; [None] if there is none. *)
Definition on_session {A} (key : SessionKey) (m : Z → SM IncomingSession A) : SM Runtime (option A) :=
  act (λ s,
    match rt_incoming s !! key with
    | None => (s, Ok None)
    | Some i =>
        (s <| rt_incoming ::= <[key := (m (rt_clock s) i).1]> |>,
         Some <$> (m (rt_clock s) i).2)
    end).

(** No session: the transfer is finishing, or unknown. *)
Definition without_session (p : Packet) (key : SessionKey) (source : SocketAddr) : Task Runtime unit :=
  finishing ← atomically (gets (λ s, bool_decide (key ∈ rt_finishing s)));
  if (finishing : bool) then send_udp_response source (completed_data_ack p (c_udp_window_packets config))
  else pure_step (bail "stale UDP transfer ID").

Definition handle_data (p : Packet) (source : SocketAddr) : Task Runtime unit :=
  let key := session_key p source in
  done ← atomically (gets (already_completed p key));
  if (done : bool) then send_udp_response source (completed_data_ack p (c_udp_window_packets config)) else
  outcome ← atomically (on_session key (λ now, data_packet (c_udp_window_packets config) now p));
  match outcome with
  | None => without_session p key source
  | Some (duplicate, out_of_order, ack) =>
      atomically (metric (object_id p) (λ m,
        m <| jm_udp_payload_bytes ::= λ x, x +w (if duplicate : bool then 0 else zlen (payload p)) |>
          <| jm_duplicate_datagrams ::= λ x, x +w Z.b2z duplicate |>
          <| jm_out_of_order_datagrams ::= λ x, x +w Z.b2z out_of_order |>));;
      match ack with
      | Some bits =>
          send_udp_response source (response p Ack bits);;
          atomically (metric (object_id p) (set jm_ack_count (λ x, x +w 1)))
      | None => mret ()
      end
  end.

(** [Kind::Fin]: the section under the lock of the sessions. *)
Inductive FinOutcome := FinNoSession | FinMissing (nack : list byte) | FinTake (s : IncomingSession).

Definition fin_section (p : Packet) (key : SessionKey) : SM Runtime FinOutcome :=
  sessions ← gets rt_incoming;
  match sessions !! key with
  | None => mret FinNoSession
  | Some i =>
      if negb (i_received_count i =? i_packet_count i)
      then mret (FinMissing (missing_nack (c_udp_window_packets config) i))
      else
        ensureM (bool_decide (payload p = i_checksum i)) "UDP FIN checksum changed";;
        ensureM (bool_decide (blake3_hash (i_buffer i) = i_checksum i))
          "TRAINPOOL_CHECKSUM_MISMATCH: UDP transfer";;
        modify (λ s, s <| rt_finishing ::= ({[key]} ∪.) |> <| rt_incoming ::= delete key |>);;
        mret (FinTake i)
  end.

(** The section under the lock of the block. *)
Definition finalize_block (p : Packet) (i : IncomingSession) (ptr : Ptr) : SM Runtime unit :=
  b ← block_at ptr;
  now ← gets rt_now_ms;
  lift (authorize now (lease_token p) b);;
  ensureM ((h_generation (b_handle b) =? i_generation i)
           && bool_decide (h_state (b_handle b) = Writing) && (b_written b =? i_base_offset i))
    "UDP destination changed before completion";;
  lift (unwrap (splice (i_base_offset i) (i_buffer i) (b_bytes b)));;
  write_block ptr (append_bytes (transfer_id p) (i_base_offset i) (i_buffer i)).

(** [completed.insert], and the removal of the oldest entry beyond the limit. *)
Definition oldest (c : gmap (SessionKey * Z) Z) : option (SessionKey * Z) :=
  fst <$> min_by (on snd Z.compare) (map_to_list c).
Definition trim_completed : SM Runtime unit := modify (λ s,
  if bool_decide (Z.of_nat (size (rt_completed s)) > saturating_mul (c_udp_max_sessions config) 16)
  then match oldest (rt_completed s) with
       | Some k => s <| rt_completed ::= delete k |>
       | None => s
       end
  else s).

Definition finish_session (p : Packet) (key : SessionKey) (source : SocketAddr)
    (i : IncomingSession) : Task Runtime unit :=
  with_reservation (i_reservation i) (
    finalized ← caught (with_block (block_id p) (λ ptr,
      waiting (unlocked ptr) (finalize_block p i ptr)));
    match finalized with
    | Ok _ =>
        atomically (modify (λ s, s <| rt_completed ::= <[(key, offset p) := rt_clock s]> |>));;
        atomically trim_completed;;
        atomically (modify (λ s, s <| rt_finishing ::= (.∖ {[key]}) |>));;
        atomically (metric (object_id p) session_closed);;
        send_udp_response source (response p Complete [])
    | r =>
        atomically (modify (λ s, s <| rt_finishing ::= (.∖ {[key]}) |>));;
        pure_step r
    end).

Definition handle_fin (p : Packet) (source : SocketAddr) : Task Runtime unit :=
  let key := session_key p source in
  done ← atomically (gets (λ s, bool_decide (is_Some (rt_completed s !! (key, offset p)))));
  if (done : bool) then send_udp_response source (response p Complete []) else
  outcome ← atomically (fin_section p key);
  match outcome with
  | FinNoSession =>
      finishing ← atomically (gets (λ s, bool_decide (key ∈ rt_finishing s)));
      if (finishing : bool) then mret () else pure_step (bail "stale UDP transfer ID")
  | FinMissing nack =>
      send_udp_response source (response p Nack nack);;
      atomically (metric (object_id p) (set jm_nack_count (λ x, x +w 1)))
  | FinTake i => finish_session p key source i
  end.

(** [Kind::Abort]. *)
Definition abort_session (key : SessionKey) : SM Runtime bool := act (λ s,
  match rt_incoming s !! key with
  | Some i => (drop_bytes (i_reservation i) (s <| rt_incoming ::= delete key |>), Ok true)
  | None => (s, Ok false)
  end).
Definition handle_abort (p : Packet) (source : SocketAddr) : Task Runtime unit :=
  removed ← atomically (abort_session (session_key p source));
  if (removed : bool) then atomically (metric (object_id p) (transfer_failed ∘ session_closed))
  else mret ().

(** [handle_udp_packet]. *)
Definition handle_udp_packet (p : Packet) (source : SocketAddr) : Task Runtime unit :=
  atomically retain_completed;;
  match kind p with
  | ReadRequest => handle_read_request p source
  | Start => if flags p =? 0 then handle_start p source else mret ()
  | Data => handle_data p source
  | Fin => handle_fin p source
  | Abort_ => handle_abort p source
  | _ => mret ()
  end.

(** The error reply of [udp_datagram] and [udp_datagrams]. *)
Definition reply_error (p : Packet) (source : SocketAddr) (r : Result unit) : Task Runtime unit :=
  match r with
  | Err e =>
      match encode (c_cluster_secret config) (response p Error (as_bytes e)) with
      | Ok wire =>
          _ ← caught (atomically (send_to wire source));
          atomically (metric (object_id p) datagram_sent)
      | _ => mret ()
      end
  | _ => mret ()
  end.

(** [udp_datagram]. *)
Definition udp_datagram (datagram : list byte) (source : SocketAddr) : Task Runtime unit :=
  match decode datagram (c_cluster_secret config) with
  | Ok p =>
      atomically (metric (object_id p) (set jm_udp_datagrams_received (λ x, x +w 1)));;
      r ← caught (handle_udp_packet p source);
      reply_error p source r
  | Err _ => mret ()
  | Panic => pure_step Panic
  end.

(** [handle_udp_data_batch] on [first :: rest]. *)
Definition handle_udp_data_batch (first : Packet) (packets : list Packet) (source : SocketAddr)
    : Task Runtime unit :=
  let last := List.last packets first in
  let key := session_key first source in
  done ← atomically (gets (already_completed first key));
  if (done : bool) then send_udp_response source (completed_data_ack last (c_udp_window_packets config)) else
  outcome ← atomically (on_session key (λ now, act (λ s,
    let (s', r) := batch_packets packets s (0, 0, 0) in
    match r with
    | Ok counts => let s' := s' <| i_last_activity := now |> in
                   (s', Ok (counts, batch_ack (c_udp_window_packets config) last s'))
    | Err e => (s', Err e)
    | Panic => (s', Panic)
    end)));
  match outcome with
  | None => without_session last key source
  | Some ((duplicates, out_of_order, bytes), bits) =>
      atomically (metric (object_id first) (λ m,
        m <| jm_udp_payload_bytes ::= λ x, x +w bytes |>
          <| jm_duplicate_datagrams ::= λ x, x +w duplicates |>
          <| jm_out_of_order_datagrams ::= λ x, x +w out_of_order |>));;
      send_udp_response source (response last Ack bits);;
      atomically (metric (object_id first) (set jm_ack_count (λ x, x +w 1)))
  end.

(** [for d in datagrams { self.udp_datagram(d).await }]. *)
Fixpoint each_datagram (datagrams : list (list byte)) (source : SocketAddr) : Task Runtime unit :=
  match datagrams with
  | [] => mret ()
  | d :: datagrams => udp_datagram d source;; each_datagram datagrams source
  end.

(** [iter().map(decode).collect::<Result<Vec<_>>>()]. *)
Fixpoint decode_all (datagrams : list (list byte)) : Result (list Packet) :=
  match datagrams with
  | [] => Ok []
  | d :: datagrams =>
      p ← decode d (c_cluster_secret config);
      ps ← decode_all datagrams;
      Ok (p :: ps)
  end.

Definition same_batch (first p : Packet) : bool :=
  bool_decide (kind p = Data) && (transfer_id p =? transfer_id first)
  && (object_id p =? object_id first) && (block_id p =? block_id first).

(** [udp_datagrams]. *)
Definition udp_datagrams (datagrams : list (list byte)) (source : SocketAddr) : Task Runtime unit :=
  match datagrams with
  | [] => mret ()
  | [d] => udp_datagram d source
  | _ =>
      match decode_all datagrams with
      | Ok (first :: packets) =>
          if forallb (same_batch first) (first :: packets) then
            atomically (metric (object_id first)
              (set jm_udp_datagrams_received (λ x, x +w zlen (first :: packets))));;
            r ← caught (handle_udp_data_batch first (first :: packets) source);
            reply_error first source r
          else each_datagram datagrams source
      | Panic => pure_step Panic
      | _ => each_datagram datagrams source
      end
  end.
End Handlers.

(** ** Reassembly *)

(** How many packets of a session have arrived. *)
Definition arrived (l : list bool) : Z := zlen (filter (λ b, b = true) l).

Lemma arrived_insert l i : l !! i = Some false → arrived (<[i := true]> l) = arrived l + 1.
Proof.
  unfold arrived. revert i. induction l as [|b l IH]; intros [|i] Hi; cbn in Hi; try done.
  - injection Hi as ->. change (<[0%nat := true]> (false :: l)) with (true :: l).
    rewrite !filter_cons, decide_True, decide_False by done. cbn [length]. lia.
  - specialize (IH _ Hi). change (<[S i := true]> (b :: l)) with (b :: <[i := true]> l).
    rewrite !filter_cons. case_decide; cbn [length]; lia.
Qed.

Lemma arrived_all l : arrived l = zlen l ↔ ∀ i b, l !! i = Some b → b = true.
Proof.
  unfold arrived. split.
  - induction l as [|b l IH]; intros H i c Hi; [done|].
    pose proof (length_filter (λ b, b = true) l) as Hle. rewrite filter_cons in H. destruct b.
    + rewrite decide_True in H by done. cbn [length] in H.
      destruct i; [by injection Hi as <-|]. apply (IH ltac:(lia) i c Hi).
    + rewrite decide_False in H by done. cbn [length] in H. lia.
  - intros H. induction l as [|b l IH]; [done|]. rewrite filter_cons.
    rewrite decide_True by (by apply (H 0%nat)). cbn [length].
    assert (zlen (filter (λ b, b = true) l) = zlen l); [|lia].
    apply IH. intros i c Hi. by apply (H (S i)).
Qed.

Lemma arrived_false n : arrived (replicate n false) = 0.
Proof. unfold arrived. induction n; [done|]. cbn [replicate]. by rewrite filter_cons, decide_False. Qed.

Record session_ok (i : IncomingSession) : Prop := {
  so_size : 0 < i_payload_size i;
  so_len : 0 < zlen (i_buffer i);
  so_count : i_packet_count i = div_ceil (zlen (i_buffer i)) (i_payload_size i);
  so_received : zlen (i_received i) = i_packet_count i;
  so_received_count : i_received_count i = arrived (i_received i);
  so_base : 0 <= i_base_offset i;
  so_end : i_base_offset i + zlen (i_buffer i) <= i_block_size i;
  so_block : is_u64 (i_block_size i);
}.

Lemma session_slot_begin i sequence :
  session_ok i → 0 <= sequence < i_packet_count i →
  0 <= sequence * i_payload_size i < zlen (i_buffer i).
Proof.
  intros [H1 H2 H3 _ _ _ _ _] Hs.
  pose proof (proj1 (div_ceil_spec _ _ _ H1 (Z.lt_le_incl _ _ H2)) H3) as [Hlo Hhi]. nia.
Qed.

Lemma data_slot_Ok p i r :
  session_ok i → 0 <= sequence_id p →
  data_slot p i = Ok r ↔
    r = (sequence_id p, sequence_id p * i_payload_size i)
    ∧ sequence_id p < i_packet_count i
    ∧ offset p = i_base_offset i + sequence_id p * i_payload_size i
    ∧ sequence_id p * i_payload_size i + zlen (payload p) <= zlen (i_buffer i).
Proof.
  intros Hok Hs. unfold data_slot. cbn zeta. rewrite !ensure_then, !Z.leb_le, Z.ltb_lt, Z.eqb_eq.
  split.
  - intros (Hc & Ho & Hl & [= <-]). split_and!; try done. rewrite Ho.
    pose proof (session_slot_begin i (sequence_id p) Hok ltac:(lia)).
    destruct Hok as [_ _ _ _ _ Hb He Hu]. unfold is_u64 in Hu. apply wadd_small. unfold is_u64. lia.
  - intros (-> & Hc & Ho & Hl). split_and!; try done. rewrite Ho.
    pose proof (session_slot_begin i (sequence_id p) Hok ltac:(lia)).
    destruct Hok as [_ _ _ _ _ Hb He Hu]. unfold is_u64 in Hu. symmetry. apply wadd_small. unfold is_u64. lia.
Qed.

Lemma data_slot_no_panic p i : no_panic (data_slot p i).
Proof. unfold data_slot, ensure. by repeat case_match. Qed.

(** What storing a payload does to a session. *)
Lemma store_payload_Ok p sequence begin i :
  session_ok i → i_received i !! Z.to_nat sequence = Some false →
  0 <= begin → begin + zlen (payload p) <= zlen (i_buffer i) →
  ∃ buffer, splice begin (payload p) (i_buffer i) = Some buffer
  ∧ store_payload p sequence begin i =
      Ok (i <| i_buffer := buffer |> <| i_received ::= <[Z.to_nat sequence := true]> |>
            <| i_received_count ::= λ n, n + 1 |> <| i_last_sequence := Some sequence |>)
  ∧ session_ok (i <| i_buffer := buffer |> <| i_received ::= <[Z.to_nat sequence := true]> |>
            <| i_received_count ::= λ n, n + 1 |> <| i_last_sequence := Some sequence |>).
Proof.
  intros [H1 H2 H3 H4 H5 H6 H7 H8] Hr Hb Hl. destruct (splice_is_Some begin (payload p) (i_buffer i) Hb Hl) as [buffer E].
  exists buffer. split; [done|]. pose proof (splice_length _ _ _ _ E) as Hlen. split.
  - unfold store_payload. by rewrite E.
  - split; cbn; rewrite ?Hlen, ?length_insert; try done. by rewrite H5, arrived_insert.
Qed.

Lemma batch_packet_spec p i :
  session_ok i → 0 <= sequence_id p →
  match batch_packet p i with
  | Ok (i', _) => session_ok i' ∧ metadata_matches p i = true
      ∧ i_object i' = i_object i ∧ i_lease i' = i_lease i ∧ i_generation i' = i_generation i
      ∧ i_base_offset i' = i_base_offset i ∧ i_block_size i' = i_block_size i
      ∧ i_payload_size i' = i_payload_size i ∧ i_packet_count i' = i_packet_count i
      ∧ i_checksum i' = i_checksum i ∧ i_reservation i' = i_reservation i
      ∧ length (i_buffer i') = length (i_buffer i)
  | Err _ => True
  | Panic => False
  end.
Proof.
  intros Hok Hs. unfold batch_packet.
  destruct (metadata_matches p i) eqn:Em; [|done]. cbn [ensure mbind Result_bind].
  destruct (data_slot p i) as [[sequence begin]|e|] eqn:Ed; [|done|by pose proof (data_slot_no_panic p i) as Hn; rewrite Ed in Hn].
  cbn [mbind Result_bind]. apply data_slot_Ok in Ed as ([= -> ->] & Hc & Ho & Hl); [|done..].
  pose proof (session_slot_begin i _ Hok (conj Hs Hc)) as Hb.
  destruct (lookup_lt_is_Some_2 (i_received i) (Z.to_nat (sequence_id p))) as [seen Hseen].
  { pose proof (so_received _ Hok). lia. }
  rewrite Hseen. cbn [unwrap mbind Result_bind]. destruct seen; [by split_and!|].
  destruct (store_payload_Ok p (sequence_id p) (sequence_id p * i_payload_size i) i Hok Hseen ltac:(lia) Hl)
    as (buffer & E & -> & Hok'). cbn [mbind Result_bind]. split_and!; try done.
  cbn. by rewrite (splice_length _ _ _ _ E).
Qed.

(** [data_packet] is [batch_packet] plus the time and the acknowledgement. *)
Definition touch (now : Z) (i : IncomingSession) : IncomingSession := i <| i_last_activity := now |>.

Lemma touch_ok now i : session_ok i → session_ok (touch now i).
Proof. intros []. by split. Qed.

Lemma data_packet_batch window now p i :
  match batch_packet p i with
  | Ok (i', (d, o, _)) => ∃ ack, data_packet window now p i = (touch now i', Ok (bool_decide (d = 1), bool_decide (o = 1), ack))
  | Err e => ∃ i', data_packet window now p i = (i', Err e) ∧ (i' = i ∨ i' = touch now i)
  | Panic => (data_packet window now p i).2 = Panic
  end.
Proof.
  unfold data_packet, batch_packet, gets, ensureM, modify, lift, act, mbind, SM_bind, Result_bind, mret, SM_ret.
  cbn [id]. destruct (metadata_matches p i); [|by eexists; split; [|left]]. cbn [ensure].
  change (set i_last_activity (λ _, now) i) with (touch now i).
  change (data_slot p (touch now i)) with (data_slot p i).
  destruct (data_slot p i) as [[sequence begin]|e|]; [|by eexists; split; [|right]|done].
  change (i_received (touch now i)) with (i_received i).
  destruct (i_received i !! Z.to_nat sequence) as [seen|]; [|done]. cbn [unwrap].
  destruct seen; [by eexists|].
  unfold store_payload. change (i_buffer (touch now i)) with (i_buffer i).
  destruct (splice begin (payload p) (i_buffer i)) as [buffer|]; [|done].
  cbn [unwrap mbind Result_bind].
  change (is_out_of_order sequence (touch now i)) with (is_out_of_order sequence i).
  destruct (is_out_of_order sequence i); eexists; reflexivity.
Qed.

Lemma batch_packet_touch now p i :
  batch_packet p (touch now i) = prod_map (touch now) id <$> batch_packet p i.
Proof.
  unfold batch_packet. change (metadata_matches p (touch now i)) with (metadata_matches p i).
  change (data_slot p (touch now i)) with (data_slot p i).
  destruct (metadata_matches p i); [|done]. cbn [ensure mbind Result_bind].
  destruct (data_slot p i) as [[sequence begin]|e|]; [|done..]. cbn [mbind Result_bind].
  change (i_received (touch now i)) with (i_received i).
  destruct (i_received i !! Z.to_nat sequence) as [[]|]; [done| |done]. cbn [unwrap mbind Result_bind].
  unfold store_payload. change (i_buffer (touch now i)) with (i_buffer i).
  by destruct (splice begin (payload p) (i_buffer i)).
Qed.

Lemma batch_packet_counts p i i' d o n :
  batch_packet p i = Ok (i', (d, o, n)) →
  d = 1 ∧ o = 0 ∧ n = 0 ∨ d = 0 ∧ (o = 0 ∨ o = 1) ∧ n = zlen (payload p).
Proof.
  unfold batch_packet. rewrite ensure_then. intros [_ H].
  apply bind_Ok in H as ([sequence begin] & _ & H).
  apply bind_Ok in H as (seen & _ & H). destruct seen; [injection H as <- <- <- <-; auto|].
  apply bind_Ok in H as (i1 & _ & H). injection H as <- <- <- <-. right.
  split_and!; [done| |done]. destruct (is_out_of_order _ _); auto.
Qed.

(** Handling packets alone, with the counters the handler adds up. *)
Fixpoint one_by_one (window now : Z) (ps : list Packet) (i : IncomingSession) (counts : Z * Z * Z)
    : IncomingSession * (Z * Z * Z) :=
  match ps with
  | [] => (i, counts)
  | p :: ps =>
      match data_packet window now p i with
      | (i', Ok (dup, ooo, _)) =>
          let '(d, o, n) := counts in
          one_by_one window now ps i'
            (d + Z.b2z dup, o + Z.b2z ooo, n + (if dup : bool then 0 else zlen (payload p)))
      | (i', _) => (i', counts)
      end
  end.


(** ** Reassembly of a chunk *)

(** The [k]-th piece of [n] bytes. *)
Definition piece (n : Z) (l : list byte) (k : nat) : list byte :=
  take (Z.to_nat n) (drop (k * Z.to_nat n) l).

(** A data packet a correct sender makes of the chunk [P]. *)
Record genuine (P : list byte) (i : IncomingSession) (p : Packet) : Prop := {
  ge_metadata : metadata_matches p i = true;
  ge_sequence : 0 <= sequence_id p < i_packet_count i;
  ge_offset : offset p = i_base_offset i + sequence_id p * i_payload_size i;
  ge_payload : payload p = piece (i_payload_size i) P (Z.to_nat (sequence_id p));
}.

Lemma lookup_piece n l k j :
  piece n l k !! j = if decide (j < Z.to_nat n)%nat then l !! (k * Z.to_nat n + j)%nat else None.
Proof.
  unfold piece. case_decide; [by rewrite lookup_take_lt, lookup_drop|by rewrite lookup_take_ge by lia].
Qed.

Lemma piece_length n l k :
  0 < n → (k * Z.to_nat n < length l)%nat →
  (0 < length (piece n l k))%nat ∧ (length (piece n l k) ≤ Z.to_nat n)%nat
  ∧ (k * Z.to_nat n + length (piece n l k) ≤ length l)%nat.
Proof. intros Hn Hk. unfold piece. rewrite length_take, length_drop. lia. Qed.

(** The fields a data packet does not change. *)
Definition same_session (i j : IncomingSession) : Prop :=
  i_object j = i_object i ∧ i_lease j = i_lease i ∧ i_generation j = i_generation i
  ∧ i_base_offset j = i_base_offset i ∧ i_block_size j = i_block_size i
  ∧ i_payload_size j = i_payload_size i ∧ i_packet_count j = i_packet_count i
  ∧ i_checksum j = i_checksum i ∧ i_reservation j = i_reservation i
  ∧ length (i_buffer j) = length (i_buffer i).

(** One genuine packet: it is accepted, its piece is in place, the other
    pieces and marks stay. *)
Lemma genuine_packet P i p :
  session_ok i → length (i_buffer i) = length P → genuine P i p →
  (i_received i !! Z.to_nat (sequence_id p) = Some true →
     piece (i_payload_size i) (i_buffer i) (Z.to_nat (sequence_id p))
     = piece (i_payload_size i) P (Z.to_nat (sequence_id p))) →
  ∃ i' c, batch_packet p i = Ok (i', c) ∧ session_ok i' ∧ same_session i i'
  ∧ i_received i' = <[Z.to_nat (sequence_id p) := true]> (i_received i)
  ∧ ∀ k, piece (i_payload_size i) (i_buffer i') k =
         if decide (k = Z.to_nat (sequence_id p)) then piece (i_payload_size i) P k
         else piece (i_payload_size i) (i_buffer i) k.
Proof.
  intros Hok HlenP [Gm Gs Go Gp] Hdup.
  pose proof (session_slot_begin i _ Hok Gs) as Hb. pose proof (so_size _ Hok) as Hn.
  set (q := Z.to_nat (sequence_id p)) in *. set (n := i_payload_size i) in *.
  assert (q * Z.to_nat n < length P)%nat as Hq by lia.
  destruct (piece_length n P q Hn Hq) as (L1 & L2 & L3).
  assert (data_slot p i = Ok (sequence_id p, sequence_id p * n)) as Ed.
  { apply data_slot_Ok; [done|lia|]. split_and!; [done|lia|done|]. fold n. rewrite Gp. fold n q. lia. }
  pose proof (batch_packet_spec p i Hok ltac:(lia)) as Hs.
  unfold batch_packet in *. rewrite Gm, Ed in *. cbn [ensure mbind Result_bind] in *.
  destruct (lookup_lt_is_Some_2 (i_received i) q) as [seen Hseen]; [pose proof (so_received _ Hok); lia|].
  fold q in Hs. fold q. rewrite Hseen in *. cbn [unwrap mbind Result_bind] in *. destruct seen.
  - exists i, (1, 0, 0). split_and!; try done; [by rewrite list_insert_id|].
    intros k. case_decide as Hk; [rewrite Hk; auto|done].
  - destruct (store_payload_Ok p (sequence_id p) (sequence_id p * n) i Hok Hseen ltac:(lia))
      as (buffer & Ebuf & Est & Hok'); [rewrite Gp; fold n q; lia|].
    rewrite Est in *. cbn [mbind Result_bind] in *.
    eexists _, _. split; [done|]. split; [done|].
    pose proof (splice_length _ _ _ _ Ebuf) as Hbl.
    split; [by split_and!|]. split; [done|]. cbn. intros k.
    assert (∀ j, buffer !! j = if decide (q * Z.to_nat n ≤ j < q * Z.to_nat n + length (payload p))%nat
      then payload p !! (j - q * Z.to_nat n)%nat else i_buffer i !! j) as Hlk.
    { intros j. rewrite (splice_lookup _ _ _ _ j Ebuf).
      by replace (Z.to_nat (sequence_id p * n)) with (q * Z.to_nat n)%nat by lia. }
    apply list_eq. intros j. destruct (decide (k = q)) as [Hk|Hk].
    + rewrite Hk, !lookup_piece. destruct (decide (j < Z.to_nat n)%nat) as [Hj|Hj]; [|done].
      rewrite Hlk. case_decide as Hr.
      * rewrite Gp. fold n q. rewrite lookup_piece, decide_True by lia. f_equal. lia.
      * rewrite Gp in Hr. fold n q in Hr. unfold piece in Hr. rewrite length_take, length_drop in Hr.
        rewrite !lookup_ge_None_2 by lia. done.
    + rewrite !lookup_piece. destruct (decide (j < Z.to_nat n)%nat) as [Hj|Hj]; [|done].
      rewrite Hlk, decide_False; [done|]. rewrite Gp. fold n q. nia.
Qed.

(** Data packets handled at their times of arrival. *)
Fixpoint deliver (window : Z) (ps : list (Z * Packet)) (i : IncomingSession) : IncomingSession :=
  match ps with
  | [] => i
  | (now, p) :: ps => deliver window ps (data_packet window now p i).1
  end.

(** Every marked piece of the buffer is the piece of [P]. *)
Definition pieces_ok (P : list byte) (i : IncomingSession) : Prop :=
  length (i_buffer i) = length P
  ∧ ∀ k, i_received i !! k = Some true →
      piece (i_payload_size i) (i_buffer i) k = piece (i_payload_size i) P k.

Lemma genuine_same P i j p : same_session i j → genuine P i p → genuine P j p.
Proof.
  intros (E1 & E2 & E3 & E4 & E5 & E6 & E7 & _) [G1 G2 G3 G4]. split.
  - unfold metadata_matches. by rewrite E1, E2, E3, E5.
  - by rewrite E7.
  - by rewrite E4, E6.
  - by rewrite E6.
Qed.

Lemma deliver_genuine P window ps i :
  session_ok i → pieces_ok P i → Forall (λ '(_, p), genuine P i p) ps →
  let i' := deliver window ps i in
  session_ok i' ∧ same_session i i' ∧ pieces_ok P i'
  ∧ ∀ k, i_received i' !! k = Some true ↔
      i_received i !! k = Some true ∨ ∃ now p, (now, p) ∈ ps ∧ Z.to_nat (sequence_id p) = k.
Proof.
  revert i. induction ps as [|[now p] ps IH]; intros i Hok [Hlen Hp] Hg; cbn.
  - split_and!; try done. intros k. split; [tauto|]. intros [?|(? & ? & []%not_elem_of_nil & _)]. done.
  - apply Forall_cons in Hg as [Hg Hgs].
    destruct (genuine_packet P i p Hok Hlen Hg (Hp _)) as (i1 & [[d o] n] & E & Hok1 & Hs1 & Hr1 & Hp1).
    pose proof (data_packet_batch window now p i) as Hd. rewrite E in Hd. destruct Hd as (ack & ->). cbn [fst].
    assert (pieces_ok P (touch now i1)) as Hp1'.
    { pose proof Hs1 as (_ & _ & _ & _ & _ & E6 & _ & _ & _ & E10). split; [cbn; congruence|].
      intros k Hk. change (piece (i_payload_size i1) (i_buffer i1) k = piece (i_payload_size i1) P k).
      change (i_received i1 !! k = Some true) in Hk. rewrite E6, Hp1. case_decide; [done|].
      apply Hp. rewrite Hr1, list_lookup_insert_ne in Hk by done. done. }
    assert (same_session i (touch now i1)) as Hst by apply Hs1.
    destruct (IH (touch now i1)) as (I1 & I2 & I3 & I4); [by apply touch_ok|done| |].
    { apply Forall_forall. intros [t q] Hq. rewrite Forall_forall in Hgs. specialize (Hgs _ Hq).
      by apply (genuine_same P i). }
    split_and!; try done.
    { destruct Hst as (?&?&?&?&?&?&?&?&?&?), I2 as (?&?&?&?&?&?&?&?&?&?). split_and!; congruence. }
    intros k. rewrite I4. change (i_received (touch now i1)) with (i_received i1). rewrite Hr1.
    destruct (decide (k = Z.to_nat (sequence_id p))) as [->|Hk].
    + rewrite list_lookup_insert_eq; [|destruct Hg as [_ Hg _ _]; pose proof (so_received _ Hok); lia].
      split; [|by left]. intros _. right. exists now, p. split; [by left|done].
    + rewrite list_lookup_insert_ne by done. split.
      * intros [?|(t & q & Hq & <-)]; [by left|]. right. exists t, q. split; [by right|done].
      * intros [?|(t & q & [[= -> ->]|Hq]%elem_of_cons & <-)]; [by left|done|]. right. eauto.
Qed.

(** The pieces put together. *)
Lemma pieces_whole n l l' :
  0 < n → length l = length l' →
  (∀ k, (k * Z.to_nat n < length l')%nat → piece n l k = piece n l' k) → l = l'.
Proof.
  intros Hn Hl Hp. apply list_eq. intros j. destruct (decide (j < length l')%nat) as [Hj|Hj].
  2: { by rewrite !lookup_ge_None_2 by lia. }
  pose proof (Nat.div_mod j (Z.to_nat n) ltac:(lia)) as Hd.
  pose proof (Nat.mod_upper_bound j (Z.to_nat n) ltac:(lia)) as Hm.
  specialize (Hp (j / Z.to_nat n)%nat ltac:(lia)).
  apply (f_equal (λ x, x !! (j mod Z.to_nat n)%nat)) in Hp.
  rewrite !lookup_piece, !decide_True in Hp by done.
  replace (j / Z.to_nat n * Z.to_nat n + j mod Z.to_nat n)%nat with j in Hp by lia. done.
Qed.

(** C6. Reassembly. Data packets of a chunk may arrive in any order, any
    number of times, and some not at all: each is accepted, exactly the ones
    that came are marked, and every marked piece is in its place. The session
    is complete exactly when every packet has come at least once, and then
    its buffer is the chunk. *)
Theorem reassembly P window ps i :
  session_ok i → length (i_buffer i) = length P →
  i_received i = replicate (Z.to_nat (i_packet_count i)) false →
  Forall (λ '(_, p), genuine P i p) ps →
  let i' := deliver window ps i in
  (∀ k, i_received i' !! k = Some true ↔ ∃ now p, (now, p) ∈ ps ∧ Z.to_nat (sequence_id p) = k)
  ∧ (∀ k, i_received i' !! k = Some true →
       piece (i_payload_size i) (i_buffer i') k = piece (i_payload_size i) P k)
  ∧ (i_received_count i' = i_packet_count i' ↔
       ∀ k, (Z.of_nat k < i_packet_count i) → ∃ now p, (now, p) ∈ ps ∧ Z.to_nat (sequence_id p) = k)
  ∧ (i_received_count i' = i_packet_count i' → i_buffer i' = P).
Proof.
  intros Hok Hlen Hr Hg. cbn zeta.
  assert (pieces_ok P i) as Hp.
  { split; [done|]. intros k. rewrite Hr. intros [? _]%lookup_replicate. done. }
  destruct (deliver_genuine P window ps i Hok Hp Hg) as (Hok' & Hs & [Hlen' Hp'] & Hrec).
  set (i' := deliver window ps i) in *.
  assert (∀ k, i_received i' !! k = Some true ↔ ∃ now p, (now, p) ∈ ps ∧ Z.to_nat (sequence_id p) = k) as Hrec'.
  { intros k. rewrite Hrec, Hr. split; [|auto]. intros [[? _]%lookup_replicate|?]; done. }
  destruct Hs as (_ & _ & _ & _ & _ & E6 & E7 & _). rewrite E6 in Hp'.
  assert (i_received_count i' = i_packet_count i' ↔
    ∀ k, Z.of_nat k < i_packet_count i → i_received i' !! k = Some true) as Hall.
  { rewrite (so_received_count _ Hok'), <-(so_received _ Hok'), arrived_all, <-E7, <-(so_received _ Hok'). split.
    - intros H k Hk. destruct (lookup_lt_is_Some_2 (i_received i') k ltac:(lia)) as [b Hb].
      by rewrite Hb, (H _ _ Hb).
    - intros H k b Hb. pose proof (lookup_lt_Some _ _ _ Hb). specialize (H k ltac:(lia)). congruence. }
  split_and!; [done|done| |].
  - rewrite Hall. split; intros H k Hk; apply Hrec'; auto.
  - rewrite Hall. intros H. apply (pieces_whole (i_payload_size i)); [apply Hok|done|].
    intros k Hk. apply Hp', H. pose proof (so_count _ Hok) as Hc. rewrite Hlen in Hc.
    pose proof (so_size _ Hok) as Hn.
    pose proof (proj1 (div_ceil_spec (zlen P) _ _ Hn ltac:(lia)) Hc) as [_ ?]. nia.
Qed.

(** ** Every schedule of the server is safe *)
Section Safety.
Context `{BL : !Blake3, HM : !Hmac, UT : !UuidText}.
Context (config : Config) (send_error : Z → SocketAddr → list byte → option string).
Context (Hconfig : valid config).
(** The size of a generation of a block: no handler of this file changes it. *)
Context (size_of : Uuid → u64 → u64).

Record udp_inv (s : Runtime) : Prop := {
  ui_wf : rt_wf s;
  ui_blocks : ∀ p b, heap (rt_ram s) !! p = Some b →
    h_size (b_handle b) = size_of (h_id (b_handle b)) (h_generation (b_handle b));
  ui_sessions : ∀ k i, rt_incoming s !! k = Some i →
    session_ok i ∧ zlen (i_buffer i) <= c_chunk_bytes config
    ∧ i_block_size i = size_of k.2 (i_generation i);
  ui_session_count : Z.of_nat (size (rt_incoming s)) <= c_udp_max_sessions config;
  ui_reads : 0 <= rt_active_reads s <= c_udp_max_sessions config;
}.

(** An appended chunk: [p] is the [FIN] that names its digest. *)
Definition verified_append (s : Runtime) (p : Packet) (b b' : RamBlock) : Prop :=
  ∃ data,
    kind p = Fin ∧ block_id p = h_id (b_handle b) ∧ lease_token p = h_lease_token (b_handle b)
    ∧ rt_now_ms s < h_lease_expires_ms (b_handle b) ∧ h_state (b_handle b) = Writing
    ∧ payload p = blake3_hash data ∧ 0 < zlen data <= c_chunk_bytes config
    ∧ b_written b + zlen data <= h_size (b_handle b)
    ∧ b' = append_bytes (transfer_id p) (b_written b) data b.

(** What handling [p] may do to the store. *)
Definition udp_step (p : Packet) (s s' : Runtime) : Prop :=
  (blocks (rt_ram s') = blocks (rt_ram s) ∧ rt_membership s' = rt_membership s)
  ∧ ∀ q b', heap (rt_ram s') !! q = Some b' →
      ∃ b, heap (rt_ram s) !! q = Some b ∧ (b' = b ∨ verified_append s p b b').

Lemma udp_step_refl p s s' :
  rt_ram s' = rt_ram s → rt_membership s' = rt_membership s → udp_step p s s'.
Proof. intros E Em. split; rewrite E; eauto. Qed.

(** Sections that do not touch what the invariant reads. *)
Lemma udp_inv_eq s s' :
  rt_ram s' = rt_ram s → rt_live s' = rt_live s → rt_next_reservation s' = rt_next_reservation s →
  rt_incoming s' = rt_incoming s → rt_active_reads s' = rt_active_reads s → udp_inv s → udp_inv s'.
Proof.
  intros E1 E2 E3 E4 E5 [I1 I2 I3 I4 I5]. split; rewrite ?E1, ?E4, ?E5; try done.
  by apply (rt_wf_eq s).
Qed.

Abbreviation ufollows p := (follows udp_inv (udp_step p)).

(** A section that only returns a value or changes other fields. *)
Lemma follows_frame {A} p (m : SM Runtime A) :
  (∀ s, (rt_ram (m s).1 = rt_ram s ∧ rt_membership (m s).1 = rt_membership s)
     ∧ rt_live (m s).1 = rt_live s ∧ rt_next_reservation (m s).1 = rt_next_reservation s ∧ rt_incoming (m s).1 = rt_incoming s
     ∧ rt_active_reads (m s).1 = rt_active_reads s ∧ no_panic (m s).2) →
  ufollows p (atomically m).
Proof.
  intros H. apply follows_atomically. intros s Hs. destruct (H s) as ([E1 Em] & E2 & E3 & E4 & E5 & E6).
  split_and!; [by apply (udp_inv_eq s)|by apply udp_step_refl|done].
Qed.

Lemma follows_metric p id f : ufollows p (atomically (metric id f)).
Proof. by apply follows_frame. Qed.

Lemma follows_gets {A} p (f : Runtime → A) : ufollows p (atomically (gets f)).
Proof. by apply follows_frame. Qed.

Lemma encode_no_panic secret p : no_panic (encode secret p).
Proof. unfold encode, ensure. by case_match. Qed.

Lemma follows_send p wire destination : ufollows p (atomically (send_to send_error wire destination)).
Proof. apply follows_frame. intros s. unfold send_to, act. by case_match. Qed.

Lemma follows_send_response p destination q :
  ufollows p (send_udp_response config send_error destination q).
Proof.
  unfold send_udp_response. apply follows_pure_bind; [apply encode_no_panic|]. intros wire _.
  apply follows_bind; [apply follows_send|]. intros _. apply follows_metric.
Qed.

Lemma follows_bail {A} p e : ufollows p (pure_step (bail e) : Task Runtime A).
Proof. by constructor. Qed.

(** [Arc] clones. *)
Lemma udp_inv_ram s r :
  udp_inv s → (wf ∅ (live_bytes s) r) →
  (∀ q b, heap r !! q = Some b → heap (rt_ram s) !! q = Some b) →
  udp_inv (s <| rt_ram := r |>).
Proof.
  intros [[W1 W2 W3] I2 I3 I4 I5] Hr Hsub. split; cbn; [by split|eauto|done..].
Qed.

Lemma reclaim_heap q s p b : heap (reclaim q s) !! p = Some b → heap s !! p = Some b.
Proof.
  unfold reclaim. repeat case_match; cbn; try done. by intros [_ ?]%lookup_delete_Some.
Qed.

Lemma udp_inv_release s q : udp_inv s → udp_inv (s <| rt_ram ::= release q |>).
Proof.
  intros Hs. apply (udp_inv_ram s (release q (rt_ram s))); [done| |].
  - apply release_wf. eapply wf_mono; [|apply Hs]. set_solver.
  - intros p b Hb. by apply reclaim_heap in Hb.
Qed.

Lemma follows_with_block {A} p id (f : Ptr → Task Runtime A) :
  (∀ q, p_id q = id → ufollows p (f q)) → ufollows p (with_block id f).
Proof.
  intros Hf. unfold with_block. eapply (follows_atomically_bind _ _ _ (λ q, p_id q = id)).
  - intros s Hs. unfold on_ram, act. cbn. unfold get.
    destruct (blocks (rt_ram s) !! id) as [q|] eqn:Hq; cbn.
    + pose proof (rw_ram _ (ui_wf _ Hs)) as Hw. destruct (wf_blocks _ _ _ Hw _ _ Hq) as (b & Hb & Hid).
      split_and!.
      * apply udp_inv_ram; [done| |done]. by apply acquire_wf.
      * split; [done|]. cbn. eauto.
      * rewrite (wf_shape _ _ _ Hw _ _ Hb). done.
    + split_and!; [by apply (udp_inv_eq s)|by apply udp_step_refl|done].
  - intros q Hq. apply follows_caught_bind; [by apply Hf|]. intros r Hr.
    apply follows_bind.
    + apply follows_atomically. intros s Hs. cbn. split_and!; [by apply udp_inv_release| |done].
      split; cbn; [unfold release, reclaim; by repeat case_match|].
      intros q' b' Hb'. apply reclaim_heap in Hb'. eauto.
    + intros _. by apply follows_pure.
Qed.
(** Reservations. *)
Lemma drop_bytes_frame i s :
  heap (rt_ram (drop_bytes i s)) = heap (rt_ram s) ∧ blocks (rt_ram (drop_bytes i s)) = blocks (rt_ram s)
  ∧ rt_incoming (drop_bytes i s) = rt_incoming s ∧ rt_active_reads (drop_bytes i s) = rt_active_reads s
  ∧ rt_metrics (drop_bytes i s) = rt_metrics s ∧ rt_clock (drop_bytes i s) = rt_clock s.
Proof. unfold drop_bytes. by case_match. Qed.

Lemma drop_bytes_membership i s : rt_membership (drop_bytes i s) = rt_membership s.
Proof. unfold drop_bytes. by case_match. Qed.

Lemma udp_inv_drop i s : udp_inv s → udp_inv (drop_bytes i s).
Proof.
  intros [I1 I2 I3 I4 I5]. destruct (drop_bytes_frame i s) as (E1 & E2 & E3 & E4 & _).
  split; rewrite ?E1, ?E3, ?E4; try done. by apply drop_bytes_wf.
Qed.

Lemma udp_step_drop p s s' :
  heap (rt_ram s') = heap (rt_ram s) → blocks (rt_ram s') = blocks (rt_ram s) →
  rt_membership s' = rt_membership s → udp_step p s s'.
Proof. intros E1 E2 E3. split; rewrite ?E1; eauto. Qed.

Lemma follows_with_reservation {A} p (i : Z) (t : Task Runtime A) :
  ufollows p t → ufollows p (with_reservation i t).
Proof.
  intros Ht. unfold with_reservation. apply follows_caught_bind; [done|]. intros r Hr.
  apply follows_bind; [|intros _; by apply follows_pure].
  apply follows_atomically. intros s Hs. cbn. split_and!; [by apply udp_inv_drop| |done].
  apply udp_step_drop; first [apply drop_bytes_frame|apply drop_bytes_membership].
Qed.

(** Sections under the lock of a block. *)
Lemma authorize_no_panic now token b : no_panic (authorize now token b).
Proof. unfold authorize, ensure. by repeat case_match. Qed.

(** A checked section ends in one of its early returns, without effect, or
    passes all its checks. *)
Lemma check_start_spec p q s :
  is_Some (heap (rt_ram s) !! q) →
  (check_start p q s).1 = s ∧ no_panic (check_start p q s).2
  ∧ ((check_start p q s).2 = Ok () → ∃ b, heap (rt_ram s) !! q = Some b
      ∧ h_generation (b_handle b) = generation p ∧ h_size (b_handle b) = total_size p
      ∧ h_state (b_handle b) = Writing ∧ b_written b = offset p
      ∧ lease_token p = h_lease_token (b_handle b) ∧ rt_now_ms s < h_lease_expires_ms (b_handle b)).
Proof.
  intros [b Hb]. unfold check_start, block_at. sm_unfold.
  rewrite Hb. cbn [unwrap]. unfold authorize.
  destruct (lease_token p =? _) eqn:E1; [|done]. destruct (rt_now_ms s <? _) eqn:E2; [|done].
  cbn [ensure mbind Result_bind]. unfold lift, ensure.
  match goal with |- context [if ?c then _ else _] => destruct c eqn:E3 end; [|done].
  split_and!; [done..|]. intros _. exists b. bprop. done.
Qed.

Lemma follows_read_request p source :
  packet_ok p → ufollows p (handle_read_request config p source).
Proof.
  intros Hp. unfold handle_read_request. cbn zeta.
  apply follows_pure_bind; [unfold ensure; by case_match|]. intros [] Hl%ensure_Ok. bprop.
  apply follows_with_block. intros q Hq.
  eapply (follows_waiting_bind _ _ _ _ (λ _, True)).
  - intros s Hs Hg. apply andb_true_iff in Hg as [_ [b Hb]%bool_decide_eq_true].
    unfold read_block, block_at. sm_unfold. rewrite Hb. cbn [unwrap].
    assert (udp_inv s ∧ udp_step p s s ∧ True) as Hstop by (split_and!; [done|by apply udp_step_refl|done]).
    unfold authorize.
    destruct (lease_token p =? _); [|exact Hstop].
    destruct (rt_now_ms s <? _); [|exact Hstop]. cbn [ensure mbind Result_bind].
    match goal with |- context [ensure ?c] => destruct c end; [|exact Hstop]. cbn [ensure].
    destruct (checked_add (offset p) (sequence_id p)) as [e|] eqn:Ee; [|exact Hstop]. cbn [ok_or].
    destruct (e <=? zlen (b_bytes b)) eqn:El; [|exact Hstop]. cbn [ensure].
    destruct (rt_active_reads s <? _) eqn:Ea; [|exact Hstop]. cbn [ensure]. bprop.
    unfold modify. apply checked_add_Some in Ee as [-> _].
    destruct (slice_is_Some (offset p) (offset p + sequence_id p) (b_bytes b)) as [pl ->]; [|lia..|].
    { apply (po_offset _ Hp). }
    cbn. split_and!; [|by apply udp_step_refl|done].
    destruct Hs as [I1 I2 I3 I4 I5]. split; cbn; try done; [by apply (rt_wf_eq s)|lia].
  - intros [h pl] _. apply follows_bind; [by apply follows_frame|]. intros _. apply follows_metric.
Qed.

(** ** [START] *)
Lemma expire_sessions_spec s :
  let s' := (expire_sessions config s).1 in
  rt_incoming s' = filter (λ '(_, i), expired config s i = false) (rt_incoming s)
  ∧ heap (rt_ram s') = heap (rt_ram s) ∧ blocks (rt_ram s') = blocks (rt_ram s)
  ∧ rt_active_reads s' = rt_active_reads s ∧ rt_clock s' = rt_clock s
  ∧ (rt_wf s → rt_wf s').
Proof.
  cbn zeta. unfold expire_sessions, modify. cbn [fst].
  set (dead := (map_to_list _).*2). set (s0 := set rt_incoming _ s).
  assert (∀ l t, rt_incoming (foldl (λ s i, s <| rt_metrics ::= job (i_object i) (transfer_failed ∘ session_closed) |>) t l) = rt_incoming t
    ∧ rt_ram (foldl (λ s i, s <| rt_metrics ::= job (i_object i) (transfer_failed ∘ session_closed) |>) t l) = rt_ram t
    ∧ rt_live (foldl (λ s i, s <| rt_metrics ::= job (i_object i) (transfer_failed ∘ session_closed) |>) t l) = rt_live t
    ∧ rt_next_reservation (foldl (λ s i, s <| rt_metrics ::= job (i_object i) (transfer_failed ∘ session_closed) |>) t l) = rt_next_reservation t
    ∧ rt_active_reads (foldl (λ s i, s <| rt_metrics ::= job (i_object i) (transfer_failed ∘ session_closed) |>) t l) = rt_active_reads t
    ∧ rt_clock (foldl (λ s i, s <| rt_metrics ::= job (i_object i) (transfer_failed ∘ session_closed) |>) t l) = rt_clock t) as Hm.
  { induction l as [|x l IH]; intros t; [done|]. cbn [foldl].
    destruct (IH (t <| rt_metrics ::= job (i_object x) (transfer_failed ∘ session_closed) |>)) as (-> & -> & -> & -> & -> & ->).
    done. }
  assert (∀ l t, heap (rt_ram (foldr drop_bytes t l)) = heap (rt_ram t)
    ∧ blocks (rt_ram (foldr drop_bytes t l)) = blocks (rt_ram t)
    ∧ rt_incoming (foldr drop_bytes t l) = rt_incoming t
    ∧ rt_active_reads (foldr drop_bytes t l) = rt_active_reads t
    ∧ rt_clock (foldr drop_bytes t l) = rt_clock t
    ∧ (rt_wf t → rt_wf (foldr drop_bytes t l))) as Hd.
  { induction l as [|x l IH]; intros t; [done|]. cbn [foldr].
    destruct (drop_bytes_frame x (foldr drop_bytes t l)) as (-> & -> & -> & -> & _ & ->).
    destruct (IH t) as (-> & -> & -> & -> & -> & Hw). split_and!; try done.
    intros Ht. by apply drop_bytes_wf, Hw. }
  destruct (Hm dead (foldr drop_bytes s0 (i_reservation <$> dead))) as (E1 & E2 & E3 & E4 & E5 & E6).
  destruct (Hd (i_reservation <$> dead) s0) as (F1 & F2 & F3 & F4 & F5 & F6).
  rewrite E1, E2, E5, E6, F1, F2, F3, F4, F5. split_and!; try done.
  intros Hw. eapply rt_wf_eq; [exact E2|exact E3|exact E4|]. by apply F6, (rt_wf_eq s).
Qed.

Lemma expire_sessions_membership s :
  rt_membership (expire_sessions config s).1 = rt_membership s.
Proof.
  unfold expire_sessions, modify. cbn [fst].
  rewrite (foldl_invariant rt_membership (λ s i, s <| rt_metrics ::= _ |>)) by done.
  change (rt_membership s) with
    (rt_membership (s <| rt_incoming ::= filter (λ '(_, i), expired config s i = false) |>)).
  induction (i_reservation <$> _) as [|i l IH]; [done|]. cbn [foldr]. by rewrite drop_bytes_membership.
Qed.

Lemma udp_inv_expire s : udp_inv s → udp_inv (expire_sessions config s).1.
Proof.
  intros [I1 I2 I3 I4 I5]. destruct (expire_sessions_spec s) as (E1 & E2 & E3 & E4 & E5 & E6).
  split; rewrite ?E1, ?E2, ?E4; try done; [by apply E6| |].
  - intros k i [Hi _]%map_lookup_filter_Some. by apply I3.
  - etrans; [|exact I4]. apply inj_le, map_subseteq_size, map_filter_subseteq.
Qed.

(** What the checks before the section of the sessions establish. *)
Record start_ok (p : Packet) : Prop := {
  st_length : 0 < start_length p <= c_chunk_bytes config;
  st_payload : zlen (payload p) = 40;
  st_count : sequence_id p = div_ceil (start_length p) (c_udp_payload_bytes config);
  st_end : offset p + start_length p <= total_size p;
  st_size : total_size p = size_of (block_id p) (generation p);
}.

Lemma new_session_ok p now r :
  packet_ok p → start_ok p →
  session_ok (mkSession (object_id p) (lease_token p) (generation p) (offset p) (total_size p)
    (c_udp_payload_bytes config) (sequence_id p) (drop 8 (payload p))
    (replicate (Z.to_nat (start_length p)) x00) (replicate (Z.to_nat (sequence_id p)) false) 0 None now r).
Proof.
  intros Hp [S1 S2 S3 S4 S5]. pose proof (v_payload _ Hconfig).
  pose proof (div_ceil_pos (start_length p) (c_udp_payload_bytes config) ltac:(lia) ltac:(lia)).
  split; cbn; rewrite ?length_replicate; try lia.
  - rewrite Z2Nat.id by lia. done.
  - by rewrite arrived_false.
  - apply (po_offset _ Hp).
  - apply (po_total _ Hp).
Qed.

Lemma open_session_spec p source s :
  packet_ok p → start_ok p → udp_inv s →
  let m := open_session config p (session_key p source) s in
  udp_inv m.1 ∧ (heap (rt_ram m.1) = heap (rt_ram s) ∧ blocks (rt_ram m.1) = blocks (rt_ram s)
                 ∧ rt_membership m.1 = rt_membership s)
  ∧ no_panic m.2.
Proof.
  intros Hp Hst Hs. cbn zeta. unfold open_session. sm_unfold.
  destruct (rt_incoming s !! session_key p source) as [i|] eqn:Ei.
  { by split_and!. }
  case_bool_decide as Hn; cbn [ensure]; [|by split_and!].
  assert (is_u64 (start_length p)) as Hu.
  { pose proof (st_length _ Hst). pose proof (v_chunk _ Hconfig). unfold is_u64, U64_MAX. lia. }
  pose proof (reserve_bytes_wf (start_length p) s Hu (ui_wf _ Hs)) as Hw.
  pose proof (reserve_not_panic (start_length p) (accounting (rt_ram s))) as Hnp.
  unfold reserve_bytes, act in *.
  destruct (reserve (start_length p) (accounting (rt_ram s))) as [a [r|e|]]; [|by split_and!|done].
  cbn [fst snd] in *. unfold metric, modify. cbn [fst snd]. split_and!; [|done..].
  destruct Hs as [I1 I2 I3 I4 I5]. split; try done.
  - by eapply rt_wf_eq; [..|exact Hw].
  - cbn. intros k i. rewrite lookup_insert. case_decide as Hk; [|apply I3].
    intros [= <-]. subst k. split_and!; [by apply new_session_ok| |apply (st_size _ Hst)].
    cbn. rewrite length_replicate. pose proof (st_length _ Hst). lia.
  - cbn. rewrite map_size_insert_None by done. lia.
Qed.

Lemma follows_start p source : packet_ok p → ufollows p (handle_start config send_error p source).
Proof.
  intros Hp. unfold handle_start. cbn zeta.
  apply follows_pure_bind; [unfold ensure; by case_match|]. intros [] H1%ensure_Ok%Z.eqb_eq.
  apply follows_pure_bind; [unfold ensure; by case_match|]. intros [] H2%ensure_Ok. bprop.
  apply follows_pure_bind; [unfold ensure; by case_match|]. intros [] H3%ensure_Ok%Z.eqb_eq.
  apply follows_pure_bind; [unfold ensure; by case_match|]. intros [] H4%ensure_Ok.
  destruct (checked_add _ _) as [e|] eqn:Ee; [|done]. apply checked_add_Some in Ee as [-> _]. bprop.
  apply follows_with_block. intros q Hq.
  eapply (follows_waiting_bind _ _ _ _ (λ _, start_ok p)).
  - intros s Hs Hg. apply andb_true_iff in Hg as [_ Hb%bool_decide_eq_true].
    destruct (check_start_spec p q s Hb) as (E1 & E2 & E3). rewrite E1.
    split_and!; [done|by apply udp_step_refl|].
    destruct (check_start p q s).2 as [[]|e|]; [|done..].
    destruct (E3 eq_refl) as (b & Hq' & Eg & Es & _). split; try done.
    rewrite (wf_shape _ _ _ (rw_ram _ (ui_wf _ Hs)) _ _ Hq') in Hq. cbn in Hq.
    rewrite <-Es, <-Eg, <-Hq. by apply (ui_blocks _ Hs q).
  - intros [] Hst. apply follows_bind; [|intros _; apply follows_send_response].
    apply follows_atomically. intros s Hs. unfold mbind, SM_bind.
    pose proof (udp_inv_expire s Hs) as Hs'. destruct (expire_sessions_spec s) as (_ & F1 & F2 & _).
    assert (expire_sessions config s = ((expire_sessions config s).1, Ok ())) as E by reflexivity.
    rewrite E. destruct (open_session_spec p source _ Hp Hst Hs') as (G1 & (G2 & G3 & G5) & G4).
    split_and!; [done| |done].
    apply udp_step_drop; [congruence..|]. by rewrite G5, expire_sessions_membership.
Qed.

(** ** [DATA], [ABORT] *)

Lemma on_session_inv {A} key (m : Z → SM IncomingSession A) s :
  udp_inv s →
  (∀ now i, session_ok i → session_ok (m now i).1 ∧ same_session i (m now i).1 ∧ no_panic (m now i).2) →
  udp_inv (on_session key m s).1
  ∧ (rt_ram (on_session key m s).1 = rt_ram s ∧ rt_membership (on_session key m s).1 = rt_membership s)
  ∧ no_panic (on_session key m s).2.
Proof.
  intros Hs Hm. unfold on_session, act. destruct (rt_incoming s !! key) as [i|] eqn:Ei; [|done]. cbn [fst snd].
  destruct (ui_sessions _ Hs _ _ Ei) as (Hok & Hl & Hsz).
  destruct (Hm (rt_clock s) i Hok) as (Hok' & (_ & _ & E3 & _ & E5 & _ & _ & _ & _ & E10) & Hp).
  split_and!; [|done|done|by destruct (m (rt_clock s) i).2].
  destruct Hs as [I1 I2 I3 I4 I5]. split; cbn; try done.
  - by apply (rt_wf_eq s).
  - intros k j. rewrite lookup_insert. case_decide as Hk; [|apply I3].
    intros [= <-]. subst k. split_and!; [done|by rewrite E10|by rewrite E3, E5].
  - by rewrite map_size_insert_Some by by eexists.
Qed.

Lemma same_session_refl i : same_session i i.
Proof. by split_and!. Qed.

Lemma batch_packet_ok p i :
  packet_ok p → session_ok i →
  match batch_packet p i with
  | Ok (i', _) => session_ok i' ∧ same_session i i'
  | Err _ => True
  | Panic => False
  end.
Proof.
  intros Hp Hi. pose proof (batch_packet_spec p i Hi (proj1 (po_sequence _ Hp))) as H.
  destruct (batch_packet p i) as [[i' c]|e|]; [|done..].
  destruct H as (H & _ & H'). by split.
Qed.

Lemma data_packet_ok window now p i :
  packet_ok p → session_ok i →
  session_ok (data_packet window now p i).1 ∧ same_session i (data_packet window now p i).1
  ∧ no_panic (data_packet window now p i).2.
Proof.
  intros Hp Hi. pose proof (batch_packet_ok p i Hp Hi) as Hb.
  pose proof (data_packet_batch window now p i) as Hd.
  destruct (batch_packet p i) as [[i' [[d o] n]]|e|]; [| |done].
  - destruct Hd as (ack & ->). destruct Hb as [Hb1 Hb2]. split_and!; [by apply touch_ok|exact Hb2|done].
  - destruct Hd as (i' & -> & [-> | ->]).
    + split_and!; [done|exact (same_session_refl i)|done].
    + split_and!; [by apply touch_ok|exact (same_session_refl i)|done].
Qed.

Lemma follows_without_session p q key source :
  ufollows p (without_session config send_error q key source).
Proof.
  unfold without_session. apply follows_bind; [apply follows_gets|]. intros [].
  - apply follows_send_response.
  - apply follows_bail.
Qed.

Lemma follows_data p source : packet_ok p → ufollows p (handle_data config send_error p source).
Proof.
  intros Hp. unfold handle_data. cbn zeta. apply follows_bind; [apply follows_gets|]. intros [].
  { apply follows_send_response. }
  apply follows_bind.
  - apply follows_atomically. intros s Hs.
    destruct (on_session_inv (session_key p source)
      (λ now, data_packet (c_udp_window_packets config) now p) s Hs) as (H1 & [H2 Hm] & H3).
    { intros now i Hi. by apply data_packet_ok. }
    split_and!; [done|by apply udp_step_refl|done].
  - intros [[[dup ooo] [bits|]]|]; [| |apply follows_without_session].
    + apply follows_bind; [apply follows_metric|]. intros _.
      apply follows_bind; [apply follows_send_response|]. intros _. apply follows_metric.
    + apply follows_bind; [apply follows_metric|]. intros _. apply follows_ret.
Qed.

Lemma follows_abort p source : ufollows p (handle_abort p source).
Proof.
  unfold handle_abort. apply follows_bind.
  - apply follows_atomically. intros s Hs. unfold abort_session, act.
    destruct (rt_incoming s !! session_key p source) as [i|] eqn:Ei; cbn [fst snd].
    2: { split_and!; [done|by apply udp_step_refl|done]. }
    set (s' := s <| rt_incoming ::= delete (session_key p source) |>).
    split_and!; [|apply udp_step_drop; change (rt_ram s) with (rt_ram s');
      [apply drop_bytes_frame..|by rewrite drop_bytes_membership]|done].
    apply udp_inv_drop. destruct Hs as [I1 I2 I3 I4 I5]. split; try done.
    + by apply (rt_wf_eq s).
    + intros k j Hj. unfold s' in Hj. cbn in Hj. apply lookup_delete_Some in Hj as [_ Hj]. by apply I3.
    + unfold s'. cbn. rewrite map_size_delete, Ei. lia.
  - intros []; [apply follows_metric|apply follows_ret].
Qed.

(** ** [FIN] *)

(** What [fin_section] establishes of the session it takes. *)
Record finished (p : Packet) (i : IncomingSession) : Prop := {
  fn_ok : session_ok i;
  fn_chunk : zlen (i_buffer i) <= c_chunk_bytes config;
  fn_size : i_block_size i = size_of (block_id p) (i_generation i);
  fn_digest : payload p = blake3_hash (i_buffer i);
}.

Lemma fin_section_spec p source s :
  udp_inv s →
  let m := fin_section config p (session_key p source) s in
  udp_inv m.1 ∧ (rt_ram m.1 = rt_ram s ∧ rt_membership m.1 = rt_membership s)
  ∧ match m.2 with Ok (FinTake i) => finished p i | Ok _ | Err _ => True | Panic => False end.
Proof.
  intros Hs. cbn zeta. unfold fin_section. sm_unfold.
  destruct (rt_incoming s !! session_key p source) as [i|] eqn:Ei; [|done].
  destruct (i_received_count i =? i_packet_count i); cbn [negb]; [|done].
  case_bool_decide as E1; cbn [ensure]; [|done]. case_bool_decide as E2; cbn [ensure]; [|done].
  cbn [fst snd]. destruct (ui_sessions _ Hs _ _ Ei) as (Hok & Hl & Hsz).
  split_and!; [|done|done|split; try done; congruence].
  destruct Hs as [I1 I2 I3 I4 I5]. split; try done.
  - by apply (rt_wf_eq s).
  - intros k j Hj. cbn in Hj. apply lookup_delete_Some in Hj as [_ Hj]. by apply I3.
  - cbn. rewrite map_size_delete, Ei. lia.
Qed.

Lemma append_bytes_guarded transfer data b :
  block_ok b → b_written b + zlen data <= h_size (b_handle b) →
  block_ok (append_bytes transfer (b_written b) data b).
Proof.
  intros [H1 H2 H3 H4 (cs & H5 & H6)] Hl.
  destruct (splice_is_Some (b_written b) data (b_bytes b)) as [l E]; [lia|lia|].
  pose proof (splice_length _ _ _ _ E) as Hll.
  split; cbn; rewrite ?E; cbn; try done; [lia..|].
  exists (cs ++ [data]). rewrite fold_left_app, <-H5. split; [done|].
  rewrite join_app, H6. cbn. rewrite app_nil_r. unfold splice in E. case_match; [|done].
  injection E as <-. rewrite (assoc_L (++)). symmetry. apply take_app_length'.
  rewrite length_app, length_take. lia.
Qed.

(** The section on the block, for a session its [FIN] has verified. *)
Lemma finalize_block_spec p i q s :
  kind p = Fin → finished p i → p_id q = block_id p → udp_inv s →
  is_Some (heap (rt_ram s) !! q) →
  let m := finalize_block p i q s in
  udp_inv m.1 ∧ udp_step p s m.1 ∧ no_panic m.2.
Proof.
  intros Hk [Hok Hch Hsz Hd] Hq Hs [b Hb]. cbn zeta. unfold finalize_block, block_at, write_block. sm_unfold.
  rewrite Hb. cbn [unwrap].
  assert (udp_inv s ∧ udp_step p s s ∧ True) as Hstop by (split_and!; [done|by apply udp_step_refl|done]).
  unfold authorize. destruct (lease_token p =? _) eqn:E1; [|exact Hstop].
  destruct (rt_now_ms s <? _) eqn:E2; [|exact Hstop]. cbn [ensure mbind Result_bind].
  destruct ((h_generation (b_handle b) =? i_generation i) && _ && _) eqn:E3; [|exact Hstop].
  cbn [ensure]. bprop.
  pose proof (ui_blocks _ Hs _ _ Hb) as B2.
  pose proof (rw_ram _ (ui_wf _ Hs)) as Hw.
  destruct (wf_heap _ _ _ Hw _ _ Hb) as [Hbok _].
  assert (h_id (b_handle b) = block_id p) as Hid.
  { by rewrite <-Hq, (wf_shape _ _ _ Hw _ _ Hb). }
  assert (b_written b + zlen (i_buffer i) <= h_size (b_handle b)) as Hfit.
  { rewrite B2, Hid. pose proof (so_end _ Hok) as He. rewrite Hsz in He. congruence. }
  destruct (splice_is_Some (i_base_offset i) (i_buffer i) (b_bytes b)) as [l El].
  { apply (so_base _ Hok). }
  { pose proof (ok_bytes _ Hbok). lia. }
  rewrite El. cbn [unwrap fst snd].
  assert (i_base_offset i = b_written b) as Eb by done. rewrite Eb in *.
  assert (wf ∅ (live_bytes s) (update_block q (append_bytes (transfer_id p) (b_written b) (i_buffer i)) (rt_ram s))) as Hw'.
  { apply update_block_wf; [|done]. intros b0 Hb0 Hok0. assert (b0 = b) as -> by congruence.
    split; [by apply append_bytes_guarded|done]. }
  assert (∀ q' b', heap (update_block q (append_bytes (transfer_id p) (b_written b) (i_buffer i)) (rt_ram s)) !! q' = Some b' →
    heap (rt_ram s) !! q' = Some b'
    ∨ q' = q ∧ b' = append_bytes (transfer_id p) (b_written b) (i_buffer i) b) as Hh.
  { intros q' b'. cbn. rewrite (alter_Some_insert _ _ _ _ Hb), lookup_insert.
    case_decide; [intros [= <-]; by right|by left]. }
  split_and!; [|split; [done|]|done].
  - destruct Hs as [[W1 W2 W3] I2 I3 I4 I5]. split; cbn; try done.
    intros q' b' [Hb'|[-> ->]]%Hh; [by apply (I2 q')|]. apply (I2 q _ Hb).
  - intros q' b' [Hb'|[-> ->]]%Hh; [eauto|]. exists b. split; [done|]. right. exists (i_buffer i).
    pose proof (so_len _ Hok). by split_and!.
Qed.

Lemma follows_finish p key source i :
  kind p = Fin → finished p i → ufollows p (finish_session config send_error p key source i).
Proof.
  intros Hk Hi. unfold finish_session. apply follows_with_reservation, follows_caught_bind.
  - apply follows_with_block. intros q Hq. apply follows_waiting. intros s Hs Hg.
    apply andb_true_iff in Hg as [_ Hb%bool_decide_eq_true]. by apply finalize_block_spec.
  - intros r Hr. destruct r as [[]|e|]; [|apply follows_bind; [by apply follows_frame|]; intros _; by apply follows_pure|done].
    apply follows_bind; [by apply follows_frame|]. intros _.
    apply follows_bind.
    { apply follows_frame. intros s. unfold trim_completed, modify. cbn [fst snd].
      case_bool_decide; [|done]. by destruct (oldest _). }
    intros _. apply follows_bind; [by apply follows_frame|]. intros _.
    apply follows_bind; [apply follows_metric|]. intros _. apply follows_send_response.
Qed.

Lemma follows_fin p source : kind p = Fin → ufollows p (handle_fin config send_error p source).
Proof.
  intros Hk. unfold handle_fin. cbn zeta. apply follows_bind; [apply follows_gets|]. intros [].
  { apply follows_send_response. }
  eapply (follows_atomically_bind _ _ _ (λ o, match o with FinTake i => finished p i | _ => True end)).
  - intros s Hs. destruct (fin_section_spec p source s Hs) as (H1 & [H2 Hm] & H3).
    split_and!; [done|by apply udp_step_refl|].
    destruct (fin_section config p (session_key p source) s).2 as [[]|e|]; done.
  - intros [|nack|i] Hi.
    + apply follows_bind; [apply follows_gets|]. intros []; [apply follows_ret|apply follows_bail].
    + apply follows_bind; [apply follows_send_response|]. intros _. apply follows_metric.
    + by apply follows_finish.
Qed.

Lemma follows_packet p source : packet_ok p → ufollows p (handle_udp_packet config send_error p source).
Proof.
  intros Hp. unfold handle_udp_packet. apply follows_bind; [by apply follows_frame|]. intros _.
  destruct (kind p) eqn:Ek; try apply follows_ret.
  - case_match; [by apply follows_start|apply follows_ret].
  - by apply follows_data.
  - by apply follows_fin.
  - apply follows_abort.
  - by apply follows_read_request.
Qed.

Lemma follows_reply_error p q source r : ufollows p (reply_error config send_error q source r).
Proof.
  unfold reply_error. destruct r as [a|e|]; try apply follows_ret.
  destruct (encode _ _); try apply follows_ret.
  apply follows_caught_bind; [apply follows_send|]. intros _ _. apply follows_metric.
Qed.

Lemma follows_mono {A} (G G' : Runtime → Runtime → Prop) (t : Task Runtime A) :
  (∀ s s', G s s' → G' s s') → follows udp_inv G t → follows udp_inv G' t.
Proof.
  intros HG. induction t as [r|g f next IH]; intros Ht; inversion Ht as [? Hr|? ? ? Hf]; subst; constructor; [done|].
  intros s Hs Hg. destruct (Hf s Hs Hg) as (H1 & H2 & H3). auto.
Qed.

(** A transition of the server: nothing happens to a block, or what a
    datagram that was accepted may do. *)
Definition server_step (s s' : Runtime) : Prop :=
  (blocks (rt_ram s') = blocks (rt_ram s) ∧ rt_membership s' = rt_membership s)
  ∧ ∀ q b', heap (rt_ram s') !! q = Some b' →
      ∃ b, heap (rt_ram s) !! q = Some b
        ∧ (b' = b ∨ ∃ d p, decode d (c_cluster_secret config) = Ok p ∧ verified_append s p b b').

(** What runs on the server: handlers of arriving datagrams, the ends of the
    reads it answers, and the passing of time. *)
Inductive udp_task : Task Runtime unit → Prop :=
| ut_datagrams ds source : udp_task (udp_datagrams config send_error ds source)
| ut_answered h r : no_panic r → udp_task (read_answered h r)
| ut_time clock now : udp_task (atomically (modify (λ s, s <| rt_clock := clock |> <| rt_now_ms := now |>))).

Abbreviation sfollows := (follows udp_inv server_step).
Context {BLL : Blake3Laws} {HML : HmacLaws}.

Lemma sfollows_packet d p (t : Task Runtime unit) :
  decode d (c_cluster_secret config) = Ok p → ufollows p t → sfollows t.
Proof. 
  intros Hd. apply follows_mono. intros s s' [H1 H2]. split; [done|]. intros q b' Hb'.
  destruct (H2 q b' Hb') as (b & Hb & [->|Hv]); exists b; (split; [done|]); [by left|].
  right. by exists d, p.
Qed.

Lemma sfollows_datagram d source : sfollows (udp_datagram config send_error d source).
Proof.
  unfold udp_datagram. destruct (decode d (c_cluster_secret config)) as [p|e|] eqn:Hd; [|apply follows_ret|].
  - apply (sfollows_packet d p); [done|]. apply decode_Ok in Hd as [Hp _].
    apply follows_bind; [apply follows_metric|]. intros _.
    apply follows_caught_bind; [by apply follows_packet|]. intros r _. apply follows_reply_error.
  - pose proof (decode_total d (c_cluster_secret config)) as H. by rewrite Hd in H.
Qed.

Lemma sfollows_each ds source : sfollows (each_datagram config send_error ds source).
Proof.
  induction ds as [|d ds IH]; cbn; [apply follows_ret|].
  apply follows_bind; [apply sfollows_datagram|]. by intros _.
Qed.

Lemma batch_packets_ok ps i counts :
  Forall packet_ok ps → session_ok i →
  session_ok (batch_packets ps i counts).1 ∧ same_session i (batch_packets ps i counts).1
  ∧ no_panic (batch_packets ps i counts).2.
Proof.
  intros Hps. revert i counts. induction Hps as [|p ps Hp Hps IH]; intros i [[d o] n] Hi; cbn [batch_packets].
  - split_and!; [done|apply same_session_refl|done].
  - pose proof (batch_packet_ok p i Hp Hi) as Hb.
    destruct (batch_packet p i) as [[i' [[d1 o1] n1]]|e|]; [| |done].
    + destruct Hb as [Hb1 Hb2]. destruct (IH i' (d + d1, o + o1, n + n1) Hb1) as (H1 & H2 & H3).
      split_and!; [done| |done].
      destruct Hb2 as (?&?&?&?&?&?&?&?&?&?), H2 as (?&?&?&?&?&?&?&?&?&?). split_and!; congruence.
    + split_and!; [done|apply same_session_refl|done].
Qed.

Lemma follows_batch first packets source :
  Forall packet_ok packets → ufollows first (handle_udp_data_batch config send_error first packets source).
Proof.
  intros Hps. unfold handle_udp_data_batch. cbn zeta. apply follows_bind; [apply follows_gets|]. intros [].
  { apply follows_send_response. }
  apply follows_bind.
  - apply follows_atomically. intros s Hs.
    match goal with |- context [on_session ?k ?m s] =>
      destruct (on_session_inv k m s Hs) as (H1 & [H2 Hm] & H3); [|by split_and!; [|apply udp_step_refl|]] end.
    intros now i Hi. destruct (batch_packets_ok packets i (0, 0, 0) Hps Hi) as (B1 & B2 & B3).
    unfold act. destruct (batch_packets packets i (0, 0, 0)) as [i' [counts|e|]]; [|done..].
    cbn [fst snd] in *. split_and!; [by apply (touch_ok now)|exact B2|done].
  - intros [[[[d o] n] bits]|]; [|apply follows_without_session].
    apply follows_bind; [apply follows_metric|]. intros _.
    apply follows_bind; [apply follows_send_response|]. intros _. apply follows_metric.
Qed.

Lemma decode_all_Ok ds ps :
  decode_all config ds = Ok ps → Forall2 (λ d p, decode d (c_cluster_secret config) = Ok p) ds ps.
Proof.
  revert ps. induction ds as [|d ds IH]; intros ps; cbn; [intros [= <-]; constructor|].
  intros H. apply bind_Ok in H as (p & Hd & H). apply bind_Ok in H as (ps' & Hds & [= <-]).
  constructor; auto.
Qed.

Lemma decode_all_no_panic ds : no_panic (decode_all config ds).
Proof.
  induction ds as [|d ds IH]; cbn; [done|].
  pose proof (decode_total d (c_cluster_secret config)). destruct (decode d _); [|done..].
  cbn. by destruct (decode_all config ds).
Qed.

Lemma sfollows_task t : udp_task t → sfollows t.
Proof.
  intros [ds source|h r Hr|clock now].
  - unfold udp_datagrams. destruct ds as [|d [|d' ds]]; [apply follows_ret|apply sfollows_datagram|].
    pose proof (decode_all_no_panic (d :: d' :: ds)) as Hn.
    destruct (decode_all config (d :: d' :: ds)) as [[|first ps]|e|] eqn:Hd; [apply sfollows_each| |apply sfollows_each|done].
    destruct (forallb _ _); [|apply sfollows_each].
    apply decode_all_Ok in Hd. assert (Forall packet_ok (first :: ps)) as Hps.
    { clear Hn. induction Hd as [|x y l k Hx _ IH]; constructor; [|done]. by apply decode_Ok in Hx as [? _]. }
    inversion Hd; subst. apply (sfollows_packet d first); [done|].
    apply follows_bind; [apply follows_metric|]. intros _.
    apply follows_caught_bind; [by apply follows_batch|]. intros r _. apply follows_reply_error.
  - set (p := mkPacket Ack 0 0 0 0 0 0 0 0 0 []). apply (follows_mono (udp_step p)).
    { intros s s' [H1 H2]. split; [done|]. intros q b' Hb'.
      destruct (H2 q b' Hb') as (b & Hb & [->|(data & [=] & _)]); eauto. }
    unfold read_answered. apply follows_bind; [apply follows_metric|]. intros _.
    apply follows_atomically. intros s Hs. cbn. split_and!; [|by apply udp_step_refl|done].
    destruct Hs as [I1 I2 I3 I4 I5]. split; cbn; try done; [by apply (rt_wf_eq s)|].
    unfold saturating_sub. lia.
  - apply follows_atomically. intros s Hs. cbn. split_and!; [by apply (udp_inv_eq s)| |done].
    split; cbn; eauto.
Qed.

(** What the server may have done to a block since. *)
Definition grown (b b' : RamBlock) : Prop :=
  b_handle b' = b_handle b
  ∧ (b' = b ∨ h_state (b_handle b) = Writing ∧ b_written b < b_written b' <= h_size (b_handle b)
      ∧ take (Z.to_nat (b_written b)) (b_bytes b') = take (Z.to_nat (b_written b)) (b_bytes b)).

Lemma grown_trans b1 b2 b3 : 0 <= b_written b1 → grown b1 b2 → grown b2 b3 → grown b1 b3.
Proof.
  intros Hw [E1 H1] [E2 H2]. split; [congruence|].
  destruct H1 as [->|(S1 & W1 & T1)]; [done|]. destruct H2 as [->|(S2 & W2 & T2)]; [auto|].
  right. rewrite E1 in W2. split_and!; [done|lia..|].
  rewrite <-T1. apply (f_equal (take (Z.to_nat (b_written b1)))) in T2.
  by rewrite !take_take, !Nat.min_l in T2 by lia.
Qed.

Lemma append_grown s p b b' : block_ok b → verified_append s p b b' → grown b b'.
Proof.
  intros [H1 H2 H3 H4 H5] (data & _ & _ & _ & _ & Hs & _ & Hd & Hl & ->). split; [done|]. right.
  destruct (splice_is_Some (b_written b) data (b_bytes b)) as [l E]; [lia..|].
  cbn. rewrite E. cbn. split_and!; [done|lia..|].
  unfold splice in E. case_match; [|done]. injection E as <-.
  rewrite take_app_le; [by rewrite take_take, Nat.min_id|]. rewrite length_take. lia.
Qed.

Lemma server_reach s c :
  udp_inv s → rtc (pool_step udp_task) (s, []) c →
  udp_inv c.1 ∧ Forall (follows udp_inv server_step) c.2 ∧ blocks (rt_ram c.1) = blocks (rt_ram s)
  ∧ ∀ q b', heap (rt_ram c.1) !! q = Some b' → ∃ b, heap (rt_ram s) !! q = Some b ∧ grown b b'.
Proof.
  intros Hs. apply (rtc_ind_r (λ c, udp_inv c.1 ∧ Forall (follows udp_inv server_step) c.2
    ∧ blocks (rt_ram c.1) = blocks (rt_ram s)
    ∧ ∀ q b', heap (rt_ram c.1) !! q = Some b' → ∃ b, heap (rt_ram s) !! q = Some b ∧ grown b b')).
  - split_and!; [done|constructor|done|]. intros q b Hb. exists b. split; [done|]. by split; [|left].
  - intros c1 c2 _ Hst (HI & Hl & Hb & Hg).
    destruct (pool_step_follows udp_inv server_step udp_task c1 c2 sfollows_task Hst HI Hl) as (HI2 & Hl2 & Hs2).
    split_and!; [done..| |].
    + destruct Hs2 as [->|[[-> _] _]]; done.
    + intros q b2 Hb2. destruct Hs2 as [E|[_ Hs2]]; [rewrite E in Hb2; eauto|].
      destruct (Hs2 q b2 Hb2) as (b1 & Hb1 & Hv). destruct (Hg q b1 Hb1) as (b & Hbs & Hgr).
      destruct (wf_heap _ _ _ (rw_ram _ (ui_wf _ HI)) _ _ Hb1) as [Hok1 _].
      destruct (wf_heap _ _ _ (rw_ram _ (ui_wf _ Hs)) _ _ Hbs) as [Hok _].
      exists b. split; [done|]. destruct Hv as [->|(d & p & _ & Hv)]; [done|].
      eapply grown_trans; [apply (ok_written _ Hok)|done|]. by eapply append_grown.
Qed.

(** C2. The data plane server is safe under every schedule. Whatever datagrams
    arrive, from whomever, and however their handlers, the reads they start
    and the clock interleave: no handler panics; the memory counter is the
    blocks plus the buffers of the sessions; the sessions and the reads stay
    within their limits; no block is mapped or unmapped; and a block only
    ever grows by appending while it is being written, so a committed block
    and every byte already acknowledged by a [FIN] never change. *)
Theorem udp_server_safe s s' ts :
  udp_inv s → rtc (pool_step udp_task) (s, []) (s', ts) →
  (∀ t, t ∈ ts → t ≠ Done Panic)
  ∧ owned (accounting (rt_ram s')) = map_sum block_bytes (heap (rt_ram s')) + live_bytes s'
  ∧ Z.of_nat (size (rt_incoming s')) <= c_udp_max_sessions config
  ∧ rt_active_reads s' <= c_udp_max_sessions config
  ∧ blocks (rt_ram s') = blocks (rt_ram s)
  ∧ ∀ q b', heap (rt_ram s') !! q = Some b' →
      ∃ b, heap (rt_ram s) !! q = Some b ∧ grown b b'.
Proof.
  intros Hs Hr. destruct (server_reach s (s', ts) Hs Hr) as (HI & Hl & Hb & Hg). cbn in *.
  split_and!; [|apply (wf_owned _ _ _ (rw_ram _ (ui_wf _ HI)))|apply HI|apply HI|done..].
  intros t Ht ->. rewrite Forall_forall in Hl. specialize (Hl _ Ht). by inversion Hl.
Qed.

End Safety.

(** ** Witnesses *)
Import Toy.
Module Witness.
Definition config : Config := default_config <| c_cluster_secret := Some "key"%string |>.
Definition no_error (_ : Z) (_ : SocketAddr) (_ : list byte) : option string := None.
Definition source : SocketAddr := (V4 7, 9000).

(** A node with one block of [size] bytes that is being written. *)
Definition handle (size : Z) : MemoryBlockHandle := mkHandle 5 9 size 1 1 (Ram 1) None Writing 77 1000 1 None.
Definition ram (size : Z) : LocalRam :=
  (allocate true (handle size) (default_ram <| accounting ::= set budget (λ _, 10000) |>)).1.
Definition ptr : Ptr := ptr_of 0 (handle 8).
Definition start_state (size : Z) : Runtime :=
  mkRuntime (Cluster.mkMembership 1 ∅) (ram size) ∅ [] ∅ ∅ 0 ∅ ∅ ∅ ∅ 0 ∅ 0 0 0 [] [].

Definition chunk : list byte := [x41; x42; x43; x44; x45; x46].
Definition digest : list byte := blake3_hash chunk.
Definition start : Packet := mkPacket Start 0 3 9 5 77 1 1 0 8 (be_bytes 8 6 ++ digest).
Definition data : Packet := mkPacket Data 0 3 9 5 77 1 0 0 8 chunk.
Definition fin : Packet := mkPacket Fin 0 3 9 5 77 1 0 0 8 digest.
Definition wire (p : Packet) : list byte := match encode (Some "key"%string) p with Ok d => d | _ => [] end.

Definition s0 : Runtime := start_state 8.

Lemma config_valid : valid config.
Proof. apply validate_Ok_valid. vm_compute. reflexivity. Qed.

Lemma s0_inv : udp_inv config (λ _ _, 8) s0.
Proof.
  split.
  - split; [|intros i r Hi; by destruct (lookup_empty_Some _ _ Hi)|done].
    apply (allocate_wf ∅ 0 _ true (handle 8)); [vm_compute; split; congruence|].
    apply (wf_accounting ∅ 0 default_ram (default_accounting <| budget := 10000 |>)); [apply default_ram_wf|done..].
  - intros p b. assert (heap (rt_ram s0) = {[ptr := new_block (handle 8) (mkReservation 8 (Some 9))]}) as -> by vm_refl.
    intros [<- <-]%lookup_singleton_Some. done.
  - intros k i Hi. by destruct (lookup_empty_Some _ _ Hi).
  - vm_compute. congruence.
  - vm_compute. split; congruence.
Qed.

(** The three datagrams of a chunk, handled one after the other. *)
Definition task (p : Packet) : Task Runtime unit := udp_datagrams config no_error [wire p] source.
Lemma task_ok p : udp_task config no_error (task p).
Proof. apply ut_datagrams. Qed.
Abbreviation reaches := (rtc (pool_step (udp_task config no_error)) (s0, [])).
Definition c1 := stop 20 (task start) s0.
Definition c2 := stop 20 (task data) (`c1).2.
Definition c3 := stop 20 (task fin) (`c2).2.
Lemma c2_reached : reaches ((`c2).2, [(`c1).1; (`c2).1]).
Proof.
  etrans; [exact (spawn_advance _ _ _ s0 [] c1 (task_ok start))|].
  exact (spawn_advance _ _ _ _ [(`c1).1] c2 (task_ok data)).
Qed.
Lemma c3_reached : reaches ((`c3).2, [(`c1).1; (`c2).1; (`c3).1]).
Proof.
  etrans; [exact c2_reached|]. exact (spawn_advance _ _ _ _ [(`c1).1; (`c2).1] c3 (task_ok fin)).
Qed.

(** The [FIN] right before it appends, and right after. *)
Definition c4 := stop 5 (task fin) (`c2).2.
Definition c5 := stop 1 (`c4).1 (`c4).2.
Lemma c4_reached : reaches ((`c4).2, [(`c1).1; (`c2).1; (`c4).1]).
Proof.
  etrans; [exact c2_reached|]. exact (spawn_advance _ _ _ _ [(`c1).1; (`c2).1] c4 (task_ok fin)).
Qed.
Lemma c5_step : pool_step (udp_task config no_error)
  ((`c4).2, [(`c1).1; (`c2).1; (`c4).1]) ((`c5).2, [(`c1).1; (`c2).1; (`c5).1]).
Proof.
  refine (advance_once _ _ _ [(`c1).1; (`c2).1] [] c5 _). vm_compute. reflexivity.
Qed.

(** A duplicate of the data packet that passed the check of [completed]
    before the [FIN] ran. *)
Definition c6 := stop 3 (task data) (`c2).2.
Definition c7 := stop 20 (task fin) (`c6).2.
Definition c8 := stop 20 (`c6).1 (`c7).2.
Lemma c8_reached : reaches ((`c8).2, [(`c1).1; (`c2).1; (`c8).1; (`c7).1]).
Proof.
  etrans; [exact c2_reached|].
  etrans; [exact (spawn_advance _ _ _ _ [(`c1).1; (`c2).1] c6 (task_ok data))|].
  etrans; [exact (spawn_advance _ _ _ _ [(`c1).1; (`c2).1; (`c6).1] c7 (task_ok fin))|].
  exact (advance_pool _ _ _ _ [(`c1).1; (`c2).1] [(`c7).1] c8).
Qed.

Definition block (s : Runtime) : RamBlock :=
  default (new_block (handle 0) (mkReservation 0 None)) (heap (rt_ram s) !! ptr).
Lemma block_there s : bool_decide (is_Some (heap (rt_ram s) !! ptr)) = true → heap (rt_ram s) !! ptr = Some (block s).
Proof. intros [b Hb]%bool_decide_eq_true. unfold block. by rewrite Hb. Qed.

(** A session of five bytes in pieces of two, and its packets. *)
Definition five : list byte := [x41; x42; x43; x44; x45].
Definition session : IncomingSession :=
  mkSession 9 77 1 0 8 2 3 [] (replicate 5 x00) [false; false; false] 0 None 0 0.
Definition piece_packet (k : Z) : Packet :=
  mkPacket Data 0 3 9 5 77 1 k (k * 2) 8 (piece 2 five (Z.to_nat k)).
Lemma session_is_ok : session_ok session.
Proof. by split. Qed.
Lemma piece_genuine k : 0 <= k < 3 → genuine five session (piece_packet k).
Proof. intros Hk. split; [done..| |done]. cbn. lia. Qed.
Definition arrivals : list (Z * Packet) := (λ k, (100 + k, piece_packet k)) <$> [2; 0; 2; 1].
End Witness.

Lemma udp_server_safe_witness :
  rtc (pool_step (udp_task Witness.config Witness.no_error)) (Witness.s0, [])
    ((`Witness.c3).2, [(`Witness.c1).1; (`Witness.c2).1; (`Witness.c3).1])
  ∧ (b_written <$> heap (rt_ram (`Witness.c3).2) !! Witness.ptr) = Some 6
  ∧ owned (accounting (rt_ram (`Witness.c3).2))
    = map_sum block_bytes (heap (rt_ram (`Witness.c3).2)) + live_bytes (`Witness.c3).2.
Proof.
  split; [exact Witness.c3_reached|]. split; [vm_compute; reflexivity|].
  exact (proj1 (proj2 (udp_server_safe Witness.config Witness.no_error Witness.config_valid _
    Witness.s0 _ _ Witness.s0_inv Witness.c3_reached))).
Defined.


Lemma reassembly_witness :
  Forall (λ '(_, p), genuine Witness.five Witness.session p) Witness.arrivals
  ∧ i_buffer (deliver 256 Witness.arrivals Witness.session) = Witness.five.
Proof.
  assert (Forall (λ '(_, p), genuine Witness.five Witness.session p) Witness.arrivals) as H.
  { repeat apply Forall_cons_2; [apply Witness.piece_genuine; lia..|apply Forall_nil_2]. }
  split; [exact H|].
  apply (proj2 (proj2 (proj2 (reassembly Witness.five 256 Witness.arrivals Witness.session
    Witness.session_is_ok eq_refl eq_refl H)))).
  vm_compute. reflexivity.
Defined.


(** ** A divergence

    The comment in [handle_udp_packet] promises that a duplicate of a data
    packet that is still queued when [FIN] commits is acknowledged. The check
    of [completed] comes first, though, and the look-up of the session and of
    [finishing] later. *)

(** A duplicate can still be refused: there is a schedule in which a [FIN]
    runs to its commit between the two checks of a duplicate data packet, and
    the packet of the completed transfer is answered with the error "stale
    UDP transfer ID". *)
Theorem late_duplicate_refused :
  ∃ c, rtc (pool_step (udp_task Witness.config Witness.no_error)) (Witness.s0, []) c
    ∧ rt_completed c.1 !! (session_key Witness.data Witness.source, 0) = Some 0
    ∧ last (rt_sent c.1) = Some (Witness.source,
        Witness.wire (UdpServer.response Witness.data Error (as_bytes "stale UDP transfer ID"))).
Proof.
  exists ((`Witness.c8).2, [(`Witness.c1).1; (`Witness.c2).1; (`Witness.c8).1; (`Witness.c7).1]).
  split; [exact Witness.c8_reached|]. split; vm_compute; reflexivity.
Qed.
