(* ===== verification/Daemon.v ===== *)
(** * A daemon and its environment: [src/runtime/mod.rs]

    The handlers of the control plane, of the TCP data plane and of the
    monitor run on the shared [Runtime] and talk to other nodes. What the
    other nodes, the operating system and the random generator answer is a
    script in the state: every statement about all states is about all
    answers. *)

From S2P Require Import Prelude.
From S2P Require Import Lists.
From S2P Require Import Bytes.
From S2P Require Import Float64.
From S2P Require Import Externals.
From S2P Require Import Block.
From S2P Require Import Accounting.
From S2P Require Import LocalRam.
From S2P Require Import Config.
From S2P Require Import Node.
From S2P Require Import Cluster.
From S2P Require Import Scheduler.
From S2P Require Import Metrics.
From S2P Require Import Protocol.
From S2P Require Import Transport.
From S2P Require Import UdpIo.
From S2P Require Import UdpSender.
From S2P Require Import UdpReader.
From S2P Require Import Task.
From S2P Require Import Runtime.

(** ** JSON *)

(** What the handlers need of [serde_json]: a conversion for each type they
    send or read, objects written with [json!], and the two accessors of a
    [Value]. A [Uuid] is a string in JSON and not a number, so it has a type of
    its own here. *)
Inductive JsonUuid := JUuid (u : Uuid).
Class Json := {
  json_value :: JsonValue;
  json_wire :: JsonWire;
  json_unit :: Serde unit;
  json_number :: Serde Z;
  json_text :: Serde string;
  json_uuid :: Serde JsonUuid;
  json_node :: Serde NodeCapabilities;
  json_handle :: Serde MemoryBlockHandle;
  json_handles :: Serde (list MemoryBlockHandle);
  json_plan :: Serde TrainingPlan;
  json_job :: Serde Job;
  json_metrics :: Serde (gmap Uuid JobMetrics);
  json_link :: Serde LinkEstimate;
  json_topology :: Serde (list LinkEstimate);
  json_status :: Serde ClusterStatus;
  json_request :: Serde Request;
  json_response :: Serde Response;
  json_challenge :: Serde Challenge;
  json_authentication :: Serde Authentication;
  json_authenticated :: Serde Authenticated;
  json_object : list (string * Value) → Value;
  json_field : Value → string → Value;
  json_as_str : Value → option string;
}.

(** ** The state of a daemon *)

(** A datagram socket a transfer binds: its clock, the errors of its sends,
    whether the kernel segments, and what it will receive. *)
Record Endpoint := mkEndpoint {
  ep_clock : Clock;
  ep_error : nat → option string;
  ep_gso : nat → bool;
  ep_inbox : list (option ReceivedBatch);
}.
Definition fresh_socket (e : Endpoint) : Socket := new_socket (ep_inbox e).

(** An answer of the environment: an error or a value. *)
Definition outcome {A} (x : string + A) : Result A :=
  match x with inl e => Err e | inr a => Ok a end.

Section Daemon.
Context `{BL : !Blake3, HM : !Hmac, HX : !Hex, UT : !UuidText, JS : !Json}.

(** [d_replies], [d_streams] and [d_sockets]: the results of the next remote
    calls, connections and sockets; [d_calls]: the remote calls made, with
    their answers; [d_readings], [d_detections] and [d_fresh] count the
    readings of the system monitor and of the GPUs and the identifiers drawn;
    [d_gate]: [migration_gate] is held; [d_pool]: [tcp_data_pool]. *)
Record Daemon := mkDaemon {
  d_rt : Runtime;
  d_replies : list (string + Response);
  d_streams : list (string + Stream);
  d_sockets : list (string + Endpoint);
  d_calls : list (SocketAddr * Request * Result Response);
  d_readings : nat;
  d_detections : nat;
  d_fresh : nat;
  d_gate : bool;
  d_pool : gmap SocketAddr (list Stream);
}.
#[export] Instance eta_Daemon : Eta Daemon := λ r,
  mkDaemon (d_rt r) (d_replies r) (d_streams r) (d_sockets r) (d_calls r) (d_readings r)
    (d_detections r) (d_fresh r) (d_gate r) (d_pool r).

(** A section on the runtime, and a task of it. *)
Definition on_rt {A} (m : SM Runtime A) : SM Daemon A := act (λ s,
  (s <| d_rt := (m (d_rt s)).1 |>, (m (d_rt s)).2)).
Fixpoint embed {A} (t : Task Runtime A) : Task Daemon A :=
  match t with
  | Done r => Done r
  | Atomic g f next => Atomic (λ s, g (d_rt s)) (λ s, s <| d_rt ::= f |>) (λ s, embed (next (d_rt s)))
  end.
Definition section {A} (m : SM Runtime A) : Task Daemon A := atomically (on_rt m).
Abbreviation reading f := (section (gets f)).

(** The next answer of the environment; when there is none, time is up. *)
Definition unreachable : string := "deadline has elapsed".
Definition next_of {A} (l : list (string + A)) : Result A :=
  match l with [] => Err unreachable | x :: _ => outcome x end.

(** [self.transport.control(address, &request)], when it is answered. *)
Definition call (address : SocketAddr) (request : Request) : Task Daemon Response :=
  atomically (act (λ s,
    let r := next_of (d_replies s) in
    (s <| d_replies ::= tail |> <| d_calls ::= (.++ [(address, request, r)]) |>, r))).
(** [UdpSocket::bind] and [TcpStream::connect]. *)
Definition bind_socket : Task Daemon Endpoint := atomically (act (λ s,
  (s <| d_sockets ::= tail |>, next_of (d_sockets s)))).
Definition open_stream : Task Daemon Stream := atomically (act (λ s,
  (s <| d_streams ::= tail |>, next_of (d_streams s)))).
(** [Uuid::new_v4()], by the number of the draw. *)
Context (new_v4 : nat → Uuid).
Definition fresh_uuid : Task Daemon Uuid :=
  atomically (act (λ s, (s <| d_fresh ::= S |>, Ok (new_v4 (d_fresh s))))).
(** [crate::now_ms()], and [Instant::now()] with the milliseconds since. *)
Definition now_ms : Task Daemon u64 := reading rt_now_ms.
Definition instant : Task Daemon Z := reading rt_clock.
Definition millis_since (start : Z) : Task Daemon f64 :=
  now ← instant; mret (as_millis_f64 (saturating_sub now start)).

(** ** Views of the cluster *)
Context (config : Config) (self : Uuid).

(** [local]: the index panics if the node is not in its own view. *)
Definition local : Task Daemon NodeCapabilities :=
  section (act (λ s, (s, capabilities <$> unwrap (peers (rt_membership s) !! self)))).
(** [leadership]. *)
Definition leadership : Task Daemon Leadership := reading (λ s, leader (rt_membership s)).
(** [address]. *)
Definition node_unavailable (id : Uuid) : string := "TRAINPOOL_NODE_UNAVAILABLE: " +:+ uuid_str id.
Definition address (id : Uuid) : Task Daemon SocketAddr :=
  section (act (λ s,
    (s, ok_or ((λ p, control_address (network (capabilities p))) <$> peers (rt_membership s) !! id)
          (node_unavailable id)))).
(** [leader_address]. *)
Definition leader_address : Task Daemon SocketAddr :=
  l ← leadership;
  id ← pure_step (ok_or (leader_id l) "no leader");
  address id.
(** [validate_leadership]. *)
Definition validate_leadership (expected : Leadership) : Task Daemon unit :=
  l ← leadership;
  pure_step (ensure (bool_decide (l = expected)) "TRAINPOOL_STALE_LEADER: membership/epoch changed").
(** [forward_leader]. *)
Definition forward_leader (request : Request) : Task Daemon Response :=
  a ← leader_address;
  call a request.
(** A response checked, and its data as a value. *)
Definition checked (r : Response) : Task Daemon unit := pure_step (check r).
Definition data_of {T} `{!Serde T} (r : Response) : Task Daemon T := pure_step (into_data r).

(** ** Memory *)

(** The samples of [sysinfo], by the number of the reading: the available
    memory and the free memory of the cgroup. *)
Context (sample : nat → u64 * option u64).

(** [Runtime::refresh_memory]: one section under the lock of the membership. *)
Definition refresh_local (free : u64 * option u64) (s : Runtime) : Runtime :=
  let refresh n :=
    refresh_memory free.1 free.2 config (used (accounting (rt_ram s)))
      (n <| network ::= set active_transfers (λ _, rt_active_transfers s) |>) in
  let s := s <| rt_membership ::= peer_mut self refresh |> in
  match peers (rt_membership s) !! self with
  | Some p => s <| rt_ram ::= set accounting (set budget (λ _, trainpool_ram_budget (memory (capabilities p)))) |>
  | None => s
  end.
Definition refresh : Task Daemon unit :=
  atomically (act (λ s,
    match peers (rt_membership (d_rt s)) !! self with
    | Some _ => (s <| d_rt ::= refresh_local (sample (d_readings s)) |> <| d_readings ::= S |>, Ok ())
    | None => (s, Panic)
    end)).

(** [self.metrics.lock().await.job(id)] and an update of it. *)
Definition measure_job (id : Uuid) (f : JobMetrics → JobMetrics) : Task Daemon unit := section (metric id f).

(** ** Blocks and reservations held by a task *)

(** [f] with an [Arc] clone of a block that is dropped on every exit. *)
Definition with_arc {A} (id : Uuid) (f : Ptr → Task Daemon A) : Task Daemon A :=
  p ← section (on_ram (get id));
  finally (λ s, s <| d_rt ::= set rt_ram (release p) |>) (f p).

(** [f] with the guard of a block's mutex, kept while other tasks run: the
    block as it is when the mutex is taken, and as [f] leaves it. *)
Definition lock_block (p : Ptr) (s : Runtime) : Runtime := s <| rt_ram ::= set locked ({[p]} ∪.) |>.
Definition unlock_block (p : Ptr) (s : Runtime) : Runtime := s <| rt_ram ::= set locked (.∖ {[p]}) |>.
Definition with_guard {A} (p : Ptr) (f : RamBlock → Task Daemon (RamBlock * A)) : Task Daemon A :=
  b ← waiting (λ s, unlocked p (d_rt s)) (on_rt (b ← block_at p; modify (lock_block p);; mret b));
  finally (λ s, s <| d_rt ::= unlock_block p |>)
    ('(b', a) ← f b; section (write_block p (λ _, b'));; mret a).

(** [f] with a reservation that is dropped on every exit. *)
Definition with_bytes {A} (bytes : u64) (f : Task Daemon A) : Task Daemon A :=
  i ← section (reserve_bytes bytes);
  finally (λ s, s <| d_rt ::= drop_bytes i |>) f.
End Daemon.
