(* ===== verification/DataPlane.v ===== *)
(** * The TCP data plane: [src/runtime/data.rs], [src/memory/remote_ram.rs]

    A connection carries control requests and, framed by them, the payloads of
    chunks. Its stream belongs to the task alone; everything else it touches is
    the shared daemon. *)

From S2P Require Import Prelude.
From S2P Require Import Lists.
From S2P Require Import Bytes.
From S2P Require Import Float64.
From S2P Require Import Externals.
From S2P Require Import Block.
From S2P Require Import Accounting.
From S2P Require Import LocalRam.
From S2P Require Import Config.
From S2P Require Import Node.
From S2P Require Import Cluster.
From S2P Require Import Metrics.
From S2P Require Import Protocol.
From S2P Require Import Transport.
From S2P Require Import UdpWire.
From S2P Require Import UdpIo.
From S2P Require Import UdpSender.
From S2P Require Import UdpReader.
From S2P Require Import Task.
From S2P Require Import Runtime.
From S2P Require Import UdpServer.
From S2P Require Import Daemon.

(** ** Tasks with a stream of their own *)
Section Conn.
Context `{BL : !Blake3, JS : !Json}.

(** What was read from and written to the stream stays done when the rest
    fails; a panic ends the task. *)
Definition Conn (A : Type) : Type := Stream → Task Daemon (Stream * Result A).
#[export] Instance Conn_ret : MRet Conn := λ A a st, mret (st, Ok a).
#[export] Instance Conn_bind : MBind Conn := λ A B k c st,
  '(st, r) ← c st;
  match r with
  | Ok a => k a st
  | Err e => mret (st, Err e)
  | Panic => pure_step Panic
  end.
Definition on_stream {A} (m : SM Stream A) : Conn A := λ st,
  match m st with
  | (_, Panic) => pure_step Panic
  | x => mret x
  end.
Definition on_task {A} (t : Task Daemon A) : Conn A := λ st, r ← caught t; mret (st, r).
Definition conn_pure {A} (r : Result A) : Conn A := on_task (pure_step r).
End Conn.

(** ** The client of a chunk: [memory/remote_ram.rs] *)
Section Client.
Context `{BL : !Blake3, JS : !Json}.

(** The hexadecimal digest of a payload. *)
Definition digest_of (payload : list byte) : string := hash_to_hex (blake3_hash payload).

(** [write_chunk_to]. *)
Definition write_chunk_to (h : MemoryBlockHandle) (transfer : Uuid) (offset : u64)
    (bytes : list byte) : SM Stream unit :=
  write_frame (WriteChunk h transfer offset (zlen bytes) (h_size h) (digest_of bytes) true);;
  r ← read_frame (T := Response);
  lift (check r);;
  write_all bytes;;
  r ← read_frame (T := Response);
  lift (check r).

(** [read_chunk_from]. *)
Definition read_chunk_from (h : MemoryBlockHandle) (transfer : Uuid) (offset length : u64)
    : SM Stream (list byte) :=
  write_frame (ReadChunk h transfer offset length true);;
  r ← read_frame (T := Response);
  lift (check r);;
  bytes ← read_exact length;
  ensureM (bool_decide (json_as_str (json_field (r_data r) "checksum") = Some (digest_of bytes)))
    "TRAINPOOL_CHECKSUM_MISMATCH";;
  mret bytes.
End Client.

(** ** What the owner of a block does under its mutex *)
Section Owner.
Context `{BL : !Blake3, HX : !Hex, UT : !UuidText, JS : !Json}.

(** A relayed chunk, [data.rs]: one section. The slice panics when the chunk
    does not fit the block. *)
Definition local_write (h : MemoryBlockHandle) (transfer : Uuid) (offset : u64) (payload : list byte)
    (p : Ptr) : SM Runtime unit :=
  b ← block_at p;
  now ← gets rt_now_ms;
  lift (authorize now (h_lease_token h) b);;
  ensureM (bool_decide (h_state (b_handle b) = Writing) && (h_generation (b_handle b) =? h_generation h)
           && (b_written b =? offset)) "block is immutable, stale or non-sequential";;
  lift (unwrap (splice offset payload (b_bytes b)));;
  write_block p (append_bytes transfer offset payload).
Definition local_read (h : MemoryBlockHandle) (offset length : u64) (p : Ptr) : SM Runtime (list byte) :=
  b ← block_at p;
  now ← gets rt_now_ms;
  lift (authorize now (h_lease_token h) b);;
  ensureM (bool_decide (h_state (b_handle b) = Ready) && (h_generation (b_handle b) =? h_generation h))
    "block not ready or handle stale";;
  ensureM (offset + length <=? zlen (b_bytes b)) "read exceeds allocation";;
  lift (unwrap (slice offset (offset + length) (b_bytes b))).

(** [stream.read_exact(&mut b.bytes[begin..end])]: on an early end of the
    stream the bytes that came are in the slice. *)
Definition read_into (offset length : u64) : SM (Stream * RamBlock) unit := act (λ '(st, b),
  match slice offset (offset + length) (b_bytes b) with
  | None => ((st, b), Panic)
  | Some _ =>
      let came := take (Z.to_nat length) (rx st) in
      ((mkStream (drop (Z.to_nat length) (rx st)) (tx st),
        b <| b_bytes ::= λ old, default old (splice offset came old) |>),
       if zlen (rx st) <? length then Err "early eof" else Ok ())
  end).

(** A direct chunk: everything between taking the mutex and counting it. *)
Definition receive_chunk (now : u64) (handle : MemoryBlockHandle) (transfer : Uuid)
    (offset length total_size : u64) (checksum : string) : SM (Stream * RamBlock) unit :=
  b ← gets snd;
  lift (authorize now (h_lease_token handle) b);;
  ensureM (bool_decide (h_state (b_handle b) = Writing)
           && (h_generation (b_handle b) =? h_generation handle)) "block is immutable or stale";;
  ensureM ((b_written b =? offset) && (h_size (b_handle b) =? total_size)) "chunks must be sequential";;
  ensureM match b_transfer_id b with None => true | Some id => id =? transfer end "transfer id mismatch";;
  act (λ '(st, b), let (st', r) := write_frame (response_data ()) st in ((st', b), r));;
  read_into offset length;;
  b ← gets snd;
  bytes ← lift (unwrap (slice offset (offset + length) (b_bytes b)));
  ensureM (bool_decide (digest_of bytes = checksum)) "TRAINPOOL_CHECKSUM_MISMATCH";;
  modify (λ '(st, b), (st, b <| b_hash ::= λ h, hasher_update h bytes |>
                             <| b_transfer_id := Some transfer |>
                             <| b_written := offset + length |>)).

(** The description sent ahead of a payload. *)
Definition chunk_metadata (transfer object : Uuid) (offset length total_size : u64)
    (payload : list byte) : Value :=
  json_object [("transfer_id", to_value (JUuid transfer)); ("object_id", to_value (JUuid object));
    ("offset", to_value offset); ("length", to_value length); ("total_size", to_value total_size);
    ("checksum", to_value (digest_of payload))]%string.

(** A direct read: the checks and the answer. *)
Definition send_chunk (now : u64) (handle : MemoryBlockHandle) (transfer : Uuid) (offset length : u64)
    (b : RamBlock) : SM Stream unit :=
  lift (authorize now (h_lease_token handle) b);;
  ensureM (bool_decide (h_state (b_handle b) = Ready)
           && (h_generation (b_handle b) =? h_generation handle)) "block not ready or handle stale";;
  ensureM (offset +w length <=? h_size (b_handle b)) "read exceeds allocation";;
  bytes ← lift (unwrap (slice offset (offset + length) (b_bytes b)));
  write_frame (mkResponse true
    (chunk_metadata transfer (h_id handle) offset length (h_size (b_handle b)) bytes) None);;
  write_all bytes.

(** [Request::Probe]: zeros in pieces of 8192 bytes. *)
Fixpoint send_zeros (fuel : nat) (remaining : Z) : SM Stream unit :=
  match fuel with
  | O => mret ()
  | S fuel =>
      if 0 <? remaining then
        let n := Z.min remaining 8192 in
        write_all (replicate (Z.to_nat n) x00);;
        send_zeros fuel (remaining - n)
      else mret ()
  end.
End Owner.

(** ** The handlers *)
Section DataPlane.
Context `{BL : !Blake3, HM : !Hmac, HX : !Hex, UT : !UuidText, JS : !Json}.
Context (new_v4 : nat → Uuid) (config : Config) (self : Uuid) (out_of_fuel : string).

(** [resolve] of [runtime/control.rs]. *)
Definition resolve (handle : MemoryBlockHandle) : Task Daemon MemoryBlockHandle :=
  r ← forward_leader (Resolve (h_id handle) (h_lease_token handle));
  data_of r.
(** [peer_capabilities]. *)
Definition peer_capabilities (node : Uuid) : Task Daemon NodeCapabilities :=
  section (act (λ s,
    (s, ok_or (capabilities <$> peers (rt_membership s) !! node) "TRAINPOOL_NODE_UNAVAILABLE"))).

(** [TcpTransport::connect]. *)
Definition connect : Task Daemon Stream :=
  st ← open_stream;
  client ← fresh_uuid new_v4;
  let (st, r) := Transport.connect config client st in
  pure_step ((λ _, st) <$> r).
(** A chunk on a connection of its own: [write_chunk] and [read_chunk]. *)
Definition write_chunk (h : MemoryBlockHandle) (transfer : Uuid) (offset : u64) (bytes : list byte)
    : Task Daemon unit :=
  st ← connect;
  pure_step (write_chunk_to h transfer offset bytes st).2.
Definition read_chunk (h : MemoryBlockHandle) (offset length : u64) : Task Daemon (list byte) :=
  st ← connect;
  transfer ← fresh_uuid new_v4;
  pure_step (read_chunk_from h transfer offset length st).2.
(** [acquire_tcp_data] and [release_tcp_data]. *)
Definition acquire_tcp_data (a : SocketAddr) : Task Daemon (Stream * bool) :=
  pooled ← atomically (act (λ s,
    match last (default [] (d_pool s !! a)) with
    | Some st => (s <| d_pool ::= alter (@removelast Stream) a |>, Ok (Some st))
    | None => (s, Ok None)
    end));
  match pooled with
  | Some st => mret (st, true)
  | None => st ← connect; mret (st, false)
  end.
Definition release_tcp_data (a : SocketAddr) (st : Stream) : Task Daemon unit :=
  atomically (modify (λ s,
    let connections := default [] (d_pool s !! a) in
    s <| d_pool ::= <[a := if zlen connections <? 8 then connections ++ [st] else connections]> |>)).
(** A chunk on a pooled connection: [tcp_write_chunk] and [tcp_read_chunk]. *)
Definition tcp_chunk {A} (a : SocketAddr) (job : Uuid) (m : SM Stream A) : Task Daemon A :=
  '(st, reused) ← acquire_tcp_data a;
  measure_job job (λ j,
    j <| jm_tcp_connections_opened ::= λ x, x +w Z.b2z (negb reused) |>
      <| jm_tcp_connections_reused ::= λ x, x +w Z.b2z reused |>);;
  let (st, r) := m st in
  (match r with Ok _ => release_tcp_data a st | _ => mret () end);;
  pure_step r.
Definition tcp_write_chunk (a : SocketAddr) (h : MemoryBlockHandle) (transfer : Uuid) (offset : u64)
    (payload : list byte) : Task Daemon unit :=
  tcp_chunk a (h_job_id h) (write_chunk_to h transfer offset payload).
Definition tcp_read_chunk (a : SocketAddr) (h : MemoryBlockHandle) (transfer : Uuid)
    (offset length : u64) : Task Daemon (list byte) :=
  tcp_chunk a (h_job_id h) (read_chunk_from h transfer offset length).

(** [ReliableUdpDataTransport::write] and [read] on a socket of their own. *)
Definition udp_write (a : SocketAddr) (h : MemoryBlockHandle) (transfer : Uuid) (offset : u64)
    (payload : list byte) : Task Daemon (unit * TransferStats) :=
  e ← bind_socket;
  let r := (send_payload (ep_clock e) (ep_error e) (ep_gso e) config a
              (mkSend h transfer offset payload false) out_of_fuel (fresh_socket e)).2 in
  pure_step (pair () <$> r).
Definition udp_read (a : SocketAddr) (h : MemoryBlockHandle) (transfer : Uuid) (offset length : u64)
    : Task Daemon (list byte * TransferStats) :=
  pure_step (ensure (length <=? c_chunk_bytes config) "UDP read exceeds configured chunk size");;
  e ← bind_socket;
  pure_step (UdpReader.read (ep_clock e) (ep_error e) config h out_of_fuel a transfer offset length
               (fresh_socket e)).2.
(** [track_udp_transfer] of [runtime/udp.rs]. *)
Definition track_udp_transfer {A} (job : Uuid) (transfer : Task Daemon (A * TransferStats)) : Task Daemon A :=
  measure_job job session_opened;;
  r ← caught transfer;
  measure_job job (λ m, match r with
                        | Ok (_, stats) => apply_udp_stats stats (session_closed m)
                        | _ => transfer_failed (session_closed m)
                        end);;
  pure_step (fst <$> r).

(** Whether a chunk for a node goes over UDP, and to which address. *)
Definition over_udp (node : NodeCapabilities) : bool :=
  bool_decide (c_data_transport config = "udp") && bool_decide (data_transport (network node) = "udp").
Definition data_address_of (node : NodeCapabilities) : SocketAddr :=
  default (control_address (network node)) (data_address (network node)).

(** A chunk that is not this node's: to its owner, and from it. *)
Definition forward_write (h : MemoryBlockHandle) (transfer : Uuid) (offset : u64) (payload : list byte)
    : Task Daemon unit :=
  let length := zlen payload in
  start ← instant;
  node ← peer_capabilities (h_owner_node h);
  (if over_udp node
   then track_udp_transfer (h_job_id h) (udp_write (data_address_of node) h transfer offset payload)
   else tcp_write_chunk (control_address (network node)) h transfer offset payload);;
  ms ← millis_since start;
  measure_job (h_job_id h) (λ m,
    m <| jm_bytes_local_to_remote_ram ::= λ x, x +w length |>
      <| jm_local_to_remote_bytes ::= λ x, x +w length |>
      <| jm_network_bytes ::= λ x, x +w length |>
      <| jm_network_wait_ms ::= λ x, f64_add x ms |>).
Definition forward_read (start : Z) (h : MemoryBlockHandle) (transfer : Uuid) (offset length : u64)
    : Task Daemon (list byte) :=
  node ← peer_capabilities (h_owner_node h);
  payload ← (if over_udp node
             then track_udp_transfer (h_job_id h) (udp_read (data_address_of node) h transfer offset length)
             else tcp_read_chunk (control_address (network node)) h transfer offset length);
  ms ← millis_since start;
  measure_job (h_job_id h) (λ m,
    m <| jm_bytes_remote_ram_to_local ::= λ x, x +w length |>
      <| jm_remote_to_local_bytes ::= λ x, x +w length |>
      <| jm_network_bytes ::= λ x, x +w length |>
      <| jm_network_wait_ms ::= λ x, f64_add x ms |>);;
  mret payload.

(** A reservation, and an [Arc] clone with a guard, around what uses the
    stream. *)
Definition conn_bytes {A} (bytes : u64) (c : Conn A) : Conn A := λ st,
  r ← caught (section (reserve_bytes bytes));
  match r with
  | Ok i => finally (λ s, s <| d_rt ::= drop_bytes i |>) (c st)
  | Err e => mret (st, Err e)
  | Panic => pure_step Panic
  end.
Definition conn_guard {A} (id : Uuid) (f : RamBlock → Stream → Task Daemon (RamBlock * (Stream * Result A)))
    : Conn A := λ st,
  r ← caught (section (on_ram (get id)));
  match r with
  | Ok p => finally (λ s, s <| d_rt ::= set rt_ram (release p) |>) (with_guard p (λ b, f b st))
  | Err e => mret (st, Err e)
  | Panic => pure_step Panic
  end.

(** [Request::WriteChunk] with [direct: false]: from the SDK, for whoever owns
    the block. *)
Definition relay_write (handle : MemoryBlockHandle) (transfer : Uuid) (offset length : u64)
    (checksum : string) : Conn unit :=
  h ← on_task (resolve handle);
  conn_bytes length (
    on_stream (write_frame (response_data ()));;
    payload ← on_stream (read_exact length);
    conn_pure (ensure (bool_decide (digest_of payload = checksum)) "TRAINPOOL_CHECKSUM_MISMATCH");;
    on_task (if h_owner_node h =? self
             then with_arc (h_id h) (λ p,
                    waiting (λ s, unlocked p (d_rt s)) (on_rt (local_write h transfer offset payload p)))
             else forward_write h transfer offset payload));;
  on_stream (write_frame (response_data ())).

(** With [direct: true]: from another node, for a block of this one. *)
Definition direct_write (handle : MemoryBlockHandle) (transfer : Uuid) (offset length total_size : u64)
    (checksum : string) : Conn unit :=
  conn_guard (h_id handle) (λ b st,
    now ← now_ms;
    match receive_chunk now handle transfer offset length total_size checksum (st, b) with
    | ((st, b), Ok _) =>
        measure_job (h_job_id handle) (set jm_network_bytes (λ x, x +w length));;
        let (st, r) := write_frame (response_data ()) st in mret (b, (st, r))
    | ((st, b), Err e) => mret (b, (st, Err e))
    | (_, Panic) => pure_step Panic
    end).

(** [Request::ReadChunk]. *)
Definition relay_read (handle : MemoryBlockHandle) (transfer : Uuid) (offset length : u64) : Conn unit :=
  h ← on_task (resolve handle);
  conn_bytes length (
    start ← on_task instant;
    payload ← on_task (if h_owner_node h =? self
      then with_arc (h_id h) (λ p,
             waiting (λ s, unlocked p (d_rt s)) (on_rt (local_read h offset length p)))
      else forward_read start h transfer offset length);
    on_stream (write_frame (mkResponse true
      (chunk_metadata transfer (h_id h) offset length (h_size h) payload) None));;
    on_stream (write_all payload)).
Definition direct_read (handle : MemoryBlockHandle) (transfer : Uuid) (offset length : u64) : Conn unit :=
  conn_guard (h_id handle) (λ b st,
    now ← now_ms;
    match send_chunk now handle transfer offset length b st with
    | (st, Ok _) =>
        measure_job (h_job_id handle) (set jm_network_bytes (λ x, x +w length));;
        mret (b, (st, Ok ()))
    | (st, Err e) => mret (b, (st, Err e))
    | (_, Panic) => pure_step Panic
    end).

(** The match of [data]. *)
Definition data_request (request : Request) : Conn unit :=
  match request with
  | WriteChunk handle transfer offset length total_size checksum direct =>
      conn_pure (ensure ((0 <? length) && (length <=? c_chunk_bytes config))
        "chunk size exceeds negotiated limit");;
      conn_pure (ensure (match checked_add offset length with Some e => e <=? total_size | None => false end
                         && (total_size =? h_size handle)) "invalid chunk range");;
      if (direct : bool) then direct_write handle transfer offset length total_size checksum
      else relay_write handle transfer offset length checksum
  | ReadChunk handle transfer offset length direct =>
      conn_pure (ensure ((0 <? length) && (length <=? c_chunk_bytes config))
        "chunk size exceeds negotiated limit");;
      conn_pure (ensure match checked_add offset length with Some e => e <=? h_size handle | None => false end
        "invalid read range");;
      if (direct : bool) then direct_read handle transfer offset length
      else relay_read handle transfer offset length
  | ProbeLink bytes =>
      conn_pure (ensure (bytes <=? 64 * 1024 * 1024) "probe capped at 64 MiB");;
      on_stream (write_frame (response_data bytes));;
      on_stream (send_zeros (Z.to_nat (div_ceil bytes 8192)) bytes)
  | _ => conn_pure (bail "not a data request")
  end.

(** [data], with the counter [ActiveTransfer] keeps: a [u32] that wraps. *)
Definition count_transfers (d : Z) (s : Daemon) : Daemon :=
  s <| d_rt ::= set rt_active_transfers (λ n, (n + d) mod 2 ^ 32) |>.
Definition data (request : Request) : Conn unit := λ st,
  atomically (modify (count_transfers 1));;
  finally (count_transfers (-1)) (data_request request st).
End DataPlane.
