(* ===== verification/Migration.v ===== *)
(** * Moving a block to another node: [src/memory/migration.rs]

    The source keeps its copy locked until the destination has verified its
    own, the leader has swapped the entry of the residency table and the
    destination has published it. *)

From S2P Require Import Prelude.
From S2P Require Import Lists.
From S2P Require Import Bytes.
From S2P Require Import Float64.
From S2P Require Import Externals.
From S2P Require Import Block.
From S2P Require Import Accounting.
From S2P Require Import LocalRam.
From S2P Require Import Config.
From S2P Require Import Node.
From S2P Require Import Cluster.
From S2P Require Import Metrics.
From S2P Require Import Protocol.
From S2P Require Import Transport.
From S2P Require Import UdpWire.
From S2P Require Import Task.
From S2P Require Import Runtime.
From S2P Require Import Daemon.
From S2P Require Import DataPlane.

Section Migration.
Context `{BL : !Blake3, HM : !Hmac, HX : !Hex, UT : !UuidText, JS : !Json}.
Context (new_v4 : nat → Uuid) (config : Config) (self : Uuid) (out_of_fuel : string).

(** [LocalRam::free] by its waits: for the clone, for the mutex, and for the
    map, whose entry goes together with the clone. *)
Definition clone_block (id : Uuid) : SM LocalRam (option Ptr) := act (λ s,
  match blocks s !! id with
  | Some p => (acquire p s, Ok (Some p))
  | None => (s, Ok None)
  end).
Definition check_token (token : Uuid) (p : Ptr) : SM Runtime unit :=
  b ← block_at p;
  ensureM (h_lease_token (b_handle b) =? token) "TRAINPOOL_LEASE_DENIED".
Definition free_block (id token : Uuid) : Task Daemon unit :=
  found ← section (on_ram (clone_block id));
  match found with
  | None => mret ()
  | Some p =>
      r ← caught (waiting (λ s, unlocked p (d_rt s)) (on_rt (check_token token p)));
      match r with
      | Ok _ => section (modify (λ s, s <| rt_ram ::= free_remove id p |>))
      | _ => section (modify (λ s, s <| rt_ram ::= release p |>));; pure_step r
      end
  end.

(** The end of a lease that starts now: [now_ms() + lease_seconds * 1000]. *)
Definition lease_end (now : u64) : u64 := now +w wmul (c_lease_seconds config) 1000.

(** The handle of the copy. *)
Definition target_of (h : MemoryBlockHandle) (destination incarnation : Uuid) (lease : u64)
    : MemoryBlockHandle :=
  h <| h_owner_node := destination |> <| h_owner_incarnation := incarnation |>
    <| h_location_type := Ram destination |> <| h_generation ::= λ g, g +w 1 |>
    <| h_state := Writing |> <| h_checksum := None |> <| h_lease_expires_ms := lease |>.

(** The copy of the bytes, chunk by chunk, and its commit. *)
Fixpoint copy_chunks (job : Uuid) (node : NodeCapabilities) (target : MemoryBlockHandle) (transfer : Uuid)
    (chunk index : Z) (pieces : list (list byte)) : Task Daemon unit :=
  match pieces with
  | [] => mret ()
  | bytes :: pieces =>
      let offset := index * chunk in
      (if over_udp config node
       then track_udp_transfer job
              (udp_write config out_of_fuel (data_address_of node) target transfer offset bytes)
       else tcp_write_chunk new_v4 config (control_address (network node)) target transfer offset bytes);;
      copy_chunks job node target transfer chunk (index + 1) pieces
  end.
Definition copy_block (job : Uuid) (node : NodeCapabilities) (target : MemoryBlockHandle) (b : RamBlock)
    : Task Daemon MemoryBlockHandle :=
  transfer ← fresh_uuid new_v4;
  let chunk := Z.min (c_chunk_bytes config) (n_chunk_bytes (network node)) in
  pieces ← pure_step (if chunk =? 0 then Panic else Ok (chunks (Z.to_nat chunk) (b_bytes b)));
  copy_chunks job node target transfer chunk 0 pieces;;
  checksum ← pure_step (unwrap (h_checksum (b_handle b)));
  r ← call (control_address (network node)) (Commit target checksum true);
  data_of r.

(** The part of [migrate] under the mutex of the block. The value is the
    committed handle and the instant the copy started at. *)
Definition migrate_locked (handle : MemoryBlockHandle) (destination : Uuid) (leadership : Leadership)
    (b : RamBlock) : Task Daemon (MemoryBlockHandle * Z) :=
  now ← now_ms;
  pure_step (authorize now (h_lease_token handle) b);;
  pure_step (ensure ((h_generation (b_handle b) =? h_generation handle)
                     && bool_decide (h_state (b_handle b) = Ready))
    "migration requires current committed block");;
  node ← section (act (λ s,
    (s, ok_or (capabilities <$> peers (rt_membership s) !! destination) "destination unavailable")));
  now ← now_ms;
  let target := target_of (b_handle b) destination (incarnation node) (lease_end now) in
  let a := control_address (network node) in
  r ← call a (AllocateLocal target leadership);
  checked r;;
  start ← instant;
  copy ← caught (copy_block (h_job_id handle) node target b);
  match copy with
  | Ok committed =>
      r ← forward_leader (Register committed (Some (h_generation handle)) leadership);
      checked r;;
      r ← call a (Publish committed leadership);
      checked r;;
      mret (committed, start)
  | Err e =>
      _ ← caught (call a (Free target true));
      measure_job (h_job_id handle) (set jm_failed_transfers (λ x, x +w 1));;
      pure_step (Err e)
  | Panic => pure_step Panic
  end.

(** [migrate]. *)
Definition migrate (handle : MemoryBlockHandle) (destination : Uuid) (leadership : Leadership)
    : Task Daemon MemoryBlockHandle :=
  pure_step (ensure (negb (destination =? self)) "migration destination equals source");;
  r ← with_arc (h_id handle) (λ p,
        with_guard p (λ b, r ← caught (migrate_locked handle destination leadership b); mret (b, r)));
  '(committed, start) ← pure_step r;
  free_block (h_id handle) (h_lease_token handle);;
  ms ← millis_since start;
  measure_job (h_job_id handle) (λ m,
    m <| jm_tensor_migrations ::= λ x, x +w 1 |>
      <| jm_bytes_local_to_remote_ram ::= λ x, x +w h_size handle |>
      <| jm_local_to_remote_bytes ::= λ x, x +w h_size handle |>
      <| jm_network_bytes ::= λ x, x +w h_size handle |>
      <| jm_network_wait_ms ::= λ x, f64_add x ms |>
      <| jm_migration_latency_ms ::= λ x, f64_add x ms |>);;
  mret committed.
End Migration.
