(* ===== verification/Discovery.v ===== *)
(** * Discovery: [src/cluster/discovery.rs]

    Signed announcements on a multicast group. The socket is input and output
    only; what is checked of an announcement is modelled. *)

From S2P Require Import Prelude.
From S2P Require Import Lists.
From S2P Require Import Bytes.
From S2P Require Import Externals.
From S2P Require Import Config.
From S2P Require Import Node.
From S2P Require Import Protocol.
From S2P Require Import Transport.

(** [Announcement], with the prefix [an_]. *)
Record Announcement := mkAnnouncement {
  an_protocol_version : Z;
  an_trainpool_version : string;
  an_cluster_name : string;
  an_node_id : Uuid;
  an_hostname : string;
  an_os : string;
  an_architecture : string;
  an_control_address : IpAddr;
  an_control_port : Z;
  an_leader_election_score : u64;
  an_timestamp : u64;
}.
#[export] Instance eta_Announcement : Eta Announcement := λ r,
  mkAnnouncement (an_protocol_version r) (an_trainpool_version r) (an_cluster_name r) (an_node_id r)
    (an_hostname r) (an_os r) (an_architecture r) (an_control_address r) (an_control_port r)
    (an_leader_election_score r) (an_timestamp r).

(** [Announcement::new]; [version] is [CARGO_PKG_VERSION]. *)
Definition announcement (version : string) (now_ms : u64) (node : NodeCapabilities) (config : Config)
    : Announcement := {|
  an_protocol_version := VERSION;
  an_trainpool_version := version;
  an_cluster_name := c_cluster_name config;
  an_node_id := node_id node;
  an_hostname := hostname node;
  an_os := os node;
  an_architecture := architecture node;
  an_control_address := (control_address (network node)).1;
  an_control_port := (control_address (network node)).2;
  an_leader_election_score := election_score node;
  an_timestamp := now_ms;
|}.

(** [SignedAnnouncement]. *)
Record SignedAnnouncement := mkSigned { sg_payload : string; sg_mac : option string }.

(** [serde_json] on the two types: the text of an announcement and the bytes
    of a signed one. *)
Class AnnouncementJson := {
  announcement_to_string : Announcement → string;
  announcement_from_str : string → Result Announcement;
  signed_to_vec : SignedAnnouncement → list byte;
  signed_from_slice : list byte → Result SignedAnnouncement;
}.
Class AnnouncementJsonLaws `{!AnnouncementJson} : Prop := {
  announcement_from_to : ∀ a, announcement_from_str (announcement_to_string a) = Ok a;
  signed_from_to : ∀ s, signed_from_slice (signed_to_vec s) = Ok s;
}.

Section Discovery.
Context `{HM : !Hmac, HX : !Hex, AJ : !AnnouncementJson}.
Context (config : Config).

(** The datagram [advertise] sends. *)
Definition advertise (a : Announcement) : list byte :=
  let payload := announcement_to_string a in
  signed_to_vec (mkSigned payload (signature (c_cluster_secret config) (as_bytes payload))).

(** What [receive] makes of a datagram: [recv_from] into a buffer of 4096
    bytes drops what is beyond it. *)
Definition BUFFER : nat := 4096.
Definition receive (now_ms : u64) (datagram : list byte) : Result Announcement :=
  signed ← signed_from_slice (take BUFFER datagram);
  a ← announcement_from_str (sg_payload signed);
  ensure (bool_decide (an_cluster_name a = c_cluster_name config)) "different cluster";;
  ensure (an_protocol_version a =? VERSION)
    "TRAINPOOL_PROTOCOL_VERSION: incompatible discovery packet";;
  ensure (Z.abs (now_ms - an_timestamp a) <? 30000)
    "stale discovery packet (check clock synchronization)";;
  verify (c_cluster_secret config) (as_bytes (sg_payload signed)) (sg_mac signed);;
  ensure (negb (is_unspecified (an_control_address a)) && negb (an_control_port a =? 0))
    "invalid peer address";;
  Ok a.

(** [advertised_address]; [route] is the address of the interface the system
    selects for the first seed or the multicast group. *)
Definition advertised_address (route : SocketAddr → Result IpAddr) : Result SocketAddr :=
  match c_advertise_ip config with
  | Some ip => Ok (V4 ip, (c_listen config).2)
  | None =>
      if negb (is_unspecified (c_listen config).1) then Ok (c_listen config)
      else
        ip ← route (default (V4 (c_multicast_group config), c_discovery_port config) (head (c_seeds config)));
        Ok (ip, (c_listen config).2)
  end.
End Discovery.

(** ** Properties *)
Section Properties.
Context `{HM : !Hmac, HX : !Hex, AJ : !AnnouncementJson}.

(** C35. Discovery finds its own: a node that advertises itself is heard by every
    node of its cluster with the same secret whose clock is less than thirty
    seconds apart, if the datagram fits the buffer. *)
Theorem announcement_received `{!HexLaws, !AnnouncementJsonLaws} cs cr version sent_ms now_ms node :
  c_cluster_name cs = c_cluster_name cr → c_cluster_secret cs = c_cluster_secret cr →
  Z.abs (now_ms - sent_ms) < 30000 →
  is_unspecified (control_address (network node)).1 = false → (control_address (network node)).2 ≠ 0 →
  let a := announcement version sent_ms node cs in
  (length (advertise cs a) ≤ BUFFER)%nat → receive cr now_ms (advertise cs a) = Ok a.
Proof.
  intros Hn Hs Ht Hip Hport a Hl. unfold receive. rewrite take_ge by done.
  unfold advertise. rewrite signed_from_to. cbn. rewrite announcement_from_to. cbn.
  rewrite Hs, bool_decide_true, verify_signature by done. cbn -[Z.abs].
  rewrite (proj2 (Z.ltb_lt _ _) Ht), Hip, (proj2 (Z.eqb_neq _ _) Hport). done.
Qed.

(** C34. With a secret, an announcement is believed only if its text carries the
    HMAC of that text under the secret, names this cluster and this version of
    the protocol, and is at most thirty seconds old or ahead; what it leads
    the node to contact is a usable address. *)
Theorem announcement_authentic config now_ms datagram a key :
  c_cluster_secret config = Some key → receive config now_ms datagram = Ok a →
  ∃ signed tag, signed_from_slice (take BUFFER datagram) = Ok signed
    ∧ announcement_from_str (sg_payload signed) = Ok a
    ∧ sg_mac signed = Some tag
    ∧ hex_decode tag = Ok (hmac_sha256 (as_bytes key) (as_bytes (sg_payload signed)))
    ∧ an_cluster_name a = c_cluster_name config ∧ an_protocol_version a = VERSION
    ∧ Z.abs (now_ms - an_timestamp a) < 30000
    ∧ is_unspecified (an_control_address a) = false ∧ an_control_port a ≠ 0.
Proof.
  intros Hk H. unfold receive in H. apply bind_Ok in H as (signed & E1 & H).
  apply bind_Ok in H as (a' & E2 & H). apply ensure_then in H as [E3 H].
  apply ensure_then in H as [E4 H]. apply ensure_then in H as [E5 H].
  apply bind_Ok in H as ([] & E6 & H). apply ensure_then in H as [E7 [= ->]].
  apply verify_Ok in E6. rewrite Hk in E6. destruct (sg_mac signed) as [tag|] eqn:Em; [|done].
  bprop. exists signed, tag. by split_and!.
Qed.
End Properties.

(** ** Witnesses *)
Import Toy.
Module Witness.

(** The fields as one number in binary, and a text behind its length. *)
Definition fields (a : Announcement) : list positive :=
  [encode (an_protocol_version a); encode (an_trainpool_version a); encode (an_cluster_name a);
   encode (an_node_id a); encode (an_hostname a); encode (an_os a); encode (an_architecture a);
   encode (an_control_address a); encode (an_control_port a); encode (an_leader_election_score a);
   encode (an_timestamp a)].
Definition of_fields (l : list positive) : option Announcement :=
  match l with
  | [f1; f2; f3; f4; f5; f6; f7; f8; f9; f10; f11] =>
      a1 ← decode f1; a2 ← decode f2; a3 ← decode f3; a4 ← decode f4; a5 ← decode f5; a6 ← decode f6;
      a7 ← decode f7; a8 ← decode f8; a9 ← decode f9; a10 ← decode f10; a11 ← decode f11;
      Some (mkAnnouncement a1 a2 a3 a4 a5 a6 a7 a8 a9 a10 a11)
  | _ => None
  end.
Lemma of_to_fields a : of_fields (fields a) = Some a.
Proof. destruct a. unfold of_fields, fields. cbn [an_protocol_version an_trainpool_version an_cluster_name
  an_node_id an_hostname an_os an_architecture an_control_address an_control_port
  an_leader_election_score an_timestamp]. by rewrite !decode_encode. Qed.

Fixpoint prefixed (l : list byte) : list byte * list byte :=
  match l with
  | x01 :: l => let (n, rest) := prefixed l in (x01 :: n, rest)
  | _ :: l => ([], l)
  | [] => ([], [])
  end.
Lemma prefixed_replicate n l : prefixed (replicate n x01 ++ x00 :: l) = (replicate n x01, l).
Proof. induction n as [|n IH]; [done|]. cbn. by rewrite IH. Qed.

#[export] Instance announcement_json : AnnouncementJson := {|
  announcement_to_string a :=
    String.string_of_list_byte (ToyJson.to_bits (positives_flatten (fields a)));
  announcement_from_str s :=
    ok_or (l ← positives_unflatten (ToyJson.of_bits (as_bytes s)); of_fields l) "invalid announcement";
  signed_to_vec s :=
    replicate (length (as_bytes (sg_payload s))) x01 ++ x00 :: as_bytes (sg_payload s)
      ++ match sg_mac s with Some m => x01 :: as_bytes m | None => [] end;
  signed_from_slice b :=
    let (n, rest) := prefixed b in
    Ok (mkSigned (String.string_of_list_byte (take (length n) rest))
          match drop (length n) rest with x01 :: m => Some (String.string_of_list_byte m) | _ => None end);
|}.
Lemma as_bytes_of l : as_bytes (String.string_of_list_byte l) = l.
Proof. apply String.list_byte_of_string_of_list_byte. Qed.
Lemma of_as_bytes s : String.string_of_list_byte (as_bytes s) = s.
Proof. apply String.string_of_list_byte_of_string. Qed.
#[export] Instance announcement_json_laws : AnnouncementJsonLaws.
Proof.
  split.
  - intros a. unfold announcement_from_str, announcement_to_string, announcement_json.
    rewrite as_bytes_of, ToyJson.of_to_bits, positives_unflatten_flatten.
    cbn -[fields of_fields]. by rewrite of_to_fields.
  - intros [p m]. unfold signed_from_slice, signed_to_vec, announcement_json. cbn [sg_payload sg_mac].
    rewrite prefixed_replicate, length_replicate, take_app_length, drop_app_length, of_as_bytes.
    destruct m as [m|]; [by rewrite of_as_bytes|done].
Qed.

Definition config : Config := default_config <| c_cluster_secret := Some "key"%string |>.
Definition node : NodeCapabilities :=
  detect uuid_str 3 (V4 7, 7432) config
    (mkProbe 31 32 [] "x86_64" "linux" (Some "a"%string) None None 1 100000000000 80000000000 None "1").
Definition heard : Announcement := announcement "1" 5000 node config.
End Witness.
Import Witness.

Lemma announcement_received_witness :
  receive Witness.config 6000 (advertise Witness.config Witness.heard) = Ok Witness.heard.
Proof.
  apply (announcement_received Witness.config Witness.config "1" 5000 6000 Witness.node); try reflexivity.
  - done.
  - apply Nat.leb_le. vm_compute. reflexivity.
Defined.

Lemma announcement_authentic_witness :
  ∃ signed tag, signed_from_slice (take BUFFER (advertise Witness.config Witness.heard)) = Ok signed
    ∧ sg_mac signed = Some tag
    ∧ hex_decode tag = Ok (hmac_sha256 (as_bytes "key") (as_bytes (sg_payload signed))).
Proof.
  destruct (announcement_authentic Witness.config 6000 (advertise Witness.config Witness.heard) Witness.heard "key"
    eq_refl ltac:(vm_refl)) as (s & t & H1 & _ & H2 & H3 & _).
  exists s, t. split_and!; [exact H1|exact H2|exact H3].
Defined.
