(* ===== verification/Monitor.v ===== *)
(** * Heartbeats, losses and pressure: [src/runtime/monitor.rs]

    What a node does every two seconds, what it does with the peers it hears
    of, and how a leader moves blocks off a node that owns too much. *)

From S2P Require Import Prelude.
From S2P Require Import Lists.
From S2P Require Import Bytes.
From S2P Require Import Float64.
From S2P Require Import Externals.
From S2P Require Import Block.
From S2P Require Import Accounting.
From S2P Require Import LocalRam.
From S2P Require Import Residency.
From S2P Require Import Config.
From S2P Require Import Node.
From S2P Require Import Cluster.
From S2P Require Import Scheduler.
From S2P Require Import Metrics.
From S2P Require Import Protocol.
From S2P Require Import Transport.
From S2P Require Import UdpSender.
From S2P Require Import Task.
From S2P Require Import Runtime.
From S2P Require Import Daemon.
From S2P Require Import DataPlane.
From S2P Require Import Discovery.

(** The order of [BTreeSet<SocketAddr>]: IPv4 first, then address and port. *)
Definition socket_key (a : SocketAddr) : Z * Z * Z :=
  match a.1 with V4 z => (0, z, a.2) | V6 z => (1, z, a.2) end.
Definition socket_cmp : SocketAddr → SocketAddr → comparison :=
  lex (on (λ a, (socket_key a).1.1) Z.compare)
    (lex (on (λ a, (socket_key a).1.2) Z.compare) (on (λ a, (socket_key a).2) Z.compare)).

Section Monitor.
Context `{BL : !Blake3, HM : !Hmac, HX : !Hex, UT : !UuidText, JS : !Json}.
Context (new_v4 : nat → Uuid) (config : Config) (self : Uuid).

(** ** The cluster *)

(** [rotate_leader]. *)
Definition rotate_leader (before : Leadership) : SM Daemon unit :=
  after ← gets (λ s, leader (rt_membership (d_rt s)));
  if bool_decide (leader_id after = leader_id before) then mret ()
  else if bool_decide (leader_id after = Some self) then
    act (λ s,
      match peers (rt_membership (d_rt s)) !! self with
      | Some _ =>
          (s <| d_rt ::= set rt_membership (peer_mut self (set leader_generation (λ _, new_v4 (d_fresh s)))) |>
             <| d_fresh ::= S |>, Ok ())
      | None => (s, Panic)
      end)
  else mret ().

(** A node is gone: its jobs and its blocks. *)
Definition lose (id : Uuid) (error : string) (s : Runtime) : Runtime :=
  let s := s <| rt_jobs ::= lose_compute id |> in
  let (table, affected) := lose_node id (rt_residency s) in
  s <| rt_residency := table |> <| rt_jobs ::= λ js, foldl (λ js job, fail job error js) js affected |>.

(** The loop over an inventory. *)
Fixpoint register_inventory (node : NodeCapabilities) (inventory : list MemoryBlockHandle)
    : SM Runtime unit :=
  match inventory with
  | [] => mret ()
  | h :: inventory =>
      ensureM ((h_owner_node h =? node_id node) && (h_owner_incarnation h =? incarnation node))
        "invalid inventory owner";;
      modify (λ s, s <| rt_residency ::= register h |>);;
      register_inventory node inventory
  end.

(** [accept_peer]: one section, under the lock of the membership. *)
Definition accept_peer (node : NodeCapabilities) (inventory : list MemoryBlockHandle) : SM Daemon unit :=
  ensureM (negb (node_id node =? self))
    "duplicate node_id: use distinct data directories per installation";;
  ensureM ((4096 <=? n_chunk_bytes (network node)) && (n_chunk_bytes (network node) <=? 64 * 1024 * 1024))
    "invalid peer chunk size";;
  ensureM (zlen inventory <=? 100000) "peer inventory exceeds limit";;
  members ← gets (λ s, rt_membership (d_rt s));
  let before := leader members in
  let restarted := match peers members !! node_id node with
                   | Some p => negb (incarnation (capabilities p) =? incarnation node)
                   | None => false
                   end in
  (if restarted
   then on_rt (modify (lose (node_id node)
                 ("TRAINPOOL_DATA_LOST: node " +:+ uuid_str (node_id node) +:+ " restarted")))
   else mret ());;
  on_rt (register_inventory node inventory);;
  on_rt (modify (λ s, s <| rt_membership ::= Cluster.update (rt_clock s) node |>));;
  rotate_leader before.

(** [exchange]. *)
Definition exchange (a : SocketAddr) : Task Daemon unit :=
  started ← instant;
  node ← local self;
  inventory ← section (gets (λ s, inventory_page (rt_now_ms s / 2000) (rt_ram s)));
  r ← call a (Exchange node inventory);
  checked r;;
  node ← pure_step (from_value (json_field (r_data r) "node"));
  inventory ← pure_step (from_value (json_field (r_data r) "inventory"));
  atomically (accept_peer node inventory);;
  ms ← millis_since started;
  section (modify (λ s, s <| rt_topology ::=
    topology_update (mkLink self (node_id node) ms None (rt_now_ms s) 0) |>)).

(** What [discover] does with an announcement. *)
Definition discovered (a : Announcement) : Task Daemon unit :=
  if an_node_id a =? self then mret ()
  else _ ← caught (exchange (an_control_address a, an_control_port a)); mret ().

(** ** The cycle of [monitor] *)

(** Staged reservations whose deadline has passed. *)
Definition expire_staging (s : Runtime) : Runtime :=
  let expired := filter (λ '(_, (_, deadline)), deadline <= rt_now_ms s) (map_to_list (rt_staging s)) in
  let s' := s <| rt_staging ::= filter (λ '(_, (_, deadline)), rt_now_ms s < deadline) |> in
  foldr drop_bytes s' ((λ x, x.2.1) <$> expired).
(** The peers that went silent. *)
Definition lose_dead : SM Daemon unit :=
  members ← gets (λ s, rt_membership (d_rt s));
  on_rt (modify (λ s,
    let (members, dead) := Cluster.expire (rt_clock s) (rt_membership s) in
    foldl (λ s id, lose id ("TRAINPOOL_DATA_LOST: data stored exclusively on node " +:+ uuid_str id) s)
      (s <| rt_membership := members |>) dead));;
  rotate_leader (leader members).
(** The peers to exchange with: at most 64, in the order of the set. *)
Definition exchange_addresses (s : Runtime) : list SocketAddr :=
  let others := filter (λ n, node_id n ≠ self) (nodes (rt_membership s)) in
  let all : gset SocketAddr :=
    list_to_set (c_seeds config ++ ((λ n, control_address (network n)) <$> others)) in
  take 64 (sort_by socket_cmp (elements all)).

Context (sample : nat → u64 * option u64) (gpu_sample : nat → list GpuCapabilities).

(** The start of a cycle, up to the exchanges, which are tasks of their own:
    the addresses they go to, and the node as it is. *)
Definition monitor_start : Task Daemon (NodeCapabilities * list SocketAddr) :=
  section (modify expire_staging);;
  section (modify (λ s, s <| rt_ram ::= LocalRam.expire (rt_now_ms s) |>));;
  refresh config self sample;;
  atomically lose_dead;;
  node ← local self;
  addresses ← section (gets exchange_addresses);
  mret (node, addresses).
(** An exchange of a cycle: its error is dropped. *)
Definition monitor_exchange (a : SocketAddr) : Task Daemon unit := _ ← caught (exchange a); mret ().
(** What a node that owns more than its budget does: the count, and the
    message to the leader, a task of its own whose error is logged. *)
Fixpoint count_pressure (jobs : list Uuid) : Task Daemon unit :=
  match jobs with
  | [] => mret ()
  | job :: jobs => measure_job job (set jm_ram_pressure_events (λ x, x +w 1));; count_pressure jobs
  end.
Definition report_pressure (node : NodeCapabilities) : Task Daemon unit :=
  let m := memory node in
  _ ← caught (forward_leader
        (MemoryPressure self (trainpool_ram_used m) (trainpool_ram_budget m) (excess m)));
  mret ().
(** New readings of the GPUs that are still there. *)
Definition refresh_gpus (found : list GpuCapabilities) (gs : list GpuCapabilities) : list GpuCapabilities :=
  (λ old, match head (filter (λ g, gpu_uuid g = gpu_uuid old) found) with
          | Some new => new <| trainpool_allocated_vram := trainpool_allocated_vram old |>
          | None => old
          end) <$> gs.
Definition detect_gpus : Task Daemon unit :=
  found ← atomically (act (λ s, (s <| d_detections ::= S |>, Ok (gpu_sample (d_detections s)))));
  section (act (λ s,
    match peers (rt_membership s) !! self with
    | Some _ => (s <| rt_membership ::= peer_mut self (set Node.gpus (refresh_gpus found)) |>, Ok ())
    | None => (s, Panic)
    end)).
(** The rest of the cycle, once the exchanges are over. *)
Definition monitor_end (cycle : Z) (node : NodeCapabilities) : Task Daemon unit :=
  (if 0 <? excess (memory node) then
     affected ← section (gets (λ s, sort_by Z.compare (elements (list_to_set (h_job_id <$> inventory (rt_ram s)) : gset Uuid))));
     count_pressure affected
   else mret ());;
  if cycle mod 5 =? 0 then detect_gpus else mret ().
(** One cycle, but for the tasks it starts. *)
Definition monitor_cycle (cycle : Z) : Task Daemon unit :=
  '(node, _) ← monitor_start;
  monitor_end cycle node.

(** ** Relieving pressure *)

(** The targets of one block; [true] when it moved. *)
Fixpoint try_targets (source : Uuid) (leadership : Leadership) (block : MemoryBlockHandle)
    (ranked : list NodeCapabilities) : Task Daemon bool :=
  match ranked with
  | [] => mret false
  | target :: ranked =>
      a ← address source;
      r ← caught (call a (Migrate block (node_id target) leadership));
      match r ≫= check with
      | Ok _ => mret true
      | _ => try_targets source leadership block ranked
      end
  end.
Fixpoint move_blocks (source : Uuid) (excess_bytes : u64) (leadership : Leadership) (moved : u64)
    (blocks : list MemoryBlockHandle) : Task Daemon u64 :=
  match blocks with
  | [] => mret moved
  | block :: blocks =>
      if excess_bytes <=? moved then mret moved
      else
        others ← section (gets (λ s, filter (λ n, node_id n ≠ source) (nodes (rt_membership s))));
        ranked ← section (gets (λ s, rank_ram others source (h_size block) (rt_topology s)));
        went ← try_targets source leadership block ranked;
        move_blocks source excess_bytes leadership
          (if went : bool then moved +w h_size block else moved) blocks
  end.
(** The blocks that may be moved, the smallest first. *)
Definition movable (source : Uuid) (now : u64) (table : gmap Uuid MemoryBlockHandle) : list MemoryBlockHandle :=
  sort_by (lex (on h_size Z.compare) (on h_id Z.compare))
    (filter (λ b, h_owner_node b = source ∧ h_state b = Ready ∧ now < h_lease_expires_ms b) (values table)).
(** [relieve_pressure]; the gate lets one run at a time. *)
Definition relieve_pressure (source : Uuid) (excess_bytes : u64) : Task Daemon u64 :=
  free ← atomically (act (λ s, (s <| d_gate := true |>, Ok (negb (d_gate s)))));
  if (free : bool) then
    finally (λ s, s <| d_gate := false |>) (
      l ← leadership;
      now ← now_ms;
      blocks ← section (gets (λ s, movable source now (rt_residency s)));
      move_blocks source excess_bytes l 0 blocks)
  else mret 0.

(** ** Links *)

(** The loop that reads the zeros of a probe. *)
Fixpoint read_zeros (fuel : nat) (remaining : Z) : SM Stream unit :=
  match fuel with
  | O => mret ()
  | S fuel =>
      if 0 <? remaining then
        let n := Z.min remaining 8192 in
        read_exact n;;
        read_zeros fuel (remaining - n)
      else mret ()
  end.
(** [measure]. *)
Definition measure (destination : Uuid) (bytes : Z) : Task Daemon LinkEstimate :=
  pure_step (ensure (bytes <=? 64 * 1024 * 1024) "benchmark capped at 64 MiB per directed link");;
  pure_step (ensure (negb (destination =? self)) "cannot benchmark self");;
  a ← address destination;
  start ← instant;
  r ← call a Ping;
  checked r;;
  latency ← millis_since start;
  st ← connect new_v4 config;
  let (st, r) := (write_frame (ProbeLink bytes);; r ← read_frame (T := Response); lift (check r)) st in
  pure_step r;;
  start ← instant;
  pure_step (read_zeros (Z.to_nat (div_ceil bytes 8192)) bytes st).2;;
  finish ← instant;
  now ← now_ms;
  let seconds := as_secs_f64 (saturating_sub finish start) in
  let estimate := mkLink self destination latency
    (if 0 <? bytes then Some (f64_div (f64_of_u64 bytes) (f64_max seconds (f64_lit 1 1000000))) else None)
    now 0 in
  section (modify (λ s, s <| rt_topology ::= topology_update estimate |>));;
  mret estimate.
(** [benchmark]: every directed pair, in the order of the view. *)
Fixpoint benchmark_pairs (bytes : Z) (pairs : list (NodeCapabilities * NodeCapabilities)) : Task Daemon unit :=
  match pairs with
  | [] => mret ()
  | (source, target) :: pairs =>
      (if node_id source =? node_id target then mret ()
       else
         r ← call (control_address (network source)) (Measure (node_id target) bytes);
         link ← data_of r;
         section (modify (λ s, s <| rt_topology ::= topology_update link |>)));;
      benchmark_pairs bytes pairs
  end.
Definition benchmark (bytes : Z) : Task Daemon Topology :=
  pure_step (ensure (bytes <=? 64 * 1024 * 1024) "benchmark capped at 64 MiB per directed link");;
  ns ← section (gets (λ s, nodes (rt_membership s)));
  benchmark_pairs bytes (s ← ns; t ← ns; [(s, t)]);;
  section (gets rt_topology).
End Monitor.
