(* ===== verification/Control.v ===== *)
(** * The control plane: [src/runtime/control.rs], [src/runtime/mod.rs]

    The metadata operations of a node, the status it reports and the
    connections they arrive on. *)

From S2P Require Import Prelude.
From S2P Require Import Lists.
From S2P Require Import Bytes.
From S2P Require Import Float64.
From S2P Require Import Externals.
From S2P Require Import Block.
From S2P Require Import Accounting.
From S2P Require Import LocalRam.
From S2P Require Import Residency.
From S2P Require Import Config.
From S2P Require Import Node.
From S2P Require Import Cluster.
From S2P Require Import Scheduler.
From S2P Require Import Metrics.
From S2P Require Import Protocol.
From S2P Require Import Transport.
From S2P Require Import Task.
From S2P Require Import Runtime.
From S2P Require Import Daemon.
From S2P Require Import DataPlane.
From S2P Require Import Migration.
From S2P Require Import Discovery.
From S2P Require Import Monitor.

(** ** Status: [status] of [runtime/mod.rs] *)

(** The figures of this node. *)
Definition with_local (self : Uuid) (ns : list NodeCapabilities) (m : LogicalTrainingMemory)
    : LogicalTrainingMemory :=
  match head (filter (λ n, node_id n = self) ns) with
  | Some n =>
      m <| lm_local_physical_ram := physical_ram_total (memory n) |>
        <| lm_local_os_available_ram := os_available_ram (memory n) |>
        <| lm_local_pool_ram_budget := trainpool_ram_budget (memory n) |>
        <| lm_local_pool_ram_used := trainpool_ram_used (memory n) |>
        <| lm_local_pool_ram_allocatable := trainpool_ram_available (memory n) |>
        <| lm_local_ram_safety_reserve := safety_reserve (memory n) |>
  | None => m
  end.
(** The job whose SDK reported last. *)
Definition latest_job (js : gmap Uuid JobMetrics) : option JobMetrics :=
  max_by_key Z.compare (λ j, default 0 (jm_sdk_metrics_timestamp_ms j))
    (filter (λ j, is_Some (jm_sdk_metrics_timestamp_ms j)) (values js)).
Definition with_latest (now : u64) (js : gmap Uuid JobMetrics) (m : LogicalTrainingMemory)
    : LogicalTrainingMemory :=
  match latest_job js with
  | Some j =>
      m <| lm_sdk_metrics_timestamp_ms := jm_sdk_metrics_timestamp_ms j |>
        <| lm_sdk_metrics_age_ms := saturating_sub now <$> jm_sdk_metrics_timestamp_ms j |>
        <| lm_driver_used_vram_bytes := jm_driver_used_vram_bytes j |>
        <| lm_sdk_physical_vram_bytes := jm_physical_vram_bytes j |>
        <| lm_driver_free_vram_bytes := jm_driver_free_vram_bytes j |>
        <| lm_torch_allocated_bytes := jm_torch_allocated_bytes j |>
        <| lm_torch_reserved_bytes := jm_torch_reserved_bytes j |>
        <| lm_torch_reclaimable_bytes := jm_torch_reclaimable_bytes j |>
        <| lm_trainpool_resident_vram_bytes := Some (jm_current_vram_resident_bytes j) |>
        <| lm_safe_vram_allocatable_bytes := jm_safe_vram_allocatable_bytes j |>
        <| lm_configured_usable_vram_ceiling_bytes := jm_configured_usable_vram_ceiling_bytes j |>
        <| lm_configured_vram_safety_reserve_bytes := jm_configured_vram_safety_reserve_bytes j |>
  | None => m
  end.
Definition logical_memory (self : Uuid) (now : u64) (js : gmap Uuid JobMetrics)
    (ns : list NodeCapabilities) : LogicalTrainingMemory :=
  let m := with_local self ns (from_nodes ns) in
  let m := m <| lm_remote_pool_ram_used :=
    foldl (λ sum n, sum +w trainpool_ram_used (memory n)) 0 (filter (λ n, node_id n ≠ self) ns) |> in
  with_latest now js m.

(** ** Metrics *)

(** [Request::ReportMetrics]: counters add up, peaks keep the maximum, the
    rest is replaced. *)
Definition merge_metrics (r m : JobMetrics) : JobMetrics :=
  m <| jm_bytes_local_ram_to_gpu ::= λ x, x +w jm_bytes_local_ram_to_gpu r |>
    <| jm_bytes_gpu_to_local_ram ::= λ x, x +w jm_bytes_gpu_to_local_ram r |>
    <| jm_prefetch_hits ::= λ x, x +w jm_prefetch_hits r |>
    <| jm_prefetch_misses ::= λ x, x +w jm_prefetch_misses r |>
    <| jm_gpu_wait_for_data_ms ::= λ x, f64_add x (jm_gpu_wait_for_data_ms r) |>
    <| jm_peak_gpu_residency ::= Z.max (jm_peak_gpu_residency r) |>
    <| jm_current_gpu_residency := jm_current_gpu_residency r |>
    <| jm_peak_vram_resident_bytes ::= Z.max (jm_peak_vram_resident_bytes r) |>
    <| jm_current_vram_resident_bytes := jm_current_vram_resident_bytes r |>
    <| jm_peak_local_ram_backing_bytes ::= Z.max (jm_peak_local_ram_backing_bytes r) |>
    <| jm_current_local_ram_backing_bytes := jm_current_local_ram_backing_bytes r |>
    <| jm_peak_remote_ram_backing_bytes ::= Z.max (jm_peak_remote_ram_backing_bytes r) |>
    <| jm_current_remote_ram_backing_bytes := jm_current_remote_ram_backing_bytes r |>
    <| jm_gpu_to_local_bytes ::= λ x, x +w jm_gpu_to_local_bytes r |>
    <| jm_local_to_gpu_bytes ::= λ x, x +w jm_local_to_gpu_bytes r |>
    <| jm_gpu_to_remote_bytes ::= λ x, x +w jm_gpu_to_remote_bytes r |>
    <| jm_remote_to_gpu_bytes ::= λ x, x +w jm_remote_to_gpu_bytes r |>
    <| jm_remote_to_local_bytes ::= λ x, x +w jm_remote_to_local_bytes r |>
    <| jm_local_to_remote_bytes ::= λ x, x +w jm_local_to_remote_bytes r |>
    <| jm_eviction_count ::= λ x, x +w jm_eviction_count r |>
    <| jm_prefetch_count ::= λ x, x +w jm_prefetch_count r |>
    <| jm_gpu_id := jm_gpu_id r |>
    <| jm_sdk_metrics_timestamp_ms := jm_sdk_metrics_timestamp_ms r |>
    <| jm_physical_vram_bytes := jm_physical_vram_bytes r |>
    <| jm_driver_free_vram_bytes := jm_driver_free_vram_bytes r |>
    <| jm_driver_used_vram_bytes := jm_driver_used_vram_bytes r |>
    <| jm_torch_allocated_bytes := jm_torch_allocated_bytes r |>
    <| jm_torch_reserved_bytes := jm_torch_reserved_bytes r |>
    <| jm_torch_reclaimable_bytes := jm_torch_reclaimable_bytes r |>
    <| jm_safe_vram_allocatable_bytes := jm_safe_vram_allocatable_bytes r |>
    <| jm_configured_usable_vram_ceiling_bytes := jm_configured_usable_vram_ceiling_bytes r |>
    <| jm_configured_vram_safety_reserve_bytes := jm_configured_vram_safety_reserve_bytes r |>.
(** The first GPU with the identifier gets the bytes the SDK holds on it. *)
Fixpoint set_allocated (id : string) (bytes : u64) (gs : list GpuCapabilities) : list GpuCapabilities :=
  match gs with
  | [] => []
  | g :: gs =>
      if bool_decide (gpu_uuid g = id) then g <| trainpool_allocated_vram := bytes |> :: gs
      else g :: set_allocated id bytes gs
  end.
(** [Request::Metrics]: the RAM of each job as it is now. *)
Definition sample_ram (a : RamAccounting) (js : gmap Uuid JobMetrics) : gmap Uuid JobMetrics :=
  foldl (λ js '(id, j), job id (λ m, m <| jm_peak_ram_residency := j_peak j |>
                                       <| jm_current_ram_residency := j_owned j |>) js)
    js (entries (jobs a)).

Section Control.
Context `{BL : !Blake3, HM : !Hmac, HX : !Hex, UT : !UuidText, JS : !Json}.
Context (new_v4 : nat → Uuid) (config : Config) (self : Uuid) (out_of_fuel : string).
(** The samples of the system, and whether its allocator grants a request,
    by the instant of the request. *)
Context (sample : nat → u64 * option u64) (grants : Z → bool).

Abbreviation refresh_memory := (refresh config self sample).
Abbreviation resolve_ := (DataPlane.resolve).
Definition respond_data {T} `{!Serde T} (x : T) : Task Daemon Response := mret (response_data x).

(** [status]. *)
Definition status : Task Daemon ClusterStatus :=
  refresh_memory;;
  section (gets (λ s,
    let ns := nodes (rt_membership s) in
    mkStatus self (leader (rt_membership s)) ns
      (logical_memory self (rt_now_ms s) (rt_metrics s) ns) (rt_topology s)
      (c_chunk_bytes config) (c_lease_seconds config))).

(** [Request::ReserveStaging] and [ReleaseStaging]. *)
Definition stage (id : Uuid) (reservation : Z) (deadline : u64) (s : Runtime) : Runtime :=
  let s' := s <| rt_staging ::= <[id := (reservation, deadline)]> |> in
  match rt_staging s !! id with Some (i, _) => drop_bytes i s' | None => s' end.
Definition unstage (id : Uuid) (s : Runtime) : Runtime :=
  match rt_staging s !! id with
  | Some (i, _) => drop_bytes i (s <| rt_staging ::= delete id |>)
  | None => s
  end.
Definition reserve_staging (bytes : u64) : Task Daemon Response :=
  pure_step (ensure (bytes <=? c_chunk_bytes config) "SDK staging reservation exceeds chunk size");;
  refresh_memory;;
  reserved ← section (reserve_bytes bytes);
  id ← fresh_uuid new_v4;
  section (modify (λ s, stage id reserved (lease_end config (rt_now_ms s)) s));;
  respond_data (JUuid id).

(** [Request::Exchange]. *)
Definition exchanged (node : NodeCapabilities) (inventory : list MemoryBlockHandle) : Task Daemon Response :=
  atomically (accept_peer new_v4 self node inventory);;
  node ← local self;
  page ← section (gets (λ s, inventory_page (rt_now_ms s / 2000) (rt_ram s)));
  mret (mkResponse true (json_object [("node", to_value node); ("inventory", to_value page)]%string) None).

(** [Request::Metrics] and [ReportMetrics]. *)
Definition get_metrics : Task Daemon Response :=
  section (modify (λ s, s <| rt_metrics ::= sample_ram (accounting (rt_ram s)) |>));;
  section (gets (λ s, mkResponse true (json_object
    [("node_id", to_value (JUuid self)); ("jobs", to_value (rt_metrics s));
     ("owned_ram", to_value (used (accounting (rt_ram s))));
     ("peak_ram", to_value (Accounting.peak (accounting (rt_ram s))))]%string) None)).
Definition report_metrics (id : Uuid) (m : JobMetrics) : Task Daemon Response :=
  measure_job id (merge_metrics m);;
  (match jm_gpu_id m with
   | Some gpu =>
       section (act (λ s,
         match peers (rt_membership s) !! self with
         | Some _ => (s <| rt_membership ::= peer_mut self
                             (set Node.gpus (set_allocated gpu (jm_current_gpu_residency m))) |>, Ok ())
         | None => (s, Panic)
         end))
   | None => mret ()
   end);;
  respond_data ().

(** [Request::Plan] and [JobStatus]. An identifier is drawn for the job
    whether or not the plan succeeds. *)
Definition plan_job (stages : list StageSpec) : Task Daemon Response :=
  pure_step (ensure (zlen stages <=? 4096) "too many stages");;
  id ← fresh_uuid new_v4;
  p ← section (act (λ s,
    (s, plan id (nodes (rt_membership s)) (leader (rt_membership s)) (rt_topology s) stages)));
  section (modify (λ s, s <| rt_jobs ::= <[job_id p := mkJob p None]> |>));;
  respond_data p.
Definition job_status (id : Uuid) : Task Daemon Response :=
  l ← leadership;
  j ← section (act (λ s, (s, ok_or (rt_jobs s !! id)
         "TRAINPOOL_JOB_LOST: unknown job; leadership may have changed")));
  pure_step (ensure (plan_leader_epoch (job_plan j) =? leader_epoch l)
    "TRAINPOOL_STALE_LEADER: recreate job after leadership change");;
  match job_error j with
  | Some e => pure_step (bail e)
  | None => respond_data j
  end.

(** ** Allocation *)

Definition check_tensor (tensor : option TensorMetadata) (size : u64) : Result unit :=
  match tensor with Some m => Block.validate m size | None => Ok () end.
(** The job of an allocation exists, has not failed and is of this epoch. *)
Definition check_job (id epoch : Uuid) (s : Runtime) : Result unit :=
  j ← ok_or (rt_jobs s !! id) "TRAINPOOL_JOB_LOST";
  ensure (bool_decide (job_error j = None)) (default "" (job_error j));;
  ensure (plan_leader_epoch (job_plan j) =? epoch) "TRAINPOOL_STALE_LEADER".
(** The compute node's memory as it is now. *)
Definition refresh_compute (compute : Uuid) : Task Daemon unit :=
  if compute =? self then refresh_memory
  else
    a ← section (gets (λ s, (λ p, control_address (network (capabilities p))) <$> peers (rt_membership s) !! compute));
    match a with
    | Some a =>
        r ← caught (call a Capabilities);
        match r ≫= into_data with
        | Ok c => section (modify (λ s, s <| rt_membership ::= Cluster.update (rt_clock s) c |>))
        | _ => mret ()
        end
    | None => mret ()
    end.
Definition new_handle (id token job : Uuid) (size : u64) (node : NodeCapabilities) (lease : u64)
    (tensor : option TensorMetadata) : MemoryBlockHandle :=
  mkHandle id job size (node_id node) (incarnation node) (Ram (node_id node)) None Writing token lease
    0 tensor.
(** The candidates one after the other, until one accepts. *)
Fixpoint try_candidates (size : u64) (job : Uuid) (tensor : option TensorMetadata)
    (leadership : Leadership) (last_error : string) (candidates : list NodeCapabilities)
    : Task Daemon MemoryBlockHandle :=
  match candidates with
  | [] => pure_step (bail ("TRAINPOOL_OUT_OF_CAPACITY: " +:+ last_error))
  | node :: candidates =>
      id ← fresh_uuid new_v4;
      token ← fresh_uuid new_v4;
      now ← now_ms;
      let handle := new_handle id token job size node (lease_end config now) tensor in
      r ← caught (call (control_address (network node)) (AllocateLocal handle leadership));
      match r ≫= check with
      | Ok _ => section (modify (λ s, s <| rt_residency ::= register handle |>));; mret handle
      | Err e => try_candidates size job tensor leadership e candidates
      | Panic => pure_step Panic
      end
  end.
Definition allowed (compute : Uuid) (preferred : option Uuid) (n : NodeCapabilities) : bool :=
  (node_id n =? compute) || match preferred with None => true | Some id => node_id n =? id end.
Definition allocate_block (size : u64) (job compute : Uuid) (preferred : option Uuid)
    (tensor : option TensorMetadata) : Task Daemon Response :=
  pure_step (check_tensor tensor size);;
  pure_step (ensure (0 <? size) "zero-length blocks are represented locally by the SDK");;
  l ← leadership;
  section (act (λ s, (s, check_job job (leader_epoch l) s)));;
  refresh_compute compute;;
  ns ← section (gets (λ s, nodes (rt_membership s)));
  ranked ← section (gets (λ s, rank_ram ns compute size (rt_topology s)));
  l ← leadership;
  h ← try_candidates size job tensor l "no eligible memory nodes"
        (filter (λ n, allowed compute preferred n = true) ranked);
  respond_data h.

(** [Request::AllocateLocal]. *)
Definition allocate_local (handle : MemoryBlockHandle) (leadership : Leadership) : Task Daemon Response :=
  validate_leadership leadership;;
  node ← local self;
  pure_step (ensure ((h_owner_node handle =? self) && (h_owner_incarnation handle =? incarnation node))
    "wrong allocation owner");;
  pure_step (ensure match h_location_type handle with Ram id => id =? self | _ => false end
    "only RAM allocations are supported");;
  pure_step (ensure (bool_decide (h_state handle = Writing) && bool_decide (h_checksum handle = None))
    "allocation must start in writing state");;
  pure_step (check_tensor (h_tensor handle) (h_size handle));;
  refresh_memory;;
  free ← section (gets (λ s, let a := accounting (rt_ram s) in saturating_sub (budget a) (used a)));
  pure_step (ensure (saturating_add (h_size handle) 262144 <=? free)
    "TRAINPOOL_OUT_OF_CAPACITY: allocation must leave 256 KiB relay headroom");;
  section (λ s, on_ram (allocate (grants (rt_clock s)) handle) s);;
  measure_job (h_job_id handle) (set jm_tensor_allocations (λ x, x +w 1));;
  respond_data handle.

(** ** The life of a block *)

(** [Request::Resolve]. *)
Definition resolve_block (id token : Uuid) : Task Daemon Response :=
  handle ← section (act (λ s, (s, ok_or (rt_residency s !! id)
             ("TRAINPOOL_DATA_LOST: block " +:+ uuid_str id +:+ " not found"))));
  pure_step (ensure (h_lease_token handle =? token) "TRAINPOOL_LEASE_DENIED");;
  pure_step (ensure (negb (bool_decide (h_state handle = Lost)))
    ("TRAINPOOL_DATA_LOST: block " +:+ uuid_str id +:+ " was stored exclusively on node "
     +:+ uuid_str (h_owner_node handle)));;
  now ← now_ms;
  pure_step (ensure (now <? h_lease_expires_ms handle) "TRAINPOOL_LEASE_EXPIRED");;
  address (h_owner_node handle);;
  respond_data handle.

(** [Request::Register]: with a previous generation, a compare and swap. *)
Definition register_block (handle : MemoryBlockHandle) (previous : option u64) : SM Runtime unit :=
  table ← gets rt_residency;
  (match previous with
   | Some previous =>
       ensureM match table !! h_id handle with
               | Some b => (h_generation b =? previous) && (h_lease_token b =? h_lease_token handle)
               | None => false
               end "TRAINPOOL_MIGRATION_CONFLICT";;
       ensureM ((h_generation handle =? previous +w 1) && bool_decide (h_state handle = Ready))
         "invalid migration commit"
   | None => mret ()
   end);;
  modify (λ s, s <| rt_residency ::= register handle |>).

(** [Request::Publish]. *)
Definition publish_section (handle : MemoryBlockHandle) (p : Ptr) : SM Runtime unit :=
  b ← block_at p;
  now ← gets rt_now_ms;
  lift (authorize now (h_lease_token handle) b);;
  ensureM ((h_generation (b_handle b) =? h_generation handle) && bool_decide (h_state (b_handle b) = Ready))
    "destination is not ready";;
  write_block p (set b_published (λ _, true)).

(** A change of a block is announced to the leader: [Register] without a
    previous generation. *)
Definition announce (h : MemoryBlockHandle) : Task Daemon unit :=
  l ← leadership;
  r ← forward_leader (Register h None l);
  checked r.
(** A request for a block of another node, passed on to its owner. *)
Definition pass_to_owner (handle : MemoryBlockHandle) (request : MemoryBlockHandle → Request)
    : Task Daemon (MemoryBlockHandle * Response) :=
  h ← resolve_ handle;
  a ← address (h_owner_node h);
  r ← call a (request h);
  mret (h, r).

(** [Request::Commit]. *)
Definition commit_section (handle : MemoryBlockHandle) (checksum : string) (p : Ptr)
    : SM Runtime MemoryBlockHandle :=
  b ← block_at p;
  now ← gets rt_now_ms;
  lift (authorize now (h_lease_token handle) b);;
  ensureM (b_written b =? zlen (b_bytes b)) "incomplete upload";;
  ensureM (bool_decide (hash_to_hex (hasher_finalize (b_hash b)) = checksum)) "TRAINPOOL_CHECKSUM_MISMATCH";;
  write_block p (set b_handle (λ h, h <| h_state := Ready |> <| h_checksum := Some checksum |>));;
  mret ((b_handle b) <| h_state := Ready |> <| h_checksum := Some checksum |>).
Definition commit (handle : MemoryBlockHandle) (checksum : string) (direct : bool) : Task Daemon Response :=
  if direct then
    with_arc (h_id handle) (λ p,
      committed ← waiting (λ s, unlocked p (d_rt s)) (on_rt (commit_section handle checksum p));
      (if h_generation committed =? 0 then announce committed else mret ());;
      respond_data committed)
  else '(_, r) ← pass_to_owner handle (λ h, Commit h checksum true); mret r.

(** [Request::Renew]. *)
Definition renew_section (handle : MemoryBlockHandle) (p : Ptr) : SM Runtime MemoryBlockHandle :=
  b ← block_at p;
  now ← gets rt_now_ms;
  lift (authorize now (h_lease_token handle) b);;
  let renewed := (b_handle b) <| h_lease_expires_ms := lease_end config now |> in
  write_block p (set b_handle (λ h, h <| h_lease_expires_ms := lease_end config now |>));;
  mret renewed.
Definition renew (handle : MemoryBlockHandle) (direct : bool) : Task Daemon Response :=
  if direct then
    with_arc (h_id handle) (λ p,
      renewed ← waiting (λ s, unlocked p (d_rt s)) (on_rt (renew_section handle p));
      announce renewed;;
      respond_data renewed)
  else '(_, r) ← pass_to_owner handle (λ h, Renew h true); mret r.

(** [Request::Free]: the leader learns of it by a lease of [0]. *)
Definition free_request (handle : MemoryBlockHandle) (direct : bool) : Task Daemon Response :=
  if direct then free_block (h_id handle) (h_lease_token handle);; respond_data ()
  else
    '(h, r) ← pass_to_owner handle (λ h, Free h true);
    (if r_ok r then announce (h <| h_lease_expires_ms := 0 |>) else mret ());;
    mret r.

(** [Request::MemoryPressure]. *)
Definition memory_pressure (node : Uuid) (excess_bytes : u64) : Task Daemon Response :=
  moved ← relieve_pressure node excess_bytes;
  mret (mkResponse true (json_object
    [("requested_bytes", to_value excess_bytes); ("migrated_bytes", to_value moved);
     ("unresolved_bytes", to_value (saturating_sub excess_bytes moved))]%string) None).

(** ** Dispatch *)

Definition leader_only (request : Request) : bool :=
  match request with
  | Plan _ | JobStatus _ | Allocate _ _ _ _ _ | Resolve _ _ | Register _ _ _ | MemoryPressure _ _ _ _
  | Benchmark _ | GetTopology => true
  | _ => false
  end.
(** The match of [control]. *)
Definition control_request (request : Request) : Task Daemon Response :=
  match request with
  | Ping => now ← now_ms; respond_data now
  | ReserveStaging bytes => reserve_staging bytes
  | ReleaseStaging id => section (modify (unstage id));; respond_data ()
  | Status => s ← status; respond_data s
  | Capabilities => node ← local self; respond_data node
  | Exchange node inventory => exchanged node inventory
  | Inventory page => hs ← section (gets (λ s, inventory_page page (rt_ram s))); respond_data hs
  | GetMetrics => get_metrics
  | ReportMetrics id m => report_metrics id m
  | Plan stages => plan_job stages
  | JobStatus id => job_status id
  | Allocate size job compute preferred tensor => allocate_block size job compute preferred tensor
  | AllocateLocal handle l => allocate_local handle l
  | Resolve id token => resolve_block id token
  | Register handle previous l =>
      validate_leadership l;; section (register_block handle previous);; respond_data ()
  | Publish handle l =>
      validate_leadership l;;
      with_arc (h_id handle) (λ p,
        waiting (λ s, unlocked p (d_rt s)) (on_rt (publish_section handle p));; respond_data ())
  | Commit handle checksum direct => commit handle checksum direct
  | Renew handle direct => renew handle direct
  | Free handle direct => free_request handle direct
  | MemoryPressure node _ _ excess_bytes => memory_pressure node excess_bytes
  | Migrate handle destination l =>
      validate_leadership l;;
      h ← migrate new_v4 config self out_of_fuel handle destination l; respond_data h
  | Benchmark bytes => t ← benchmark bytes; respond_data t
  | Measure destination bytes => e ← measure new_v4 config self destination bytes; respond_data e
  | GetTopology => t ← section (gets rt_topology); respond_data t
  | WriteChunk _ _ _ _ _ _ _ | ReadChunk _ _ _ _ _ | ProbeLink _ =>
      pure_step (bail "data operation on control channel")
  end.
(** [control]. *)
Definition control (request : Request) : Task Daemon Response :=
  if leader_only request then
    l ← leadership;
    if bool_decide (leader_id l = Some self) then control_request request else forward_leader request
  else control_request request.

(** ** Connections *)

(** The peer closes the connection before a frame is complete. *)
Definition ends_early (st : Stream) : bool :=
  match read_u32 st with
  | (st', Ok size) => (size <=? MAX_FRAME) && (zlen (rx st') <? size)
  | _ => true
  end.
Definition is_data (request : Request) : bool :=
  match request with WriteChunk _ _ _ _ _ _ _ | ReadChunk _ _ _ _ _ | ProbeLink _ => true | _ => false end.

(** The loop of [connection]: an error of [data] is reported and closes the
    connection, an error of [control] is its answer. *)
Fixpoint requests (fuel : nat) : Conn unit := λ st,
  match fuel with
  | O => mret (st, Err out_of_fuel)
  | S fuel =>
      if ends_early st then mret (st, Ok ()) else
      match read_frame (T := Request) st with
      | (st, Ok request) =>
          if is_data request then
            '(st, r) ← data new_v4 config self out_of_fuel request st;
            match r with
            | Ok _ => requests fuel st
            | Err e => mret ((write_frame (response_error e) st).1, Err e)
            | Panic => pure_step Panic
            end
          else
            r ← caught (control request);
            let response := match r with Ok a => a | Err e => response_error e | Panic => response_error "" end in
            let (st, w) := write_frame response st in
            match w with
            | Ok _ => requests fuel st
            | Err e => mret (st, Err e)
            | Panic => pure_step Panic
            end
      | (st, Err e) =>
          let (st, w) := write_frame (response_error e) st in
          mret (st, w;; Err e)
      | (_, Panic) => pure_step Panic
      end
  end.
(** [connection]. A request takes at least four bytes of what arrives. *)
Definition connection : Conn unit := λ st,
  server ← fresh_uuid new_v4;
  match server_auth config server st with
  | (st, Ok _) => requests (S (length (rx st))) st
  | (st, Err e) => mret ((write_frame (response_error e) st).1, Err e)
  | (_, Panic) => pure_step Panic
  end.
End Control.

(** ** A daemon starts: [Runtime::new]

    [route] and [probe] are what the system answers about its interfaces and
    its hardware. *)
Section Start.
Context `{BL : !Blake3, UT : !UuidText, JS : !Json}.

Definition new_runtime (config : Config) (id : Uuid) (route : SocketAddr → Result IpAddr) (probe : Probe)
    (clock : Z) (now : u64) : Result Runtime :=
  validate config;;
  a ← advertised_address config route;
  let local := detect uuid_str id a config probe in
  let ram := default_ram <| accounting ::= set budget (λ _, trainpool_ram_budget (memory local)) |> in
  Ok (mkRuntime (Cluster.new clock local) ram ∅ [] ∅ ∅ 0 ∅ ∅ ∅ ∅ 0 ∅ 0 clock now [] []).
(** A daemon before anything has arrived, with the answers it will get. *)
Definition fresh_daemon (rt : Runtime) (replies : list (string + Response)) (streams : list (string + Stream))
    (sockets : list (string + Endpoint)) : Daemon :=
  mkDaemon rt replies streams sockets [] 0 0 0 false ∅.
End Start.
