(* ===== verification/Scenario.v ===== *)
(** * A concrete node

    The values the witnesses of the handlers are evaluated on: a [serde_json]
    whose values are trees and whose texts are the numbers of a few frames, a
    node alone in its cluster, and a block of eight bytes. *)

From S2P Require Import Prelude.
From S2P Require Import Lists.
From S2P Require Import Bytes.
From S2P Require Import Float64.
From S2P Require Import Externals.
From S2P Require Import Block.
From S2P Require Import LocalRam.
From S2P Require Import Config.
From S2P Require Import Node.
From S2P Require Import Cluster.
From S2P Require Import Scheduler.
From S2P Require Import Metrics.
From S2P Require Import Protocol.
From S2P Require Import Transport.
From S2P Require Import UdpWire.
From S2P Require Import Runtime.
From S2P Require Import UdpServer.
From S2P Require Import Daemon.
From S2P Require Import Migration.
From S2P Require Import Control.
Import Toy.

Module Scenario.

(** ** Values as trees *)
Inductive tree :=
| TNull | TNumber (z : Z) | TText (s : string) | TUuid (u : Uuid) | TNode (n : NodeCapabilities)
| THandle (h : MemoryBlockHandle) | THandles (hs : list MemoryBlockHandle) | TPlan (p : TrainingPlan)
| TJob (j : Job) | TMetrics (m : gmap Uuid JobMetrics) | TLink (l : LinkEstimate)
| TTopology (t : list LinkEstimate) | TStatus (s : ClusterStatus) | TRequest (q : Request)
| TResponse (ok : bool) (data : tree) (error : option string)
| TChallenge (c : Challenge) | TAuthentication (a : Authentication) | TAuthenticated (a : Authenticated)
| TObject (fields : list (string * tree)).

#[export] Instance value : JsonValue := {| Value := tree; Null := TNull |}.
Definition conversion {T} (f : T → tree) (g : tree → option T) : Serde T :=
  {| to_value := f : T → Value; from_value v := ok_or (g (v : tree)) "invalid value" |}.
Definition field (v : tree) (name : string) : tree :=
  match v with
  | TObject fields => default TNull (snd <$> head (filter (λ x, x.1 = name) fields))
  | _ => TNull
  end.

(** ** The node *)
Definition config : Config :=
  default_config <| c_cluster_secret := Some "key"%string |> <| c_listen := (V4 7, 7432) |>.
Definition probe : Probe :=
  mkProbe 31 32 [] "x86_64" "linux" None None None 1 100000000000 80000000000 None "1".
Definition route (_ : SocketAddr) : Result IpAddr := Err "no route".
Definition started : Result Runtime := new_runtime config 1 route probe 0 1000.
Definition runtime : Runtime :=
  match started with Ok rt => rt | _ => mkRuntime (mkMembership 0 ∅) default_ram ∅ [] ∅ ∅ 0 ∅ ∅ ∅ ∅ 0 ∅ 0 0 0 [] [] end.
Definition new_v4 (n : nat) : Uuid := 100 + Z.of_nat n.
Definition sample (_ : nat) : u64 * option u64 := (80000000000, None).
Definition grants (_ : Z) : bool := true.
Definition no_gpus (_ : nat) : list GpuCapabilities := [].
Definition no_error (_ : Z) (_ : SocketAddr) (_ : list byte) : option string := None.
Definition stuck : string := "out of fuel".

(** ** A block *)
Definition handle : MemoryBlockHandle := mkHandle 5 9 8 1 31 (Ram 1) None Writing 77 2000 0 None.
Definition bytes : list byte := [x41; x42; x43; x44; x45; x46; x47; x48].
Definition digest : string := hash_to_hex (blake3_hash bytes).
Definition leaders : Leadership := leader (rt_membership runtime).
Definition proof : Authentication := mkAuthentication "trainpool" 22
  (signature (Some "key") (as_bytes (transcript "client" (new_v4 0) 22 "trainpool"))).

(** ** Frames by number: the texts of this exchange *)
Definition frames : list tree :=
  [TAuthentication proof; TRequest (AllocateLocal handle leaders);
   TRequest (WriteChunk handle 3 0 8 8 digest true); TRequest (Commit handle digest true);
   TRequest (ReadChunk (handle <| h_state := Ready |> <| h_checksum := Some digest |>) 4 0 8 true);
   TResponse true TNull None; TChallenge (mkChallenge 50); TAuthenticated (mkAuthenticated None);
   TResponse true (TObject [("transfer_id", TUuid 4); ("object_id", TUuid 5); ("offset", TNumber 0);
     ("length", TNumber 8); ("total_size", TNumber 8); ("checksum", TText digest)]%string) None].
Definition number (v : tree) : Z :=
  match v with
  | TAuthentication _ => 0 | TRequest (AllocateLocal _ _) => 1 | TRequest (WriteChunk _ _ _ _ _ _ _) => 2
  | TRequest (Commit _ _ _) => 3 | TRequest (ReadChunk _ _ _ _ _) => 4 | TResponse true TNull None => 5
  | TChallenge _ => 6 | TAuthenticated _ => 7 | TResponse true (TObject _) None => 8
  | _ => 255
  end.
#[export] Instance wire : JsonWire := {|
  wire_to_vec w := be_bytes 1 (number w.2);
  wire_from_slice b := match frames !! Z.to_nat (be_val b) with
                       | Some v => Ok (Protocol.VERSION, v : Value)
                       | None => Err "invalid frame"
                       end;
|}.
#[export] Instance json : Json := {|
  json_value := value;
  json_wire := wire;
  json_unit := conversion (λ _, TNull) (λ v, match v with TNull => Some () | _ => None end);
  json_number := conversion TNumber (λ v, match v with TNumber z => Some z | _ => None end);
  json_text := conversion TText (λ v, match v with TText z => Some z | _ => None end);
  json_uuid := conversion (λ '(JUuid u), TUuid u) (λ v, match v with TUuid u => Some (JUuid u) | _ => None end);
  json_node := conversion TNode (λ v, match v with TNode z => Some z | _ => None end);
  json_handle := conversion THandle (λ v, match v with THandle z => Some z | _ => None end);
  json_handles := conversion THandles (λ v, match v with THandles z => Some z | _ => None end);
  json_plan := conversion TPlan (λ v, match v with TPlan z => Some z | _ => None end);
  json_job := conversion TJob (λ v, match v with TJob z => Some z | _ => None end);
  json_metrics := conversion TMetrics (λ v, match v with TMetrics z => Some z | _ => None end);
  json_link := conversion TLink (λ v, match v with TLink z => Some z | _ => None end);
  json_topology := conversion TTopology (λ v, match v with TTopology z => Some z | _ => None end);
  json_status := conversion TStatus (λ v, match v with TStatus z => Some z | _ => None end);
  json_request := conversion TRequest (λ v, match v with TRequest z => Some z | _ => None end);
  json_response := conversion (λ r : Response, TResponse (r_ok r) (r_data r) (r_error r))
    (λ v, match v with TResponse ok d e => Some (mkResponse ok (d : Value) e) | _ => None end);
  json_challenge := conversion TChallenge (λ v, match v with TChallenge z => Some z | _ => None end);
  json_authentication := conversion TAuthentication (λ v, match v with TAuthentication z => Some z | _ => None end);
  json_authenticated := conversion TAuthenticated (λ v, match v with TAuthenticated z => Some z | _ => None end);
  json_object fields := TObject fields;
  json_field v name := field v name;
  json_as_str v := match v : tree with TText s => Some s | _ => None end;
|}.

Definition done : @Response json_value := mkResponse true (TNull : Value) None.
(** A peer that allocates the block, writes its bytes and commits them. *)
Definition connection_bytes : list byte :=
  frame proof ++ frame (AllocateLocal handle leaders)
  ++ frame (WriteChunk handle 3 0 8 8 digest true) ++ bytes ++ frame (Commit handle digest true).
Definition daemon : Daemon := fresh_daemon runtime [inr done] [] [].

(** ** A second node, and the block committed *)
Definition open_config : Config := default_config <| c_listen := (V4 7, 7432) |>.
Definition other : NodeCapabilities :=
  let n := detect uuid_str 2 (V4 8, 7432) open_config probe in
  n <| incarnation := 41 |> <| network ::= set data_transport (λ _, "tcp"%string) |>.
Definition ready : MemoryBlockHandle := handle <| h_state := Ready |> <| h_checksum := Some digest |>.
Definition holder : Runtime :=
  runtime <| rt_membership ::= Cluster.update 0 other |>
    <| rt_ram ::= λ r, update_block (ptr_of 0 handle)
         (λ b, (append_bytes 3 0 bytes b) <| b_handle := ready |>) (allocate true handle r).1 |>.
(** The copy, and what the other node answers when it accepts it. *)
Definition committed : MemoryBlockHandle :=
  (target_of ready 2 41 (lease_end open_config 1000)) <| h_state := Ready |> <| h_checksum := Some digest |>.
Definition accepting : Daemon :=
  fresh_daemon holder [inr done; inr (mkResponse true (THandle committed : Value) None); inr done; inr done]
    [inr (mkStream (frame (mkChallenge 50) ++ frame (mkAuthenticated None) ++ frame (T := @Response json_value) done ++ frame (T := @Response json_value) done) [])] [].
End Scenario.
