(* ===== verification/Chunks.v ===== *)
(** * A chunk over TCP

    The client of [memory/remote_ram.rs] against the owner's side of
    [runtime/data.rs]: what is written is what is read back. *)

From S2P Require Import Prelude.
From S2P Require Import Lists.
From S2P Require Import Bytes.
From S2P Require Import Float64.
From S2P Require Import Externals.
From S2P Require Import Block.
From S2P Require Import Accounting.
From S2P Require Import LocalRam.
From S2P Require Import Config.
From S2P Require Import Protocol.
From S2P Require Import UdpWire.
From S2P Require Import Transport.
From S2P Require Import Runtime.
From S2P Require Import UdpServer.
From S2P Require Import Daemon.
From S2P Require Import DataPlane.
From S2P Require Import Monitor.
From S2P Require Import Control.
From S2P Require Import Scenario.

Section Chunks.
Context `{BL : !Blake3, HX : !Hex, UT : !UuidText, JS : !Json}.

(** ** A chunk is written *)

(** What a chunk finds at its owner: the block is being written, up to the
    offset, under a lease that is valid, by this transfer or by none. *)
Record expects (now : u64) (h : MemoryBlockHandle) (transfer : Uuid) (offset length : Z) (b : RamBlock) : Prop := {
  ex_ok : block_ok b;
  ex_state : h_state (b_handle b) = Writing;
  ex_generation : h_generation (b_handle b) = h_generation h;
  ex_size : h_size (b_handle b) = h_size h;
  ex_token : h_lease_token (b_handle b) = h_lease_token h;
  ex_lease : now < h_lease_expires_ms (b_handle b);
  ex_written : b_written b = offset;
  ex_room : offset + length <= h_size h;
  ex_transfer : b_transfer_id b = None ∨ b_transfer_id b = Some transfer;
}.

Lemma authorized now h b :
  h_lease_token (b_handle b) = h_lease_token h → now < h_lease_expires_ms (b_handle b) →
  authorize now (h_lease_token h) b = Ok ().
Proof. intros E Hl. unfold authorize. rewrite E, Z.eqb_refl. cbn. by rewrite (proj2 (Z.ltb_lt _ _) Hl). Qed.

Abbreviation accepted := (response_data ()).

Lemma client_writes h transfer offset bytes :
  let q := WriteChunk h transfer offset (zlen bytes) (h_size h) (digest_of bytes) true in
  frame_fits q → readable accepted →
  write_chunk_to h transfer offset bytes (mkStream (frame accepted ++ frame accepted) [])
  = (mkStream [] (frame q ++ bytes), Ok ()).
Proof.
  intros q Hq Ha. unfold write_chunk_to. fold q.
  unfold mbind, SM_bind. rewrite write_frame_spec by done.
  rewrite (read_readable accepted (frame accepted)) by done. cbn [lift check r_ok accepted ensure response_data].
  unfold write_all, modify.
  rewrite (read_readable accepted []) by (done || by rewrite app_nil_r). done.
Qed.

Lemma owner_receives now h transfer offset bytes b :
  bytes ≠ [] → expects now h transfer offset (zlen bytes) b → frame_fits accepted →
  receive_chunk now h transfer offset (zlen bytes) (h_size h) (digest_of bytes) (mkStream bytes [], b)
  = ((mkStream [] (frame accepted), append_bytes transfer offset bytes b), Ok ()).
Proof.
  intros Hne [[O1 O2 O3 O4 O5] E1 E2 E3 E4 E5 E6 E7 E8] Ha. unfold receive_chunk, ensureM, lift.
  unfold mbind, SM_bind, gets, act. cbn [snd]. rewrite authorized by done.
  rewrite E1, E2, E3, E6, !bool_decide_true, !Z.eqb_refl by done. cbn [andb ensure].
  assert (match b_transfer_id b with None => true | Some id => id =? transfer end = true) as ->.
  { destruct E8 as [->| ->]; [done|apply Z.eqb_refl]. }
  cbn [ensure]. rewrite write_frame_spec by done. unfold read_into, act. cbn [rx tx].
  destruct (slice_is_Some offset (offset + zlen bytes) (b_bytes b)) as [old Hold]; [lia..|]. rewrite Hold.
  rewrite Nat2Z.id, take_ge, drop_ge, Z.ltb_irrefl by done. cbn [snd].
  destruct (splice_is_Some offset bytes (b_bytes b)) as [l Hl]; [lia..|].
  pose proof Hl as Hsl. apply splice_slice in Hsl.
  unfold set at 1. cbn. rewrite Hl. cbn. rewrite Hsl. cbn. rewrite bool_decide_true by done. cbn.
  unfold append_bytes, set. cbn. by rewrite Hl.
Qed.

(** ** A chunk is read *)

Record offers (now : u64) (h : MemoryBlockHandle) (offset : Z) (bytes : list byte) (b : RamBlock) : Prop := {
  of_ok : block_ok b;
  of_state : h_state (b_handle b) = Ready;
  of_generation : h_generation (b_handle b) = h_generation h;
  of_token : h_lease_token (b_handle b) = h_lease_token h;
  of_lease : now < h_lease_expires_ms (b_handle b);
  of_bytes : slice offset (offset + zlen bytes) (b_bytes b) = Some bytes;
}.
(** The answer ahead of the bytes. *)
Definition metadata (h : MemoryBlockHandle) (transfer : Uuid) (offset : Z) (bytes : list byte) (b : RamBlock)
    : Response :=
  mkResponse true (chunk_metadata transfer (h_id h) offset (zlen bytes) (h_size (b_handle b)) bytes) None.

Lemma owner_sends now h transfer offset bytes b :
  offers now h offset bytes b → frame_fits (metadata h transfer offset bytes b) →
  send_chunk now h transfer offset (zlen bytes) b (mkStream [] [])
  = (mkStream [] (frame (metadata h transfer offset bytes b) ++ bytes), Ok ()).
Proof.
  intros [[O1 O2 O3 O4 O5] E1 E2 E3 E4 E5] Hf. unfold send_chunk, ensureM, lift, mbind, SM_bind.
  rewrite authorized by done. rewrite E1, E2, bool_decide_true, Z.eqb_refl by done. cbn [andb ensure].
  assert (0 <= offset ∧ offset + zlen bytes <= h_size (b_handle b)) as [H0 Hsz].
  { unfold slice in E5. case_match eqn:E; [|done]. bprop. lia. }
  rewrite wadd_small by (unfold is_u64 in *; lia). rewrite (proj2 (Z.leb_le _ _) Hsz). cbn [ensure].
  rewrite E5. cbn [unwrap]. fold (metadata h transfer offset bytes b). by rewrite write_frame_spec.
Qed.
Lemma client_reads h transfer offset bytes b :
  let q := ReadChunk h transfer offset (zlen bytes) true in
  frame_fits q → readable (metadata h transfer offset bytes b) →
  json_as_str (json_field (r_data (metadata h transfer offset bytes b)) "checksum") = Some (digest_of bytes) →
  read_chunk_from h transfer offset (zlen bytes)
    (mkStream (frame (metadata h transfer offset bytes b) ++ bytes) [])
  = (mkStream [] (frame q), Ok bytes).
Proof.
  intros q Hq Hr Hj. unfold read_chunk_from. fold q. unfold ensureM, lift, mbind, SM_bind.
  rewrite write_frame_spec by done. rewrite (read_readable (metadata h transfer offset bytes b) bytes) by done.
  cbn [check r_ok metadata ensure]. fold (metadata h transfer offset bytes b).
  rewrite (read_exact_app _ bytes []) by (done || by rewrite app_nil_r).
  rewrite Hj, bool_decide_true by done. done.
Qed.

(** C8. A chunk written over TCP is the chunk read back over TCP. Against an
    owner that expects it, the client's write succeeds, the owner reads the
    very request the client sent, stores exactly its bytes at its offset,
    counts them and answers twice; and from any later state of the block that
    is committed under the same lease and still holds them, a read returns
    exactly these bytes. *)
Theorem chunk_roundtrip now h transfer offset bytes b :
  let q := WriteChunk h transfer offset (zlen bytes) (h_size h) (digest_of bytes) true in
  bytes ≠ [] → expects now h transfer offset (zlen bytes) b → readable q → readable accepted →
  ∃ to_owner to_client b',
    write_chunk_to h transfer offset bytes (mkStream to_client []) = (mkStream [] to_owner, Ok ())
    ∧ read_frame (mkStream to_owner []) = (mkStream bytes [], Ok q)
    ∧ receive_chunk now h transfer offset (zlen bytes) (h_size h) (digest_of bytes) (mkStream bytes [], b)
      = ((mkStream [] (frame accepted), b'), Ok ())
    ∧ to_client = frame accepted ++ frame accepted
    ∧ b_written b' = offset + zlen bytes ∧ slice offset (offset + zlen bytes) (b_bytes b') = Some bytes
    ∧ ∀ now2 transfer2 b2,
        offers now2 h offset bytes b2 → frame_fits (ReadChunk h transfer2 offset (zlen bytes) true) →
        readable (metadata h transfer2 offset bytes b2) →
        json_as_str (json_field (r_data (metadata h transfer2 offset bytes b2)) "checksum") = Some (digest_of bytes) →
        ∃ from_owner from_client,
          send_chunk now2 h transfer2 offset (zlen bytes) b2 (mkStream [] []) = (mkStream [] from_owner, Ok ())
          ∧ read_chunk_from h transfer2 offset (zlen bytes) (mkStream from_owner []) = (mkStream [] from_client, Ok bytes).
Proof.
  intros q Hne He Hq Ha. exists (frame q ++ bytes), (frame accepted ++ frame accepted), (append_bytes transfer offset bytes b).
  split_and!; [apply client_writes; [apply Hq|done]|by apply (read_readable q bytes)
    |apply owner_receives; [done..|apply Ha]|done|done| |].
  - destruct He as [[O1 O2 O3 O4 O5] E1 E2 E3 E4 E5 E6 E7 E8].
    destruct (splice_is_Some offset bytes (b_bytes b)) as [l Hl]; [lia..|].
    unfold append_bytes. cbn. rewrite Hl. cbn. by eapply splice_slice.
  - intros now2 t2 b2 Ho Hf Hr Hj. eexists _, _. split; [apply owner_sends; [done|apply Hr]|by apply client_reads].
Qed.

(** ** A probe *)

Abbreviation zeros n := (replicate (Z.to_nat n) x00).
Lemma zeros_split n k : 0 <= k <= n → zeros n = zeros k ++ zeros (n - k).
Proof. intros H. rewrite <-replicate_add. f_equal. lia. Qed.
Lemma send_zeros_spec fuel n r t :
  0 <= n <= Z.of_nat fuel * 8192 → send_zeros fuel n (mkStream r t) = (mkStream r (t ++ zeros n), Ok ()).
Proof.
  revert n t. induction fuel as [|fuel IH]; intros n t Hn; cbn [send_zeros].
  { replace n with 0 by lia. cbn. by rewrite app_nil_r. }
  destruct (Z.ltb_spec 0 n); [|replace n with 0 by lia; cbn; by rewrite app_nil_r].
  unfold mbind, SM_bind, write_all, modify, set. cbn [rx tx].
  rewrite IH by lia. rewrite <-(assoc_L (++)), <-zeros_split by lia. done.
Qed.
Lemma read_zeros_spec fuel n rest t :
  0 <= n <= Z.of_nat fuel * 8192 → read_zeros fuel n (mkStream (zeros n ++ rest) t) = (mkStream rest t, Ok ()).
Proof.
  revert n. induction fuel as [|fuel IH]; intros n Hn; cbn [read_zeros].
  { replace n with 0 by lia. done. }
  destruct (Z.ltb_spec 0 n); [|by replace n with 0 by lia].
  unfold mbind, SM_bind. rewrite (read_exact_app _ (zeros (Z.min n 8192)) (zeros (n - Z.min n 8192) ++ rest)).
  - unfold set. cbn [rx tx]. apply IH. lia.
  - cbn [rx]. rewrite (zeros_split n (Z.min n 8192)) by lia. by rewrite <-(assoc_L (++)).
  - rewrite length_replicate. lia.
Qed.
(** A probe sends what a measurement reads: the two loops, in pieces of
    8192 bytes, end after [n] bytes, neither more nor fewer. *)
Theorem probe_exact n r t rest :
  0 <= n →
  send_zeros (Z.to_nat (div_ceil n 8192)) n (mkStream r t) = (mkStream r (t ++ zeros n), Ok ())
  ∧ read_zeros (Z.to_nat (div_ceil n 8192)) n (mkStream (zeros n ++ rest) t) = (mkStream rest t, Ok ()).
Proof.
  intros Hn. pose proof (proj1 (div_ceil_spec n 8192 _ ltac:(lia) Hn) eq_refl) as [_ Hc].
  split; [apply send_zeros_spec|apply read_zeros_spec]; lia.
Qed.
End Chunks.

(** ** Witnesses *)
Import Toy Scenario.
Module Witness.
Definition empty : RamBlock := new_block handle (mkReservation 8 (Some 9)).
Definition full : RamBlock := (append_bytes 3 0 bytes empty) <| b_handle := ready |>.
Lemma empty_expects : expects 1000 handle 3 0 (zlen bytes) empty.
Proof. split; [|done..|by left]. apply new_block_ok. unfold is_u64, U64_MAX. cbn. lia. Qed.
Lemma full_ok : block_ok full.
Proof.
  split; [unfold is_u64, U64_MAX; cbn; lia|vm_refl|cbn; lia|vm_refl|]. exists [bytes]. split; vm_refl.
Qed.
Lemma full_offers : offers 1000 handle 0 bytes full.
Proof. split; [apply full_ok|done..|vm_refl]. Qed.
End Witness.

Lemma chunk_roundtrip_witness :
  ∃ from_owner from_client,
    send_chunk 1000 handle 4 0 (zlen bytes) Witness.full (mkStream [] []) = (mkStream [] from_owner, Ok ())
    ∧ read_chunk_from handle 4 0 (zlen bytes) (mkStream from_owner []) = (mkStream [] from_client, Ok bytes).
Proof.
  destruct (chunk_roundtrip 1000 handle 3 0 bytes Witness.empty) as (w1 & w2 & b' & _ & _ & _ & _ & _ & _ & H).
  - discriminate.
  - apply Witness.empty_expects.
  - split; [apply Z.leb_le; vm_refl|vm_refl..].
  - split; [apply Z.leb_le; vm_refl|vm_refl..].
  - apply (H 1000 4 Witness.full Witness.full_offers).
    + apply Z.leb_le. vm_refl.
    + split; [apply Z.leb_le; vm_refl|vm_refl..].
    + vm_refl.
Defined.

Lemma probe_exact_witness :
  send_zeros (Z.to_nat (div_ceil 8193 8192)) 8193 (mkStream [] []) = (mkStream [] (replicate (Z.to_nat 8193) x00), Ok ()).
Proof. exact (proj1 (probe_exact 8193 [] [] [] ltac:(lia))). Defined.
