(* ===== verification/HandOver.v ===== *)
(** * Migration never loses the only copy

    The order of the calls and of the freeing in [migrate], in every execution
    among other tasks and for every answer of the other nodes. *)

From S2P Require Import Prelude.
From S2P Require Import Lists.
From S2P Require Import Bytes.
From S2P Require Import Float64.
From S2P Require Import Externals.
From S2P Require Import Block.
From S2P Require Import Accounting.
From S2P Require Import LocalRam.
From S2P Require Import Config.
From S2P Require Import Node.
From S2P Require Import Cluster.
From S2P Require Import Metrics.
From S2P Require Import Protocol.
From S2P Require Import Transport.
From S2P Require Import UdpWire.
From S2P Require Import Task.
From S2P Require Import Runtime.
From S2P Require Import Daemon.
From S2P Require Import DataPlane.
From S2P Require Import Migration.
From S2P Require Import Control.
From S2P Require Import Scenario.

(** ** Calls in executions *)
Section Order.
Context `{BL : !Blake3, HM : !Hmac, HX : !Hex, UT : !UuidText, JS : !Json}.
Context (new_v4 : nat → Uuid) (config : Config) (self : Uuid) (out_of_fuel : string).

(** The calls to other nodes that the sections of an execution make. *)
Abbreviation Call := (SocketAddr * Request * Result Response)%type.
Definition calls (l : list (Daemon * Daemon)) : list Call :=
  mjoin ((λ '(s, s'), drop (length (d_calls s)) (d_calls s')) <$> l).
Lemma calls_app l1 l2 : calls (l1 ++ l2) = calls l1 ++ calls l2.
Proof. unfold calls. by rewrite fmap_app, join_app. Qed.

(** A section that maps and unmaps no block. *)
Definition same_blocks (s s' : Daemon) : Prop := blocks (rt_ram (d_rt s')) = blocks (rt_ram (d_rt s)).
(** [traces t P]: in every execution of [t], whatever runs in between, its own
    sections map and unmap no block, and its calls and result satisfy [P]. *)
Definition traces {A} (t : Task Daemon A) (P : list Call → Result A → Prop) : Prop :=
  ∀ l r, exec t l r → Forall (λ '(s, s'), same_blocks s s') l ∧ P (calls l) r.
Definition silent {A} (t : Task Daemon A) : Prop := traces t (λ cs _, cs = []).

Lemma traces_mono {A} (t : Task Daemon A) (P Q : list Call → Result A → Prop) :
  traces t P → (∀ cs r, P cs r → Q cs r) → traces t Q.
Proof. intros Ht HQ l r Hl. destruct (Ht l r Hl). auto. Qed.
Lemma traces_bind {A B} (t : Task Daemon A) (k : A → Task Daemon B) P (Q : A → list Call → Result B → Prop) R :
  traces t P → (∀ a, traces (k a) (Q a)) →
  (∀ c1 c2 a r, P c1 (Ok a) → Q a c2 r → R (c1 ++ c2) r) →
  (∀ cs e, P cs (Err e) → R cs (Err e)) → (∀ cs, P cs Panic → R cs Panic) → traces (t ≫= k) R.
Proof.
  intros Ht Hk H1 H2 H3 l r [(l1 & l2 & a & -> & E1 & E2)|[(e & -> & E)|[-> E]]]%exec_bind.
  - destruct (Ht _ _ E1), (Hk a _ _ E2). rewrite calls_app, Forall_app. eauto.
  - destruct (Ht _ _ E). auto.
  - destruct (Ht _ _ E). auto.
Qed.
Lemma silent_bind {A B} (t : Task Daemon A) (k : A → Task Daemon B) :
  silent t → (∀ a, silent (k a)) → silent (t ≫= k).
Proof. intros Ht Hk. eapply (traces_bind t k _ (λ _ cs _, cs = [])); [done..| | |]; naive_solver. Qed.
(** A step before, and one after, that makes no calls. *)
Lemma traces_after {A B} (t : Task Daemon A) (k : A → Task Daemon B) P :
  silent t → (∀ a, traces (k a) P) → (∀ e, P [] (Err e)) → P [] Panic → traces (t ≫= k) P.
Proof. intros Ht Hk He Hp. eapply (traces_bind t k _ (λ _, P)); [done..| | |]; by intros; simplify_eq/=. Qed.
Lemma traces_pure {A} (r : Result A) (P : list Call → Result A → Prop) : P [] r → traces (pure_step r) P.
Proof. intros HP l r' [-> ->]%exec_done_inv. by split. Qed.
Lemma traces_waiting {A} g (m : SM Daemon A) (P : list Call → Result A → Prop) :
  (∀ s, same_blocks s (m s).1 ∧ P (drop (length (d_calls s)) (d_calls (m s).1)) (m s).2) →
  traces (waiting g m) P.
Proof.
  intros Hm l r (s & l' & -> & _ & [-> ->]%exec_done_inv)%exec_atomic_inv. destruct (Hm s).
  unfold calls. cbn. rewrite app_nil_r. split; [by constructor|done].
Qed.
Lemma silent_waiting {A} g (m : SM Daemon A) :
  (∀ s, same_blocks s (m s).1 ∧ d_calls (m s).1 = d_calls s) → silent (waiting g m).
Proof. intros Hm. apply traces_waiting. intros s. destruct (Hm s) as [H ->]. split; [done|apply drop_all]. Qed.
Lemma silent_on_rt {A} g (m : SM Runtime A) :
  (∀ s, blocks (rt_ram (m s).1) = blocks (rt_ram s)) → silent (waiting g (on_rt m)).
Proof. intros Hm. apply silent_waiting. intros s. split; [apply Hm|done]. Qed.
Lemma traces_finally {A} m (t : Task Daemon A) P :
  (∀ s, same_blocks s (m s) ∧ d_calls (m s) = d_calls s) → traces t P → traces (finally m t) P.
Proof.
  intros Hm Ht l r (l' & s & -> & [H1 H2]%Ht)%exec_finally. destruct (Hm s) as [Hb Hc].
  rewrite calls_app, Forall_app. unfold calls at 2. cbn. rewrite Hc, drop_all, app_nil_r. by repeat constructor.
Qed.
Lemma traces_caught {A} (t : Task Daemon A) (P : list Call → Result (Result A) → Prop) :
  traces t (λ cs r, P cs match r with Panic => Panic | _ => Ok r end) → traces (caught t) P.
Proof. intros Ht l r (r0 & [H1 H2]%Ht & ->)%exec_caught. by split. Qed.
Lemma traces_call a q : traces (call a q) (λ cs r, cs = [(a, q, r)]).
Proof.
  apply traces_waiting. intros s. split; [done|]. cbn. by rewrite drop_app_length.
Qed.

(** [returns]: what holds of the calls when the task returns a value. *)
Definition returns {A} (t : Task Daemon A) (Q : A → list Call → Prop) : Prop :=
  traces t (λ cs r, ∀ a, r = Ok a → Q a cs).
Lemma returns_after {A B} (t : Task Daemon A) (k : A → Task Daemon B) Q :
  silent t → (∀ a, returns (k a) Q) → returns (t ≫= k) Q.
Proof. intros Ht Hk. by apply traces_after. Qed.
Lemma returns_pure {A B} (r : Result A) (k : A → Task Daemon B) Q :
  (∀ a, r = Ok a → returns (k a) Q) → returns (pure_step r ≫= k) Q.
Proof. intros Hk. destruct r as [a|e|]; [by apply Hk|by apply (traces_pure (Err e))|by apply (traces_pure Panic)]. Qed.
Lemma returns_ret {A} (a : A) (Q : A → list Call → Prop) : Q a [] → returns (mret a) Q.
Proof. intros HQ. apply (traces_pure (Ok a)). by intros ? [= <-]. Qed.
Lemma returns_call {B} a q (k : Response → Task Daemon B) (Q : B → list Call → Prop) :
  (∀ x, returns (k x) (λ b cs, Q b ((a, q, Ok x) :: cs))) → returns (call a q ≫= k) Q.
Proof.
  intros Hk. eapply (traces_bind _ _ _ (λ x cs r, ∀ b, r = Ok b → Q b ((a, q, Ok x) :: cs)));
    [apply traces_call|apply Hk| |done..].
  cbn. intros c1 c2 x r -> H b ->. by apply H.
Qed.
Lemma returns_bind {A B} (t : Task Daemon A) (k : A → Task Daemon B) P Q :
  returns t P → (∀ a, returns (k a) (λ b c2, ∀ c1, P a c1 → Q b (c1 ++ c2))) → returns (t ≫= k) Q.
Proof.
  intros Ht Hk. eapply (traces_bind _ _ _ (λ a c2 r, ∀ b, r = Ok b → ∀ c1, P a c1 → Q b (c1 ++ c2)));
    [exact Ht|exact Hk| |done..]. cbn. intros c1 c2 a r H1 H2 b ->. eauto.
Qed.

(** ** The silent parts *)
Create HintDb silent.
Ltac silent_walk :=
  repeat (intros; lazymatch goal with
  | |- silent (_ ≫= _) => apply silent_bind
  | |- silent (mret _) => by apply traces_pure
  | |- silent (pure_step _) => by apply traces_pure
  | |- silent (caught _) => apply traces_caught
  | |- silent (section _) => by apply silent_on_rt
  | |- silent (let x := _ in _) => cbv zeta
  | |- silent (match ?x with _ => _ end) => destruct x
  end; auto with silent nocore); intros; auto with silent nocore.

Lemma silent_now : silent now_ms.
Proof. unfold now_ms. silent_walk. Qed.
Lemma silent_millis start : silent (millis_since start).
Proof. unfold millis_since, instant. silent_walk. Qed.
Lemma silent_uuid : silent (fresh_uuid new_v4).
Proof. by apply silent_waiting. Qed.
Lemma silent_measure_job id f : silent (measure_job id f).
Proof. by apply silent_on_rt. Qed.
Lemma silent_bind_socket : silent bind_socket.
Proof. by apply silent_waiting. Qed.
Lemma silent_open_stream : silent open_stream.
Proof. by apply silent_waiting. Qed.
Lemma silent_release_tcp a st : silent (release_tcp_data a st).
Proof. by apply silent_waiting. Qed.
Lemma silent_address id : silent (address id).
Proof. by apply silent_on_rt. Qed.
Hint Resolve silent_now silent_millis silent_uuid silent_measure_job silent_bind_socket silent_open_stream
  silent_release_tcp silent_address : silent.
Lemma silent_leader_address : silent leader_address.
Proof. unfold leader_address, leadership. silent_walk. Qed.
Lemma silent_connect : silent (connect new_v4 config).
Proof. unfold connect. silent_walk. Qed.
Hint Resolve silent_leader_address silent_connect : silent.
Lemma silent_acquire_tcp a : silent (acquire_tcp_data new_v4 config a).
Proof.
  unfold acquire_tcp_data. apply silent_bind; [|silent_walk].
  apply silent_waiting. intros s. unfold act. by case_match.
Qed.
Hint Resolve silent_acquire_tcp : silent.
Lemma silent_tcp_chunk {A} a job (m : SM Stream A) : silent (tcp_chunk new_v4 config a job m).
Proof. unfold tcp_chunk. silent_walk. Qed.
Lemma silent_udp_write a h t o p : silent (udp_write config out_of_fuel a h t o p).
Proof. unfold udp_write. silent_walk. Qed.
Lemma silent_track {A} job (t : Task Daemon (A * TransferStats)) : silent t → silent (track_udp_transfer job t).
Proof. intros Ht. unfold track_udp_transfer. silent_walk. Qed.
Hint Resolve silent_tcp_chunk silent_udp_write silent_track : silent.
Lemma silent_copy_chunks job node target transfer chunk index pieces :
  silent (copy_chunks new_v4 config out_of_fuel job node target transfer chunk index pieces).
Proof.
  revert index. induction pieces as [|bytes pieces IH]; intros index; cbn [copy_chunks]; [silent_walk|].
  unfold tcp_write_chunk. silent_walk.
Qed.
Hint Resolve silent_copy_chunks : silent.

(** ** The four calls *)

(** The calls of a hand-over that succeeded: the destination at [a] allocated
    the copy of the ready block [hb], committed it under the checksum of the
    block, the leader at [al] swapped the entry of this very generation for
    the committed copy [c], and the destination published it. *)
Definition handed_over (handle : MemoryBlockHandle) (destination : Uuid) (l : Leadership)
    (c : MemoryBlockHandle) (cs : list Call) : Prop :=
  ∃ hb incarnation lease checksum a al ra rc rr rp,
    h_generation hb = h_generation handle ∧ h_state hb = Ready ∧ h_checksum hb = Some checksum
    ∧ cs = [(a, AllocateLocal (target_of hb destination incarnation lease) l, Ok ra);
            (a, Commit (target_of hb destination incarnation lease) checksum true, Ok rc);
            (al, Register c (Some (h_generation handle)) l, Ok rr);
            (a, Publish c l, Ok rp)]
    ∧ check ra = Ok () ∧ into_data rc = Ok c ∧ check rr = Ok () ∧ check rp = Ok ().

Lemma returns_copy_block job node target b :
  returns (copy_block new_v4 config out_of_fuel job node target b) (λ c cs,
    ∃ checksum rc, h_checksum (b_handle b) = Some checksum
      ∧ cs = [(control_address (network node), Commit target checksum true, Ok rc)] ∧ into_data rc = Ok c).
Proof.
  unfold copy_block. apply returns_after; [apply silent_uuid|]. intros transfer. cbv zeta.
  apply returns_pure. intros pieces _. apply returns_after; [apply silent_copy_chunks|]. intros _.
  apply returns_pure. intros checksum Hc%unwrap_Ok. apply returns_call. intros rc.
  apply traces_pure. intros c Hrc. exists checksum, rc. done.
Qed.
(** A check that is awaited, and an answer of the leader. *)
Lemma returns_checked {B} r (k : unit → Task Daemon B) Q :
  (check r = Ok () → returns (k ()) Q) → returns (checked r ≫= k) Q.
Proof. intros Hk. unfold checked. apply returns_pure. intros [] H. by apply Hk. Qed.
Lemma returns_forward {B} q (k : Response → Task Daemon B) (Q : B → list Call → Prop) :
  (∀ al x, returns (k x) (λ b cs, Q b ((al, q, Ok x) :: cs))) → returns (forward_leader q ≫= k) Q.
Proof.
  intros Hk. apply (returns_bind _ _ (λ x cs, ∃ al, cs = [(al, q, Ok x)])).
  - unfold forward_leader. apply returns_after; [apply silent_leader_address|]. intros al.
    eapply traces_mono; [apply traces_call|]. intros cs r -> x ->. eauto.
  - intros x. intros l r Hl. destruct (Hk (V4 0, 0) x l r Hl) as [H1 _]. split; [done|].
    intros b Hr c1 (al & ->). by apply (proj2 (Hk al x l r Hl)).
Qed.

Lemma returns_migrate_locked handle destination l b :
  returns (migrate_locked new_v4 config out_of_fuel handle destination l b)
    (λ x cs, handed_over handle destination l x.1 cs).
Proof.
  unfold migrate_locked. apply returns_after; [apply silent_now|]. intros now.
  apply returns_pure. intros _ _. apply returns_pure. intros _ Hb%ensure_Ok. bprop.
  apply returns_after; [by apply silent_on_rt|]. intros node.
  apply returns_after; [apply silent_now|]. intros now'. cbv zeta.
  apply returns_call. intros ra. apply returns_checked. intros Hra.
  apply returns_after; [by apply silent_on_rt|]. intros start.
  set (target := target_of _ _ _ _).
  apply (returns_bind _ _ (λ x cs, ∀ c, x = Ok c → ∃ checksum rc, h_checksum (b_handle b) = Some checksum
      ∧ cs = [(control_address (network node), Commit target checksum true, Ok rc)] ∧ into_data rc = Ok c)).
  { apply traces_caught. eapply traces_mono; [apply returns_copy_block|].
    intros cs [c0|e|] Hcopy x Hx c Hc; simplify_eq/=. by apply Hcopy. }
  intros [c|e|].
  - apply returns_forward. intros al rr. apply returns_checked. intros Hrr.
    apply returns_call. intros rp. apply returns_checked. intros Hrp. apply returns_ret.
    intros c1 Hc. destruct (Hc c eq_refl) as (checksum & rc & H1 & -> & H2).
    exists (b_handle b), (incarnation node), (lease_end config now'), checksum,
      (control_address (network node)), al, ra, rc, rr, rp. done.
  - apply (returns_bind _ _ (λ _ _, True)).
    + apply traces_caught. eapply traces_mono; [apply traces_call|done].
    + intros _. apply returns_after; [apply silent_measure_job|]. intros _.
      apply (traces_pure (Err e)). by intros ? [=].
  - apply (traces_pure Panic). by intros ? [=].
Qed.

(** Everything before the block is freed. *)
Definition hand_over (handle : MemoryBlockHandle) (destination : Uuid) (l : Leadership)
    : Task Daemon (Result (MemoryBlockHandle * Z)) :=
  with_arc (h_id handle) (λ p,
    with_guard p (λ b, r ← caught (migrate_locked new_v4 config out_of_fuel handle destination l b); mret (b, r))).
Lemma release_blocks p s : blocks (LocalRam.release p s) = blocks s.
Proof. unfold LocalRam.release, reclaim. by repeat case_match. Qed.
Lemma returns_hand_over handle destination l :
  returns (hand_over handle destination l)
    (λ x cs, ∀ y, x = Ok y → handed_over handle destination l y.1 cs).
Proof.
  unfold hand_over, with_arc. apply returns_after.
  { apply silent_on_rt. intros s. unfold get, on_ram, act. by case_match. }
  intros p. apply traces_finally; [intros s; split; [apply release_blocks|done]|].
  unfold with_guard. apply returns_after.
  { apply silent_on_rt. intros s. unfold mbind, SM_bind, block_at, act. by destruct (unwrap _). }
  intros b. apply traces_finally; [done|].
  apply (returns_bind _ _ (λ x cs, ∀ y, x.2 = Ok y → handed_over handle destination l y.1 cs)).
  - apply (returns_bind _ _ (λ x cs, ∀ y, x = Ok y → handed_over handle destination l y.1 cs)).
    + apply traces_caught. eapply traces_mono; [apply returns_migrate_locked|].
      intros cs [y0|e|] H x Hx y Hy; simplify_eq/=. by apply H.
    + intros r. apply returns_ret. intros c1 H y Hy. rewrite app_nil_r. by apply H.
  - intros [b' r]. apply returns_after; [by apply silent_on_rt|]. intros _. apply returns_ret.
    intros c1 H y Hy. rewrite app_nil_r. by apply H.
Qed.

(** After the hand-over: no calls, and the committed handle. *)
Abbreviation mute Q := (obeys (λ _ : Daemon, True) (λ s s', d_calls s' = d_calls s) Q).
Lemma mute_bind {A B} Q (t : Task Daemon A) (k : A → Task Daemon B) :
  mute (λ _, True) t → (∀ a, mute Q (k a)) → (∀ e, Q (Err e)) → Q Panic → mute Q (t ≫= k).
Proof. intros Ht Hk He Hp. apply obeys_bind. refine (obeys_mono _ _ _ _ _ _ _ _ Ht); [done|]. intros [a|e|] _; auto. Qed.
Lemma mute_on_rt {A} g (m : SM Runtime A) : mute (λ _, True) (waiting g (on_rt m)).
Proof. by apply obeys_waiting. Qed.
Definition after_hand_over (handle c : MemoryBlockHandle) (start : Z) : Task Daemon MemoryBlockHandle :=
  free_block (h_id handle) (h_lease_token handle);;
  ms ← millis_since start;
  measure_job (h_job_id handle) (λ m,
    m <| jm_tensor_migrations ::= λ x, x +w 1 |>
      <| jm_bytes_local_to_remote_ram ::= λ x, x +w h_size handle |>
      <| jm_local_to_remote_bytes ::= λ x, x +w h_size handle |>
      <| jm_network_bytes ::= λ x, x +w h_size handle |>
      <| jm_network_wait_ms ::= λ x, f64_add x ms |>
      <| jm_migration_latency_ms ::= λ x, f64_add x ms |>);;
  mret c.
Lemma mute_after handle c start : mute (λ r, ∀ x, r = Ok x → x = c) (after_hand_over handle c start).
Proof.
  unfold after_hand_over. apply mute_bind; [|intros _|done..].
  - unfold free_block. apply mute_bind; [apply mute_on_rt| |done..]. intros [p|]; [|by constructor].
    apply mute_bind; [|intros r|done..].
    + apply (obeys_caught _ _ (λ _, True)), mute_on_rt.
    + assert (mute (λ _, True) (section (modify (λ s : Runtime, s <| rt_ram ::= LocalRam.release p |>));;
        pure_step r)) as Hr by (apply mute_bind; [apply mute_on_rt|by constructor|done..]).
      destruct r; [apply mute_on_rt|exact Hr..].
  - apply mute_bind; [|intros ms|done..].
    + unfold millis_since, instant. apply mute_bind; [apply mute_on_rt|by constructor|done..].
    + apply mute_bind; [apply mute_on_rt|intros _|done..]. constructor. by intros x [= <-].
Qed.
Lemma calls_mute l : Forall (λ '(s, s'), d_calls s' = d_calls s) l → calls l = [].
Proof.
  induction l as [|[s s'] l IH]; intros H; [done|]. apply Forall_cons in H as [E H].
  change (drop (length (d_calls s)) (d_calls s') ++ calls l = []). rewrite E, drop_all. by apply IH.
Qed.

(** A list cut in two pieces, and a place in it that is not in the first. *)
Lemma cut_after {T} (P : T → Prop) (l1 l2 before after : list T) x :
  Forall P l1 → ¬ P x → l1 ++ l2 = before ++ x :: after → ∃ mid, before = l1 ++ mid ∧ l2 = mid ++ x :: after.
Proof.
  revert before. induction l1 as [|y l1 IH]; intros before Hl Hx E; [by exists before|].
  apply Forall_cons in Hl as [Hy Hl]. destruct before as [|z before]; cbn in E; injection E as -> E.
  - by destruct Hx.
  - destruct (IH before Hl Hx E) as (mid & -> & ->). by exists mid.
Qed.

End Order.

(** ** A witness *)
Import Toy Scenario.
Module Witness.
Abbreviation moving := (migrate new_v4 open_config 1 stuck ready 2 leaders).
Definition execution := run_alone moving accepting.
Lemma moved_returned : is_ok (answer execution) = true.
Proof. vm_refl. Qed.
End Witness.

