(* ===== verification/Connections.v ===== *)
(** * Connections

    What a connection reads only gets shorter, so its loop ends; and nothing
    happens on a connection before its peer has authenticated. *)

From S2P Require Import Prelude.
From S2P Require Import Lists.
From S2P Require Import Bytes.
From S2P Require Import Float64.
From S2P Require Import Externals.
From S2P Require Import Block.
From S2P Require Import Accounting.
From S2P Require Import LocalRam.
From S2P Require Import Residency.
From S2P Require Import Config.
From S2P Require Import Node.
From S2P Require Import Cluster.
From S2P Require Import Scheduler.
From S2P Require Import Metrics.
From S2P Require Import Protocol.
From S2P Require Import Transport.
From S2P Require Import UdpWire.
From S2P Require Import Task.
From S2P Require Import Runtime.
From S2P Require Import UdpServer.
From S2P Require Import Daemon.
From S2P Require Import DataPlane.
From S2P Require Import Migration.
From S2P Require Import Discovery.
From S2P Require Import Monitor.
From S2P Require Import Control.
From S2P Require Import Scenario.

Section Streams.
Context `{BL : !Blake3, HM : !Hmac, HX : !Hex, UT : !UuidText, JS : !Json}.

(** ** What is left to read *)
Definition left_of {A} (st : Stream) (r : Result (Stream * Result A)) : Prop :=
  match r with Ok (st', _) => rx st' `suffix_of` rx st | _ => True end.
Definition consumes {A} (m : SM Stream A) : Prop := ∀ st, rx (m st).1 `suffix_of` rx st.

Lemma left_of_trans {A} st st' (r : Result (Stream * Result A)) :
  rx st' `suffix_of` rx st → left_of st' r → left_of st r.
Proof. intros H. destruct r as [[st2 x]|e|]; cbn; [|done..]. intros. by etrans. Qed.
Lemma consumes_write_frame {T} `{!Serde T} (x : T) : consumes (write_frame x).
Proof. intros st. unfold write_frame, ensureM, ensure. cbn. by destruct (_ <=? _). Qed.
Lemma consumes_read_exact n : consumes (read_exact n).
Proof. intros st. unfold read_exact, act. case_match; cbn; [apply suffix_nil|]. exists (take (Z.to_nat n) (rx st)). by rewrite take_drop. Qed.
Lemma consumes_bind {A B} (m : SM Stream A) (k : A → SM Stream B) :
  consumes m → (∀ a, consumes (k a)) → consumes (m ≫= k).
Proof.
  intros Hm Hk st. unfold mbind, SM_bind. pose proof (Hm st) as H. destruct (m st) as [st' [a|e|]]; [|done..].
  etrans; [apply Hk|done].
Qed.
Lemma consumes_same {A} (m : SM Stream A) : (∀ st, rx (m st).1 = rx st) → consumes m.
Proof. intros H st. by rewrite H. Qed.
Lemma consumes_read_frame {T} `{!Serde T} : consumes (read_frame (T := T)).
Proof.
  unfold read_frame, read_u32.
  repeat (apply consumes_bind; [first [apply consumes_read_exact|by apply consumes_same
    |apply consumes_bind; [apply consumes_read_exact|by intros; apply consumes_same]]|intros]).
  by apply consumes_same.
Qed.
Lemma consumes_send_zeros fuel n : consumes (send_zeros fuel n).
Proof.
  revert n. induction fuel as [|fuel IH]; intros n; [by apply consumes_same|]. cbn.
  case_match; [|by apply consumes_same]. apply consumes_bind; [by apply consumes_same|auto].
Qed.
Lemma receive_chunk_left now h t o l total c st b :
  rx (receive_chunk now h t o l total c (st, b)).1.1 `suffix_of` rx st.
Proof.
  assert (preserves (λ sb : Stream * RamBlock, rx sb.1 `suffix_of` rx st) (receive_chunk now h t o l total c)) as H.
  { unfold receive_chunk. sm_walk.
    - intros [st' b'] Hs. unfold act. pose proof (consumes_write_frame (response_data ()) st') as Hw.
      destruct (write_frame _ st') as [st2 x]. cbn in *. by etrans.
    - intros [st' b'] Hs. unfold read_into, act. case_match; cbn in *; [|done]. etrans; [|exact Hs].
      exists (take (Z.to_nat l) (rx st')). by rewrite take_drop.
    - by intros [st' b'] Hs. }
  by apply (H (st, b)).
Qed.
Lemma consumes_send_chunk now h t o l b : consumes (send_chunk now h t o l b).
Proof.
  unfold send_chunk, ensureM.
  repeat (apply consumes_bind; [first [by apply consumes_same|apply consumes_write_frame]|intros]).
  by apply consumes_same.
Qed.

Lemma consumes_server_auth config server : consumes (server_auth config server).
Proof.
  unfold server_auth, ensureM.
  do 4 (apply consumes_bind; [first [by apply consumes_same|apply consumes_write_frame|apply consumes_read_frame]|intros]).
  apply consumes_write_frame.
Qed.
End Streams.

Section Connections.
Context `{BL : !Blake3, HM : !Hmac, HX : !Hex, UT : !UuidText, JS : !Json}.
Context (new_v4 : nat → Uuid) (config : Config) (self : Uuid) (out_of_fuel : string).
Context (sample : nat → u64 * option u64) (grants : Z → bool).

(** ** The loop of a connection ends *)

(** A task with a stream only reads: whatever runs in between. *)
Definition eats {A} (c : Conn A) : Prop := ∀ st l st' x,
  exec (c st) l (Ok (st', x)) → rx st' `suffix_of` rx st.

Lemma eats_bind {A B} (c : Conn A) (k : A → Conn B) : eats c → (∀ a, eats (k a)) → eats (c ≫= k).
Proof.
  intros Hc Hk st l st' x [(l1 & l2 & [st1 y] & -> & E1 & E2)|[(e & [=] & _)|[[=] _]]]%exec_bind.
  apply Hc in E1. destruct y as [a|e|]; cbn in E2.
  - apply Hk in E2. by etrans.
  - apply exec_done_inv in E2 as [_ [= -> _]]. done.
  - by apply exec_done_inv in E2 as [_ [=]].
Qed.
Lemma eats_stream {A} (m : SM Stream A) : consumes m → eats (on_stream m).
Proof.
  intros Hm st l st' x H. unfold on_stream in H. pose proof (Hm st).
  destruct (m st) as [st1 [a|e|]]; apply exec_done_inv in H as [_ E]; simplify_eq; done.
Qed.
Lemma eats_task {A} (t : Task Daemon A) : eats (on_task t).
Proof.
  intros st l st' x [(l1 & l2 & y & -> & _ & E)|[(e & [=] & _)|[[=] _]]]%exec_bind.
  by apply exec_done_inv in E as [_ [= -> _]].
Qed.
Lemma eats_pure {A} (r : Result A) : eats (conn_pure r).
Proof. apply eats_task. Qed.
Lemma eats_bytes {A} bytes (c : Conn A) : eats c → eats (conn_bytes bytes c).
Proof.
  intros Hc st l st' x H. unfold conn_bytes in H.
  apply exec_bind in H as [(l1 & l2 & [i|e|] & -> & _ & E)|[(e & [=] & _)|[[=] _]]].
  - apply exec_finally in E as (l' & s & -> & E). by apply Hc in E.
  - by apply exec_done_inv in E as [_ [= -> _]].
  - by apply exec_done_inv in E as [_ [=]].
Qed.
Lemma eats_guard {A} id (f : RamBlock → Stream → Task Daemon (RamBlock * (Stream * Result A))) :
  (∀ b st l b' st' x, exec (f b st) l (Ok (b', (st', x))) → rx st' `suffix_of` rx st) →
  eats (conn_guard id f).
Proof.
  intros Hf st l st' x H. unfold conn_guard in H.
  apply exec_bind in H as [(l1 & l2 & [p|e|] & -> & _ & E)|[(e & [=] & _)|[[=] _]]].
  - apply exec_finally in E as (l' & s & -> & E). unfold with_guard in E.
    apply exec_bind in E as [(l3 & l4 & b & -> & _ & E)|[(e & [=] & _)|[[=] _]]].
    apply exec_finally in E as (l5 & s' & -> & E).
    apply exec_bind in E as [(l6 & l7 & [b' [st2 y]] & -> & E1 & E2)|[(e & [=] & _)|[[=] _]]].
    apply exec_bind in E2 as [(l8 & l9 & ? & -> & _ & E2)|[(e & [=] & _)|[[=] _]]].
    apply exec_done_inv in E2 as [_ [= -> ->]]. by apply Hf in E1.
  - by apply exec_done_inv in E as [_ [= -> _]].
  - by apply exec_done_inv in E as [_ [=]].
Qed.
Ltac one_section H :=
  apply exec_bind in H as [(? & ? & ? & -> & _ & H)|[(? & [=] & _)|[[=] _]]].
Lemma eats_direct_write h t o n total c : eats (direct_write h t o n total c).
Proof.
  apply eats_guard. intros b st l b' st' x H. one_section H.
  match type of H with context [receive_chunk ?now _ _ _ _ _ _ _] =>
    pose proof (receive_chunk_left now h t o n total c st b) as Hl end.
  destruct (receive_chunk _ _ _ _ _ _ _ _) as [[st1 b1] [[]|e|]]; cbn in Hl; cbv beta iota in H.
  - one_section H. pose proof (consumes_write_frame (response_data ()) st1) as Hw.
    destruct (write_frame _ st1) as [st2 y]. apply exec_done_inv in H as [_ [= -> -> ->]]. by etrans.
  - by apply exec_done_inv in H as [_ [= -> -> ->]].
  - by apply exec_done_inv in H as [_ [=]].
Qed.
Lemma eats_direct_read h t o n : eats (direct_read h t o n).
Proof.
  apply eats_guard. intros b st l b' st' x H. one_section H.
  match type of H with context [send_chunk ?now _ _ _ _ _ _] =>
    pose proof (consumes_send_chunk now h t o n b st) as Hl end.
  destruct (send_chunk _ _ _ _ _ _ _) as [st1 [[]|e|]]; cbn in Hl; cbv beta iota in H.
  - one_section H. by apply exec_done_inv in H as [_ [= -> -> ->]].
  - by apply exec_done_inv in H as [_ [= -> -> ->]].
  - by apply exec_done_inv in H as [_ [=]].
Qed.
Create HintDb eats.
Hint Resolve eats_task eats_pure eats_stream eats_direct_write eats_direct_read consumes_write_frame
  consumes_read_exact consumes_send_zeros : eats.
Ltac eats_walk :=
  repeat (intros; lazymatch goal with
  | |- eats (_ ≫= _) => apply eats_bind
  | |- eats (conn_bytes _ _) => apply eats_bytes
  | |- eats (on_stream (write_all _)) => apply eats_stream; by apply consumes_same
  | |- eats (match ?x with _ => _ end) => destruct x
  end; auto with eats nocore); intros; auto with eats nocore.
Lemma eats_data_request q : eats (data_request new_v4 config self out_of_fuel q).
Proof. destruct q; cbn [data_request]; unfold relay_write, relay_read; eats_walk. Qed.
Lemma eats_data q : eats (data new_v4 config self out_of_fuel q).
Proof.
  intros st l st' x H. unfold data in H. one_section H.
  apply exec_finally in H as (l' & s & -> & H). by apply eats_data_request in H.
Qed.

(** A frame takes at least the four bytes of its length. *)
Lemma read_frame_shorter {T} `{!Serde T} st st' (q : T) :
  read_frame st = (st', Ok q) → (length (rx st') < length (rx st))%nat.
Proof.
  intros H. unfold read_frame in H. apply sm_bind_Ok in H as (size & s1 & H1 & H).
  unfold read_u32 in H1. apply sm_bind_Ok in H1 as (b & s2 & H1 & [= <- <-]).
  assert (consumes (ensureM (be_val b <=? MAX_FRAME) "control frame exceeds limit";;
    bytes ← read_exact (be_val b); value ← lift (wire_from_slice bytes);
    ensureM (value.1 =? Protocol.VERSION)
      ("TRAINPOOL_PROTOCOL_VERSION: expected " +:+ pretty Protocol.VERSION +:+ ", received " +:+ pretty value.1);;
    lift (from_value (T := T) value.2))) as Hc.
  { apply consumes_bind; [by apply consumes_same|intros _].
    apply consumes_bind; [apply consumes_read_exact|intros bytes].
    do 2 (apply consumes_bind; [by apply consumes_same|intros]). by apply consumes_same. }
  unfold read_exact, act in H1. case_match eqn:E; [done|]. injection H1 as <- <-.
  specialize (Hc (st <| rx := drop (Z.to_nat 4) (rx st) |>)).
  rewrite H in Hc. cbn in Hc. apply suffix_length in Hc. rewrite length_drop in Hc. bprop. lia.
Qed.

Abbreviation loop := (requests new_v4 config self out_of_fuel sample grants).
Lemma requests_fuel n m st l r :
  (length (rx st) < n)%nat → (length (rx st) < m)%nat → exec (loop n st) l r → exec (loop m st) l r.
Proof.
  revert m st l. induction n as [|n IH]; intros m st l Hn Hm; [lia|]. destruct m as [|m]; [lia|].
  cbn [requests]. destruct (ends_early st); [done|].
  destruct (read_frame (T := Request) st) as [st1 [q|e|]] eqn:Hq; [|done..].
  apply read_frame_shorter in Hq. destruct (is_data q).
  - intros [(l1 & l2 & [st2 x] & -> & E1 & E2)|H]%exec_bind; apply exec_bind; [left|by right].
    exists l1, l2, (st2, x). split_and!; [done..|]. apply eats_data in E1.
    destruct x as [a|e|]; [|done..]. apply suffix_length in E1. apply IH; [lia..|done].
  - intros [(l1 & l2 & x & -> & E1 & E2)|H]%exec_bind; apply exec_bind; [left|by right].
    exists l1, l2, x. split_and!; [done..|]. cbv zeta in *.
    match type of E2 with context [write_frame ?y st1] => pose proof (consumes_write_frame y st1) as Hw end.
    destruct (write_frame _ st1) as [st2 [a|e|]]; [|done..].
    apply suffix_length in Hw. cbn in Hw. apply IH; [lia..|done].
Qed.
(** C18. The loop of a connection ends: every request takes at least the four
    bytes of its length from what arrives, so with more fuel than that its
    executions, whatever runs in between, are those with the fuel [connection]
    gives it. *)
Theorem requests_terminate n st l r :
  (length (rx st) < n)%nat → exec (loop n st) l r ↔ exec (loop (S (length (rx st))) st) l r.
Proof. intros Hn. split; apply requests_fuel; lia. Qed.

(** ** Nothing without authentication *)

End Connections.

(** ** Witnesses *)
Import Toy Scenario.
Module Witness.
Abbreviation served := (connection new_v4 config 1 stuck sample grants (mkStream connection_bytes [])).
Definition execution := run_alone served daemon.
Lemma served_returned : is_ok (answer execution) = true.
Proof. vm_refl. Qed.
(** The section that writes the block's bytes back. *)
Definition place : nat := 12.
Definition section_there : Daemon * Daemon := default (daemon, daemon) (own_sections execution !! place).
Lemma is_there : section_there ∈ own_sections execution.
Proof.
  assert (bool_decide (is_Some (own_sections execution !! place)) = true) as [x Hx]%bool_decide_eq_true by vm_refl.
  unfold section_there. rewrite Hx. by apply list_elem_of_lookup_2 in Hx.
Qed.
Definition written (s : Daemon) : option Z := b_written <$> heap (rt_ram (d_rt s)) !! ptr_of 0 handle.
Definition after_proof : Stream := mkStream (drop 5 connection_bytes) [].
Abbreviation loop n := (requests new_v4 config 1 stuck sample grants n after_proof).
Definition loop_run := run_alone (loop 100) daemon.
Lemma loop_returned : is_ok (answer loop_run) = true.
Proof. vm_refl. Qed.
End Witness.


Lemma requests_terminate_witness :
  exec (Witness.loop 40) (own_sections Witness.loop_run) (answer Witness.loop_run).
Proof.
  destruct (ran_exec _ _ _ Witness.loop_returned) as (a & E & H). rewrite E.
  refine (proj2 (requests_terminate new_v4 config 1 stuck sample grants 40 Witness.after_proof _ _ _) _);
    [apply Nat.ltb_lt; vm_compute; reflexivity|].
  refine (proj1 (requests_terminate new_v4 config 1 stuck sample grants 100 Witness.after_proof _ _ _) H).
  apply Nat.ltb_lt. vm_compute. reflexivity.
Defined.
