(* ===== verification/Invariant.v ===== *)
(** * The invariant of a daemon

    What every atomic section of every handler keeps of the shared [Runtime]:
    the counter of memory is exact, the node is in its own view, and the bytes
    of a committed block have the digest that was committed. *)

From S2P Require Import Prelude.
From S2P Require Import Lists.
From S2P Require Import Bytes.
From S2P Require Import Float64.
From S2P Require Import Externals.
From S2P Require Import Block.
From S2P Require Import Accounting.
From S2P Require Import LocalRam.
From S2P Require Import Residency.
From S2P Require Import Config.
From S2P Require Import Node.
From S2P Require Import Cluster.
From S2P Require Import Scheduler.
From S2P Require Import Metrics.
From S2P Require Import Protocol.
From S2P Require Import Transport.
From S2P Require Import UdpWire.
From S2P Require Import Task.
From S2P Require Import Runtime.
From S2P Require Import UdpServer.
From S2P Require Import Daemon.
From S2P Require Import DataPlane.
From S2P Require Import Migration.
From S2P Require Import Discovery.
From S2P Require Import Monitor.
From S2P Require Import Control.

Section Invariant.
Context `{BL : !Blake3, HM : !Hmac, HX : !Hex, UT : !UuidText, JS : !Json, BLL : !Blake3Laws, HML : !HmacLaws}.
Context (new_v4 : nat → Uuid) (config : Config) (self : Uuid) (out_of_fuel : string).
Context (send_error : Z → SocketAddr → list byte → option string).
Context (sample : nat → u64 * option u64) (grants : Z → bool) (gpu_sample : nat → list GpuCapabilities).
Context (config_ok : valid config).
(** The size of a generation of a block: identifiers are not reused. *)
Context (size_of : Uuid → u64 → u64).

(** ** The invariant *)

(** A block and its address: consistent, and if committed, its bytes have the
    digest that was committed. *)
Record fits (p : Ptr) (b : RamBlock) : Prop := {
  f_ok : block_ok b;
  f_shape : p = ptr_of (p_serial p) (b_handle b);
  f_size : h_size (b_handle b) = size_of (h_id (b_handle b)) (h_generation (b_handle b));
  f_ready : h_state (b_handle b) = Ready → h_checksum (b_handle b) = Some (digest_of (b_bytes b));
}.
Record rinv (s : Runtime) : Prop := {
  ri_udp : udp_inv config size_of s;
  ri_member : member_inv (rt_membership s);
  ri_local : local_id (rt_membership s) = self;
  ri_fits : ∀ p b, heap (rt_ram s) !! p = Some b → fits p b;
}.
Definition dinv (s : Daemon) : Prop := rinv (d_rt s).

Lemma rinv_wf s : rinv s → wf ∅ (live_bytes s) (rt_ram s).
Proof. intros Hs. apply (rw_ram _ (ui_wf _ _ _ (ri_udp _ Hs))). Qed.
Lemma rinv_self s : rinv s → ∃ p, peers (rt_membership s) !! self = Some p.
Proof. intros Hs. rewrite <-(ri_local _ Hs). apply (mi_local _ (ri_member _ Hs)). Qed.

(** Changes of other parts of the state. *)
Lemma rinv_eq s s' :
  rt_ram s' = rt_ram s → rt_live s' = rt_live s → rt_next_reservation s' = rt_next_reservation s →
  rt_incoming s' = rt_incoming s → rt_active_reads s' = rt_active_reads s →
  rt_membership s' = rt_membership s → rinv s → rinv s'.
Proof.
  intros E1 E2 E3 E4 E5 E6 [I1 I2 I3 I4]. split; rewrite ?E1, ?E6; try done.
  by apply (udp_inv_eq _ _ s).
Qed.

(** A new store. *)
Lemma rinv_ram s r :
  wf ∅ (live_bytes s) r → (∀ q b, heap r !! q = Some b → fits q b) → rinv s → rinv (s <| rt_ram := r |>).
Proof.
  intros Hr Hf [[I1 I2 I3 I4 I5] J2 J3 J4]. split; [|done..]. split; try done.
  - destruct I1. by split.
  - intros p b Hb. apply (f_size _ _ (Hf p b Hb)).
Qed.
Lemma rinv_heap s r :
  wf ∅ (live_bytes s) r → (∀ q b, heap r !! q = Some b → heap (rt_ram s) !! q = Some b) →
  rinv s → rinv (s <| rt_ram := r |>).
Proof. intros Hr Hsub Hs. apply rinv_ram; [done| |done]. intros q b Hb. by apply (ri_fits _ Hs), Hsub. Qed.

Lemma rinv_release p s : rinv s → rinv (s <| rt_ram ::= release p |>).
Proof.
  intros Hs. apply (rinv_heap s (release p (rt_ram s))); [| |done].
  - apply release_wf. eapply wf_mono; [apply empty_subseteq|by apply rinv_wf].
  - intros q b Hb. by apply reclaim_heap in Hb.
Qed.
Lemma rinv_locked f s : rinv s → rinv (s <| rt_ram ::= set locked f |>).
Proof.
  intros Hs. apply (rinv_heap s ((rt_ram s) <| locked ::= f |>)); [|done|done].
  destruct (rinv_wf s Hs). by split.
Qed.
Lemma rinv_drop i s : rinv s → rinv (drop_bytes i s).
Proof.
  intros [I1 I2 I3 I4]. destruct (drop_bytes_frame i s) as (E1 & _).
  split; rewrite ?drop_bytes_membership, ?E1; try done. by apply udp_inv_drop.
Qed.
Lemma rinv_free_remove id p s : rinv s → rinv (s <| rt_ram ::= free_remove id p |>).
Proof.
  intros Hs. apply (rinv_heap s (free_remove id p (rt_ram s))); [by apply free_remove_wf, rinv_wf| |done].
  intros q b Hb. unfold free_remove in Hb. apply reclaim_heap in Hb. by case_bool_decide.
Qed.
Lemma reclaim_fold_heap ps s q b : heap (foldr reclaim s ps) !! q = Some b → heap s !! q = Some b.
Proof. induction ps as [|p ps IH]; cbn; [done|]. intros Hb. by apply IH, (reclaim_heap p). Qed.
Lemma rinv_expire now s : rinv s → rinv (s <| rt_ram ::= LocalRam.expire now |>).
Proof.
  intros Hs. apply (rinv_heap s (LocalRam.expire now (rt_ram s))); [by apply expire_wf, rinv_wf| |done].
  intros q b Hb. unfold LocalRam.expire in Hb. by apply reclaim_fold_heap in Hb.
Qed.
Lemma rinv_acquire p s :
  is_Some (heap (rt_ram s) !! p) → rinv s → rinv (s <| rt_ram ::= acquire p |>).
Proof.
  intros Hp Hs. apply (rinv_heap s (acquire p (rt_ram s))); [|done|done].
  apply acquire_wf; [done|by apply rinv_wf].
Qed.
Lemma rinv_mapped id p s : blocks (rt_ram s) !! id = Some p → rinv s → is_Some (heap (rt_ram s) !! p).
Proof. intros Hp Hs. destruct (wf_blocks _ _ _ (rinv_wf s Hs) _ _ Hp) as (b & -> & _). done. Qed.

Lemma rinv_reserve bytes : is_u64 bytes → preserves rinv (reserve_bytes bytes).
Proof.
  intros Hb s [I1 I2 I3 I4]. pose proof (reserve_bytes_wf bytes s Hb (ui_wf _ _ _ I1)) as Hw.
  unfold reserve_bytes, act in *. destruct (reserve bytes _) as [a [r|e|]]; cbn [fst] in *; [|by split..].
  destruct I1 as [J1 J2 J3 J4 J5]. split; [|done..]. by split.
Qed.

(** A block that is allocated. *)
Lemma rinv_allocate ok h :
  is_u64 (h_size h) → h_size h = size_of (h_id h) (h_generation h) → h_state h = Writing →
  preserves rinv (on_ram (allocate ok h)).
Proof.
  intros Hu Hsz Hst s Hs. apply (rinv_ram s (allocate ok h (rt_ram s)).1); [|intros q b|done].
  - by apply allocate_wf, rinv_wf.
  - pose proof (ri_fits _ Hs q b) as Hf. unfold allocate.
    destruct (blocks (rt_ram s) !! h_id h); [done|]. case_bool_decide; [done|].
    destruct (reserve_payload _ _ _) as [a [r|e|]] eqn:E; [|done..]. destruct ok; [|done]. cbn.
    rewrite lookup_insert. case_decide as Hq; [|done]. intros [= <-]. subst q.
    pose proof (wf_ext _ _ _ (rinv_wf s Hs)) as [_ Hou].
    apply reserve_payload_Ok in E as (-> & _); [|apply Hou|apply Hu].
    split; [by apply new_block_ok|done|done|]. cbn. congruence.
Qed.

(** A block that is changed. *)
Lemma rinv_write p f s :
  (∀ b, heap (rt_ram s) !! p = Some b → fits p b → fits p (f b)) →
  rinv s → rinv (s <| rt_ram ::= update_block p f |>).
Proof.
  intros Hf Hs. apply (rinv_ram s (update_block p f (rt_ram s))); [| |done].
  - apply update_block_wf; [|by apply rinv_wf]. intros b Hb _.
    pose proof (ri_fits _ Hs _ _ Hb) as Hb'. pose proof (Hf b Hb Hb') as Hb2.
    split; [apply Hb2|]. intros n. pose proof (f_shape _ _ Hb') as E1. rewrite (f_shape _ _ Hb2) in E1.
    unfold ptr_of in *. injection E1 as -> -> -> -> ->. done.
  - intros q b. cbn. rewrite lookup_alter. case_decide as Hq; [subst q|apply (ri_fits _ Hs)].
    intros (b0 & Hb0 & ->)%fmap_Some. apply Hf; [done|]. by apply (ri_fits _ Hs).
Qed.

(** The membership. *)
Lemma rinv_members m s :
  member_inv m → local_id m = self → rinv s → rinv (s <| rt_membership := m |>).
Proof. intros Hm Hl [I1 I2 I3 I4]. split; try done. by apply (udp_inv_eq _ _ s). Qed.
Lemma rinv_member_step s m :
  member_step (rt_membership s) m → local_id m = local_id (rt_membership s) →
  rinv s → rinv (s <| rt_membership := m |>).
Proof.
  intros Hm Hl Hs. apply rinv_members; [|by rewrite Hl, (ri_local _ Hs)|done].
  eapply member_step_inv; [done|apply Hs].
Qed.
Lemma rinv_update now c s : rinv s → rinv (s <| rt_membership ::= Cluster.update now c |>).
Proof. intros Hs. apply (rinv_member_step s (Cluster.update now c (rt_membership s))); [constructor|done|done]. Qed.
Lemma rinv_peer_mut id f s :
  (∀ n, node_id (f n) = node_id n) → rinv s → rinv (s <| rt_membership ::= peer_mut id f |>).
Proof. intros Hf Hs. apply (rinv_member_step s (peer_mut id f (rt_membership s))); [by constructor|done|done]. Qed.
Lemma rinv_budget v s : rinv s → rinv (s <| rt_ram ::= set accounting (set budget (λ _, v)) |>).
Proof.
  intros Hs. apply (rinv_heap s ((rt_ram s) <| accounting ::= set budget (λ _, v) |>)); [|done|done].
  apply (wf_accounting ∅ _ (rt_ram s) ((accounting (rt_ram s)) <| budget := v |>)); [by apply rinv_wf|done..].
Qed.
Lemma rinv_refresh free s : rinv s → rinv (refresh_local config self free s).
Proof.
  intros Hs. unfold refresh_local. cbv zeta. set (f := λ n : NodeCapabilities, refresh_memory _ _ _ _ _).
  pose proof (rinv_peer_mut self f s ltac:(done) Hs) as Hs'.
  case_match; [|done]. by apply (rinv_budget _ (s <| rt_membership ::= peer_mut self f |>)).
Qed.

(** ** Sections under the mutex of a block *)

Lemma fits_append p b transfer data l :
  fits p b → h_state (b_handle b) = Writing → splice (b_written b) data (b_bytes b) = Some l →
  fits p (append_bytes transfer (b_written b) data b).
Proof.
  intros [F1 F2 F3 F4] Hst Hl. split; [|done|done|cbn; congruence].
  apply append_bytes_guarded; [done|]. unfold splice in Hl. case_match eqn:E; [|done]. bprop.
  pose proof (ok_bytes _ F1). lia.
Qed.
Lemma fits_handle p b f :
  (∀ n, ptr_of n (f (b_handle b)) = ptr_of n (b_handle b)) →
  (h_state (f (b_handle b)) = Ready → h_checksum (f (b_handle b)) = Some (digest_of (b_bytes b))) →
  fits p b → fits p (b <| b_handle ::= f |>).
Proof.
  intros Hf Hr [F1 F2 F3 F4]. pose proof (Hf 0) as E. injection E as E1 E2 E3 E4 E5.
  split; cbn; [|by rewrite Hf|by rewrite E1, E3, E4|done].
  destruct F1. split; cbn; rewrite ?E3, ?E2; done.
Qed.

(** A section that waits for the mutex of [p] and finds its block. *)
Lemma block_section {A} p (m : RamBlock → SM Runtime A) s :
  unlocked p s = true → rinv s → (∀ b, heap (rt_ram s) !! p = Some b → fits p b → rinv (m b s).1) →
  rinv ((b ← block_at p; m b) s).1.
Proof.
  intros Hg Hs Hm. unfold mbind, SM_bind, block_at, act.
  destruct (heap (rt_ram s) !! p) as [b|] eqn:Hb; [|done]. cbn [unwrap]. apply Hm; [done|].
  by apply (ri_fits _ Hs).
Qed.
(** Checks that come before a change. *)
Lemma checked_step {S A B} (I : S → Prop) (r : Result A) (k : A → SM S B) s :
  I s → (∀ a, r = Ok a → I (k a s).1) → I ((lift r ≫= k) s).1.
Proof. intros Hs Hk. unfold mbind, SM_bind, lift. destruct r; [by apply Hk|done..]. Qed.

Lemma rinv_local_write h transfer offset payload p s :
  unlocked p s = true → rinv s → rinv (local_write h transfer offset payload p s).1.
Proof.
  intros Hg Hs. apply block_section; [done..|]. intros b Hb Hf. cbn.
  apply (checked_step rinv); [done|]. intros _ _. apply (checked_step rinv); [done|]. intros _ Hc%ensure_Ok.
  apply (checked_step rinv); [done|]. intros l Hl%unwrap_Ok. bprop.
  apply rinv_write; [|done]. intros b' Hb' _. assert (b' = b) as -> by congruence.
  subst offset. by eapply fits_append.
Qed.
Lemma rinv_publish handle p s :
  unlocked p s = true → rinv s → rinv (publish_section handle p s).1.
Proof.
  intros Hg Hs. apply block_section; [done..|]. intros b Hb Hf. cbn.
  apply (checked_step rinv); [done|]. intros _ _. apply (checked_step rinv); [done|]. intros _ _.
  apply rinv_write; [|done]. intros b' _ [[] F2 F3 F4]. by split; [split|..].
Qed.
Lemma rinv_renew handle p s :
  unlocked p s = true → rinv s → rinv (renew_section config handle p s).1.
Proof.
  intros Hg Hs. apply block_section; [done..|]. intros b Hb Hf. cbn.
  apply (checked_step rinv); [done|]. intros _ _. cbn.
  apply rinv_write; [|done]. intros b' _ Hf'. apply fits_handle; [done| |done]. apply Hf'.
Qed.

(** A commit: the digest of the running hash is the digest of all the bytes. *)
Lemma finalize_digest b :
  block_ok b → b_written b = zlen (b_bytes b) → hasher_finalize (b_hash b) = blake3_hash (b_bytes b).
Proof.
  intros [_ _ _ _ (cs & -> & Hj)] Hw. rewrite hasher_finalize_updates, Hj. f_equal.
  rewrite Hw. apply take_ge. lia.
Qed.
Lemma rinv_commit handle checksum p s :
  unlocked p s = true → rinv s → rinv (commit_section handle checksum p s).1.
Proof.
  intros Hg Hs. apply block_section; [done..|]. intros b Hb Hf. cbn.
  apply (checked_step rinv); [done|]. intros _ _. apply (checked_step rinv); [done|]. intros _ Hw%ensure_Ok.
  apply (checked_step rinv); [done|]. intros _ Hc%ensure_Ok. bprop.
  apply rinv_write; [|done]. intros b' Hb' Hf'. assert (b' = b) as -> by congruence.
  apply fits_handle; [done| |done]. cbn. intros _. rewrite <-Hc, (finalize_digest b); [done|apply Hf|done].
Qed.

(** What arrives under the guard of a direct write. *)
Lemma fits_bytes p b l :
  length l = length (b_bytes b) → h_state (b_handle b) = Writing →
  take (Z.to_nat (b_written b)) l = take (Z.to_nat (b_written b)) (b_bytes b) →
  fits p b → fits p (b <| b_bytes := l |>).
Proof.
  intros Hl Hst Ht [[O1 O2 O3 O4 (cs & O5 & O6)] F2 F3 F4].
  split; [|done|done|cbn; congruence]. split; cbn; try done; [lia|].
  exists cs. split; [done|]. by rewrite Ht.
Qed.
(** A piece of the buffer beyond what is written. *)
Lemma fits_splice p b l data :
  h_state (b_handle b) = Writing → splice (b_written b) data (b_bytes b) = Some l →
  fits p b → fits p (b <| b_bytes := l |>).
Proof.
  intros Hst Hl Hf. pose proof (ok_written _ (f_ok _ _ Hf)). apply fits_bytes; try done.
  - by eapply splice_length.
  - unfold splice in Hl. case_match eqn:E; [|done]. injection Hl as <-. bprop.
    rewrite take_app_le; [by rewrite take_take, Nat.min_id|]. rewrite length_take. lia.
Qed.
(** Counting a piece that is in the buffer already. *)
Lemma fits_count p b transfer length bytes :
  h_state (b_handle b) = Writing → slice (b_written b) (b_written b + length) (b_bytes b) = Some bytes →
  fits p b →
  fits p (b <| b_hash ::= λ h, hasher_update h bytes |> <| b_transfer_id := Some transfer |>
            <| b_written := b_written b + length |>).
Proof.
  intros Hst Hb [[O1 O2 O3 O4 (cs & O5 & O6)] F2 F3 F4].
  unfold slice in Hb. case_match eqn:E; [|done]. injection Hb as <-. bprop.
  split; [|done|done|cbn; congruence]. split; cbn; try done; [lia|].
  eexists (cs ++ [_]). rewrite fold_left_app, <-O5. split; [done|].
  rewrite join_app, O6. cbn. rewrite app_nil_r.
  replace (Z.to_nat (b_written b + length - b_written b)) with (Z.to_nat length) by lia.
  rewrite take_take_drop. f_equal. lia.
Qed.

Lemma receive_chunk_fits now handle transfer offset length total checksum p b st :
  fits p b → fits p (receive_chunk now handle transfer offset length total checksum (st, b)).1.2.
Proof.
  intros Hf. unfold receive_chunk. unfold gets at 1, mbind at 1, SM_bind at 1. cbn [snd].
  set (I := λ sb : Stream * RamBlock, fits p sb.2). change (I (st, b)) in Hf.
  match goal with |- fits p (snd ?x) => change (I x) end.
  apply (checked_step I); [done|]. intros _ _. apply (checked_step I); [done|]. intros _ H1%ensure_Ok.
  apply (checked_step I); [done|]. intros _ H2%ensure_Ok. apply (checked_step I); [done|]. intros _ _. bprop.
  unfold act at 1, mbind at 1, SM_bind at 1.
  destruct (write_frame (response_data ()) st) as [st1 [[]|e|]]; [|exact Hf..].
  unfold mbind at 1, SM_bind at 1, read_into, act at 1. subst offset. cbn [snd] in *.
  destruct (slice (b_written b) (b_written b + length) (b_bytes b)) as [old|] eqn:Hs; [|exact Hf].
  set (came := take _ _). set (b1 := b <| b_bytes ::= _ |>).
  assert (fits p b1) as Hf1.
  { unfold slice in Hs. case_match eqn:E; [|done]. bprop. clear Hs.
    destruct (splice_is_Some (b_written b) came (b_bytes b)) as [l Hl]; [lia| |].
    - unfold came. rewrite length_take. lia.
    - unfold b1. assert (b <| b_bytes ::= λ old, default old (splice (b_written b) came old) |>
        = b <| b_bytes := l |>) as -> by (unfold set; cbn; by rewrite Hl).
      by eapply fits_splice. }
  destruct (zlen (rx st1) <? length); [exact Hf1|].
  unfold mbind at 1, SM_bind at 1. cbn [snd].
  apply (checked_step I); [done|]. intros bytes Hb%unwrap_Ok. apply (checked_step I); [done|]. intros _ _.
  by apply (fits_count p b1).
Qed.

(** ** Sections of the other handlers *)

(** A section that leaves everything the invariant reads. *)
Ltac frame := intros s Hs; by apply (rinv_eq s).

Lemma rinv_unstage id s : rinv s → rinv (unstage id s).
Proof.
  intros Hs. unfold unstage. destruct (rt_staging s !! id) as [[i ?]|]; [|done].
  apply rinv_drop. by apply (rinv_eq s).
Qed.
Lemma rinv_stage id i deadline s : rinv s → rinv (stage id i deadline s).
Proof.
  intros Hs. unfold stage. cbv zeta. destruct (rt_staging s !! id) as [[j ?]|]; [apply rinv_drop|];
    by apply (rinv_eq s).
Qed.
Lemma rinv_expire_staging s : rinv s → rinv (expire_staging s).
Proof.
  intros Hs. unfold expire_staging. cbv zeta.
  induction (filter _ (map_to_list (rt_staging s))) as [|x l IH]; cbn; [by apply (rinv_eq s)|by apply rinv_drop].
Qed.
Lemma rinv_lose id e s : rinv s → rinv (lose id e s).
Proof. intros Hs. unfold lose. case_match. by apply (rinv_eq s). Qed.
Lemma rinv_register_inventory node hs : preserves rinv (register_inventory node hs).
Proof.
  induction hs as [|h hs IH]; cbn; sm_walk; [frame|done].
Qed.
Lemma rinv_lose_dead s : rinv s →
  rinv (let (members, dead) := Cluster.expire (rt_clock s) (rt_membership s) in
    foldl (λ s id, lose id ("TRAINPOOL_DATA_LOST: data stored exclusively on node " +:+ uuid_str id) s)
      (s <| rt_membership := members |>) dead).
Proof.
  intros Hs. pose proof (member_expire (rt_clock s) (rt_membership s)) as Hm.
  assert (local_id (Cluster.expire (rt_clock s) (rt_membership s)).1 = local_id (rt_membership s)) as Hl
    by apply foldl_delete_local.
  destruct (Cluster.expire (rt_clock s) (rt_membership s)) as [members dead]. cbn in Hm, Hl.
  generalize (rinv_member_step s members Hm Hl Hs). generalize (s <| rt_membership := members |>).
  induction dead as [|d dead IH]; intros s' Hs'; cbn; [done|]. by apply IH, rinv_lose.
Qed.
Lemma rinv_clone id : preserves rinv (on_ram (clone_block id)).
Proof.
  intros s Hs. unfold on_ram, act, clone_block, act. cbn.
  destruct (blocks (rt_ram s) !! id) as [p|] eqn:Hp; cbn; [|by apply (rinv_eq s)].
  apply (rinv_acquire p s); [by apply (rinv_mapped id)|done].
Qed.
Lemma rinv_get id : preserves rinv (on_ram (get id)).
Proof.
  intros s Hs. unfold on_ram, act, get, act. cbn.
  destruct (blocks (rt_ram s) !! id) as [p|] eqn:Hp; cbn; [|by apply (rinv_eq s)].
  apply (rinv_acquire p s); [by apply (rinv_mapped id)|done].
Qed.
Lemma rinv_check_token token p : preserves rinv (check_token token p).
Proof. apply preserves_bind; [by intros ? ?|]. intros b. apply preserves_lift. Qed.
Lemma rinv_local_read h offset length p : preserves rinv (local_read h offset length p).
Proof. unfold local_read. sm_walk. by intros ? ?. Qed.
Lemma rinv_register_block h previous : preserves rinv (register_block h previous).
Proof. unfold register_block. sm_walk. all: frame. Qed.

(** What a datagram may do. *)
Lemma rinv_server s s' :
  rinv s → udp_inv config size_of s' → server_step config s s' → rinv s'.
Proof.
  intros [I1 I2 I3 I4] Hu [[_ Em] Hb]. split; rewrite ?Em; try done.
  intros q b' Hq. destruct (Hb q b' Hq) as (b & Hq' & [->|(d & p & _ & data & _ & _ & _ & _ & Hw & _ & Hd & Hz & ->)]);
    [by apply I4|]. specialize (I4 q b Hq').
  destruct (splice_is_Some (b_written b) data (b_bytes b)) as [l E].
  - apply (ok_written _ (f_ok _ _ I4)).
  - rewrite (ok_bytes _ (f_ok _ _ I4)). lia.
  - by eapply fits_append.
Qed.
End Invariant.
