(* ===== verification/Safety.v ===== *)
(** * A daemon is safe under every schedule

    The handlers of datagrams, connections, heartbeats and losses run
    interleaved on one [Runtime]. Whatever arrives and whatever the other nodes
    answer, they keep the invariant of [Invariant.v]. *)

From S2P Require Import Prelude.
From S2P Require Import Lists.
From S2P Require Import Bytes.
From S2P Require Import Float64.
From S2P Require Import Externals.
From S2P Require Import Block.
From S2P Require Import Accounting.
From S2P Require Import LocalRam.
From S2P Require Import Residency.
From S2P Require Import Config.
From S2P Require Import Node.
From S2P Require Import Cluster.
From S2P Require Import Scheduler.
From S2P Require Import Metrics.
From S2P Require Import Protocol.
From S2P Require Import Transport.
From S2P Require Import UdpWire.
From S2P Require Import Task.
From S2P Require Import Runtime.
From S2P Require Import UdpServer.
From S2P Require Import Daemon.
From S2P Require Import DataPlane.
From S2P Require Import Migration.
From S2P Require Import Discovery.
From S2P Require Import Monitor.
From S2P Require Import Control.
From S2P Require Import Scenario.
From S2P Require Import Connections.
From S2P Require Import Invariant.

Section Safety.
Context `{BL : !Blake3, HM : !Hmac, HX : !Hex, UT : !UuidText, JS : !Json, BLL : !Blake3Laws, HML : !HmacLaws}.
Context (new_v4 : nat → Uuid) (config : Config) (self : Uuid) (out_of_fuel : string).
Context (send_error : Z → SocketAddr → list byte → option string).
Context (sample : nat → u64 * option u64) (grants : Z → bool) (gpu_sample : nat → list GpuCapabilities).
Context (config_ok : valid config).
Context (size_of : Uuid → u64 → u64).

Abbreviation rinv := (Invariant.rinv config self size_of).
Abbreviation dinv := (Invariant.dinv config self size_of).
Abbreviation fits := (Invariant.fits size_of).

(** [keeps Q t]: the sections of [t] keep the invariant and its result
    satisfies [Q]; [safe t]: any result. *)
Abbreviation keeps := (obeys dinv (λ _ _, True)).
Definition safe {A} (t : Task Daemon A) : Prop := keeps (λ _, True) t.

(** ** Rules *)

Lemma keeps_bind {A B} (P : A → Prop) Q (t : Task Daemon A) (k : A → Task Daemon B) :
  keeps (λ r, match r with Ok a => P a | Err e => Q (Err e) | Panic => Q Panic end) t →
  (∀ a, P a → keeps Q (k a)) → keeps Q (t ≫= k).
Proof. intros Ht Hk. apply obeys_bind. eapply obeys_mono; [done| |exact Ht]. intros [a|e|]; [apply Hk|done..]. Qed.
Lemma keeps_weaken {A} (Q Q' : Result A → Prop) t : keeps Q t → (∀ r, Q r → Q' r) → keeps Q' t.
Proof. intros Ht HQ. eapply obeys_mono; [done|exact HQ|exact Ht]. Qed.
Lemma safe_bind {A B} (t : Task Daemon A) (k : A → Task Daemon B) :
  safe t → (∀ a, safe (k a)) → safe (t ≫= k).
Proof. intros Ht Hk. eapply (keeps_bind (λ _, True)); [|intros a _; apply Hk]. eapply keeps_weaken; [exact Ht|]. by intros []. Qed.
Lemma safe_ret {A} (a : A) : safe (mret a).
Proof. by constructor. Qed.
Lemma safe_pure {A} (r : Result A) : safe (pure_step r).
Proof. by constructor. Qed.
Lemma safe_caught {A} (t : Task Daemon A) : safe t → safe (caught t).
Proof. intros Ht. apply (obeys_caught _ _ (λ _, True)). exact Ht. Qed.
Lemma keeps_finally {A} m Q (t : Task Daemon A) : (∀ s, dinv s → dinv (m s)) → keeps Q t → keeps Q (finally m t).
Proof. intros Hm. apply obeys_finally. auto. Qed.
Lemma safe_atomically {A} (m : SM Daemon A) : preserves dinv m → safe (atomically m).
Proof. intros Hm. apply obeys_atomically. auto. Qed.
Lemma safe_section {A} (m : SM Runtime A) : preserves rinv m → safe (section m).
Proof. intros Hm. apply safe_atomically. intros s Hs. apply Hm, Hs. Qed.
Lemma safe_reading {A} (f : Runtime → A) : safe (section (gets f)).
Proof. apply safe_section, preserves_gets. Qed.
(** Sections that do not touch what the invariant reads. *)
Lemma safe_frame {A} (m : SM Runtime A) :
  (∀ s, (rt_ram (m s).1 = rt_ram s ∧ rt_live (m s).1 = rt_live s ∧ rt_next_reservation (m s).1 = rt_next_reservation s)
     ∧ rt_incoming (m s).1 = rt_incoming s ∧ rt_active_reads (m s).1 = rt_active_reads s
     ∧ rt_membership (m s).1 = rt_membership s) → safe (section m).
Proof. intros H. apply safe_section. intros s Hs. destruct (H s) as ((? & ? & ?) & ? & ? & ?). by apply (rinv_eq _ _ _ s). Qed.
Lemma safe_same {A} (m : SM Daemon A) : (∀ s, d_rt (m s).1 = d_rt s) → safe (atomically m).
Proof. intros H. apply safe_atomically. intros s Hs. unfold Invariant.dinv. by rewrite H. Qed.
(** A section that waits for the mutex of a block. *)
Lemma safe_wait {A} p (m : SM Runtime A) :
  (∀ s, unlocked p s = true → rinv s → rinv (m s).1) → safe (waiting (λ s, unlocked p (d_rt s)) (on_rt m)).
Proof. intros Hm. apply obeys_waiting. intros s Hs Hg. split; [by apply Hm|done]. Qed.

Create HintDb daemon.
#[local] Hint Resolve safe_ret safe_pure safe_reading : daemon.

(** From a task to its sections. *)
Ltac safe_walk :=
  repeat (intros; lazymatch goal with
  | |- safe (_ ≫= _) => apply safe_bind
  | |- safe (mret _) => apply safe_ret
  | |- safe (pure_step _) => apply safe_pure
  | |- safe (caught _) => apply safe_caught
  | |- safe (section (gets _)) => apply safe_reading
  | |- safe (let x := _ in _) => cbv zeta
  | |- safe (match ?x with _ => _ end) => destruct x
  end; auto with daemon nocore); intros; auto with daemon nocore.

(** ** The environment *)

Lemma safe_call a r : safe (call a r).
Proof. by apply safe_same. Qed.
Lemma safe_bind_socket : safe bind_socket.
Proof. by apply safe_same. Qed.
Lemma safe_open_stream : safe open_stream.
Proof. by apply safe_same. Qed.
Lemma safe_uuid : safe (fresh_uuid new_v4).
Proof. by apply safe_same. Qed.
Lemma safe_measure_job id f : safe (measure_job id f).
Proof. by apply safe_frame. Qed.
Hint Resolve safe_call safe_bind_socket safe_open_stream safe_uuid safe_measure_job : daemon.

Lemma safe_now : safe now_ms.
Proof. apply safe_reading. Qed.
Lemma safe_instant : safe instant.
Proof. apply safe_reading. Qed.
Hint Resolve safe_now safe_instant : daemon.
Lemma safe_millis start : safe (millis_since start).
Proof. unfold millis_since. safe_walk. Qed.
Lemma safe_leadership : safe leadership.
Proof. apply safe_reading. Qed.
Lemma safe_address id : safe (address id).
Proof. by apply safe_frame. Qed.
Hint Resolve safe_millis safe_leadership safe_address : daemon.
Lemma safe_leader_address : safe leader_address.
Proof. unfold leader_address. safe_walk. Qed.
Lemma safe_validate l : safe (validate_leadership l).
Proof. unfold validate_leadership. safe_walk. Qed.
Hint Resolve safe_leader_address safe_validate : daemon.
Lemma safe_forward r : safe (forward_leader r).
Proof. unfold forward_leader. safe_walk. Qed.
Lemma safe_checked r : safe (checked r).
Proof. unfold checked. safe_walk. Qed.
Lemma safe_data_of {T} `{!Serde T} r : safe (data_of (T := T) r).
Proof. unfold data_of. safe_walk. Qed.
Hint Resolve safe_forward safe_checked safe_data_of : daemon.

(** The node is in its own view: reading itself does not panic. *)
Lemma keeps_local : keeps no_panic (local self).
Proof.
  apply obeys_atomically. intros s Hs. split; [by apply (rinv_eq _ _ _ (d_rt s))|]. split; [done|]. cbn.
  by destruct (rinv_self _ _ _ _ Hs) as [p ->].
Qed.
Lemma safe_local : safe (local self).
Proof. by apply (keeps_weaken no_panic); [apply keeps_local|]. Qed.
Lemma keeps_refresh : keeps no_panic (refresh config self sample).
Proof.
  apply obeys_atomically. intros s Hs. unfold act. destruct (rinv_self _ _ _ _ Hs) as [p ->].
  split; [by apply rinv_refresh|done].
Qed.
Lemma safe_refresh : safe (refresh config self sample).
Proof. by apply (keeps_weaken no_panic); [apply keeps_refresh|]. Qed.
Hint Resolve safe_local safe_refresh : daemon.

(** ** Blocks and reservations *)

Lemma dinv_release p s : dinv s → dinv (s <| d_rt ::= set rt_ram (release p) |>).
Proof. intros Hs. by apply (rinv_release _ _ _ p (d_rt s)). Qed.
Lemma dinv_drop i s : dinv s → dinv (s <| d_rt ::= drop_bytes i |>).
Proof. intros Hs. by apply (rinv_drop _ _ _ i (d_rt s)). Qed.
Lemma safe_get id : safe (section (on_ram (get id))).
Proof. apply safe_section, rinv_get. Qed.
Lemma safe_with_arc {A} id (f : Ptr → Task Daemon A) : (∀ p, safe (f p)) → safe (with_arc id f).
Proof.
  intros Hf. unfold with_arc. apply safe_bind; [apply safe_get|]. intros p.
  apply keeps_finally; [apply dinv_release|apply Hf].
Qed.
(** What was done under the guard of a block fits the block. *)
Lemma keeps_guard {A} (Q : Result A → Prop) p (f : RamBlock → Task Daemon (RamBlock * A)) :
  (∀ b, fits p b → keeps (λ r, match r with
     Ok (b', a) => fits p b' ∧ Q (Ok a) | Err e => Q (Err e) | Panic => Q Panic end) (f b)) →
  keeps Q (with_guard p f).
Proof.
  intros Hf. unfold with_guard. eapply (keeps_bind (fits p)).
  - apply obeys_waiting. intros s Hs Hg. unfold unlocked in Hg. bprop.
    unfold on_rt, act, mbind, SM_bind, block_at, act.
    destruct (heap (rt_ram (d_rt s)) !! p) as [b|] eqn:Hb; [|by destruct H0].
    split; [by apply rinv_locked|]. split; [done|]. by apply (ri_fits _ _ _ _ Hs).
  - intros b Hb. apply keeps_finally; [intros s; apply rinv_locked|].
    eapply (keeps_bind (λ '(b', a), fits p b' ∧ Q (Ok a))).
    + eapply keeps_weaken; [by apply Hf|]. by intros [[b' a]|e|].
    + intros [b' a] [Hb' HQ]. eapply (keeps_bind (λ _, True)); [|intros _ _; by constructor].
      apply obeys_atomically. intros s Hs. split; [|done]. by apply rinv_write.
Qed.
Lemma keeps_bytes {A} Q bytes (f : Task Daemon A) :
  is_u64 bytes → (∀ e, Q (Err e)) → Q Panic → keeps Q f → keeps Q (with_bytes bytes f).
Proof.
  intros Hb He Hp Hf. unfold with_bytes. eapply (keeps_bind (λ _, True)).
  - apply obeys_atomically. intros s Hs. split; [by apply rinv_reserve|]. split; [done|].
    destruct (_).2; auto.
  - intros i _. by apply keeps_finally; [apply dinv_drop|].
Qed.
Hint Resolve safe_get : daemon.

(** ** The data plane *)

Lemma safe_resolve h : safe (resolve h).
Proof. unfold resolve. safe_walk. Qed.
Lemma safe_peer_capabilities id : safe (peer_capabilities id).
Proof. by apply safe_frame. Qed.
Hint Resolve safe_resolve safe_peer_capabilities : daemon.
Lemma safe_connect : safe (connect new_v4 config).
Proof. unfold connect. safe_walk. Qed.
Hint Resolve safe_connect : daemon.
Lemma safe_acquire_tcp a : safe (acquire_tcp_data new_v4 config a).
Proof.
  unfold acquire_tcp_data. apply safe_bind; [|safe_walk]. apply safe_same. intros s. unfold act. by case_match.
Qed.
Lemma safe_release_tcp a st : safe (release_tcp_data a st).
Proof. by apply safe_same. Qed.
Hint Resolve safe_acquire_tcp safe_release_tcp : daemon.
Lemma safe_tcp_chunk {A} a job (m : SM Stream A) : safe (tcp_chunk new_v4 config a job m).
Proof. unfold tcp_chunk. safe_walk. Qed.
Lemma safe_udp_write a h t o p : safe (udp_write config out_of_fuel a h t o p).
Proof. unfold udp_write. safe_walk. Qed.
Lemma safe_udp_read a h t o l : safe (udp_read config out_of_fuel a h t o l).
Proof. unfold udp_read. safe_walk. Qed.
Lemma safe_track {A} job (t : Task Daemon (A * TransferStats)) : safe t → safe (track_udp_transfer job t).
Proof. intros Ht. unfold track_udp_transfer. safe_walk. Qed.
Hint Resolve safe_tcp_chunk safe_udp_write safe_udp_read safe_track : daemon.
Lemma safe_forward_write h t o p : safe (forward_write new_v4 config out_of_fuel h t o p).
Proof. unfold forward_write, tcp_write_chunk. safe_walk. Qed.
Lemma safe_forward_read start h t o l : safe (forward_read new_v4 config out_of_fuel start h t o l).
Proof. unfold forward_read, tcp_read_chunk. safe_walk. Qed.
Hint Resolve safe_forward_write safe_forward_read : daemon.

(** A task with a stream: safe, and what is left to read is a part of what
    there was. *)
Definition csafe {A} (c : Conn A) : Prop := ∀ st, keeps (left_of st) (c st).

Lemma csafe_bind {A B} (c : Conn A) (k : A → Conn B) : csafe c → (∀ a, csafe (k a)) → csafe (c ≫= k).
Proof.
  intros Hc Hk st. eapply (keeps_bind (λ x, rx x.1 `suffix_of` rx st)).
  - eapply keeps_weaken; [apply Hc|]. by intros [[st' x]|e|].
  - intros [st' [a|e|]] Hst; cbn in Hst; try by constructor.
    eapply keeps_weaken; [apply Hk|]. intros r. by apply left_of_trans.
Qed.
Lemma csafe_ret {A} (a : A) : csafe (mret a).
Proof. intros st. constructor. cbn. reflexivity. Qed.
Lemma csafe_stream {A} (m : SM Stream A) : consumes m → csafe (on_stream m).
Proof. intros Hm st. unfold on_stream. pose proof (Hm st). destruct (m st) as [st' [a|e|]]; by constructor. Qed.
Lemma csafe_task {A} (t : Task Daemon A) : safe t → csafe (on_task t).
Proof.
  intros Ht st. unfold on_task. eapply (keeps_bind (λ _, True)); [|intros r _; constructor; cbn; reflexivity].
  eapply keeps_weaken; [by apply safe_caught|]. by intros [].
Qed.
Lemma csafe_pure {A} (r : Result A) : csafe (conn_pure r).
Proof. apply csafe_task, safe_pure. Qed.

Hint Resolve csafe_ret csafe_pure csafe_stream csafe_task consumes_write_frame consumes_read_exact
  consumes_read_frame consumes_send_zeros : daemon.

(** The end of a task with a stream. *)
Ltac ends := constructor; cbn; first [reflexivity | done | by split].

Lemma is_u64_chunk length : 0 < length → length <= c_chunk_bytes config → is_u64 length.
Proof. intros. pose proof (v_chunk _ config_ok). unfold is_u64, U64_MAX. lia. Qed.

Lemma csafe_bytes {A} bytes (c : Conn A) : is_u64 bytes → csafe c → csafe (conn_bytes bytes c).
Proof.
  intros Hb Hc st. unfold conn_bytes. eapply (keeps_bind (λ _, True)).
  - eapply keeps_weaken; [apply safe_caught, safe_section|by intros []]. by apply rinv_reserve.
  - intros [i|e|] _; [|ends..]. apply keeps_finally; [apply dinv_drop|apply Hc].
Qed.
Lemma csafe_guard {A} id (f : RamBlock → Stream → Task Daemon (RamBlock * (Stream * Result A))) :
  (∀ p b st, fits p b → keeps (λ r, match r with
     Ok (b', x) => fits p b' ∧ rx x.1 `suffix_of` rx st | _ => True end) (f b st)) →
  csafe (conn_guard id f).
Proof.
  intros Hf st. unfold conn_guard. eapply (keeps_bind (λ _, True)).
  - eapply keeps_weaken; [apply safe_caught, safe_get|by intros []].
  - intros [p|e|] _; [|ends..]. apply keeps_finally; [apply dinv_release|].
    apply keeps_guard. intros b Hb. eapply keeps_weaken; [by apply (Hf p b st)|].
    intros [[b' [st' x]]|e|]; cbn; tauto.
Qed.

Lemma csafe_direct_write h t o l total c : csafe (direct_write h t o l total c).
Proof.
  unfold direct_write. apply csafe_guard. intros p b st Hb.
  eapply (keeps_bind (λ _, True)); [eapply keeps_weaken; [apply safe_now|by intros []]|]. intros now _.
  pose proof (receive_chunk_fits size_of now h t o l total c p b st Hb) as Hf.
  pose proof (receive_chunk_left now h t o l total c st b) as Hl.
  destruct (receive_chunk _ _ _ _ _ _ _ _) as [[st' b'] [[]|e|]]; cbn in Hf, Hl; [|ends..].
  eapply (keeps_bind (λ _, True)); [eapply keeps_weaken; [apply safe_measure_job|by intros []]|]. intros _ _.
  pose proof (consumes_write_frame (response_data ()) st') as Hw. destruct (write_frame _ st') as [st2 x].
  constructor. cbn in *. split; [done|]. by etrans.
Qed.
Lemma csafe_direct_read h t o l : csafe (direct_read h t o l).
Proof.
  unfold direct_read. apply csafe_guard. intros p b st Hb.
  eapply (keeps_bind (λ _, True)); [eapply keeps_weaken; [apply safe_now|by intros []]|]. intros now _.
  pose proof (consumes_send_chunk now h t o l b st) as Hl.
  destruct (send_chunk _ _ _ _ _ _ _) as [st' [[]|e|]]; cbn in Hl; [|ends..].
  eapply (keeps_bind (λ _, True)); [eapply keeps_weaken; [apply safe_measure_job|by intros []]|]. intros _ _.
  ends.
Qed.
Lemma safe_local_write h t o payload p :
  safe (waiting (λ s, unlocked p (d_rt s)) (on_rt (local_write h t o payload p))).
Proof. apply safe_wait. intros s Hg Hs. by apply rinv_local_write. Qed.
Lemma safe_local_read h o l p : safe (waiting (λ s, unlocked p (d_rt s)) (on_rt (local_read h o l p))).
Proof. apply safe_wait. intros s Hg Hs. by apply rinv_local_read. Qed.

(** From a task with a stream to its parts. *)
Ltac csafe_walk :=
  repeat (intros; lazymatch goal with
  | |- csafe (_ ≫= _) => apply csafe_bind
  | |- csafe (on_stream (write_all _)) => apply csafe_stream; by apply consumes_same
  | |- csafe (let x := _ in _) => cbv zeta
  | |- csafe (match ?x with _ => _ end) => destruct x
  end; auto with daemon nocore); intros; auto with daemon nocore.

Lemma csafe_relay_write h t o l c : is_u64 l → csafe (relay_write new_v4 config self out_of_fuel h t o l c).
Proof.
  intros Hl. unfold relay_write. csafe_walk. apply csafe_bytes; [done|]. csafe_walk. apply csafe_task.
  safe_walk. apply safe_with_arc. intros p. apply safe_local_write.
Qed.
Lemma csafe_relay_read h t o l : is_u64 l → csafe (relay_read new_v4 config self out_of_fuel h t o l).
Proof.
  intros Hl. unfold relay_read. csafe_walk. apply csafe_bytes; [done|]. csafe_walk. apply csafe_task.
  safe_walk. apply safe_with_arc. intros p. apply safe_local_read.
Qed.
(** A check of what was asked for comes first. *)
Lemma csafe_checked {A} (b : bool) e (c : Conn A) : (b = true → csafe c) → csafe (conn_pure (ensure b e);; c).
Proof.
  intros Hc. destruct b; [by apply csafe_bind; [apply csafe_pure|auto]|].
  intros st. cbn. ends.
Qed.
Lemma csafe_data_request q : csafe (data_request new_v4 config self out_of_fuel q).
Proof.
  destruct q; cbn [data_request]; try apply csafe_pure.
  - apply csafe_checked. intros Hl. bprop. csafe_walk; [apply csafe_direct_write|].
    by apply csafe_relay_write, is_u64_chunk.
  - apply csafe_checked. intros Hl. bprop. csafe_walk; [apply csafe_direct_read|].
    by apply csafe_relay_read, is_u64_chunk.
  - csafe_walk.
Qed.
Lemma csafe_data q : csafe (data new_v4 config self out_of_fuel q).
Proof.
  intros st. unfold data. eapply (keeps_bind (λ _, True)).
  - eapply keeps_weaken; [|by intros [[]|e|] _]. apply safe_atomically. intros s Hs. by apply (rinv_eq _ _ _ (d_rt s)).
  - intros _ _. apply keeps_finally; [|apply csafe_data_request]. intros s Hs. by apply (rinv_eq _ _ _ (d_rt s)).
Qed.

(** ** Migration *)

Lemma safe_wait_same {A} p (m : SM Runtime A) :
  preserves rinv m → safe (waiting (λ s, unlocked p (d_rt s)) (on_rt m)).
Proof. intros Hm. apply safe_wait. auto. Qed.
Lemma safe_free id token : safe (free_block id token).
Proof.
  unfold free_block. safe_walk.
  - apply safe_section, rinv_clone.
  - apply safe_wait_same, rinv_check_token.
  - apply safe_section. intros s. apply rinv_free_remove.
  - apply safe_section. intros s. apply rinv_release.
  - apply safe_section. intros s. apply rinv_release.
Qed.
Hint Resolve safe_free : daemon.
Lemma safe_copy_chunks job node target transfer chunk index pieces :
  safe (copy_chunks new_v4 config out_of_fuel job node target transfer chunk index pieces).
Proof.
  revert index. induction pieces as [|bytes pieces IH]; intros index; cbn [copy_chunks]; [safe_walk|].
  safe_walk. unfold tcp_write_chunk. safe_walk.
Qed.
Hint Resolve safe_copy_chunks : daemon.
Lemma safe_copy_block job node target b : safe (copy_block new_v4 config out_of_fuel job node target b).
Proof. unfold copy_block. safe_walk. Qed.
Hint Resolve safe_copy_block : daemon.
Lemma safe_migrate_locked h destination l b :
  safe (migrate_locked new_v4 config out_of_fuel h destination l b).
Proof. unfold migrate_locked. safe_walk. by apply safe_frame. Qed.
Lemma safe_migrate h destination l : safe (migrate new_v4 config self out_of_fuel h destination l).
Proof.
  unfold migrate. safe_walk. apply safe_with_arc. intros p. apply keeps_guard. intros b Hb.
  eapply (keeps_bind (λ _, True)); [|intros r _; by constructor].
  eapply keeps_weaken; [apply safe_caught, safe_migrate_locked|by intros []].
Qed.
Hint Resolve safe_migrate : daemon.

(** ** The monitor *)

Lemma safe_topology (f : Runtime → Topology → Topology) :
  safe (section (modify (λ s, s <| rt_topology ::= f s |>))).
Proof. by apply safe_frame. Qed.
Lemma dinv_peer_mut f n s :
  (∀ c, node_id (f c) = node_id c) → dinv s →
  dinv (s <| d_rt ::= set rt_membership (peer_mut self f) |> <| d_fresh := n |>).
Proof. intros Hf Hs. by apply (rinv_peer_mut _ _ _ self f (d_rt s)). Qed.
Lemma rotate_leader_panic_free before : panic_free dinv (rotate_leader new_v4 self before).
Proof.
  intros s Hs. unfold rotate_leader, gets, mbind, SM_bind. repeat case_match; try done. unfold act.
  by destruct (rinv_self _ _ _ _ Hs) as [p ->].
Qed.
Lemma preserves_rotate_leader before : preserves dinv (rotate_leader new_v4 self before).
Proof.
  unfold rotate_leader. sm_walk. intros s Hs. unfold act. case_match; [|done].
  by apply (rinv_peer_mut _ _ _ self _ (d_rt s)).
Qed.
Lemma preserves_on_rt {A} (m : SM Runtime A) : preserves rinv m → preserves dinv (on_rt m).
Proof. intros Hm s Hs. by apply (Hm (d_rt s)). Qed.
Lemma preserves_accept_peer node hs : preserves dinv (accept_peer new_v4 self node hs).
Proof.
  unfold accept_peer. sm_walk; cbv zeta; sm_walk.
  - apply preserves_on_rt. intros s Hs. by apply rinv_lose.
  - apply preserves_on_rt, rinv_register_inventory.
  - apply preserves_on_rt. intros s Hs. by apply rinv_update.
  - apply preserves_rotate_leader.
Qed.
Lemma safe_accept_peer node hs : safe (atomically (accept_peer new_v4 self node hs)).
Proof. apply safe_atomically, preserves_accept_peer. Qed.
Hint Resolve safe_accept_peer : daemon.
Lemma safe_exchange a : safe (exchange new_v4 self a).
Proof. unfold exchange. safe_walk. by apply safe_frame. Qed.
Hint Resolve safe_exchange : daemon.
Lemma safe_discovered a : safe (discovered new_v4 self a).
Proof. unfold discovered. safe_walk. Qed.
Lemma safe_monitor_exchange a : safe (monitor_exchange new_v4 self a).
Proof. unfold monitor_exchange. safe_walk. Qed.
Lemma safe_report_pressure node : safe (report_pressure self node).
Proof. unfold report_pressure. safe_walk. Qed.
Lemma safe_try_targets source l block ranked : safe (try_targets source l block ranked).
Proof. induction ranked as [|n ranked IH]; cbn [try_targets]; safe_walk. Qed.
Hint Resolve safe_try_targets : daemon.
Lemma safe_move_blocks source excess l moved bs : safe (move_blocks source excess l moved bs).
Proof. revert moved. induction bs as [|b bs IH]; intros moved; cbn [move_blocks]; safe_walk. Qed.
Hint Resolve safe_move_blocks : daemon.
Lemma safe_relieve_pressure source excess : safe (relieve_pressure source excess).
Proof.
  unfold relieve_pressure. safe_walk; [by apply safe_same|].
  apply keeps_finally; [done|]. apply safe_bind; safe_walk.
Qed.
Lemma safe_measure destination bytes : safe (measure new_v4 config self destination bytes).
Proof. unfold measure. safe_walk. by apply safe_frame. Qed.
Lemma safe_benchmark_pairs bytes pairs : safe (benchmark_pairs bytes pairs).
Proof. induction pairs as [|[s t] pairs IH]; cbn [benchmark_pairs]; safe_walk. by apply safe_frame. Qed.
Hint Resolve safe_relieve_pressure safe_measure safe_benchmark_pairs : daemon.
Lemma safe_benchmark bytes : safe (benchmark bytes).
Proof. unfold benchmark. safe_walk. Qed.
Hint Resolve safe_benchmark : daemon.

(** ** The control plane *)

(** What a request must be: its integers in range, and an allocation under an
    identifier that was not used for another size. *)
Definition request_ok (q : Request) : Prop :=
  match q with
  | AllocateLocal h _ => is_u64 (h_size h) ∧ h_size h = size_of (h_id h) (h_generation h)
  | ReserveStaging bytes => 0 <= bytes
  | _ => True
  end.

Lemma safe_ensure {A} (b : bool) e (t : Task Daemon A) : (b = true → safe t) → safe (pure_step (ensure b e);; t).
Proof. intros Ht. destruct b; [by apply Ht|apply (safe_pure (Err e))]. Qed.
Lemma safe_respond {T} `{!Serde T} (x : T) : safe (respond_data x).
Proof. apply safe_ret. Qed.
Hint Resolve safe_respond : daemon.
Lemma safe_status : safe (status config self sample).
Proof. unfold status. safe_walk. Qed.
Lemma safe_reserve_staging bytes : 0 <= bytes → safe (reserve_staging new_v4 config self sample bytes).
Proof.
  intros H0. unfold reserve_staging. apply safe_ensure. intros Hb. bprop. safe_walk.
  - apply safe_section, rinv_reserve. pose proof (v_chunk _ config_ok). unfold is_u64, U64_MAX. lia.
  - apply safe_section. intros s Hs. by apply rinv_stage.
Qed.
Lemma safe_exchanged node hs : safe (exchanged new_v4 self node hs).
Proof. unfold exchanged. safe_walk. Qed.
Lemma safe_get_metrics : safe (get_metrics self).
Proof. unfold get_metrics. safe_walk. by apply safe_frame. Qed.
Lemma safe_report_metrics id m : safe (report_metrics self id m).
Proof.
  unfold report_metrics. safe_walk. apply safe_section. intros rt Hs. unfold act. case_match; [|done].
  by apply rinv_peer_mut.
Qed.
Lemma safe_plan_job stages : safe (plan_job new_v4 stages).
Proof. unfold plan_job. safe_walk; by apply safe_frame. Qed.
Lemma safe_job_status id : safe (job_status id).
Proof. unfold job_status. safe_walk. by apply safe_frame. Qed.
Hint Resolve safe_status safe_exchanged safe_get_metrics safe_report_metrics safe_plan_job safe_job_status : daemon.
Lemma safe_refresh_compute id : safe (refresh_compute config self sample id).
Proof. unfold refresh_compute. safe_walk. apply safe_section. intros rt Hs. by apply rinv_update. Qed.
Lemma safe_try_candidates size job tensor l e candidates :
  safe (try_candidates new_v4 config size job tensor l e candidates).
Proof.
  revert e. induction candidates as [|n candidates IH]; intros e; cbn [try_candidates]; safe_walk.
  by apply safe_frame.
Qed.
Hint Resolve safe_refresh_compute safe_try_candidates : daemon.
Lemma safe_allocate_block size job compute preferred tensor :
  safe (allocate_block new_v4 config self sample size job compute preferred tensor).
Proof. unfold allocate_block. safe_walk. by apply safe_frame. Qed.
Lemma safe_allocate_local h l :
  is_u64 (h_size h) → h_size h = size_of (h_id h) (h_generation h) →
  safe (allocate_local config self sample grants h l).
Proof.
  intros Hu Hs. unfold allocate_local.
  do 2 (apply safe_bind; [auto with daemon nocore|intros]). apply safe_ensure. intros _. apply safe_ensure. intros _.
  apply safe_ensure. intros Hw. bprop. safe_walk. apply safe_section. intros s Hi.
  by apply (rinv_allocate config self size_of (grants (rt_clock s)) h).
Qed.
Lemma safe_resolve_block id token : safe (resolve_block id token).
Proof. unfold resolve_block. safe_walk. by apply safe_frame. Qed.
Hint Resolve safe_allocate_block safe_allocate_local safe_resolve_block : daemon.
Lemma safe_announce h : safe (announce h).
Proof. unfold announce. safe_walk. Qed.
Lemma safe_pass h request : safe (pass_to_owner h request).
Proof. unfold pass_to_owner. safe_walk. Qed.
Hint Resolve safe_announce safe_pass : daemon.
Lemma safe_commit h checksum direct : safe (commit h checksum direct).
Proof.
  unfold commit. safe_walk. apply safe_with_arc. intros p. safe_walk.
  apply safe_wait. intros s Hg Hs. by apply rinv_commit.
Qed.
Lemma safe_renew h direct : safe (renew config h direct).
Proof.
  unfold renew. safe_walk. apply safe_with_arc. intros p. safe_walk.
  apply safe_wait. intros s Hg Hs. by apply rinv_renew.
Qed.
Lemma safe_free_request h direct : safe (free_request h direct).
Proof. unfold free_request. safe_walk. Qed.
Lemma safe_memory_pressure node excess : safe (memory_pressure node excess).
Proof. unfold memory_pressure. safe_walk. Qed.
Lemma safe_publish h : safe (with_arc (h_id h) (λ p,
  waiting (λ s, unlocked p (d_rt s)) (on_rt (publish_section h p));; respond_data ())).
Proof.
  apply safe_with_arc. intros p. safe_walk. apply safe_wait. intros s Hg Hs. by apply rinv_publish.
Qed.
Hint Resolve safe_commit safe_renew safe_free_request safe_memory_pressure safe_publish : daemon.

Lemma safe_control_request q :
  request_ok q → safe (control_request new_v4 config self out_of_fuel sample grants q).
Proof.
  intros Hq. destruct q; cbn [control_request request_ok] in *; safe_walk.
  - by apply safe_reserve_staging.
  - apply safe_section. intros s. apply rinv_unstage.
  - destruct Hq. by apply safe_allocate_local.
  - apply safe_section, rinv_register_block.
Qed.
Lemma safe_control q : request_ok q → safe (control new_v4 config self out_of_fuel sample grants q).
Proof. intros Hq. unfold control. safe_walk; by apply safe_control_request. Qed.

(** ** Connections *)

(** Every request that can be read from what arrives is one. *)
Definition speaks (st : Stream) : Prop := ∀ st1 st2 q,
  rx st1 `suffix_of` rx st → read_frame (T := Request) st1 = (st2, Ok q) → request_ok q.
Lemma speaks_rest st st' : rx st' `suffix_of` rx st → speaks st → speaks st'.
Proof. intros H Hs st1 st2 q H1. apply Hs. by etrans. Qed.

Lemma safe_requests fuel st :
  speaks st → safe (requests new_v4 config self out_of_fuel sample grants fuel st).
Proof.
  revert st. induction fuel as [|fuel IH]; intros st Hst; cbn [requests]; [apply safe_ret|].
  destruct (ends_early st); [apply safe_ret|].
  pose proof (consumes_read_frame (T := Request) st) as Hl.
  destruct (read_frame (T := Request) st) as [st1 [q|e|]] eqn:Hq; [|case_match; apply safe_ret|by constructor].
  assert (request_ok q) as Hok by (by apply (Hst st st1 q)).
  assert (speaks st1) as Hs1 by (by apply (speaks_rest st)).
  destruct (is_data q).
  - eapply (keeps_bind (λ x, rx x.1 `suffix_of` rx st1)).
    + eapply keeps_weaken; [apply csafe_data|]. by intros [[st2 x]|e|].
    + intros [st2 [a|e|]] H2; [|by constructor..]. by apply IH, (speaks_rest st1).
  - apply safe_bind; [by apply safe_caught, safe_control|]. intros r. cbv zeta.
    match goal with |- context [write_frame ?x st1] => pose proof (consumes_write_frame x st1) as Hw end.
    destruct (write_frame _ st1) as [st2 [a|e|]]; [|by constructor..]. by apply IH, (speaks_rest st1).
Qed.
Lemma safe_connection st :
  speaks st → safe (connection new_v4 config self out_of_fuel sample grants st).
Proof.
  intros Hst. unfold connection. apply safe_bind; [apply safe_uuid|]. intros server.
  pose proof (consumes_server_auth config server st) as Hl.
  destruct (server_auth config server st) as [st1 [a|e|]]; [|by constructor..].
  by apply safe_requests, (speaks_rest st).
Qed.

(** ** The cycle of the monitor does not panic *)

Lemma keeps_total {A} (m : SM Daemon A) :
  preserves dinv m → panic_free dinv m → keeps no_panic (atomically m).
Proof. intros Hm Hp. apply obeys_atomically. auto. Qed.
Lemma keeps_modify (f : Runtime → Runtime) : (∀ s, rinv s → rinv (f s)) → keeps no_panic (section (modify f)).
Proof. intros Hf. apply keeps_total; [|done]. intros s Hs. by apply (Hf (d_rt s)). Qed.
Lemma keeps_reading {A} (f : Runtime → A) : keeps no_panic (section (gets f)).
Proof. apply keeps_total; [|done]. by intros s Hs. Qed.
Lemma keeps_lose_dead : keeps no_panic (atomically (lose_dead new_v4 self)).
Proof.
  apply keeps_total.
  - unfold lose_dead. sm_walk; [|apply preserves_rotate_leader]. apply preserves_on_rt. intros s Hs.
    by apply rinv_lose_dead.
  - intros s Hs. unfold lose_dead, gets, mbind, SM_bind. cbn -[rotate_leader Cluster.expire].
    apply rotate_leader_panic_free. by apply (rinv_lose_dead _ _ _ (d_rt s)).
Qed.
Lemma keeps_monitor_start : keeps no_panic (monitor_start new_v4 config self sample).
Proof.
  unfold monitor_start.
  apply follows_bind; [apply keeps_modify; intros; by apply rinv_expire_staging|intros _].
  apply follows_bind; [apply keeps_modify; intros; by apply rinv_expire|intros _].
  apply follows_bind; [apply keeps_refresh|intros _]. apply follows_bind; [apply keeps_lose_dead|intros _].
  apply follows_bind; [apply keeps_local|intros node]. apply follows_bind; [apply keeps_reading|intros l].
  apply follows_ret.
Qed.
Lemma keeps_count_pressure js : keeps no_panic (count_pressure js).
Proof.
  induction js as [|j js IH]; cbn [count_pressure]; [apply follows_ret|].
  apply follows_bind; [|by intros]. apply keeps_modify. intros s Hs. by apply (rinv_eq _ _ _ s).
Qed.
Lemma keeps_detect_gpus : keeps no_panic (detect_gpus self gpu_sample).
Proof.
  unfold detect_gpus. apply follows_bind; [apply keeps_total; [intros s Hs; exact Hs|done]|]. intros found.
  apply obeys_atomically. intros s Hs. unfold on_rt, act. cbn. destruct (rinv_self _ _ _ _ Hs) as [p ->].
  split; [|done]. by apply (rinv_peer_mut _ _ _ self _ (d_rt s)).
Qed.
Lemma keeps_monitor_cycle n : keeps no_panic (monitor_cycle new_v4 config self sample gpu_sample n).
Proof.
  unfold monitor_cycle. apply follows_bind; [apply keeps_monitor_start|]. intros [node l].
  unfold monitor_end. apply follows_bind.
  - case_match; [|apply follows_ret]. apply follows_bind; [apply keeps_reading|].
    intros affected. apply keeps_count_pressure.
  - intros _. case_match; [apply keeps_detect_gpus|apply follows_ret].
Qed.

(** ** Every schedule *)

(** A handler of datagrams, on the daemon. *)
Lemma keeps_embed {A} (t : Task Runtime A) :
  follows (udp_inv config size_of) (server_step config) t → keeps no_panic (embed t).
Proof.
  induction t as [r|g f next IH]; intros Ht; inversion Ht as [? Hr|? ? ? Hf]; subst; cbn; constructor; [done|].
  intros s Hs Hg. destruct (Hf (d_rt s) (ri_udp _ _ _ _ Hs) Hg) as (H1 & H2 & H3).
  split_and!; [|done|by apply IH]. by apply (rinv_server _ _ _ (d_rt s)).
Qed.

(** What runs on a daemon: the handlers of datagrams and the passing of time;
    the tasks spawned for a connection, an exchange or a report of pressure and
    the handling of an announcement, whose panics end them alone; and the
    cycles of the monitor. *)
Inductive dtask : Task Daemon unit → Prop :=
| dt_udp t : udp_task config send_error t → dtask (embed t)
| dt_connection st :
    speaks st → dtask (contained (connection new_v4 config self out_of_fuel sample grants st;; mret ()))
| dt_announced a : dtask (contained (discovered new_v4 self a))
| dt_exchange a : dtask (contained (monitor_exchange new_v4 self a))
| dt_report node : dtask (contained (report_pressure self node))
| dt_cycle n : dtask (monitor_cycle new_v4 config self sample gpu_sample n).

Lemma dtask_safe t : dtask t → keeps no_panic t.
Proof.
  intros [t0 Ht0|st Hst|a|a|node|n].
  - by apply keeps_embed, (sfollows_task _ send_error).
  - apply obeys_contained, safe_bind; [by apply safe_connection|intros; apply safe_ret].
  - apply obeys_contained, safe_discovered.
  - apply obeys_contained, safe_monitor_exchange.
  - apply obeys_contained, safe_report_pressure.
  - apply keeps_monitor_cycle.
Qed.

(** ** From the start *)

Lemma start_inv id route probe clock now rt :
  id = self → new_runtime config id route probe clock now = Ok rt → rinv rt.
Proof.
  intros -> H. unfold new_runtime in H. apply bind_Ok in H as (u & _ & H).
  apply bind_Ok in H as (a & _ & H). injection H as <-. set (local := detect _ _ _ _ _).
  split; [|split|done|]; cbn.
  - split; cbn; [|intros p b Hb; by destruct (lookup_empty_Some _ _ Hb)
      |intros k i Hi; by destruct (lookup_empty_Some _ _ Hi)| |].
    + split; cbn; [|intros i r Hi; by destruct (lookup_empty_Some _ _ Hi)|done].
      apply (wf_accounting ∅ 0 default_ram (default_accounting <| budget := trainpool_ram_budget (memory local) |>));
        [apply default_ram_wf|done..].
    + rewrite map_size_empty. pose proof (v_sessions _ config_ok). lia.
    + pose proof (v_sessions _ config_ok). lia.
  - by rewrite lookup_insert_eq.
  - intros i p. rewrite lookup_insert. case_decide; naive_solver.
  - intros p b Hb. by destruct (lookup_empty_Some _ _ Hb).
Qed.

End Safety.

(** ** Witnesses *)
Import Toy.
Module Witness.
Import Scenario.

Definition sizes (_ : Uuid) (_ : u64) : u64 := 8.
Lemma open_config_valid : valid config.
Proof. apply validate_Ok_valid. vm_compute. reflexivity. Qed.
Lemma runtime_new : new_runtime config 1 route probe 0 1000 = Ok runtime.
Proof. vm_refl. Qed.

(** Whatever part of the peer's bytes is read as a request is one of the
    three it sends, or the read of the same block. *)
Lemma frames_ok q : TRequest q ∈ frames → request_ok sizes q.
Proof.
  unfold frames. rewrite !elem_of_cons. 
  intros [E|[E|[E|[E|[E|[E|[E|[E|[E|E]]]]]]]]]; try discriminate E;
    [injection E as ->; by split|by injection E as ->..|by apply not_elem_of_nil in E].
Qed.
Lemma speaks_any st : speaks sizes st.
Proof.
  intros st1 st2 q _ Hq. apply frames_ok. unfold read_frame in Hq.
  apply sm_bind_Ok in Hq as (size & s1 & _ & Hq). apply sm_bind_Ok in Hq as (? & s2 & _ & Hq).
  apply sm_bind_Ok in Hq as (b & s3 & _ & Hq). apply sm_bind_Ok in Hq as (v & s4 & Hv & Hq).
  apply sm_bind_Ok in Hq as (? & s5 & _ & Hq). apply (f_equal snd) in Hv, Hq.
  unfold lift in Hv, Hq. cbn [snd wire_from_slice wire json json_wire] in Hv, Hq.
  destruct (frames !! _) as [v'|] eqn:Hl; [|discriminate Hv]. injection Hv as <-.
  apply list_elem_of_lookup_2 in Hl. destruct v'; try discriminate Hq. by injection Hq as ->.
Qed.

Definition peer : Task Daemon unit :=
  contained (connection new_v4 config 1 stuck sample grants (mkStream connection_bytes []);; mret ()).
Abbreviation tasks := (dtask new_v4 config 1 stuck no_error sample grants no_gpus sizes).
Lemma peer_ok : tasks peer.
Proof. apply dt_connection, speaks_any. Qed.
Definition cycle : Task Daemon unit := monitor_cycle new_v4 config 1 sample no_gpus 5.
Lemma cycle_ok : tasks cycle.
Proof. apply dt_cycle. Qed.

(** A cycle of the monitor starts, the peer is served, the cycle ends. *)
Definition c1 := stop 3 cycle daemon.
Definition c2 := stop 100 peer (`c1).2.
Definition c3 := stop 20 (`c1).1 (`c2).2.
Lemma reached : rtc (pool_step tasks) (daemon, []) ((`c3).2, [(`c3).1; (`c2).1]).
Proof.
  etrans; [exact (spawn_advance _ _ _ daemon [] c1 cycle_ok)|].
  etrans; [exact (spawn_advance _ _ _ _ [(`c1).1] c2 peer_ok)|].
  exact (advance_pool _ _ _ _ [] [(`c2).1] c3).
Qed.
Definition ptr : Ptr := ptr_of 0 handle.
Definition block : RamBlock :=
  default (new_block handle (mkReservation 0 None)) (heap (rt_ram (d_rt (`c3).2)) !! ptr).
Lemma block_committed :
  h_state (b_handle block) = Ready ∧ b_bytes block = bytes
  ∧ heap (rt_ram (d_rt (`c3).2)) !! ptr = Some block.
Proof.
  split_and!; [vm_compute; reflexivity..|].
  assert (bool_decide (is_Some (heap (rt_ram (d_rt (`c3).2)) !! ptr)) = true) as [b Hb]%bool_decide_eq_true
    by (vm_compute; reflexivity).
  unfold block. by rewrite Hb.
Qed.
End Witness.

