(* ===== verification/Store.v ===== *)
(** * What a block store promises

    To its users a node's store is a finite map from identifiers to blocks
    under a quota of bytes; of a block they see its handle and the bytes
    written so far. [step] says what each operation answers and does in these
    terms. The real store keeps buffers of full size, running digests, counters
    that are adjusted at every change, and shared addresses; [store_refines]
    shows that nothing of this can be observed. *)

From S2P Require Import Prelude.
From S2P Require Import Lists.
From S2P Require Import Bytes.
From S2P Require Import Externals.
From S2P Require Import Block.
From S2P Require Import Accounting.
From S2P Require Import LocalRam.
From S2P Require Import Config.
From S2P Require Import Node.
From S2P Require Import Cluster.
From S2P Require Import Scheduler.
From S2P Require Import Metrics.
From S2P Require Import Protocol.
From S2P Require Import Transport.
From S2P Require Import Task.
From S2P Require Import Runtime.
From S2P Require Import UdpServer.
From S2P Require Import Daemon.
From S2P Require Import DataPlane.
From S2P Require Import Migration.
From S2P Require Import Control.
From S2P Require Import Scenario.

(** ** The abstract store *)

Record Entry := mkEntry {
  e_handle : MemoryBlockHandle;
  e_data : list byte;
  e_transfer : option Uuid;
  e_published : bool;
}.
#[export] Instance eta_Entry : Eta Entry := λ r,
  mkEntry (e_handle r) (e_data r) (e_transfer r) (e_published r).
(** [st_other]: bytes of the quota that are not blocks. *)
Record Store := mkStore {
  st_entries : gmap Uuid Entry;
  st_budget : u64;
  st_other : Z;
  st_now : u64;
}.
#[export] Instance eta_Store : Eta Store := λ r,
  mkStore (st_entries r) (st_budget r) (st_other r) (st_now r).

Definition entry_size (e : Entry) : Z := h_size (e_handle e).
Definition st_used (a : Store) : Z := map_sum entry_size (st_entries a) + st_other a.

(** What may be asked of a store; [OTick]: time passes. *)
Inductive Op :=
| OAllocate (granted : bool) (h : MemoryBlockHandle)
| OWrite (h : MemoryBlockHandle) (transfer : Uuid) (offset : u64) (payload : list byte)
| OCommit (h : MemoryBlockHandle) (checksum : string)
| OPublish (h : MemoryBlockHandle)
| ORenew (h : MemoryBlockHandle)
| ORead (h : MemoryBlockHandle) (offset length : u64)
| OFree (id token : Uuid)
| OExpire
| OInventory
| OTick (now : u64).
Inductive Out := OutUnit | OutHandle (h : MemoryBlockHandle) | OutBytes (l : list byte)
  | OutHandles (hs : list MemoryBlockHandle).

Section Spec.
Context `{BL : !Blake3, UT : !UuidText}.
Context (config : Config).

(** The holder of a lease. *)
Definition owns (now : u64) (h : MemoryBlockHandle) (e : Entry) : Result unit :=
  ensure (h_lease_token h =? h_lease_token (e_handle e)) "TRAINPOOL_LEASE_DENIED";;
  ensure (now <? h_lease_expires_ms (e_handle e)) "TRAINPOOL_LEASE_EXPIRED".
Definition current (state : BlockState) (h : MemoryBlockHandle) (e : Entry) : bool :=
  bool_decide (h_state (e_handle e) = state) && (h_generation (e_handle e) =? h_generation h).
Definition ready_with (checksum : string) (h : MemoryBlockHandle) : MemoryBlockHandle :=
  h <| h_state := Ready |> <| h_checksum := Some checksum |>.

Definition write_entry (h : MemoryBlockHandle) (transfer : Uuid) (offset : u64) (payload : list byte)
    (now : u64) (e : Entry) : Result (Entry * Out) :=
  owns now h e;;
  ensure (current Writing h e && (zlen (e_data e) =? offset)) "block is immutable, stale or non-sequential";;
  if zlen (e_data e ++ payload) <=? entry_size e
  then Ok (e <| e_data ::= (.++ payload) |> <| e_transfer := Some transfer |>, OutUnit)
  else Panic.
Definition commit_entry (h : MemoryBlockHandle) (checksum : string) (now : u64) (e : Entry)
    : Result (Entry * Out) :=
  owns now h e;;
  ensure (zlen (e_data e) =? entry_size e) "incomplete upload";;
  ensure (bool_decide (digest_of (e_data e) = checksum)) "TRAINPOOL_CHECKSUM_MISMATCH";;
  Ok (e <| e_handle ::= ready_with checksum |>, OutHandle (ready_with checksum (e_handle e))).
Definition publish_entry (h : MemoryBlockHandle) (now : u64) (e : Entry) : Result (Entry * Out) :=
  owns now h e;;
  ensure ((h_generation (e_handle e) =? h_generation h) && bool_decide (h_state (e_handle e) = Ready))
    "destination is not ready";;
  Ok (e <| e_published := true |>, OutUnit).
Definition renew_entry (h : MemoryBlockHandle) (now : u64) (e : Entry) : Result (Entry * Out) :=
  owns now h e;;
  let renewed := (e_handle e) <| h_lease_expires_ms := lease_end config now |> in
  Ok (e <| e_handle := renewed |>, OutHandle renewed).
Definition read_entry (h : MemoryBlockHandle) (offset length : u64) (now : u64) (e : Entry)
    : Result (Entry * Out) :=
  owns now h e;;
  ensure (current Ready h e) "block not ready or handle stale";;
  ensure (offset + length <=? entry_size e) "read exceeds allocation";;
  Ok (e, OutBytes (take (Z.to_nat length) (drop (Z.to_nat offset) (e_data e)))).

(** An operation on one block; what fails changes nothing. *)
Definition on_entry (id : Uuid) (f : u64 → Entry → Result (Entry * Out)) : SM Store Out := λ a,
  match st_entries a !! id with
  | None => (a, Err (data_lost id))
  | Some e =>
      match f (st_now a) e with
      | Ok (e', o) => (a <| st_entries ::= <[id := e']> |>, Ok o)
      | Err m => (a, Err m)
      | Panic => (a, Panic)
      end
  end.
Definition kept (now : u64) (e : Entry) : Prop :=
  now < h_lease_expires_ms (e_handle e) ∨ h_state (e_handle e) = Migrating.

Definition step (o : Op) : SM Store Out := λ a,
  match o with
  | OAllocate granted h =>
      if bool_decide (is_Some (st_entries a !! h_id h)) then (a, Err "block already exists")
      else if bool_decide (100000 <= Z.of_nat (size (st_entries a)))%Z then (a, Err "block count limit reached")
      else if Z.min U64_MAX (st_budget a) <? st_used a + h_size h then (a, Err (out_of_capacity (h_size h)))
      else if negb granted then
        (a, Err "memory allocation failed because the memory allocator returned an error")
      else (a <| st_entries ::= <[h_id h := mkEntry h [] None (h_generation h =? 0)]> |>, Ok OutUnit)
  | OWrite h transfer offset payload => on_entry (h_id h) (write_entry h transfer offset payload) a
  | OCommit h checksum => on_entry (h_id h) (commit_entry h checksum) a
  | OPublish h => on_entry (h_id h) (publish_entry h) a
  | ORenew h => on_entry (h_id h) (renew_entry h) a
  | ORead h offset length => on_entry (h_id h) (read_entry h offset length) a
  | OFree id token =>
      match st_entries a !! id with
      | None => (a, Ok OutUnit)
      | Some e =>
          if h_lease_token (e_handle e) =? token then (a <| st_entries ::= delete id |>, Ok OutUnit)
          else (a, Err "TRAINPOOL_LEASE_DENIED")
      end
  | OExpire => (a <| st_entries ::= filter (λ x, kept (st_now a) x.2) |>, Ok OutUnit)
  | OInventory =>
      (a, Ok (OutHandles (e_handle <$> filter (λ e, e_published e = true) (values (st_entries a)))))
  | OTick now => (a <| st_now := now |>, Ok OutUnit)
  end.
(** Operations one after the other, with their answers. *)
Fixpoint steps (ops : list Op) (a : Store) : Store * list (Result Out) :=
  match ops with
  | [] => (a, [])
  | o :: ops => let (a', r) := step o a in let (a'', rs) := steps ops a' in (a'', r :: rs)
  end.
Definition empty_store (budget now : Z) : Store := mkStore ∅ budget 0 now.
End Spec.

(** ** The store of a daemon *)
Section Refinement.
Context `{BL : !Blake3, HM : !Hmac, HX : !Hex, UT : !UuidText, JS : !Json, BLL : !Blake3Laws}.
Context (config : Config).

(** The part of each handler that works on the store. *)
Definition on_block {A} (id : Uuid) (m : Ptr → SM Runtime A) : Task Daemon A :=
  with_arc id (λ p, waiting (λ s, unlocked p (d_rt s)) (on_rt (m p))).
Definition perform (o : Op) : Task Daemon Out :=
  match o with
  | OAllocate granted h => section (on_ram (allocate granted h));; mret OutUnit
  | OWrite h transfer offset payload => on_block (h_id h) (local_write h transfer offset payload);; mret OutUnit
  | OCommit h checksum => h ← on_block (h_id h) (commit_section h checksum); mret (OutHandle h)
  | OPublish h => on_block (h_id h) (publish_section h);; mret OutUnit
  | ORenew h => h ← on_block (h_id h) (renew_section config h); mret (OutHandle h)
  | ORead h offset length => l ← on_block (h_id h) (local_read h offset length); mret (OutBytes l)
  | OFree id token => free_block id token;; mret OutUnit
  | OExpire => section (modify (λ s, s <| rt_ram ::= LocalRam.expire (rt_now_ms s) |>));; mret OutUnit
  | OInventory => hs ← section (gets (λ s, inventory (rt_ram s))); mret (OutHandles hs)
  | OTick now => section (modify (λ s, s <| rt_now_ms := now |>));; mret OutUnit
  end.
(** Operations one after the other; [None] if one waits forever. *)
Fixpoint performs (ops : list Op) (d : Daemon) : option (Daemon * list (Result Out)) :=
  match ops with
  | [] => Some (d, [])
  | o :: ops =>
      '(d', r) ← run (perform o) d;
      '(d'', rs) ← performs ops d';
      Some (d'', r :: rs)
  end.

(** What an operation may be given: allocations are of blocks to be written,
    and sizes and offsets are machine integers. *)
Definition op_ok (o : Op) : Prop :=
  match o with
  | OAllocate _ h => is_u64 (h_size h) ∧ h_state h = Writing
  | ORead _ offset length => is_u64 offset ∧ is_u64 length
  | _ => True
  end.

(** ** The simulation *)

Definition entry_of (b : RamBlock) : Entry :=
  mkEntry (b_handle b) (take (Z.to_nat (b_written b)) (b_bytes b)) (b_transfer_id b) (b_published b).
(** Between two operations nobody holds or locks a block. *)
Record at_rest (s : LocalRam) : Prop := { ar_clones : clones s = ∅; ar_locked : locked s = ∅ }.
Definition full (b : RamBlock) : Prop := h_state (b_handle b) = Ready → b_written b = h_size (b_handle b).
Record stands_for (d : Daemon) (a : Store) : Prop := {
  sf_wf : wf ∅ (st_other a) (rt_ram (d_rt d));
  sf_rest : at_rest (rt_ram (d_rt d));
  sf_entries : ∀ id, st_entries a !! id =
    (p ← blocks (rt_ram (d_rt d)) !! id; entry_of <$> heap (rt_ram (d_rt d)) !! p);
  sf_full : ∀ p b, heap (rt_ram (d_rt d)) !! p = Some b → full b;
  sf_budget : budget (accounting (rt_ram (d_rt d))) = st_budget a;
  sf_now : rt_now_ms (d_rt d) = st_now a;
}.

Lemma at_rest_clones s p : at_rest s → clones_of p s = 0%nat.
Proof. intros [H _]. unfold clones_of. by rewrite H. Qed.
Lemma entry_block d a id e : stands_for d a → st_entries a !! id = Some e →
  ∃ p b, blocks (rt_ram (d_rt d)) !! id = Some p ∧ heap (rt_ram (d_rt d)) !! p = Some b ∧ e = entry_of b
  ∧ h_id (b_handle b) = id ∧ block_ok b.
Proof.
  intros Hd. rewrite (sf_entries _ _ Hd). destruct (blocks _ !! id) as [p|] eqn:Hp; [|done]. cbn.
  intros (b & Hb & ->)%fmap_Some. destruct (wf_blocks _ _ _ (sf_wf _ _ Hd) _ _ Hp) as (b' & Hb' & Hid).
  simplify_eq. exists p, b. split_and!; [done..|]. apply (wf_heap _ _ _ (sf_wf _ _ Hd) _ _ Hb).
Qed.
Lemma entry_at d a id p b : stands_for d a →
  blocks (rt_ram (d_rt d)) !! id = Some p → heap (rt_ram (d_rt d)) !! p = Some b →
  st_entries a !! id = Some (entry_of b).
Proof. intros Hd Hp Hb. rewrite (sf_entries _ _ Hd), Hp. cbn. by rewrite Hb. Qed.
Lemma no_entry d a id : stands_for d a → st_entries a !! id = None → blocks (rt_ram (d_rt d)) !! id = None.
Proof.
  intros Hd Hn. destruct (blocks _ !! id) as [p|] eqn:Hp; [|done].
  destruct (wf_blocks _ _ _ (sf_wf _ _ Hd) _ _ Hp) as (b & Hb & _).
  by rewrite (entry_at _ _ _ _ _ Hd Hp Hb) in Hn.
Qed.

(** The counter of the store is the size of its entries. *)
Lemma entries_sum (he : gmap Ptr RamBlock) : ∀ (bl : gmap Uuid Ptr) (es : gmap Uuid Entry),
  (∀ id, es !! id = (p ← bl !! id; entry_of <$> he !! p)) →
  (∀ i j p, bl !! i = Some p → bl !! j = Some p → i = j) →
  (∀ p b, he !! p = Some b → ∃ id, bl !! id = Some p) →
  map_sum entry_size es = map_sum block_bytes he.
Proof.
  induction he as [|p b he Hp IH] using map_ind; intros bl es He Hinj Hmap.
  - rewrite map_sum_empty. replace es with (∅ : gmap Uuid Entry); [apply map_sum_empty|].
    apply map_eq. intros id. rewrite lookup_empty, He. by destruct (bl !! id).
  - destruct (Hmap p b (lookup_insert_eq _ _ _)) as [id Hid].
    assert (es !! id = Some (entry_of b)) as Hes by (rewrite He, Hid; cbn; by rewrite lookup_insert_eq).
    rewrite (map_sum_delete _ _ _ _ Hes), map_sum_insert by done.
    change (entry_size (entry_of b)) with (block_bytes b). f_equal. apply (IH (delete id bl)).
    + intros j. destruct (decide (id = j)) as [<-|Hne]; [by rewrite !lookup_delete_eq|].
      rewrite !lookup_delete_ne by done. rewrite He. destruct (bl !! j) as [q|] eqn:Hj; [|done]. cbn.
      rewrite lookup_insert_ne; [done|]. intros <-. by apply Hne, (Hinj id j p).
    + intros i j q [_ Hi]%lookup_delete_Some [_ Hj]%lookup_delete_Some. by eapply Hinj.
    + intros q c Hq. destruct (Hmap q c) as [j Hj]; [by rewrite lookup_insert_ne by congruence|].
      exists j. rewrite lookup_delete_ne; [done|]. intros <-. congruence.
Qed.
Lemma at_rest_mapped d a p b : stands_for d a → heap (rt_ram (d_rt d)) !! p = Some b →
  ∃ id, blocks (rt_ram (d_rt d)) !! id = Some p.
Proof.
  intros Hd Hb. apply mapped_true. apply (wf_heap _ _ _ (sf_wf _ _ Hd)) in Hb as [_ [H|[H|H]]]; [done| |set_solver].
  rewrite at_rest_clones in H by apply Hd. lia.
Qed.
Lemma used_owned d a : stands_for d a → st_used a = owned (accounting (rt_ram (d_rt d))).
Proof.
  intros Hd. rewrite (wf_owned _ _ _ (sf_wf _ _ Hd)). unfold st_used. f_equal.
  apply (entries_sum _ (blocks (rt_ram (d_rt d)))); [apply Hd| |].
  - intros i j p. apply (blocks_inj _ _ _ _ _ _ (sf_wf _ _ Hd)).
  - intros p b. by apply (at_rest_mapped d a).
Qed.
Lemma entries_domain d a id : stands_for d a →
  is_Some (st_entries a !! id) ↔ is_Some (blocks (rt_ram (d_rt d)) !! id).
Proof.
  intros Hd. split.
  - intros [e He]. destruct (entry_block _ _ _ _ Hd He) as (p & _ & -> & _). done.
  - intros [p Hp]. destruct (wf_blocks _ _ _ (sf_wf _ _ Hd) _ _ Hp) as (b & Hb & _).
    by rewrite (entry_at _ _ _ _ _ Hd Hp Hb).
Qed.
Lemma entries_size d a : stands_for d a → size (st_entries a) = size (blocks (rt_ram (d_rt d))).
Proof.
  intros Hd. rewrite <-!size_dom. f_equal. apply set_eq. intros id. rewrite !elem_of_dom. by apply entries_domain.
Qed.

(** ** Operations on one block *)

Lemma update_block_id p s : update_block p id s = s.
Proof. unfold update_block. destruct s as [acc bl he cl lo np]. unfold set. cbn. f_equal. by apply alter_id. Qed.
Lemma run_finally {S A} (g : S → S) (t : Task S A) s :
  run (finally g t) s = (λ '(s', r), (g s', r)) <$> run t s.
Proof.
  revert s. induction t as [r|gd f next IH]; intros s; cbn; [done|]. destruct (gd s); [apply IH|done].
Qed.

(** What a section does to a block it finds under its clone: it changes the
    block or reports why not. *)
Definition acts_on {A} (now : u64) (b : RamBlock) (m : Ptr → SM Runtime A)
    (x : Result ((RamBlock → RamBlock) * A)) : Prop :=
  ∀ p s, heap (rt_ram s) !! p = Some b → rt_now_ms s = now →
    m p s = match x with
            | Ok (g, r) => (s <| rt_ram ::= update_block p g |>, Ok r)
            | Err e => (s, Err e)
            | Panic => (s, Panic)
            end.
Definition keeps_block (g : RamBlock → RamBlock) (b : RamBlock) : Prop :=
  block_ok (g b) ∧ (∀ n, ptr_of n (b_handle (g b)) = ptr_of n (b_handle b)) ∧ full (g b).

Lemma on_block_missing {A} id (m : Ptr → SM Runtime A) d :
  blocks (rt_ram (d_rt d)) !! id = None → run (on_block id m) d = Some (d, Err (data_lost id)).
Proof.
  intros H. unfold on_block, with_arc, section. rewrite run_bind, run_atomically.
  unfold on_rt, on_ram, act, get. rewrite H. cbn [fst snd]. do 2 f_equal. by destruct d as [[]].
Qed.

Lemma on_block_run {A} id p b (m : Ptr → SM Runtime A) x d a :
  stands_for d a → blocks (rt_ram (d_rt d)) !! id = Some p → heap (rt_ram (d_rt d)) !! p = Some b →
  acts_on (st_now a) b m x → (∀ g r, x = Ok (g, r) → keeps_block g b) →
  run (on_block id m) d =
    match x with
    | Ok (g, r) => Some (d <| d_rt ::= set rt_ram (update_block p g) |>, Ok r)
    | Err e => Some (d, Err e)
    | Panic => Some (d, Panic)
    end.
Proof.
  intros Hd Hid Hp Hm Hk. unfold on_block, with_arc, section. rewrite run_bind, run_atomically.
  unfold on_rt at 1, on_ram, act, get. rewrite Hid. cbn [fst snd].
  rewrite run_finally. cbn [waiting run].
  assert (release p (acquire p (rt_ram (d_rt d))) = rt_ram (d_rt d)) as Hrel.
  { apply (release_acquire ∅ (st_other a)); [apply Hd|]. apply mapped_true. by exists id. }
  match goal with |- context [unlocked p ?s] => assert (unlocked p s = true) as -> end.
  { unfold unlocked. apply andb_true_iff. split; [|apply bool_decide_eq_true; cbn; by rewrite Hp].
    apply negb_true_iff, bool_decide_eq_false. cbn. rewrite (ar_locked _ (sf_rest _ _ Hd)). set_solver. }
  cbn [run fmap option_fmap option_map]. unfold on_rt, act. cbn [d_rt]. rewrite (Hm p) by (done || apply Hd).
  destruct x as [[g r]|e|]; cbn; do 2 f_equal.
  - destruct (Hk g r eq_refl) as (Hok & Hptr & _).
    assert (release p (acquire p (update_block p g (rt_ram (d_rt d)))) = update_block p g (rt_ram (d_rt d))) as Hrel'.
    { apply (release_acquire ∅ (st_other a)); [|apply mapped_true; by exists id].
      apply update_block_wf; [|apply Hd]. intros b' Hb' _. simplify_eq. done. }
    destruct d as [rt]. unfold set. cbn. f_equal. destruct rt. cbn in *. f_equal. exact Hrel'.
  - destruct d as [rt]. unfold set. cbn. f_equal. destruct rt. cbn in *. by f_equal.
  - destruct d as [rt]. unfold set. cbn. f_equal. destruct rt. cbn in *. by f_equal.
Qed.

Lemma stands_update d a id p b g :
  stands_for d a → blocks (rt_ram (d_rt d)) !! id = Some p → heap (rt_ram (d_rt d)) !! p = Some b →
  keeps_block g b →
  stands_for (d <| d_rt ::= set rt_ram (update_block p g) |>)
    (a <| st_entries ::= <[id := entry_of (g b)]> |>).
Proof.
  intros Hd Hid Hp (Hok & Hptr & Hfull). pose proof Hd as [W R E F B N]. split; [|by destruct R| | |done|done].
  - apply update_block_wf; [|done]. intros b' Hb' _. simplify_eq. done.
  - intros j. change (blocks (rt_ram (d_rt (d <| d_rt ::= set rt_ram (update_block p g) |>))))
      with (blocks (rt_ram (d_rt d))).
    change (heap (rt_ram (d_rt (d <| d_rt ::= set rt_ram (update_block p g) |>))))
      with (alter g p (heap (rt_ram (d_rt d)))).
    change (st_entries (a <| st_entries ::= <[id := entry_of (g b)]> |>)) with (<[id := entry_of (g b)]> (st_entries a)).
    destruct (decide (id = j)) as [<-|Hne].
    + rewrite lookup_insert_eq, Hid. cbn. by rewrite lookup_alter_eq, Hp.
    + rewrite lookup_insert_ne, E by done. destruct (blocks _ !! j) as [q|] eqn:Hj; [|done]. cbn.
      rewrite lookup_alter_ne; [done|]. intros <-. by apply Hne, (blocks_inj _ _ _ id j p W).
  - intros q c. cbn. rewrite lookup_alter. case_decide as Hq; [subst q|apply F].
    rewrite Hp. cbn. by intros [= <-].
Qed.

(** An operation that acts on a block as its specification acts on the entry. *)
Definition meets {A} (out : A → Out) (m : Ptr → SM Runtime A) (f : u64 → Entry → Result (Entry * Out)) : Prop :=
  ∀ now b, block_ok b → full b → ∃ x : Result ((RamBlock → RamBlock) * A),
    acts_on now b m x ∧ (∀ g r, x = Ok (g, r) → keeps_block g b)
    ∧ f now (entry_of b) = match x with
                           | Ok (g, r) => Ok (entry_of (g b), out r)
                           | Err e => Err e
                           | Panic => Panic
                           end.
Lemma entry_step {A} (out : A → Out) id (m : Ptr → SM Runtime A) f d a :
  stands_for d a → meets out m f →
  ∃ d', run (r ← on_block id m; mret (out r)) d = Some (d', (on_entry id f a).2)
        ∧ stands_for d' (on_entry id f a).1.
Proof.
  intros Hd Hm. unfold on_entry. rewrite run_bind. destruct (st_entries a !! id) as [e|] eqn:He.
  - destruct (entry_block _ _ _ _ Hd He) as (p & b & Hid & Hp & -> & _ & Hok).
    destruct (Hm (st_now a) b Hok (sf_full _ _ Hd _ _ Hp)) as (x & Hx & Hk & ->).
    rewrite (on_block_run id p b m x d a Hd Hid Hp Hx Hk). destruct x as [[g r]|e|].
    + eexists. split; [done|]. apply (stands_update d a id p b g); [done..|by eapply Hk].
    + by exists d.
    + by exists d.
  - rewrite (on_block_missing id m d) by (by eapply no_entry). by exists d.
Qed.

(** The checks of a section and of its specification. *)
Lemma owns_authorize now h b : owns now h (entry_of b) = authorize now (h_lease_token h) b.
Proof. done. Qed.
Lemma entry_written b : block_ok b → zlen (e_data (entry_of b)) = b_written b.
Proof. intros [_ Hb Hw _ _]. cbn. rewrite length_take. lia. Qed.
Lemma entry_full b : block_ok b → b_written b = h_size (b_handle b) → e_data (entry_of b) = b_bytes b.
Proof. intros [_ Hb Hw _ _] E. cbn. apply take_ge. lia. Qed.

(** A section finds its block and reads the clock; a check comes before the
    rest; the end changes the block or not. *)
Definition after {A} (p : Ptr) (b : RamBlock) (now : u64) (m : SM Runtime A)
    (x : Result ((RamBlock → RamBlock) * A)) : Prop :=
  ∀ s, heap (rt_ram s) !! p = Some b → rt_now_ms s = now →
    m s = match x with
          | Ok (g, r) => (s <| rt_ram ::= update_block p g |>, Ok r)
          | Err e => (s, Err e)
          | Panic => (s, Panic)
          end.
Lemma acts_start {A} now b (k : RamBlock → u64 → Ptr → SM Runtime A) x :
  (∀ p, after p b now (k b now p) x) →
  acts_on now b (λ p, b ← block_at p; now ← gets rt_now_ms; k b now p) x.
Proof.
  intros Hk p s Hp Hn. unfold mbind, SM_bind, block_at, act, gets. rewrite Hp, Hn. by apply Hk.
Qed.
Lemma after_check {A B} p b now (r : Result B) (k : B → SM Runtime A) (x : B → Result _) :
  (∀ y, r = Ok y → after p b now (k y) (x y)) → after p b now (lift r ≫= k) (r ≫= x).
Proof. intros Hk s Hp Hn. unfold mbind, SM_bind, lift. destruct r as [y|e|]; [by apply Hk|done..]. Qed.
Lemma after_write {A} p b now g (v : A) : after p b now (write_block p g;; mret v) (Ok (g, v)).
Proof. done. Qed.
Lemma after_write_end p b now g : after p b now (write_block p g) (Ok (g, ())).
Proof. done. Qed.
Lemma after_read {A} p b now (r : Result A) : after p b now (lift r) (l ← r; Ok (id, l)).
Proof.
  intros s Hp Hn. unfold lift. destruct r as [l|e|]; [|done..]. cbn. f_equal. destruct s as [? ram].
  unfold set. cbn. by rewrite update_block_id.
Qed.
Ltac acts :=
  apply acts_start; intros;
  repeat first [apply after_write_end|apply after_write|apply after_read|apply after_check; intros].

(** The two sides of [meets] when the checks agree. *)
Lemma checks_agree {A B} (r : Result B) (x : B → Result ((RamBlock → RamBlock) * A)) (y : B → Result (Entry * Out))
    (P : (RamBlock → RamBlock) → Prop) (out : (RamBlock → RamBlock) → A → Entry * Out) :
  (∀ c, r = Ok c → (∀ g v, x c = Ok (g, v) → P g)
     ∧ y c = match x c with Ok (g, v) => Ok (out g v) | Err e => Err e | Panic => Panic end) →
  (∀ g v, (r ≫= x) = Ok (g, v) → P g)
  ∧ (r ≫= y) = match r ≫= x with Ok (g, v) => Ok (out g v) | Err e => Err e | Panic => Panic end.
Proof. intros H. destruct r as [c|e|]; cbn; [by apply H|done..]. Qed.
Ltac check b out H :=
  refine (checks_agree _ _ _ (λ g, keeps_block g b) (λ g v, (entry_of (g b), out v)) _); intros ? H;
  try (apply ensure_Ok in H; bprop).
Ltac agree b out := repeat (let H := fresh in check b out H).

Lemma write_meets h transfer offset payload :
  meets (λ _, OutUnit) (local_write h transfer offset payload) (write_entry h transfer offset payload).
Proof.
  intros now b Hok Hfull. eexists. split; [unfold local_write; acts|].
  unfold write_entry, current. rewrite owns_authorize, entry_written by done.
  agree b (λ _ : (), OutUnit).
  subst offset.
  pose proof (ok_bytes _ Hok) as Hb. pose proof (ok_written _ Hok) as Hw.
  assert (zlen (e_data (entry_of b) ++ payload) = b_written b + zlen payload) as ->.
  { rewrite length_app, Nat2Z.inj_add. by rewrite <-(entry_written b Hok). }
  change (entry_size (entry_of b)) with (h_size (b_handle b)). unfold splice. rewrite Hb.
  rewrite (proj2 (Z.leb_le 0 _)) by lia. cbn [andb].
  destruct (Z.leb_spec (b_written b + zlen payload) (h_size (b_handle b))) as [Hl|]; [|done]. cbn. split.
  - intros g v [= <- _]. split_and!; [by apply append_bytes_guarded|done|]. unfold full. cbn. congruence.
  - do 2 f_equal. unfold entry_of, append_bytes, set, splice. cbn. rewrite Hb.
    rewrite (proj2 (Z.leb_le 0 _)) by lia. rewrite (proj2 (Z.leb_le _ _) Hl). cbn. f_equal.
    rewrite (app_assoc _ payload), take_app_le by (rewrite length_app, length_take; lia).
    symmetry. apply take_ge. rewrite length_app, length_take. lia.
Qed.
Lemma full_handle f b :
  block_ok b → (∀ n, ptr_of n (f (b_handle b)) = ptr_of n (b_handle b)) →
  (h_state (f (b_handle b)) = Ready → b_written b = h_size (b_handle b)) →
  keeps_block (set b_handle f) b.
Proof.
  intros [] Hf Hr. pose proof (Hf 0) as E. injection E as E1 E2 E3 E4 E5.
  split_and!; [split; cbn; rewrite ?E3, ?E2; done|done|]. unfold full. cbn. by rewrite E3.
Qed.
Lemma commit_meets h checksum :
  meets OutHandle (commit_section h checksum) (commit_entry h checksum).
Proof.
  intros now b Hok Hfull. eexists. split; [unfold commit_section; acts|].
  unfold commit_entry. rewrite owns_authorize, entry_written by done.
  check b OutHandle C1.
  pose proof (ok_bytes _ Hok) as Hb. change (entry_size (entry_of b)) with (h_size (b_handle b)). rewrite Hb.
  check b OutHandle Hw.
  assert (digest_of (e_data (entry_of b)) = hash_to_hex (hasher_finalize (b_hash b))) as ->.
  { rewrite entry_full by done. destruct (ok_hash _ Hok) as (cs & -> & Hj).
    rewrite hasher_finalize_updates, Hj. unfold digest_of. do 2 f_equal. symmetry. apply take_ge. lia. }
  check b OutHandle C2.
  split; [|done]. intros g v [= <- _]. by apply full_handle.
Qed.
Lemma publish_meets h : meets (λ _, OutUnit) (publish_section h) (publish_entry h).
Proof.
  intros now b Hok Hfull. eexists. split; [unfold publish_section; acts|].
  unfold publish_entry. rewrite owns_authorize. agree b (λ _ : (), OutUnit).
  split; [|done]. intros g v [= <- _]. split_and!; [by destruct Hok|done|done].
Qed.
Lemma renew_meets h : meets OutHandle (renew_section config h) (renew_entry config h).
Proof.
  intros now b Hok Hfull. eexists. split; [unfold renew_section; acts|].
  unfold renew_entry. rewrite owns_authorize. agree b OutHandle.
  split; [|done]. intros g v [= <- _]. by apply full_handle.
Qed.
Lemma read_meets h offset length :
  is_u64 offset → is_u64 length →
  meets OutBytes (local_read h offset length) (read_entry h offset length).
Proof.
  unfold is_u64. intros Ho Hl now b Hok Hfull. eexists. split; [unfold local_read; acts|].
  unfold read_entry, current. rewrite owns_authorize.
  check b OutBytes C3.
  check b OutBytes Hs.
  pose proof (ok_bytes _ Hok) as Hb.
  change (entry_size (entry_of b)) with (h_size (b_handle b)). rewrite Hb.
  check b OutBytes Hx.
  rewrite entry_full by auto. unfold slice. rewrite Hb.
  rewrite (proj2 (Z.leb_le 0 _)), (proj2 (Z.leb_le _ (offset + length))), (proj2 (Z.leb_le _ (h_size _))) by lia.
  cbn. replace (offset + length - offset) with length by lia. split; [|done]. intros g v [= <- _]. by split_and!.
Qed.

(** ** Operations on the whole store *)

Lemma stands_ram d a ram es :
  stands_for d a → wf ∅ (st_other a) ram → at_rest ram →
  (∀ id, es !! id = (p ← blocks ram !! id; entry_of <$> heap ram !! p)) →
  (∀ p b, heap ram !! p = Some b → full b) →
  budget (accounting ram) = budget (accounting (rt_ram (d_rt d))) →
  stands_for (d <| d_rt ::= set rt_ram (λ _, ram) |>) (a <| st_entries := es |>).
Proof. intros [W R E F B N] W' R' E' F' B'. split; try done. by etrans. Qed.

Lemma run_section {A} (m : SM Runtime A) d :
  run (section m) d = Some (d <| d_rt := (m (d_rt d)).1 |>, (m (d_rt d)).2).
Proof. unfold section. by rewrite run_atomically. Qed.
(** The quota. *)
Lemma reserve_quota job bytes acc :
  0 <= owned acc → 0 <= bytes →
  if Z.min U64_MAX (budget acc) <? owned acc + bytes
  then reserve_payload job bytes acc = (acc, Err (out_of_capacity bytes))
  else ∃ acc', reserve_payload job bytes acc = (acc', Ok (mkReservation bytes (Some job)))
       ∧ budget acc' = budget acc.
Proof.
  intros Ho Hb. destruct (reserve_payload job bytes acc) as [acc' [r|e|]] eqn:E.
  - apply reserve_payload_Ok in E as (-> & E & Hle & Hm & Hbu & _); [|done..].
    rewrite (proj2 (Z.ltb_ge _ _)) by lia. by exists acc'.
  - unfold reserve_payload, mbind, SM_bind in E.
    destruct (reserve bytes acc) as [a1 [r1|e1|]] eqn:E1; [done| |done].
    apply reserve_Err in E1 as (-> & -> & Hlt). injection E as <- <-.
    by rewrite (proj2 (Z.ltb_lt _ _)) by lia.
  - unfold reserve_payload, mbind, SM_bind in E. pose proof (reserve_not_panic bytes acc).
    by destruct (reserve bytes acc) as [a1 [r1|e1|]].
Qed.

Lemma allocate_step granted h d a :
  stands_for d a → op_ok (OAllocate granted h) →
  ∃ d', run (perform (OAllocate granted h)) d = Some (d', (step config (OAllocate granted h) a).2)
        ∧ stands_for d' (step config (OAllocate granted h) a).1.
Proof.
  intros Hd [Hu Hst]. cbn [perform step]. rewrite run_bind, run_section. unfold on_ram, act. cbn [fst snd].
  pose proof (allocate_wf ∅ (st_other a) (rt_ram (d_rt d)) granted h Hu (sf_wf _ _ Hd)) as Hw.
  pose proof (entries_domain d a (h_id h) Hd) as Hdom. pose proof Hd as [W R E F B N].
  rewrite (entries_size d a), (used_owned d a) by done. revert Hw. unfold allocate.
  destruct (blocks (rt_ram (d_rt d)) !! h_id h) as [p|] eqn:Hid.
  { intros _. rewrite bool_decide_true by (by apply Hdom). exists d. split; [by destruct d as [[]]|done]. }
  rewrite (bool_decide_false (is_Some _)) by (intros [? ?]%Hdom; done).
  case_bool_decide; [exists d; split; [by destruct d as [[]]|done]|].
  pose proof (reserve_quota (h_job_id h) (h_size h) (accounting (rt_ram (d_rt d)))) as Hq.
  pose proof (wf_ext _ _ _ W) as [_ [Hou _]]. specialize (Hq Hou (proj1 Hu)). rewrite B in Hq.
  case_match.
  { rewrite Hq. intros _. exists d. split; [by destruct d as [[? []]]|done]. }
  destruct Hq as (acc & -> & Hbu). destruct granted; cbn [negb fst snd]; intros Hw.
  - eexists. split; [done|]. set (p := ptr_of _ h) in *.
    apply (stands_ram d a _ (<[h_id h := mkEntry h [] None (h_generation h =? 0)]> (st_entries a)));
      [done|done|by destruct R| | |cbn; congruence].
    + intros id. cbn. rewrite !lookup_insert. case_decide as Hj.
      * cbn. rewrite lookup_insert_eq. done.
      * rewrite E. destruct (blocks _ !! id) as [q|] eqn:Hq; [|done]. cbn. rewrite lookup_insert_ne; [done|].
        intros <-. destruct (wf_blocks _ _ _ W _ _ Hq) as (b & Hb & _).
        by rewrite (wf_fresh _ _ _ W) in Hb by (cbn; lia).
    + intros q b. cbn. rewrite lookup_insert. case_decide; [intros [= <-]; unfold full; cbn; congruence|apply F].
  - eexists. split; [done|]. apply (stands_ram d a _ (st_entries a)) in Hw; [|done|by destruct R|done|done|].
    + destruct a. exact Hw.
    + cbn. rewrite drop_reservation_budget. congruence.
Qed.

Lemma release_rest p s : clones s = {[p := 1%nat]} → locked s = ∅ → at_rest (release p s).
Proof.
  intros Hc Hl. assert (clones (drop_clone p s) = ∅) as E.
  { unfold drop_clone, clones_of. rewrite Hc, lookup_singleton_eq. cbn. rewrite Hc. apply delete_singleton_eq. }
  unfold release, reclaim. repeat case_match; by split.
Qed.
Lemma free_run d a id p b :
  stands_for d a → blocks (rt_ram (d_rt d)) !! id = Some p → heap (rt_ram (d_rt d)) !! p = Some b →
  ∀ token, run (free_block id token) d =
    if h_lease_token (b_handle b) =? token
    then Some (d <| d_rt ::= set rt_ram (λ s, free_remove id p (acquire p s)) |>, Ok ())
    else Some (d, Err "TRAINPOOL_LEASE_DENIED").
Proof.
  intros Hd Hid Hp token. unfold free_block. rewrite run_bind, run_section.
  unfold on_ram, clone_block, act. rewrite Hid. cbn [fst snd].
  rewrite run_bind. cbn [caught waiting run].
  match goal with |- context [unlocked p ?s] => assert (unlocked p s = true) as -> end.
  { unfold unlocked. apply andb_true_iff. split; [|apply bool_decide_eq_true; cbn; by rewrite Hp].
    apply negb_true_iff, bool_decide_eq_false. cbn. rewrite (ar_locked _ (sf_rest _ _ Hd)). set_solver. }
  match goal with |- context [on_rt (check_token token p) ?s] =>
    assert (on_rt (check_token token p) s =
      (s, ensure (h_lease_token (b_handle b) =? token) "TRAINPOOL_LEASE_DENIED")) as -> end.
  { unfold on_rt, act, check_token, mbind, SM_bind, block_at, act. cbn [d_rt rt_ram set heap acquire].
    change (heap (rt_ram (d_rt (d <| d_rt := (d_rt d) <| rt_ram := acquire p (rt_ram (d_rt d)) |> |>))) !! p)
      with (heap (rt_ram (d_rt d)) !! p).
    rewrite Hp. by destruct d as [[]]. }
  cbn [fst snd]. destruct (_ =? token) eqn:Et; cbn [ensure caught run].
  - rewrite run_section. by destruct d as [[]].
  - rewrite run_bind, run_section. cbn [snd modify pure_step run fst]. do 2 f_equal.
    pose proof (release_acquire ∅ (st_other a) (rt_ram (d_rt d)) p (sf_wf _ _ Hd)) as Hrel.
    rewrite mapped_true in Hrel. specialize (Hrel (ex_intro _ id Hid)).
    destruct d as [[]]. unfold set. cbn in *. by rewrite Hrel.
Qed.

Lemma free_step id token d a :
  stands_for d a →
  ∃ d', run (perform (OFree id token)) d = Some (d', (step config (OFree id token) a).2)
        ∧ stands_for d' (step config (OFree id token) a).1.
Proof.
  intros Hd. cbn [perform step]. rewrite run_bind. destruct (st_entries a !! id) as [e|] eqn:He.
  - destruct (entry_block _ _ _ _ Hd He) as (p & b & Hid & Hp & -> & _ & Hok).
    rewrite (free_run d a id p b) by done. change (e_handle (entry_of b)) with (b_handle b).
    destruct (h_lease_token (b_handle b) =? token); [|by exists d]. eexists. split; [done|]. pose proof Hd as [W R E F B N].
    destruct (free_spec _ _ _ (h_lease_token (b_handle b)) _ _ W Hid Hp) as [_ (Eb & Eh & _)].
    rewrite decide_True in Eh by (by apply at_rest_clones).
    apply (stands_ram d a (free_remove id p (acquire p (rt_ram (d_rt d)))) (delete id (st_entries a))).
    + done.
    + apply free_remove_wf, acquire_wf; [by rewrite Hp|done].
    + unfold free_remove. rewrite bool_decide_true by done.
      apply release_rest; cbn; [|apply R]. by rewrite (at_rest_clones _ _ R), (ar_clones _ R), insert_empty.
    + intros j. rewrite Eb, Eh. destruct (decide (id = j)) as [<-|Hne]; [by rewrite !lookup_delete_eq|].
      rewrite !lookup_delete_ne, E by done. destruct (blocks _ !! j) as [q|] eqn:Hj; [|done]. cbn.
      rewrite lookup_delete_ne; [done|]. intros <-. by apply Hne, (blocks_inj _ _ _ id j p W).
    + intros q c. rewrite Eh. intros [_ Hq]%lookup_delete_Some. by eapply F.
    + unfold free_remove. rewrite bool_decide_true by done. unfold release, reclaim.
      repeat case_match; cbn; rewrite ?drop_reservation_budget; done.
  - exists d. split; [|done]. unfold free_block. rewrite run_bind, run_section.
    unfold on_ram, clone_block, act. rewrite (no_entry _ _ _ Hd He). by destruct d as [[]].
Qed.

Lemma reclaim_mapped p q s : mapped q s = true → heap (reclaim p s) !! q = heap s !! q.
Proof.
  intros Hq. unfold reclaim. destruct (mapped p s) eqn:Hp; [done|]. repeat case_match; try done. cbn.
  rewrite lookup_delete_ne; [done|]. congruence.
Qed.
Lemma reclaim_fold_mapped ps q s : mapped q s = true → heap (foldr reclaim s ps) !! q = heap s !! q.
Proof.
  intros Hq. induction ps as [|p ps IH]; [done|]. cbn. rewrite reclaim_mapped; [done|].
  unfold mapped in *. by rewrite reclaim_fold_blocks.
Qed.
Lemma reclaim_frame p s :
  clones (reclaim p s) = clones s ∧ locked (reclaim p s) = locked s
  ∧ budget (accounting (reclaim p s)) = budget (accounting s).
Proof. unfold reclaim. repeat case_match; cbn; by rewrite ?drop_reservation_budget. Qed.
Lemma reclaim_fold_frame ps s :
  clones (foldr reclaim s ps) = clones s ∧ locked (foldr reclaim s ps) = locked s
  ∧ budget (accounting (foldr reclaim s ps)) = budget (accounting s)
  ∧ ∀ p b, heap (foldr reclaim s ps) !! p = Some b → heap s !! p = Some b.
Proof.
  induction ps as [|p ps (E1 & E2 & E3 & E4)]; [done|]. cbn.
  destruct (reclaim_frame p (foldr reclaim s ps)) as (-> & -> & ->). split_and!; [done..|].
  intros q b Hq. by apply E4, (reclaim_heap p).
Qed.

Lemma expire_step d a :
  stands_for d a →
  ∃ d', run (perform OExpire) d = Some (d', (step config OExpire a).2) ∧ stands_for d' (step config OExpire a).1.
Proof.
  intros Hd. cbn [perform step]. rewrite run_bind, run_section. cbn [modify fst snd].
  eexists. split; [done|]. pose proof Hd as [W R E F B N]. rewrite <-N. set (now := rt_now_ms (d_rt d)).
  assert (∀ p b, heap (rt_ram (d_rt d)) !! p = Some b →
    retained now (rt_ram (d_rt d)) p = true ↔ kept now (entry_of b)) as Hk.
  { intros p b Hp. unfold retained, kept. rewrite Hp, (ar_locked _ R), bool_decide_false by set_solver.
    cbn. by rewrite orb_true_iff, bool_decide_eq_true, Z.ltb_lt. }
  pose proof (reclaim_fold_frame (values (filter (λ '(_, p), retained now (rt_ram (d_rt d)) p = false)
    (blocks (rt_ram (d_rt d))))) ((rt_ram (d_rt d)) <| blocks ::= filter (λ '(_, p), retained now (rt_ram (d_rt d)) p = true) |>))
    as (E1 & E2 & E3 & E4).
  apply (stands_ram d a (LocalRam.expire now (rt_ram (d_rt d))) (filter (λ x, kept now x.2) (st_entries a))).
  - done.
  - by apply expire_wf.
  - destruct R as [R1 R2]. split; [by etrans|by etrans].
  - intros id. rewrite expire_blocks, !map_lookup_filter, E.
    destruct (blocks _ !! id) as [p|] eqn:Hid; [|done]. cbn.
    destruct (wf_blocks _ _ _ W _ _ Hid) as (b & Hb & _). rewrite Hb. cbn.
    specialize (Hk p b Hb). case_guard as H1; case_guard as H2; [|by destruct H2; apply Hk|by destruct H1; apply Hk|done]. cbn.
    unfold LocalRam.expire. rewrite reclaim_fold_mapped; [cbn; by rewrite Hb|].
    apply mapped_true. exists id. cbn. by apply map_lookup_filter_Some.
  - intros p b Hb. apply (F p). by apply E4.
  - done.
Qed.

(** An inventory lists what the entries show. *)
Lemma sort_by_fmap {A B} (f : A → B) (c : A → A → comparison) (d : B → B → comparison) l :
  (∀ x y, d (f x) (f y) = c x y) → sort_by d (f <$> l) = f <$> sort_by c l.
Proof.
  intros Hc. unfold sort_by. induction l as [|x l IH]; [done|]. cbn. rewrite IH.
  generalize (foldr (insert_by c) [] l). clear IH l. intros l.
  induction l as [|y l IH]; [done|]. cbn. rewrite Hc. destruct (c x y); cbn; by rewrite ?IH.
Qed.
Lemma values_fmap {A B} (f : A → B) (m : gmap Uuid A) : values (f <$> m) = f <$> values m.
Proof.
  unfold values, entries. rewrite map_to_list_fmap, (sort_by_fmap _ (on fst Z.compare)) by (by intros [] []).
  rewrite <-!list_fmap_compose. by apply list_fmap_ext; intros ? [].
Qed.

Lemma omap_fmap_comp {A B C} (f : A → B) (g : B → option C) (l : list A) : omap g (f <$> l) = omap (g ∘ f) l.
Proof. induction l as [|x l IH]; [done|]. cbn. by rewrite <-IH. Qed.
Lemma omap_filter {A B} (P : A → bool) (f : A → B) (l : list A) :
  omap (λ x, if P x then Some (f x) else None) l = f <$> filter (λ x, P x = true) l.
Proof.
  induction l as [|x l IH]; [done|]. rewrite filter_cons. cbn. destruct (P x) eqn:E.
  - rewrite decide_True by done. cbn. by rewrite IH.
  - rewrite decide_False by done. done.
Qed.
Lemma inventory_entries d a :
  stands_for d a →
  inventory (rt_ram (d_rt d)) = e_handle <$> filter (λ e, e_published e = true) (values (st_entries a)).
Proof.
  intros [W R E F B N]. unfold inventory. set (look := λ p, entry_of <$> heap (rt_ram (d_rt d)) !! p).
  assert (look <$> values (blocks (rt_ram (d_rt d))) = Some <$> values (st_entries a)) as Hv.
  { rewrite <-!values_fmap. f_equal. apply map_eq. intros id. rewrite !lookup_fmap, E.
    destruct (blocks _ !! id) as [p|] eqn:Hp; [|done]. cbn.
    destruct (wf_blocks _ _ _ W _ _ Hp) as (b & Hb & _). unfold look. by rewrite Hb. }
  transitivity (omap (λ o, e ← o; if e_published e then Some (e_handle e) else None)
    (look <$> values (blocks (rt_ram (d_rt d))))).
  - rewrite omap_fmap_comp. apply list_omap_ext, Forall_Forall2_diag, Forall_true. intros p.
    unfold report, look, compose. rewrite bool_decide_false by (rewrite (ar_locked _ R); set_solver).
    by destruct (heap _ !! p).
  - rewrite Hv, omap_fmap_comp. apply omap_filter.
Qed.
Lemma inventory_step d a :
  stands_for d a →
  ∃ d', run (perform OInventory) d = Some (d', (step config OInventory a).2)
        ∧ stands_for d' (step config OInventory a).1.
Proof.
  intros Hd. cbn [perform step]. rewrite run_bind, run_section. cbn [gets fst snd].
  exists d. split; [|done]. cbn. rewrite (inventory_entries d a) by done. by destruct d.
Qed.

Lemma perform_step o d a :
  stands_for d a → op_ok o →
  ∃ d', run (perform o) d = Some (d', (step config o a).2) ∧ stands_for d' (step config o a).1.
Proof.
  intros Hd Ho. destruct o.
  - by apply allocate_step.
  - apply entry_step; [done|apply write_meets].
  - apply entry_step; [done|apply commit_meets].
  - apply entry_step; [done|apply publish_meets].
  - apply entry_step; [done|apply renew_meets].
  - apply entry_step; [done|]. by apply read_meets; apply Ho.
  - by apply free_step.
  - by apply expire_step.
  - by apply inventory_step.
  - cbn [perform step]. rewrite run_bind, run_section. eexists. split; [done|]. destruct Hd. by split.
Qed.
Lemma performs_steps ops : ∀ d a, stands_for d a → Forall op_ok ops →
  ∃ d', performs ops d = Some (d', (steps config ops a).2) ∧ stands_for d' (steps config ops a).1.
Proof.
  induction ops as [|o ops IH]; intros d a Hd Ho; [by exists d|]. inversion Ho as [|? ? H1 H2]; subst.
  destruct (perform_step o d a Hd H1) as (d1 & E1 & Hd1). cbn [performs steps]. rewrite E1. cbn.
  destruct (step config o a) as [a1 r]. destruct (IH d1 a1 Hd1 H2) as (d2 & E2 & Hd2). rewrite E2. cbn.
  destruct (steps config ops a1) as [a2 rs]. by exists d2.
Qed.

Lemma fresh_stands id route probe clock now rt replies streams sockets :
  new_runtime config id route probe clock now = Ok rt →
  stands_for (fresh_daemon rt replies streams sockets) (empty_store (budget (accounting (rt_ram rt))) now).
Proof.
  unfold new_runtime. intros H. apply bind_Ok in H as ([] & _ & H). apply bind_Ok in H as (ad & _ & H).
  injection H as <-. generalize (detect uuid_str id ad config probe). intros node.
  split; try done. apply (wf_accounting ∅ 0 default_ram); [apply default_ram_wf|done..].
Qed.

(** C4. The store of a daemon implements the abstract store: from the start,
    whatever operations it is asked one after the other, none waits forever,
    and the answers, errors and their order included, are those of a map of
    blocks under a quota; and afterwards its blocks are the entries of the map
    and its counter their total size. *)
Theorem store_refines id route probe clock now rt replies streams sockets ops :
  new_runtime config id route probe clock now = Ok rt → Forall op_ok ops →
  let d := fresh_daemon rt replies streams sockets in
  let '(a, answers) := steps config ops (empty_store (budget (accounting (rt_ram rt))) now) in
  ∃ d', performs ops d = Some (d', answers)
    ∧ (∀ id, st_entries a !! id =
         (p ← blocks (rt_ram (d_rt d')) !! id; entry_of <$> heap (rt_ram (d_rt d')) !! p))
    ∧ owned (accounting (rt_ram (d_rt d'))) = map_sum entry_size (st_entries a).
Proof.
  intros Hrt Ho. pose proof (performs_steps ops _ _ (fresh_stands _ _ _ _ _ _ replies streams sockets Hrt) Ho) as H.
  assert (∀ ops a, st_other (steps config ops a).1 = st_other a) as Hother.
  { clear. induction ops as [|o ops IH]; intros a; [done|]. cbn [steps]. specialize (IH (step config o a).1).
    assert (st_other (step config o a).1 = st_other a) as <-.
    { destruct o; cbn; unfold on_entry; by repeat case_match. }
    destruct (step config o a) as [a1 r]. cbn in *. by destruct (steps config ops a1). }
  specialize (Hother ops (empty_store (budget (accounting (rt_ram rt))) now)).
  destruct (steps config ops _) as [a answers]. destruct H as (d' & E & Hd). exists d'.
  split_and!; [done|apply Hd|]. rewrite <-(used_owned d' a) by done. unfold st_used. cbn in Hother. lia.
Qed.
End Refinement.

(** ** Witness

    A block is written in two pieces, refused to a reader and to a wrong
    digest, committed, read in part, not freed with a wrong token, freed; it
    is then unknown. *)
Import Toy Scenario.
Module Witness.
Definition ops : list Op :=
  [OAllocate true handle; OWrite handle 3 0 (take 5 bytes); ORead handle 0 4; OCommit handle digest;
   OWrite handle 3 5 (drop 5 bytes); OCommit handle "no"; OCommit handle digest; ORead handle 2 4;
   OAllocate true handle; OFree 5 1; OTick 1500; OInventory; OFree 5 77; ORead handle 0 1].
Lemma ops_fine : Forall op_ok ops.
Proof. repeat constructor; unfold is_u64, U64_MAX; cbn; try lia; done. Qed.
Lemma runtime_started : new_runtime config 1 route probe 0 1000 = Ok runtime.
Proof. vm_refl. Qed.
End Witness.
Lemma store_refines_witness :
  ∃ d', performs config Witness.ops daemon =
    Some (d', [Ok OutUnit; Ok OutUnit; Err "block not ready or handle stale"; Err "incomplete upload";
               Ok OutUnit; Err "TRAINPOOL_CHECKSUM_MISMATCH"; Ok (OutHandle ready);
               Ok (OutBytes [x43; x44; x45; x46]); Err "block already exists"; Err "TRAINPOOL_LEASE_DENIED";
               Ok OutUnit; Ok (OutHandles [ready]); Ok OutUnit; Err (data_lost 5)])
  ∧ owned (accounting (rt_ram (d_rt d'))) = 0.
Proof.
  pose proof (store_refines config 1 route probe 0 1000 runtime [inr done] [] [] Witness.ops
    Witness.runtime_started Witness.ops_fine) as H.
  cbv zeta in H.
  destruct (steps config Witness.ops (empty_store (budget (accounting (rt_ram runtime))) 1000)) as [a answers] eqn:E.
  destruct H as (d' & Hp & _ & Ho). exists d'. split.
  - etrans; [exact Hp|]. do 2 f_equal. transitivity (steps config Witness.ops (empty_store (budget (accounting (rt_ram runtime))) 1000)).2; [by rewrite E|vm_refl].
  - rewrite Ho. transitivity (map_sum entry_size (st_entries (steps config Witness.ops (empty_store (budget (accounting (rt_ram runtime))) 1000)).1)); [by rewrite E|vm_refl].
Defined.
