(* ===== verification/Launcher.v ===== *)
(** * The launcher: [src/launcher/mod.rs], and [RuntimeHandle] of [src/runtime/mod.rs]

    [trainpool python train.py ...] runs a training command on the pool: it
    asks the local daemon for a plan, embeds a runtime of its own if there is
    none, and starts the command with an environment that hooks it up. *)

From Stdlib Require Import Ascii.
From S2P Require Import Prelude.
From S2P Require Import Lists.
From S2P Require Import Bytes.
From S2P Require Import Externals.
From S2P Require Import Text.
From S2P Require Import Config.
From S2P Require Import Identity.
From S2P Require Import Node.
From S2P Require Import Gpu.
From S2P Require Import Cluster.
From S2P Require Import Protocol.
From S2P Require Import Transport.
From S2P Require Import Runtime.
From S2P Require Import Daemon.
From S2P Require Import Control.
From S2P Require Import Scenario.

(** ** A runtime and its background tasks *)

(** [JoinHandle]. *)
Inductive JoinHandle (A : Type) := Running | Ended (r : A) | Aborted.
Arguments Running {A}.
Arguments Ended {A} r.
Arguments Aborted {A}.
Definition abort {A} (h : JoinHandle A) : JoinHandle A := match h with Running => Aborted | _ => h end.
Definition is_running {A} (h : JoinHandle A) : bool := match h with Running => true | _ => false end.

Section Lifecycle.
Context `{BL : !Blake3, UT : !UuidText, JS : !Json}.

(** [RuntimeHandle]. *)
Record RuntimeHandle := mkRuntimeHandle {
  rh_runtime : Runtime;
  rh_server : JoinHandle (Result unit);
  rh_monitor : JoinHandle unit;
  rh_receiver : option (JoinHandle unit);
}.
#[export] Instance eta_RuntimeHandle : Eta RuntimeHandle := λ r,
  mkRuntimeHandle (rh_runtime r) (rh_server r) (rh_monitor r) (rh_receiver r).
(** [impl Drop for RuntimeHandle]. *)
Definition drop_handle (h : RuntimeHandle) : RuntimeHandle :=
  h <| rh_server ::= abort |> <| rh_monitor ::= abort |> <| rh_receiver ::= fmap abort |>.
(** [RuntimeHandle::shutdown]: aborts, waits for the ends, and drops. *)
Definition shutdown (h : RuntimeHandle) : RuntimeHandle :=
  let h := h <| rh_server ::= abort |> <| rh_monitor ::= abort |> <| rh_receiver ::= fmap abort |> in
  drop_handle h.
(** No task of it is left. *)
Definition quiet (h : RuntimeHandle) : bool :=
  negb (is_running (rh_server h) || is_running (rh_monitor h)
        || match rh_receiver h with Some r => is_running r | None => false end).

(** What the system answers while a runtime starts: whether the listener and
    the multicast socket can be bound, the route, the hardware, the clock. *)
Record Startup := mkStartup {
  su_bind : Result unit;
  su_route : SocketAddr → Result IpAddr;
  su_probe : Probe;
  su_clock : Z;
  su_now : u64;
  su_multicast : Result unit;
}.

(** [start_runtime]. *)
Definition start_runtime (s : Startup) (config : Config) (id : Uuid) : Result RuntimeHandle :=
  su_bind s;;
  runtime ← new_runtime config id (su_route s) (su_probe s) (su_clock s) (su_now s);
  let discovery := c_discovery_enabled config && is_ok (su_multicast s) in
  unwrap (peers (rt_membership runtime) !! id);;
  Ok (mkRuntimeHandle runtime Running Running (if discovery then Some Running else None)).

(** What ends a daemon: its server, or the result of [ctrl_c]. *)
Inductive Ending := ServerEnded (joined : Result (Result unit)) | Interrupted (r : Result unit).
(** [daemon]: its result, and its runtime as it is left. *)
Definition daemon (s : Startup) (ending : Ending) (config : Config) (id : Uuid) : Result unit * option RuntimeHandle :=
  match start_runtime s config id with
  | Ok handle =>
      (match ending with ServerEnded joined => r ← joined; r | Interrupted r => r end, Some (drop_handle handle))
  | Err e => (Err e, None)
  | Panic => (Panic, None)
  end.

Lemma drop_quiet h : quiet (drop_handle h) = true.
Proof. destruct h as [rt [] [] [[]|]]; done. Qed.
Lemma shutdown_quiet h : quiet (shutdown h) = true.
Proof. apply drop_quiet. Qed.
Lemma start_valid s config id h : start_runtime s config id = Ok h → valid config.
Proof.
  intros H. unfold start_runtime in H. apply bind_Ok in H as (? & _ & H). apply bind_Ok in H as (rt & H & _).
  unfold new_runtime in H. apply bind_Ok in H as ([] & H & _). by apply validate_Ok_valid.
Qed.
(** A node that has started is in its own view, so its start never panics. *)
Lemma start_no_panic s config id :
  no_panic (su_bind s) → no_panic (new_runtime config id (su_route s) (su_probe s) (su_clock s) (su_now s)) →
  no_panic (start_runtime s config id).
Proof.
  intros Hb Hn. unfold start_runtime. destruct (su_bind s); [|done..]. cbn.
  destruct (new_runtime _ _ _ _ _ _) as [rt|e|] eqn:E; [|done..]. cbn.
  unfold new_runtime in E. apply bind_Ok in E as (? & _ & E). apply bind_Ok in E as (address & _ & E). injection E as <-.
  cbn. by rewrite lookup_insert_eq.
Qed.
End Lifecycle.

(** ** What a launch does and learns *)

(** A command: its program, its arguments, the variables set for it. *)
Record ChildCommand := mkCommand {
  cmd_program : string;
  cmd_args : list string;
  cmd_env : list (string * string);
}.
Inductive Effect : Type :=
| CheckedSdk (program : string)
| AskedPlan (a : SocketAddr)
| Dialed (a : SocketAddr)
| ReadIdentity
| StartedRuntime (c : Config) (id : Uuid)
| StoppedRuntime
| Slept (ms : Z)
| MadeDirectory
| RemovedDirectory (dir : string)
| WroteFile (path text : string)
| Installed
| Spawned (c : ChildCommand)
| Waited
| Forwarded (signal : Z).

(** What happens first while a child runs: it ends, with its wait status, or a
    signal arrives; [live]: the child is not reaped yet. *)
Inductive ChildEvent := ChildEnded (status : Result Z) | Signalled (signal : Z) (live : bool).
(** The answers of everything around the launcher, by what was done before. *)
Record Surroundings `{JS : !Json} := mkSurroundings {
  on_sdk : list Effect → Result Z;
  on_plan : list Effect → Result Response;
  on_dial : list Effect → bool;
  on_identity : list Effect → Result Uuid;
  on_start : list Effect → Startup;
  on_tempdir : list Effect → Result string;
  on_write : list Effect → Result unit;
  on_pythonpath : option string;
  on_signals : list Effect → Result unit;
  on_spawn : list Effect → Result unit;
  on_child : list Effect → ChildEvent;
  on_wait : list Effect → Result Z;
}.
Arguments mkSurroundings {JS}.
Section State.
Context `{BL : !Blake3}.
(** [ln_history]: what was done; [ln_runtime]: the embedded runtime, if it
    runs; [ln_directories]: the temporary directories there are. *)
Record Launch := mkLaunch {
  ln_history : list Effect;
  ln_runtime : option RuntimeHandle;
  ln_directories : list string;
}.
#[export] Instance eta_Launch : Eta Launch := λ r, mkLaunch (ln_history r) (ln_runtime r) (ln_directories r).
End State.

(** ** Programs, paths and statuses *)

(** [Path::components] by [/], without the empty ones and [.]. *)
Definition components (path : string) : list string :=
  filter (λ c, c ≠ ""%string ∧ c ≠ "."%string) (split_on "/" path).
(** [Path::file_name]. *)
Definition file_name (path : string) : option string :=
  name ← last (components path); if bool_decide (name = "..") then None else Some name.
(** [OsStr::to_str]: the text, if it is UTF-8. *)
Fixpoint utf8_valid (fuel : nat) (l : list byte) : bool :=
  match fuel, l with
  | S fuel, b :: l =>
      match utf8_tail b with
      | Some ranges => let '(_, rest, ok) := utf8_match ranges l in ok && utf8_valid fuel rest
      | None => false
      end
  | _, [] => true
  | O, _ => false
  end.
Definition to_str (s : string) : option string := if utf8_valid (String.length s) (as_bytes s) then Some s else None.
(** [is_python]. *)
Definition is_python (program : string) : bool :=
  match name ← file_name program; to_str name with
  | Some name =>
      let name := to_ascii_lowercase name in
      bool_decide (name = "python") || String.prefix "python3" name || String.prefix "pypy" name
  | None => false
  end.
Example pythons :
  is_python <$> ["python"; "/usr/bin/Python3.11"; "pypy3"; "./python/"; "python2"; "bash"; ".."; ""]%string
  = [true; true; true; true; false; false; false; false].
Proof. vm_compute. reflexivity. Qed.

(** A wait status: [ExitStatus::success], [code] and [signal] on Linux. *)
Definition term_signal (status : Z) : Z := Z.land status 127.
Definition exit_status_code (status : Z) : option Z :=
  if term_signal status =? 0 then Some (Z.land (Z.shiftr status 8) 255) else None.
Definition exit_status_signal (status : Z) : option Z :=
  if (term_signal status =? 0) || (term_signal status =? 127) then None else Some (term_signal status).
(** [exit_code]. *)
Definition exit_code (status : Z) : Z :=
  match exit_status_code status with
  | Some code => code
  | None => 128 + default 1 (exit_status_signal status)
  end.

(** [std::env::join_paths]. *)
Definition join_paths (paths : list string) : Result string :=
  ensure (negb (existsb (contains ":") paths)) "path segment contains separator `:`";;
  Ok (join ":" paths).
Definition SITECUSTOMIZE : string :=
  "import os" +:+ String "010" (
  "if os.environ.get(" +:+ String "034" ("TRAINPOOL_ACTIVE" +:+ String "034" (") == " +:+ String "034" ("1" +:+ String "034" (
  ":" +:+ String "010" (
  "    from trainpool_torch.bootstrap import autoinstall" +:+ String "010" (
  "    autoinstall()" +:+ String "010" ""))))))).
Definition SDK_NOT_FOUND : string :=
  "TRAINPOOL_PYTHON_SDK_NOT_FOUND" +:+ String "010" (String "010" (
  "The Python interpreter selected by TrainPool does not contain" +:+ String "010" (
  "trainpool_torch." +:+ String "010" (String "010" (
  "Install the TrainPool Python adapter in this environment and retry."))))).

(** [Ipv4Addr::is_loopback] and [Ipv6Addr::is_loopback]. *)
Definition is_loopback (a : IpAddr) : bool := match a with V4 z => z / 2 ^ 24 =? 127 | V6 z => z =? 1 end.

(** ** Launching *)
Section Launching.
Context `{BL : !Blake3, UT : !UuidText, JS : !Json}.
Context (around : Surroundings).

(** Something done, and what comes of it. *)
Definition doing {A} (e : Effect) (outcome : list Effect → A) : SM Launch A :=
  act (λ w, (w <| ln_history ::= (.++ [e]) |>, Ok (outcome (ln_history w)))).
Definition trying {A} (e : Effect) (outcome : list Effect → Result A) : SM Launch A :=
  r ← doing e outcome; lift r.
Definition done (e : Effect) : SM Launch unit := doing e (λ _, ()).
(** The result of [m] as a value. *)
Definition attempt {S A} (m : SM S A) : SM S (Result A) := λ s,
  match m s with
  | (s', Panic) => (s', Panic)
  | (s', r) => (s', Ok r)
  end.
(** Drop glue on every way out, and on every way out but the value. *)
Definition always_then {S A} (m : SM S A) (after : S → S) : SM S A := λ s, let (s', r) := m s in (after s', r).
Definition unless_ok {S A} (m : SM S A) (after : S → S) : SM S A := λ s,
  match m s with
  | (s', Ok a) => (s', Ok a)
  | (s', r) => (after s', r)
  end.
(** The handle of the embedded runtime is dropped or shut down. *)
Definition stop_runtime (stop : RuntimeHandle → RuntimeHandle) (w : Launch) : Launch :=
  w <| ln_history ::= (.++ [StoppedRuntime]) |> <| ln_runtime ::= fmap stop |>.
(** [context]. *)
Definition context {S A} (message : string) (m : SM S A) : SM S A := λ s,
  match m s with (s', Err _) => (s', Err message) | other => other end.
Definition remove_directory (dir : string) (w : Launch) : Launch :=
  w <| ln_history ::= (.++ [RemovedDirectory dir]) |> <| ln_directories ::= filter (λ d, d ≠ dir) |>.

(** [python_sdk_available]. *)
Definition python_sdk_available (program : string) : SM Launch unit :=
  status ← trying (CheckedSdk program) (on_sdk around);
  ensureM (status =? 0) SDK_NOT_FOUND.
(** [request_plan]. *)
Definition request_plan (address : SocketAddr) : SM Launch Response :=
  response ← trying (AskedPlan address) (on_plan around);
  lift (check response);;
  mret response.
(** The configuration of an embedded runtime. *)
Definition embedded_config (config : Config) (address : SocketAddr) : Config :=
  if negb (is_unspecified (c_listen config).1) || negb ((c_listen config).2 =? address.2) then
    config <| c_listen := address |>
           <| c_advertise_ip ::= match address.1 with V4 ip => λ _, Some ip | V6 _ => id end |>
  else config.
Definition embed (config : Config) (id : Uuid) : SM Launch unit := act (λ w,
  match start_runtime (on_start around (ln_history w)) config id with
  | Ok h => (w <| ln_history ::= (.++ [StartedRuntime config id]) |> <| ln_runtime := Some h |>, Ok ())
  | Err e => (w, Err e)
  | Panic => (w, Panic)
  end).
(** The requests of a plan after a start: at most [n], 25 ms apart. *)
Fixpoint await_plan (n : nat) (address : SocketAddr) (last_error : string) : SM Launch Response :=
  match n with
  | O => bailM ("TRAINPOOL_LOCAL_DAEMON_START_FAILED: local runtime did not become ready: " +:+ last_error)
  | S n =>
      r ← attempt (request_plan address);
      match r with
      | Ok response => mret response
      | Err e => done (Slept 25);; await_plan n address e
      | Panic => lift Panic
      end
  end.
(** [plan_with_local_runtime]: the plan, and whether a runtime was embedded. *)
Definition plan_with_local_runtime (config : Config) (address : SocketAddr) : SM Launch (Response * bool) :=
  r ← attempt (request_plan address);
  match r with
  | Ok response => mret (response, false)
  | Err probe_error =>
      connected ← doing (Dialed address) (on_dial around);
      ensureM (negb connected)
        ("TRAINPOOL_LOCAL_DAEMON_UNAVAILABLE: a process is listening on " +:+ socket_str address
         +:+ ", but TrainPool could not use it (port occupied or authentication mismatch): " +:+ probe_error);;
      ensureM (is_loopback address.1)
        ("TRAINPOOL_LOCAL_DAEMON_UNAVAILABLE: refusing to embed a runtime for non-loopback address "
         +:+ socket_str address);;
      let embedded := embedded_config config address in
      id ← trying ReadIdentity (on_identity around);
      started ← attempt (embed embedded id);
      match started with
      | Ok _ =>
          unless_ok
            ((if c_discovery_enabled embedded then done (Slept 2200) else mret ());;
             response ← await_plan 20 address "unknown error";
             mret (response, true)) (stop_runtime drop_handle)
      | Err start_error =>
          r ← attempt (request_plan address);
          match r with
          | Ok response => mret (response, false)
          | _ => bailM ("TRAINPOOL_LOCAL_DAEMON_START_FAILED: could not start the local runtime on "
                        +:+ socket_str address +:+ ": " +:+ start_error)
          end
      | Panic => lift Panic
      end
  | Panic => lift Panic
  end.

(** [wait_for_child]: the first signal is passed on. *)
Definition wait_for_child : SM Launch Z :=
  trying Installed (on_signals around);;
  event ← doing Waited (on_child around);
  match event with
  | ChildEnded status => lift status
  | Signalled signal live =>
      (if live then done (Forwarded signal) else mret ());;
      trying Waited (on_wait around)
  end.

(** The search path of the child: the directory with [sitecustomize.py] first. *)
Definition pythonpath (dir : string) : Result string :=
  match on_pythonpath around with
  | Some existing => join_paths (dir :: split_on ":" existing)
  | None => Ok dir
  end.
Definition child_env (config : Config) (address : SocketAddr) (job_id path : string) : list (string * string) :=
  [("TRAINPOOL_ACTIVE", "1"); ("TRAINPOOL_ADDRESS", socket_str address);
   ("TRAINPOOL_CLUSTER_NAME", c_cluster_name config); ("TRAINPOOL_JOB_ID", job_id); ("PYTHONPATH", path)]%string
  ++ match c_cluster_secret config with Some secret => [("TRAINPOOL_CLUSTER_SECRET", secret)]%string | None => [] end.
Definition bootstrap : SM Launch string :=
  dir ← trying MadeDirectory (on_tempdir around);
  modify (λ w, w <| ln_directories ::= (.++ [dir]) |>);;
  mret dir.
(** The child, with the directory of the bootstrap. *)
Definition run_child (program : string) (args : list string) (config : Config) (address : SocketAddr)
    (job_id dir : string) : SM Launch Z :=
  trying (WroteFile (path_join dir "sitecustomize.py") SITECUSTOMIZE) (on_write around);;
  path ← lift (pythonpath dir);
  context "failed to launch training process"
    (trying (Spawned (mkCommand program args (child_env config address job_id path))) (on_spawn around));;
  wait_for_child.

(** [launch]: the exit code. What it holds is dropped on every way out, the
    directory first, then the embedded runtime. *)
Definition launch (argv : list string) (config : Config) (address : SocketAddr) : SM Launch Z :=
  match argv with
  | [] => bailM "missing program to execute"
  | program :: args =>
      (if is_python program then python_sdk_available program else mret ());;
      '(plan, embedded) ← plan_with_local_runtime config address;
      status ← unless_ok
        (job_id ← lift (ok_or (json_as_str (json_field (r_data plan) "job_id"))
                     "TRAINPOOL_INVALID_PLAN: missing job_id");
         dir ← bootstrap;
         always_then (run_child program args config address job_id dir) (remove_directory dir))
        (if embedded : bool then stop_runtime drop_handle else id);
      (if embedded : bool then modify (stop_runtime shutdown) else mret ());;
      mret (exit_code status)
  end.


(** ** Nothing is left behind *)

(** [triple P m Q]: a run of [m] from a state of [P] ends as [Q] says. *)
Definition triple {S A} (P : S → Prop) (m : SM S A) (Q : Result A → S → Prop) : Prop :=
  ∀ s, P s → Q (m s).2 (m s).1.
(** What holds for the value [R], and for a failure [E]. *)
Definition ends {S A} (R : A → S → Prop) (E : S → Prop) (r : Result A) (s : S) : Prop :=
  match r with Ok a => R a s | _ => E s end.
Lemma triple_bind {S A B} (P : S → Prop) (m : SM S A) (f : A → SM S B) R R' E :
  triple P m (ends R E) → (∀ a, triple (R a) (f a) (ends R' E)) → triple P (m ≫= f) (ends R' E).
Proof.
  intros Hm Hf s Hs. specialize (Hm s Hs). unfold mbind, SM_bind.
  destruct (m s) as [s' [a|e|]]; cbn in *; [by apply Hf|done..].
Qed.
Lemma triple_stay {S A B} (P : S → Prop) (m : SM S A) (f : A → SM S B) R E :
  preserves P m → (∀ s, P s → E s) → (∀ a, triple P (f a) (ends R E)) → triple P (m ≫= f) (ends R E).
Proof.
  intros Hm HE. apply triple_bind. intros s Hs. specialize (Hm s Hs). destruct (m s).2; cbn; auto.
Qed.
Lemma triple_ret {S A} (P : S → Prop) (a : A) (R : A → S → Prop) E : (∀ s, P s → R a s) → triple P (mret a) (ends R E).
Proof. intros H s Hs. by apply H. Qed.
Lemma triple_preserves {S A} (P : S → Prop) (m : SM S A) : preserves P m → triple P m (ends (λ _, P) P).
Proof. intros Hm s Hs. specialize (Hm s Hs). by destruct (m s).2. Qed.
Lemma preserves_triple {S A} (P : S → Prop) (m : SM S A) : triple P m (ends (λ _, P) P) → preserves P m.
Proof. intros Hm s Hs. specialize (Hm s Hs). by destruct (m s).2. Qed.
Lemma triple_fails {S A} (P : S → Prop) (m : SM S A) R (E : S → Prop) :
  (∀ s, (m s).1 = s ∧ is_ok (m s).2 = false) → (∀ s, P s → E s) → triple P m (ends R E).
Proof. intros Hm H s Hs. destruct (Hm s) as [-> Hr]. destruct (m s).2; [done|..]; by apply H. Qed.
Lemma preserves_attempt {S A} (P : S → Prop) (m : SM S A) : preserves P m → preserves P (attempt m).
Proof. intros Hm s Hs. specialize (Hm s Hs). unfold attempt. by destruct (m s) as [s' []]. Qed.
Lemma preserves_context {S A} (P : S → Prop) text (m : SM S A) : preserves P m → preserves P (context text m).
Proof. intros Hm s Hs. specialize (Hm s Hs). unfold context. by destruct (m s) as [s' []]. Qed.
Lemma triple_unless {S A} (P : S → Prop) (m : SM S A) after (R : A → S → Prop) (E E' : S → Prop) :
  triple P m (ends R E) → (∀ s, E s → E' (after s)) → triple P (unless_ok m after) (ends R E').
Proof. intros Hm H s Hs. specialize (Hm s Hs). unfold unless_ok. destruct (m s) as [s' []]; cbn in *; auto. Qed.
Lemma triple_always {S A} (P Q : S → Prop) (m : SM S A) after :
  preserves P m → (∀ s, P s → Q (after s)) → triple P (always_then m after) (ends (λ _, Q) Q).
Proof.
  intros Hm H s Hs. specialize (Hm s Hs). unfold always_then. destruct (m s) as [s' []]; cbn in *; auto.
Qed.

(** What is true whatever else is done stays true of everything but the start
    and the end of the embedded runtime. *)
Definition stable (P : Launch → Prop) : Prop :=
  ∀ e w, (∀ c id, e ≠ StartedRuntime c id) → P w → P (w <| ln_history ::= (.++ [e]) |>).
Section Stable.
Context (P : Launch → Prop) (HP : stable P).
Lemma doing_stays {A} e (o : list Effect → A) : (∀ c id, e ≠ StartedRuntime c id) → preserves P (doing e o).
Proof. intros He w Hw. by apply HP. Qed.
Lemma trying_stays {A} e (o : list Effect → Result A) : (∀ c id, e ≠ StartedRuntime c id) → preserves P (trying e o).
Proof. intros He w Hw. by apply (doing_stays e o). Qed.
Ltac stays := repeat (sm_walk; try match goal with
  | |- preserves _ (attempt _) => apply preserves_attempt
  | |- preserves _ (context _ _) => apply preserves_context
  | |- preserves _ (doing _ _) => by apply doing_stays
  | |- preserves _ (done _) => by apply doing_stays
  | |- preserves _ (trying _ _) => by apply trying_stays
  end).
Lemma request_stays address : preserves P (request_plan address).
Proof. unfold request_plan. stays. Qed.
Lemma sdk_stays program : preserves P (python_sdk_available program).
Proof. unfold python_sdk_available. stays. Qed.
Lemma await_stays address n : ∀ e, preserves P (await_plan n address e).
Proof.
  induction n as [|n IH]; intros e; cbn [await_plan]; [apply preserves_lift|].
  apply preserves_bind; [apply preserves_attempt, request_stays|]. stays. apply IH.
Qed.
Lemma wait_stays : preserves P wait_for_child.
Proof. unfold wait_for_child. stays. Qed.
Lemma child_stays program args config address job_id dir :
  preserves P (run_child program args config address job_id dir).
Proof. unfold run_child. stays. apply wait_stays. Qed.
End Stable.

(** What a launch holds: its directories, and whether a runtime may run. *)
Definition all_quiet (w : Launch) : Prop := ∀ h, ln_runtime w = Some h → quiet h = true.
Definition holding (dirs : list string) (embedded : bool) (w : Launch) : Prop :=
  ln_directories w = dirs ∧ (embedded = false → all_quiet w).
Lemma holding_stable dirs b : stable (holding dirs b).
Proof. by intros e w _ []. Qed.
#[local] Hint Resolve holding_stable doing_stays trying_stays request_stays await_stays preserves_attempt preserves_lift : sm.
Lemma stop_quiet (stop : RuntimeHandle → RuntimeHandle) dirs b w :
  (∀ h, quiet (stop h) = true) → holding dirs b w → holding dirs false (stop_runtime stop w).
Proof.
  intros Hq [Hd _]. split; [done|]. intros _ h. cbn. destruct (ln_runtime w) as [h'|]; [|done]. intros [= <-]. apply Hq.
Qed.
Lemma holding_true dirs b w : holding dirs b w → holding dirs true w.
Proof. by intros []. Qed.

Lemma plan_holding config address dirs :
  triple (holding dirs false) (plan_with_local_runtime config address)
    (ends (λ r, holding dirs r.2) (holding dirs false)).
Proof.
  unfold plan_with_local_runtime. apply triple_stay; [auto with sm|done|].
  intros [r|e|]; [by apply triple_ret| |by apply triple_fails].
  apply triple_stay; [auto with sm|done|]. intros c. apply triple_stay; [apply preserves_lift|done|]. intros _.
  apply triple_stay; [apply preserves_lift|done|]. intros _. cbv zeta.
  apply triple_stay; [auto with sm|done|]. intros id.
  apply (triple_bind _ _ _ (λ r, holding dirs (is_ok r))).
  { intros w Hw. unfold attempt, embed, act. destruct (start_runtime _ _ _); cbn; [by destruct Hw|done..]. }
  intros [[]|e'|]; cbn [is_ok].
  - eapply (triple_unless _ _ _ _ (holding dirs true)); [|intros s Hs; by eapply stop_quiet; [apply drop_quiet|]].
    apply triple_stay; [case_match; [by apply doing_stays; [apply holding_stable|]|apply preserves_ret]|done|]. intros _.
    apply triple_stay; [apply await_stays, holding_stable|done|]. intros r. by apply triple_ret.
  - apply triple_stay; [auto with sm|done|]. intros [r|e2|]; [by apply triple_ret|by apply triple_fails..].
  - by apply triple_fails.
Qed.

Lemma bootstrap_holding b : triple (holding [] b) bootstrap (ends (λ dir, holding [dir] b) (holding [] b)).
Proof.
  unfold bootstrap. apply triple_stay; [apply trying_stays; [apply holding_stable|done]|done|]. intros dir w [Hd Hq]. cbn.
  split; [|done]. change (ln_directories w ++ [dir] = [dir]). by rewrite Hd.
Qed.
Lemma remove_holding dir b w : holding [dir] b w → holding [] b (remove_directory dir w).
Proof. intros [Hd Hq]. split; [|done]. cbn. rewrite Hd. rewrite filter_cons_False; [done|naive_solver]. Qed.


(** ** When a runtime is embedded *)

(** Before [pre] ended, the daemon at [address] gave no plan and nothing
    accepted a connection there. *)
Definition alone_at (address : SocketAddr) (history : list Effect) : Prop :=
  ∃ before since rest, history = (before ++ AskedPlan address :: since) ++ Dialed address :: rest
  ∧ (on_plan around before ≫= check) ≠ Ok () ∧ on_dial around (before ++ AskedPlan address :: since) = false.
Definition starts_ok (config : Config) (address : SocketAddr) (w : Launch) : Prop :=
  ∀ before c id rest, ln_history w = before ++ StartedRuntime c id :: rest →
    is_loopback address.1 = true ∧ valid c ∧ c = embedded_config config address ∧ alone_at address before.

Lemma snoc_split {A} (l before rest : list A) x e :
  l ++ [e] = before ++ x :: rest → (e = x ∧ rest = [] ∧ l = before) ∨ ∃ rest', l = before ++ x :: rest'.
Proof.
  destruct (decide (rest = [])) as [->|Hne].
  - intros H%app_inj_tail. left. naive_solver.
  - destruct (exists_last Hne) as (rest' & y & ->). rewrite app_comm_cons, (assoc_L (++)).
    intros [-> ->]%app_inj_tail. right. by exists rest'.
Qed.
Lemma starts_ok_stable config address : stable (starts_ok config address).
Proof.
  intros e w He Hw before c id rest [(-> & _)|(rest' & H)]%snoc_split; [by destruct (He c id)|by apply (Hw before c id rest')].
Qed.
Lemma alone_grows address l e : alone_at address l → alone_at address (l ++ [e]).
Proof.
  intros (before & since & rest & -> & H). exists before, since, (rest ++ [e]). split; [|done].
  by rewrite <-(assoc_L (++)), <-app_comm_cons.
Qed.

(** A plan that was asked for and not given. *)
Definition denied (address : SocketAddr) (l : list Effect) : Prop :=
  ∃ before, l = before ++ [AskedPlan address] ∧ (on_plan around before ≫= check) ≠ Ok ().
Lemma request_denied P address :
  stable P → triple P (attempt (request_plan address))
    (ends (λ r w, P w ∧ match r with Ok _ => True | _ => denied address (ln_history w) end) P).
Proof.
  intros HP w Hw. assert (P (w <| ln_history ::= (.++ [AskedPlan address]) |>)) as Hw' by by apply HP.
  unfold attempt, request_plan, trying, doing, lift, act, mbind, SM_bind.
  destruct (on_plan around (ln_history w)) as [r|e|] eqn:E; cbn; [|split; [done|]; eexists; split; [done|]; by rewrite E|done].
  destruct (check r) as [[]|e|] eqn:Ec; cbn; [done| |done].
  split; [done|]. eexists. split; [done|]. by rewrite E; cbn; rewrite Ec.
Qed.
Definition ready (config : Config) (address : SocketAddr) (w : Launch) : Prop :=
  starts_ok config address w ∧ alone_at address (ln_history w).
Lemma ready_stable config address : stable (ready config address).
Proof. intros e w He [H1 H2]. split; [by apply starts_ok_stable|by apply alone_grows]. Qed.

Lemma plan_starts config address :
  preserves (starts_ok config address) (plan_with_local_runtime config address).
Proof.
  apply preserves_triple. unfold plan_with_local_runtime. pose proof (starts_ok_stable config address) as HS.
  eapply triple_bind; [by apply request_denied|]. intros [r|e|]; cbv beta;
    [by apply triple_ret; intros s []| |by apply triple_fails; [|by intros s []]].
  apply (triple_bind _ _ _ (λ c w, starts_ok config address w ∧ (c = false → alone_at address (ln_history w)))).
  { intros w [Hw (before & El & Hd)]. cbn. split; [by apply HS|]. intros Hc. exists before, [], [].
    rewrite El in *. done. }
  intros c. destruct c; [by apply triple_fails; [|by intros s []]|].
  apply (triple_bind _ _ _ (λ _, ready config address)).
  { intros w [H1 H2]. cbn. split; auto. }
  intros _. destruct (is_loopback address.1) eqn:Hl;
    [|by apply triple_fails; [|by intros s []]]. cbn [ensureM].
  apply (triple_stay (ready config address)); [apply preserves_lift|by intros s []|]. intros _. cbv zeta.
  apply (triple_stay (ready config address)); [by apply trying_stays; [apply ready_stable|]|by intros s []|]. intros id.
  apply (triple_bind _ _ _ (λ _, starts_ok config address)).
  { intros w [Hw Ha]. unfold attempt, embed, act. destruct (start_runtime _ _ _) as [h|e'|] eqn:Es; cbn; try done.
    intros before c id' rest [([= <- <-] & _ & <-)|(rest' & H)]%snoc_split.
    - split_and!; [done|by eapply start_valid|done..].
    - by apply (Hw before c id' rest'). }
  intros [[]|e'|].
  - apply triple_preserves. intros w Hw. unfold unless_ok.
    set (m := ((if _ : bool then _ else _) ≫= _ : SM Launch _)).
    assert (preserves (starts_ok config address) m) as Hm.
    { unfold m. apply preserves_bind; [case_match; [by apply doing_stays|apply preserves_ret]|]. intros _.
      apply preserves_bind; [by apply await_stays|]. intros ?. apply preserves_ret. }
    specialize (Hm w Hw). destruct (m w) as [w' []]; cbn in *; [done|by apply HS..].
  - apply triple_stay; [by apply preserves_attempt, request_stays|done|].
    intros [r|e2|]; [by apply triple_ret|by apply triple_fails..].
  - by apply triple_fails.
Qed.

(** The configuration of the embedded runtime differs in its address only,
    and listens where the plan is asked for. *)
Lemma embedded_config_spec config address :
  let c := embedded_config config address in
  (c_listen c = address ∨ is_unspecified (c_listen c).1 = true ∧ (c_listen c).2 = address.2)
  ∧ c = config <| c_listen := c_listen c |> <| c_advertise_ip := c_advertise_ip c |>.
Proof.
  unfold embedded_config. cbn zeta. destruct config.
  destruct (_ || _) eqn:E; cbn; [|apply orb_false_iff in E as [E1 E2]; apply negb_false_iff in E1, E2; apply Z.eqb_eq in E2];
    by auto.
Qed.

Lemma launch_starts argv config address : preserves (starts_ok config address) (launch argv config address).
Proof.
  pose proof (starts_ok_stable config address) as HS. unfold launch.
  destruct argv as [|program args]; [apply preserves_lift|].
  apply preserves_bind; [case_match; [by apply sdk_stays|apply preserves_ret]|]. intros _.
  apply preserves_bind; [apply plan_starts|]. intros [plan embedded].
  assert (∀ stop w, starts_ok config address w → starts_ok config address (stop_runtime stop w)) as Hstop
    by (intros stop w Hw; exact (HS StoppedRuntime w ltac:(done) Hw)).
  apply preserves_bind.
  - intros w Hw. unfold unless_ok. set (m := _ ≫= _ : SM Launch Z). assert (preserves (starts_ok config address) m) as Hm.
    { unfold m. apply preserves_bind; [apply preserves_lift|]. intros job_id. apply preserves_bind.
      - unfold bootstrap. apply preserves_bind; [by apply trying_stays|]. intros dir w1 Hw1. exact Hw1.
      - intros dir w1 Hw1. unfold always_then. pose proof (child_stays _ HS program args config address job_id dir w1 Hw1) as H.
        destruct (run_child program args config address job_id dir w1) as [w2 r]. exact (HS (RemovedDirectory dir) w2 ltac:(done) H). }
    specialize (Hm w Hw). destruct (m w) as [w' []]; cbn in *; [done|by destruct embedded; auto..].
  - intros status. apply preserves_bind; [|intros; apply preserves_ret]. destruct embedded; [|apply preserves_ret].
    intros w Hw. by apply Hstop.
Qed.
(** C29. A launch embeds a runtime only where it is alone: when it does, the
    address is a loopback address, the daemon there was asked for a plan and
    gave none, and then nothing accepted a connection; the runtime has the
    configuration of the user, which is valid, but for the address it
    listens on and advertises, and that is the address of the plan, or every
    address with its port. *)
Theorem embeds_alone argv config address w before c id rest :
  ln_history w = [] →
  ln_history (launch argv config address w).1 = before ++ StartedRuntime c id :: rest →
  is_loopback address.1 = true ∧ alone_at address before ∧ valid c
  ∧ (c_listen c = address ∨ is_unspecified (c_listen c).1 = true ∧ (c_listen c).2 = address.2)
  ∧ c = config <| c_listen := c_listen c |> <| c_advertise_ip := c_advertise_ip c |>.
Proof.
  intros Hw H. assert (starts_ok config address w) as H0.
  { intros b c' id' r E. rewrite Hw in E. by destruct b. }
  destruct (launch_starts argv config address w H0 _ _ _ _ H) as (H1 & H2 & -> & H4).
  pose proof (embedded_config_spec config address) as [H5 H6]. auto.
Qed.
(** But every address may miss it: with the default configuration, which
    listens on all IPv4 addresses, the runtime embedded for a plan at the IPv6
    loopback address does not listen there. *)
Theorem ipv6_loopback_missed : embedded_config default_config (V6 1, 7432) = default_config.
Proof. reflexivity. Qed.

(** ** The command *)

Lemma term_signal_range status : 0 <= term_signal status <= 127.
Proof.
  unfold term_signal. change 127 with (Z.ones 7). rewrite Z.land_ones by lia.
  pose proof (Z.mod_pos_bound status (2 ^ 7) ltac:(lia)). change (Z.ones 7) with 127. lia.
Qed.
Lemma exit_code_range status :
  0 <= exit_code status <= 254 ∨ 0 <= exit_code status <= 255 ∧ exit_status_code status = Some (exit_code status).
Proof.
  unfold exit_code, exit_status_code, exit_status_signal. pose proof (term_signal_range status).
  pose proof (Z.mod_pos_bound (Z.shiftr status 8) (2 ^ 8) ltac:(lia)).
  change 255 with (Z.ones 8). rewrite Z.land_ones by lia. change (Z.ones 8) with 255.
  destruct (Z.eqb_spec (term_signal status) 0); [right; split; [lia|done]|left].
  destruct (Z.eqb_spec (term_signal status) 127); cbn [orb default from_option id]; [lia|]. unfold id. lia.
Qed.
Lemma exit_code_zero status : exit_code status = 0 ↔ exit_status_code status = Some 0.
Proof.
  unfold exit_code. destruct (exit_status_code status) as [z|]; [naive_solver|]. split; [|done].
  unfold exit_status_signal. pose proof (term_signal_range status). case_match; cbn; unfold id; lia.
Qed.

Lemma split_join (l : list string) : l ≠ [] → existsb (contains ":") l = false → split_on ":" (join ":" l) = l.
Proof.
  unfold join. intros Hl. induction l as [|x l IH]; [done|]. cbn [existsb]. intros [Hx Hn]%orb_false_iff.
  destruct l as [|y l]; [by apply split_on_none|].
  change (String.concat ":" (x :: y :: l)) with (x +:+ String ":" (String.concat ":" (y :: l))).
  rewrite split_on_app, IH by done. done.
Qed.
Lemma split_contains c s : existsb (contains c) (split_on c s) = false.
Proof.
  induction s as [|a s IH]; [done|]. cbn [split_on]. destruct (split_on c s) as [|w ws]; [done|].
  cbn [existsb] in *. apply orb_false_iff in IH as [H1 H2]. case_bool_decide as Ha; cbn [existsb contains].
  - by rewrite H1, H2.
  - by rewrite bool_decide_false, H1, H2 by done.
Qed.
Lemma pythonpath_Ok dir path :
  contains ":" dir = false → pythonpath dir = Ok path →
  split_on ":" path = dir :: match on_pythonpath around with Some existing => split_on ":" existing | None => [] end.
Proof.
  unfold pythonpath, join_paths. intros Hd H. destruct (on_pythonpath around) as [existing|].
  - apply ensure_then in H as [Hn [= <-]].
    change (split_on ":" (join ":" (dir :: split_on ":" existing)) = dir :: split_on ":" existing).
    apply split_join; [done|].
    cbn [existsb]. by rewrite Hd, split_contains.
  - injection H as <-. by apply split_on_none.
Qed.

(** The plan a launch goes on with is one that was given. *)
Definition planned (plan : Response) : Prop := ∃ h, on_plan around h = Ok plan ∧ r_ok plan = true.
Lemma trying_Ok {A} e (o : list Effect → Result A) w w' a :
  trying e o w = (w', Ok a) → w' = w <| ln_history ::= (.++ [e]) |> ∧ o (ln_history w) = Ok a.
Proof. unfold trying, doing, lift, act, mbind, SM_bind. intros [= <- H]. done. Qed.
Lemma request_planned address w w' plan : request_plan address w = (w', Ok plan) → planned plan.
Proof.
  unfold request_plan. intros (r & w1 & [_ H]%trying_Ok & Hr)%sm_bind_Ok.
  apply sm_bind_Ok in Hr as ([] & w2 & [= <- Hc] & [= <- <-]). exists (ln_history w). split; [done|].
  by apply ensure_Ok in Hc.
Qed.
Lemma attempt_Ok {S A} (m : SM S A) s s' a : attempt m s = (s', Ok (Ok a)) → m s = (s', Ok a).
Proof. unfold attempt. destruct (m s) as [? []]; by intros [= <- <-]. Qed.
Lemma await_planned address n : ∀ e w w' plan, await_plan n address e w = (w', Ok plan) → planned plan.
Proof.
  induction n as [|n IH]; intros e w w' plan; [done|]. cbn [await_plan].
  intros ([r|e'|] & w1 & H & Hr)%sm_bind_Ok; [|apply sm_bind_Ok in Hr as (? & ? & _ & Hr); by eapply IH|done].
  injection Hr as <- <-. apply attempt_Ok in H. by eapply request_planned.
Qed.
Lemma unless_Ok {S A} (m : SM S A) after s s' a : unless_ok m after s = (s', Ok a) → m s = (s', Ok a).
Proof. unfold unless_ok. by destruct (m s) as [? []]. Qed.
Lemma plan_planned config address w w' plan embedded :
  plan_with_local_runtime config address w = (w', Ok (plan, embedded)) → planned plan.
Proof.
  unfold plan_with_local_runtime. intros ([r|e|] & w1 & H & Hr)%sm_bind_Ok; [| |done].
  - injection Hr as _ <- _. apply attempt_Ok in H. by eapply request_planned.
  - apply sm_bind_Ok in Hr as (c & w2 & _ & Hr). apply sm_bind_Ok in Hr as (? & w3 & _ & Hr).
    apply sm_bind_Ok in Hr as (? & w4 & _ & Hr). apply sm_bind_Ok in Hr as (id & w5 & _ & Hr).
    apply sm_bind_Ok in Hr as ([[]|e'|] & w6 & _ & Hr); [| |done].
    + apply unless_Ok in Hr. apply sm_bind_Ok in Hr as (? & w7 & _ & Hr).
      apply sm_bind_Ok in Hr as (r & w8 & Hp & [= _ <- _]). by eapply await_planned.
    + apply sm_bind_Ok in Hr as ([r|e2|] & w7 & Hp & Hr); [|done..]. injection Hr as _ <- _.
      apply attempt_Ok in Hp. by eapply request_planned.
Qed.

(** The status of the child is what the system reported once it was spawned. *)
Definition reported (c : ChildCommand) (status : Z) : Prop :=
  ∃ before since, on_spawn around before = Ok ()
  ∧ (on_child around (before ++ Spawned c :: since) = ChildEnded (Ok status)
     ∨ on_wait around (before ++ Spawned c :: since) = Ok status).
Lemma run_child_reported program args config address job_id dir w w' status :
  run_child program args config address job_id dir w = (w', Ok status) →
  ∃ path, pythonpath dir = Ok path
  ∧ reported (mkCommand program args (child_env config address job_id path)) status.
Proof.
  unfold run_child. intros (? & w1 & _ & H)%sm_bind_Ok. apply sm_bind_Ok in H as (path & w2 & [= -> Hp] & H).
  apply sm_bind_Ok in H as ([] & w3 & Hs & H). exists path. split; [done|]. 
  set (c := mkCommand _ _ _) in *.
  assert (trying (Spawned c) (on_spawn around) w2 = (w3, Ok ())) as [-> Hsp]%trying_Ok.
  { revert Hs. unfold context. by destruct (trying _ _ w2) as [? []]. }
  unfold wait_for_child in H. apply sm_bind_Ok in H as (? & w4 & [-> _]%trying_Ok & H).
  apply sm_bind_Ok in H as (event & w5 & [= <- <-] & H). cbn in H. unfold reported. exists (ln_history w2).
  destruct (on_child around _) as [r|signal live] eqn:Ec.
  - injection H as _ ->. exists [Installed]. split; [done|left]. by rewrite <-Ec, <-(assoc_L (++)).
  - apply sm_bind_Ok in H as ([] & w6 & Hl & [_ Hw]%trying_Ok).
    exists (if live then [Installed; Waited; Forwarded signal] else [Installed; Waited]). split; [done|right].
    rewrite <-Hw. f_equal. destruct live; injection Hl as <-; cbn; by rewrite <-!(assoc_L (++)).
Qed.

(** C30. A launch that returns a code has run the command of the user, with a
    plan of the daemon: the arguments are the user's, the variables say that
    TrainPool is active, where it listens, its cluster and secret and the job
    of the plan, and the first directory on the search path is the one with
    [sitecustomize.py], before those there were. The code is that of the
    command: its exit code, or 128 and its signal; it is zero only if the
    command ended with zero. *)
Theorem launch_runs_command argv config address w w' code :
  launch argv config address w = (w', Ok code) →
  ∃ program args plan job_id dir path status,
    argv = program :: args ∧ planned plan ∧ json_as_str (json_field (r_data plan) "job_id") = Some job_id
    ∧ reported (mkCommand program args (child_env config address job_id path)) status
    ∧ (contains ":" dir = false →
       split_on ":" path = dir :: match on_pythonpath around with Some p => split_on ":" p | None => [] end)
    ∧ code = exit_code status ∧ 0 <= code <= 255 ∧ (code = 0 ↔ exit_status_code status = Some 0).
Proof.
  unfold launch. destruct argv as [|program args]; [done|]. intros (? & w1 & _ & H)%sm_bind_Ok.
  apply sm_bind_Ok in H as ([plan embedded] & w2 & Hp%plan_planned & H).
  apply sm_bind_Ok in H as (status & w3 & Hs%unless_Ok & H). apply sm_bind_Ok in H as (? & w4 & _ & [= _ <-]).
  apply sm_bind_Ok in Hs as (job_id & w5 & [= <- Hj] & H). apply sm_bind_Ok in H as (dir & w6 & _ & H).
  assert (∃ w7, run_child program args config address job_id dir w6 = (w7, Ok status)) as [w7 Hr].
  { unfold always_then in H. destruct (run_child _ _ _ _ _ _ w6) as [w7 r]. injection H as _ ->. by exists w7. }
  apply run_child_reported in Hr as (path & Hpath & Hrep).
  exists program, args, plan, job_id, dir, path, status. split_and!; try done.
  - unfold ok_or in Hj. destruct (json_as_str _); [by injection Hj as ->|done].
  - intros Hd. by apply pythonpath_Ok.
  - pose proof (exit_code_range status). lia.
  - pose proof (exit_code_range status). lia.
  - apply exit_code_zero.
Qed.
End Launching.

(** ** A launch without a daemon *)
Import Toy.
Module Training.
Import Scenario.
Definition local : SocketAddr := (V4 (ipv4 127 0 0 1), 7432).
Definition user : Config := default_config <| c_cluster_secret := Some "key"%string |> <| c_discovery_enabled := false |>.
Definition slept (h : list Effect) : bool := existsb (λ e, match e with Slept _ => true | _ => false end) h.
Definition startup : Startup := mkStartup (Ok ()) (λ _, Ok (V4 (ipv4 10 0 0 1))) probe 0 1000 (Err "no multicast").
Definition plan : Response := mkResponse true (TObject [("job_id", TText "job")]%string : Value) None.
(** The plan is given at the second request after the start; the command is
    interrupted and dies of the signal. *)
Definition around : Surroundings := mkSurroundings
  (λ _, Ok 0)
  (λ h, if slept h then Ok plan else Err "connection refused")
  (λ _, false) (λ _, Ok 5) (λ _, startup) (λ _, Ok "/tmp/b"%string) (λ _, Ok ()) (Some "/lib:/more"%string)
  (λ _, Ok ()) (λ _, Ok ()) (λ _, Signalled 2 true) (λ _, Ok 2).
Definition nothing : Launch := mkLaunch [] None [].
Definition argv : list string := ["/usr/bin/python3"; "train.py"]%string.
End Training.

Lemma embeds_alone_witness :
  let before := [CheckedSdk "/usr/bin/python3"; AskedPlan Training.local; Dialed Training.local; ReadIdentity] in
  take 5 (ln_history (launch Training.around Training.argv Training.user Training.local Training.nothing).1)
    = before ++ [StartedRuntime Training.user 5]
  ∧ alone_at Training.around Training.local before ∧ valid Training.user.
Proof.
  cbn zeta. split; [vm_refl|].
  destruct (embeds_alone Training.around Training.argv Training.user Training.local Training.nothing
    [CheckedSdk "/usr/bin/python3"; AskedPlan Training.local; Dialed Training.local; ReadIdentity] Training.user 5
    (drop 5 (ln_history (launch Training.around Training.argv Training.user Training.local Training.nothing).1)))
    as (_ & H1 & H2 & _); [reflexivity|vm_refl|]. split; [exact H1|exact H2].
Defined.
Lemma launch_runs_command_witness :
  match launch Training.around Training.argv Training.user Training.local Training.nothing with
  | (_, Ok code) => code = 130 ∧ ∃ c status, reported Training.around c status ∧ code = exit_code status
  | _ => False
  end.
Proof.
  destruct (launch Training.around Training.argv Training.user Training.local Training.nothing) as [w' r] eqn:E.
  assert (r = Ok 130) as Hr.
  { change r with (w', r).2. rewrite <-E. vm_refl. }
  subst r. split; [reflexivity|].
  destruct (launch_runs_command Training.around Training.argv Training.user Training.local Training.nothing w' 130 E)
    as (program & args & plan & job_id & dir & path & status & _ & _ & _ & H & _ & Hc & _).
  exists (mkCommand program args (child_env Training.user Training.local job_id path)), status. split; [exact H|exact Hc].
Defined.
