(* ===== verification/Cli.v ===== *)
(** * The command line: [src/cli/mod.rs]

    Commands that change the configuration, run a daemon, launch a training
    command, or ask a daemon and print its answer. Parsing the arguments is
    the [clap] crate's; here a command is already parsed. *)

From Stdlib Require Import Floats.SpecFloat.
From Stdlib Require Import Ascii.
From S2P Require Import Prelude.
From S2P Require Import Lists.
From S2P Require Import Float64.
From S2P Require Import Externals.
From S2P Require Import Text.
From S2P Require Import Config.
From S2P Require Import Node.
From S2P Require Import Cluster.
From S2P Require Import Scheduler.
From S2P Require Import Protocol.
From S2P Require Import Task.
From S2P Require Import Runtime.
From S2P Require Import Daemon.
From S2P Require Import Monitor.
From S2P Require Import Control.
From S2P Require Import Launcher.
From S2P Require Import Scenario.

(** ** Commands *)

(** The options of [trainpool daemon]. *)
Record DaemonOptions := mkOptions {
  do_listen : option SocketAddr;
  do_advertise_ip : option Ipv4Addr;
  do_multicast_interface : option Ipv4Addr;
  do_discovery_port : option Z;
  do_no_discovery : bool;
  do_seed : list SocketAddr;
  do_ram_limit_mib : option u64;
  do_data_transport : option string;
  do_enable_disk_spill : bool;
}.
Inductive ConfigCommand := Set_ (key value : string) | Show_.
(** [Command]; the constructors that [Request] also has get an underscore. *)
Inductive Command :=
| DaemonCommand (options : DaemonOptions)
| Nodes
| Status_
| LeaderCommand
| MemoryCommand
| TopologyCommand
| MetricsCommand
| BenchmarkCommand (mib : u64)
| PlanCommand
| ConfigCommand_ (command : ConfigCommand)
| Run (argv : list string)
| External (argv : list string).
(** [Cli]; the data directory is the one whose file the session has. *)
Record Cli := mkCli {
  cli_address : option SocketAddr;
  cli_json : bool;
  cli_command : Command;
}.

(** ** [config set] *)

Definition set_key (key value : string) (c : Config) : Result Config :=
  let f64_value (f : f64 → Config) := f <$> parse_f64 value in
  let u64_value (f : u64 → Config) := f <$> parse_u64 value in
  if bool_decide (key = "ram-fraction") then f64_value (λ x, c <| c_ram_fraction := x |>)
  else if bool_decide (key = "ram-reserve-bytes") then u64_value (λ x, c <| c_ram_reserve_bytes := x |>)
  else if bool_decide (key = "ram-reserve-fraction") then f64_value (λ x, c <| c_ram_reserve_fraction := x |>)
  else if bool_decide (key = "ram-limit-bytes") then u64_value (λ x, c <| c_ram_limit_bytes := Some x |>)
  else if bool_decide (key = "cluster-name") then Ok (c <| c_cluster_name := value |>)
  else if bool_decide (key = "cluster-secret") then Ok (c <| c_cluster_secret := Some value |>)
  else if bool_decide (key = "chunk-bytes") then u64_value (λ x, c <| c_chunk_bytes := x |>)
  else if bool_decide (key = "data-transport") then Ok (c <| c_data_transport := value |>)
  else if bool_decide (key = "udp-payload-bytes") then u64_value (λ x, c <| c_udp_payload_bytes := x |>)
  else if bool_decide (key = "udp-window-packets") then u64_value (λ x, c <| c_udp_window_packets := x |>)
  else if bool_decide (key = "udp-initial-rto-ms") then u64_value (λ x, c <| c_udp_initial_rto_ms := x |>)
  else if bool_decide (key = "udp-pacing-micros") then u64_value (λ x, c <| c_udp_pacing_micros := x |>)
  else if bool_decide (key = "udp-max-retries") then (λ x, c <| c_udp_max_retries := x |>) <$> parse_uint (2 ^ 32 - 1) value
  else if bool_decide (key = "lease-seconds") then u64_value (λ x, c <| c_lease_seconds := x |>)
  else if bool_decide (key = "vram-reserve-bytes") then u64_value (λ x, c <| c_vram_reserve_bytes := x |>)
  else if bool_decide (key = "vram-reserve-fraction") then f64_value (λ x, c <| c_vram_reserve_fraction := x |>)
  else if bool_decide (key = "listen") then (λ a, c <| c_listen := a |>) <$> parse_socket value
  else bail ("unknown configuration key: " +:+ key).

(** ** [daemon] *)

Definition daemon_config (o : DaemonOptions) (c : Config) : Result Config :=
  ensure (negb (do_enable_disk_spill o)) "experimental disk spill: not implemented";;
  let c := match do_listen o with Some a => c <| c_listen := a |> | None => c end in
  let c := match do_advertise_ip o with Some ip => c <| c_advertise_ip := Some ip |> | None => c end in
  let c := match do_multicast_interface o with Some i => c <| c_multicast_interface := i |> | None => c end in
  let c := match do_discovery_port o with Some p => c <| c_discovery_port := p |> | None => c end in
  let c := if do_no_discovery o then c <| c_discovery_enabled := false |> else c in
  let c := c <| c_seeds ::= (.++ do_seed o) |> in
  c ← match do_ram_limit_mib o with
      | Some limit =>
          bytes ← ok_or (checked_mul limit (1024 * 1024)) "RAM limit overflow";
          Ok (c <| c_ram_limit_bytes := Some bytes |>)
      | None => Ok c
      end;
  let c := match do_data_transport o with Some t => c <| c_data_transport := t |> | None => c end in
  validate c;;
  Ok c.

(** ** Requests *)

(** The default address is the one the daemon listens on. *)
Definition daemon_address (cli : Cli) (c : Config) : SocketAddr :=
  match cli_address cli with
  | Some a => a
  | None => if is_unspecified (c_listen c).1 then (V4 (ipv4 127 0 0 1), (c_listen c).2) else c_listen c
  end.
(** The request of a command that asks the daemon. *)
Definition request_of (c : Command) : Result Request :=
  match c with
  | TopologyCommand => Ok GetTopology
  | MetricsCommand => Ok GetMetrics
  | BenchmarkCommand mib => Benchmark <$> ok_or (checked_mul mib (1024 * 1024)) "benchmark size overflow"
  | PlanCommand => Ok (Plan [])
  | Run _ | External _ => Panic
  | _ => Ok Status
  end.

(** ** What is printed *)

(** [format_bytes]. *)
Definition UNITS : list (string * u64) :=
  [("TB", 1000000000000); ("GB", 1000000000); ("MB", 1000000); ("KB", 1000)]%string.
Fixpoint in_units (bytes : u64) (units : list (string * u64)) : string :=
  match units with
  | [] => pretty bytes +:+ " B"
  | (name, divisor) :: units =>
      if divisor <=? bytes
      then format_fixed 2 (f64_div (f64_of_u64 bytes) (f64_of_u64 divisor)) +:+ " " +:+ name
      else in_units bytes units
  end.
Definition format_bytes (bytes : u64) : string := in_units bytes UNITS.
(** [format_sdk_metric]. *)
Definition format_sdk_metric (value age_ms : option u64) : string :=
  match value, age_ms with
  | Some value, Some age =>
      if 5000 <? age then "STALE (age " +:+ format_fixed 2 (f64_div (f64_of_u64 age) (f64_of_u64 1000)) +:+ " s)"
      else format_bytes value +:+ " (age " +:+ pretty age +:+ " ms)"
  | _, _ => "UNKNOWN"
  end.
(** The figures of the tests. *)
Example formats :
  (format_bytes <$> [999; 1000; 1500000; 16659828736; 2500000000000],
   format_sdk_metric None None, format_sdk_metric (Some 0) (Some 12400), format_sdk_metric (Some 0) (Some 320))
  = (["999 B"; "1.00 KB"; "1.50 MB"; "16.66 GB"; "2.50 TB"], "UNKNOWN", "STALE (age 12.40 s)", "0 B (age 320 ms)")%string.
Proof. vm_compute. reflexivity. Qed.

Section Printing.
Context `{UT : !UuidText}.
Definition LINKS_HEADER : string :=
  "SOURCE                               DESTINATION                          LATENCY    BANDWIDTH".
Definition link_line (l : LinkEstimate) : string :=
  uuid_str (source l) +:+ " " +:+ uuid_str (destination l) +:+ " " +:+ right_aligned 8 (format_fixed 2 (latency_ms l))
  +:+ " ms  " +:+ match bytes_per_second l with
                  | Some b => format_fixed 1 (f64_div (f64_mul b (f64_of_u64 8)) (f64_of_u64 1000000)) +:+ " Mbps"
                  | None => "unmeasured (run benchmark)"
                  end.
Definition NODES_HEADER : string := "NODE             ROLE    CPU     RAM         POOL RAM    GPU / PHYSICAL VRAM".
Definition node_lines (leader : option Uuid) (n : NodeCapabilities) : list string :=
  let gpu := match gpus n with
             | [] => "none (RAM provider)"
             | gs => join ", " ((λ g, gpu_model g +:+ " / " +:+ format_bytes (vram_total g)) <$> gs)
             end%string in
  [left_aligned 16 (hostname n) +:+ " "
   +:+ left_aligned 7 (if bool_decide (Some (node_id n) = leader) then "leader" else "peer") +:+ " "
   +:+ right_aligned 3 (pretty (logical_cores (cpu n))) +:+ "c    "
   +:+ left_aligned 11 (format_bytes (physical_ram_total (memory n))) +:+ " "
   +:+ left_aligned 11 (format_bytes (trainpool_ram_available (memory n))) +:+ " " +:+ gpu;
   "  " +:+ uuid_str (node_id n) +:+ "  " +:+ socket_str (control_address (network n))]%string.
Definition labelled (x : string * string) : string := left_aligned 39 x.1 +:+ " " +:+ x.2.
Definition figures (m : LogicalTrainingMemory) : list (string * u64) :=
  [("Cluster physical VRAM (inventory)", lm_cluster_physical_vram m);
   ("GPU driver free (daemon snapshot)", lm_free_vram m);
   ("GPU driver used (daemon snapshot)", saturating_sub (lm_physical_vram m) (lm_free_vram m));
   ("Cluster usable VRAM (inventory)", lm_cluster_usable_vram m);
   ("Primary GPU physical VRAM", lm_primary_gpu_physical_vram m);
   ("Primary GPU usable ceiling", lm_primary_gpu_usable_vram m);
   ("Job backing capacity", lm_current_job_backing_capacity m);
   ("Physical system RAM", lm_physical_ram m);
   ("Pool RAM budget", lm_pool_ram_budget m);
   ("Allocated pool RAM", lm_allocated_ram m);
   ("Currently allocatable pool RAM", lm_pool_ram_allocatable m);
   ("Job remaining logical capacity", lm_logical_training_capacity m)]%string.
Definition local_figures (m : LogicalTrainingMemory) : list (string * u64) :=
  [("Physical RAM local", lm_local_physical_ram m);
   ("OS available RAM local", lm_local_os_available_ram m);
   ("TrainPool local RAM budget", lm_local_pool_ram_budget m);
   ("TrainPool local RAM used", lm_local_pool_ram_used m);
   ("Local RAM safety reserve", lm_local_ram_safety_reserve m);
   ("TrainPool local RAM allocatable now", lm_local_pool_ram_allocatable m);
   ("TrainPool remote RAM used", lm_remote_pool_ram_used m)]%string.
Definition sdk_figures (m : LogicalTrainingMemory) : list (string * option u64) :=
  [("GPU physical VRAM", lm_sdk_physical_vram_bytes m);
   ("GPU driver used", lm_driver_used_vram_bytes m);
   ("GPU driver free", lm_driver_free_vram_bytes m);
   ("PyTorch allocated", lm_torch_allocated_bytes m);
   ("PyTorch reserved", lm_torch_reserved_bytes m);
   ("PyTorch reclaimable", lm_torch_reclaimable_bytes m);
   ("TrainPool resident handles", lm_trainpool_resident_vram_bytes m);
   ("Safe VRAM allocatable now", lm_safe_vram_allocatable_bytes m);
   ("Configured usable VRAM ceiling", lm_configured_usable_vram_ceiling_bytes m);
   ("Configured VRAM safety reserve", lm_configured_vram_safety_reserve_bytes m)]%string.
Definition memory_lines (m : LogicalTrainingMemory) : list string :=
  ((λ x, labelled (x.1, format_bytes x.2)) <$> figures m)
  ++ [""; "LOCAL COMPUTE-NODE RAM"]%string
  ++ ((λ x, labelled (x.1, format_bytes x.2)) <$> local_figures m)
  ++ [""; "PYTORCH SDK CUDA SNAPSHOT"]%string
  ++ ((λ x, labelled (x.1, format_sdk_metric x.2 (lm_sdk_metrics_age_ms m))) <$> sdk_figures m)
  ++ ["Disk spill: DISABLED";
      "Logical capacity combines distinct RAM and VRAM tiers; it is not one CUDA allocation or VRAM-speed memory."]%string.
Definition leader_lines (l : Leadership) : list string :=
  ["Leader: " +:+ match leader_id l with Some id => uuid_str id | None => "none" end;
   "Election score: " +:+ format_bytes (l_election_score l);
   "Reason: highest total physical RAM + physical VRAM; largest UUID breaks ties";
   "Leader epoch: " +:+ uuid_str (leader_epoch l)]%string.
(** The answer to a request for the status, by the command. *)
Definition status_lines (c : Command) (s : ClusterStatus) : list string :=
  (match c with
   | Nodes | Status_ => NODES_HEADER :: mjoin (node_lines (leader_id (cs_leadership s)) <$> cs_nodes s)
   | _ => []
   end)
  ++ (match c with LeaderCommand | Status_ => leader_lines (cs_leadership s) | _ => [] end)
  ++ (match c with MemoryCommand | Status_ => memory_lines (cs_logical_memory s) | _ => [] end).
End Printing.

(** ** [execute] *)

(** What surrounds a command: the environment, the file system, the clock and
    hardware for a daemon, the daemon that is asked, what a launch meets. *)
Record Terminal `{JS : !Json} := mkTerminal {
  te_secret : option string;
  te_cluster : option string;
  te_read : Result unit;
  te_create_dir : Result unit;
  te_write : Result unit;
  te_set_mode : Result unit;
  te_mode : Z;
  te_partial : option (string * Z);
  te_identity : Result Uuid;
  te_startup : Startup;
  te_ending : Ending;
  te_answer : SocketAddr → Request → Result Response;
  te_around : Surroundings;
}.
Arguments mkTerminal {JS}.
Section State.
Context `{BL : !Blake3}.
(** [se_file]: [config.toml] and its permissions; [se_printed]: the lines
    printed; [se_daemon]: the configuration a daemon was started with;
    [se_launch]: the launch, if there was one. *)
Record Session := mkSession {
  se_file : option (string * Z);
  se_printed : list string;
  se_daemon : option (Config * Uuid);
  se_launch : Launch;
}.
#[export] Instance eta_Session : Eta Session := λ r,
  mkSession (se_file r) (se_printed r) (se_daemon r) (se_launch r).
End State.

Section Execute.
Context `{BL : !Blake3, UT : !UuidText, JS : !Json}.
Context (toml_from_str : string → Result Config) (toml_to_string_pretty : Config → string).
Context (json_pretty : Value → string) (te : Terminal).

Definition say (lines : list string) : SM Session unit := modify (λ s, s <| se_printed ::= (.++ lines) |>).
Definition on_file {A} (m : SM (option (string * Z)) A) : SM Session A := act (λ s,
  let (file, r) := m (se_file s) in (s <| se_file := file |>, r)).
Definition on_launch {A} (m : SM Launch A) : SM Session A := act (λ s,
  let (w, r) := m (se_launch s) in (s <| se_launch := w |>, r)).
(** [Config::load] of the file as it is. *)
Definition load_config (file : option (string * Z)) : Result Config :=
  load toml_from_str ((λ x, te_read te;; Ok x.1) <$> file) (te_secret te).
(** [TRAINPOOL_CLUSTER_NAME] comes after. *)
Definition with_cluster (c : Config) : Config :=
  match te_cluster te with Some name => c <| c_cluster_name := name |> | None => c end.
Definition save_config (c : Config) : SM Session unit :=
  on_file (save toml_to_string_pretty (te_create_dir te) (te_write te) (te_set_mode te) (te_mode te) (te_partial te) c).
Definition run_daemon (c : Config) : SM Session unit :=
  id ← lift (te_identity te);
  modify (λ s, s <| se_daemon := Some (c, id) |>);;
  lift (Launcher.daemon (te_startup te) (te_ending te) c id).1.

(** What is printed of an answer. *)
Definition print_answer (cli : Cli) (r : Response) : Result (list string) :=
  if cli_json cli || match cli_command cli with MetricsCommand | PlanCommand => true | _ => false end
  then Ok [json_pretty (r_data r)]
  else match cli_command cli with
       | TopologyCommand | BenchmarkCommand _ =>
           links ← from_value (T := list LinkEstimate) (r_data r);
           Ok (LINKS_HEADER :: (link_line <$> links))
       | c => status_lines c <$> from_value (T := ClusterStatus) (r_data r)
       end.
Definition ask (cli : Cli) (c : Config) : SM Session unit :=
  request ← lift (request_of (cli_command cli));
  r ← lift (te_answer te (daemon_address cli c) request);
  lift (check r);;
  lines ← lift (print_answer cli r);
  say lines.

(** [execute], to the exit code. *)
Definition execute (cli : Cli) : SM Session Z :=
  file ← gets se_file;
  c ← lift (load_config file);
  let c := with_cluster c in
  match cli_command cli with
  | ConfigCommand_ Show_ =>
      say [toml_to_string_pretty (c <| c_cluster_secret ::= fmap (λ _, "<redacted>"%string) |>)];; mret 0
  | ConfigCommand_ (Set_ key value) =>
      c ← lift (set_key key value c);
      save_config c;;
      say ["Configuration saved. Restart the daemon to apply it."]%string;; mret 0
  | DaemonCommand options => c ← lift (daemon_config options c); run_daemon c;; mret 0
  | Run argv | External argv => on_launch (launch (te_around te) argv c (daemon_address cli c))
  | _ => ask cli c;; mret 0
  end.
End Execute.

(** ** The daemon and its client agree *)

Definition asks (c : Command) : bool :=
  match c with DaemonCommand _ | ConfigCommand_ _ | Run _ | External _ => false | _ => true end.

Lemma obeys_any {S A} (t : Task S A) : obeys (λ _, True) (λ _ _, True) (λ _, True) t.
Proof. induction t; constructor; auto. Qed.
Lemma obeys_then {S A B} (t : Task S A) (k : A → Task S B) (Q : Result B → Prop) :
  (∀ e, Q (Err e)) → Q Panic → (∀ a, obeys (λ _, True) (λ _ _, True) Q (k a)) →
  obeys (λ _, True) (λ _ _, True) Q (t ≫= k).
Proof.
  intros He Hp Hk. apply obeys_bind. eapply obeys_mono; [done| |apply obeys_any]. intros [x|e|] _; [apply Hk|done..].
Qed.
(** A task that ends with a value of [T] in a response. *)
Lemma obeys_responds `{BL : !Blake3, JS : !Json} {T} `{!Serde T} (t : Task Daemon T) (Q : Result Response → Prop) :
  (∀ x, Q (Ok (response_data x))) → (∀ e, Q (Err e)) → Q Panic →
  obeys (λ _, True) (λ _ _, True) Q (x ← t; respond_data x).
Proof. intros Hd He Hp. apply obeys_then; [done..|]. intros x. by constructor. Qed.

Section Agreement.
Context `{BL : !Blake3, HM : !Hmac, HX : !Hex, UT : !UuidText, JS : !Json}.
Context `{SL : !SerdeLaws ClusterStatus, LL : !SerdeLaws (list LinkEstimate)}.
Context (toml_from_str : string → Result Config) (toml_to_string_pretty : Config → string).
Context (json_pretty : Value → string) (te : Terminal).

(** A client prints the response. *)
Definition understood (cli : Cli) (r : Response) : Prop :=
  check r = Ok () ∧ is_ok (print_answer json_pretty cli r) = true.

Lemma understood_status cli s :
  match cli_command cli with TopologyCommand | BenchmarkCommand _ => False | _ => True end →
  understood cli (response_data (T := ClusterStatus) s).
Proof.
  intros Hc. split; [done|]. unfold print_answer. destruct (_ || _); [done|].
  assert (from_value (T := ClusterStatus) (r_data (response_data s)) = Ok s) as E by apply from_to_value.
  destruct (cli_command cli); by rewrite ?E.
Qed.
Lemma understood_links cli l :
  match cli_command cli with TopologyCommand | BenchmarkCommand _ => True | _ => False end →
  understood cli (response_data (T := list LinkEstimate) l).
Proof.
  intros Hc. split; [done|]. unfold print_answer. destruct (_ || _); [done|].
  assert (from_value (T := list LinkEstimate) (r_data (response_data l)) = Ok l) as E by apply from_to_value.
  destruct (cli_command cli); by rewrite ?E.
Qed.
Lemma understood_json cli r :
  match cli_command cli with MetricsCommand | PlanCommand => True | _ => False end → r_ok r = true → understood cli r.
Proof.
  intros Hc Hr. split; [unfold check; by rewrite Hr|]. unfold print_answer.
  destruct (cli_command cli); try done; by rewrite orb_true_r.
Qed.

Lemma control_understood new_v4 config self out_of_fuel sample grants cli q :
  asks (cli_command cli) = true → request_of (cli_command cli) = Ok q →
  obeys (λ _, True) (λ _ _, True) (λ x, ∀ r, x = Ok r → understood cli r)
    (control_request new_v4 config self out_of_fuel sample grants q).
Proof.
  intros Ha Hq. destruct (cli_command cli) eqn:Ec; try done;
    try (injection Hq as <-; cbn [control_request]).
  7: { cbn in Hq. destruct (checked_mul mib (1024 * 1024)); [|done]. injection Hq as <-. cbn [control_request].
       apply obeys_responds; [|done..]. intros x r [= <-]. apply understood_links. by rewrite Ec. }
  all: try (apply obeys_responds; [|done..]; intros x r [= <-]; first [apply understood_status|apply understood_links]; by rewrite Ec).
  - apply obeys_then; [done..|]. intros _. apply obeys_atomically. intros s _. split_and!; [done..|].
    intros r [= <-]. apply understood_json; [by rewrite Ec|done].
  - unfold plan_job. do 4 (apply obeys_then; [done..|]; intros ?). constructor.
    intros r [= <-]. apply understood_json; [by rewrite Ec|done].
Qed.

End Agreement.

(** ** The configuration that is written *)

(** The keys of [config set]. *)
Definition KEYS : list string :=
  ["ram-fraction"; "ram-reserve-bytes"; "ram-reserve-fraction"; "ram-limit-bytes"; "cluster-name"; "cluster-secret";
   "chunk-bytes"; "data-transport"; "udp-payload-bytes"; "udp-window-packets"; "udp-initial-rto-ms";
   "udp-pacing-micros"; "udp-max-retries"; "lease-seconds"; "vram-reserve-bytes"; "vram-reserve-fraction"; "listen"]%string.
Lemma fmap_Ok {A B} (f : A → B) r b : f <$> r = Ok b → ∃ a, b = f a ∧ r = Ok a.
Proof. destruct r as [a|e|]; intros [= <-]. by exists a. Qed.
(** A case per key, with what the value parses to. *)
Ltac by_key H :=
  unfold set_key in H; cbv zeta in H;
  repeat (case_bool_decide; [subst; first [apply fmap_Ok in H as (? & -> & _)|injection H as <-]|]); [..|done].
Lemma set_key_known key value c c' : set_key key value c = Ok c' → key ∈ KEYS.
Proof. intros H. by_key H; by apply (bool_decide_unpack _). Qed.
Lemma set_key_secret key value c c' :
  set_key key value c = Ok c' → key ≠ "cluster-secret"%string → c_cluster_secret c' = c_cluster_secret c.
Proof. intros H Hk. by_key H; done. Qed.

Section Writing.
Context `{BL : !Blake3, UT : !UuidText, JS : !Json}.
Context (toml_from_str : string → Result Config) (toml_to_string_pretty : Config → string).
Context (json_pretty : Value → string) (te : Terminal).
Abbreviation run cli s := (execute toml_from_str toml_to_string_pretty json_pretty te cli s).

(** What a command makes of the configuration it finds. *)
Definition new_config (key value : string) (s : Session) : Result Config :=
  c ← load_config toml_from_str te (se_file s);
  c ← set_key key value (with_cluster te c);
  validate c;;
  Ok c.
Lemma load_secret file secret c : load toml_from_str file (Some secret) = Ok c → c_cluster_secret c = Some secret.
Proof. unfold load. intros H. apply bind_Ok in H as (c0 & _ & H). by apply bind_Ok in H as ([] & _ & [= <-]). Qed.


(** The variables of the environment are found, too: a secret that is only set
    in [TRAINPOOL_CLUSTER_SECRET] is written to the file by a change of any
    other key. *)
Theorem environment_secret_saved key value s secret c :
  te_secret te = Some secret → key ≠ "cluster-secret"%string → new_config key value s = Ok c →
  c_cluster_secret c = Some secret.
Proof.
  intros Hs Hk H. unfold new_config in H. apply bind_Ok in H as (c0 & Hl & H). apply bind_Ok in H as (c1 & Hset & H).
  apply bind_Ok in H as ([] & _ & [= <-]). rewrite (set_key_secret _ _ _ _ Hset Hk).
  unfold load_config in Hl. rewrite Hs in Hl. apply load_secret in Hl. unfold with_cluster. by destruct (te_cluster te).
Qed.

(** ** The daemon *)

(** A daemon is started with a valid configuration, that of the file but for
    the options given. *)
Theorem daemon_config_spec o c c' :
  daemon_config o c = Ok c' →
  valid c' ∧ do_enable_disk_spill o = false
  ∧ c_listen c' = default (c_listen c) (do_listen o)
  ∧ c_discovery_enabled c' = c_discovery_enabled c && negb (do_no_discovery o)
  ∧ c_seeds c' = c_seeds c ++ do_seed o
  ∧ c_data_transport c' = default (c_data_transport c) (do_data_transport o)
  ∧ c_ram_limit_bytes c' = match do_ram_limit_mib o with Some mib => Some (mib * MIB) | None => c_ram_limit_bytes c end
  ∧ c_cluster_secret c' = c_cluster_secret c ∧ c_cluster_name c' = c_cluster_name c.
Proof.
  unfold daemon_config. intros (Hs & H)%ensure_then. apply negb_true_iff in Hs. cbv zeta in H.
  apply bind_Ok in H as (c1 & H1 & H). apply bind_Ok in H as ([] & Hv & [= <-]). 
  split; [by apply validate_Ok_valid|]. split; [done|]. clear Hv.
  destruct (do_ram_limit_mib o) as [mib|].
  - apply bind_Ok in H1 as (b & Hb & [= <-]). unfold checked_mul in Hb. 
    destruct (_ <=? _); [|done]. injection Hb as <-.
    repeat case_match; subst; cbn; rewrite ?andb_true_r, ?andb_false_r; done.
  - injection H1 as <-. repeat case_match; subst; cbn; rewrite ?andb_true_r, ?andb_false_r; done.
Qed.
End Writing.

(** ** [trainpool status], and a key set twice *)
Import Toy.
Module Terminals.
Import Scenario.
#[export] Instance status_laws : SerdeLaws ClusterStatus.
Proof. by split. Qed.
#[export] Instance links_laws : SerdeLaws (list LinkEstimate).
Proof. by split. Qed.
(** A terminal whose daemon answers [r]; a file with the text of [c]. *)
Definition terminal (r : Result Response) : Terminal :=
  mkTerminal (Some "env") None (Ok ()) (Ok ()) (Ok ()) (Ok ()) 420 None (Ok 5) Training.startup
    (Interrupted (Ok ())) (λ _ _, r) Training.around.
Definition from_str (s : string) : Result Config :=
  if bool_decide (s = "tcp") then Ok (default_config <| c_data_transport := "tcp"%string |>) else Ok default_config.
Definition session : Session := mkSession (Some ("udp", 384)%string) [] None Training.nothing.
Definition status_command : Cli := mkCli None false Status_.
Definition set_command : Cli := mkCli None false (ConfigCommand_ (Set_ "data-transport" "tcp")).
Definition handled := run_alone (control_request new_v4 Scenario.config 1 stuck sample grants Status) Scenario.daemon.
Definition execution te cli := execute from_str (λ c, c_data_transport c) (λ _, "json"%string) te cli session.
End Terminals.
Import Terminals.


